(* ===== verification/_CoqProject ===== *)
-Q . S2P
Prelude.v
Codec.v
CtPrim.v
MerkleDamgard.v
HashClass.v
Sha2.v
Sha1.v
Hmac.v
Fips197.v
Intrinsics.v
Aes.v
BlockClass.v
AesCtr.v
Sp800_38d.v
Ghash.v
Gcm.v
Curve25519.v
SgxsdCrypto.v
Threads.v
Sgxsd.v
SgxsdSafety.v
SgxsdSystem.v
SgxsdProtocol.v
SgxsdEntry.v
Edge.v
EdgeSafety.v
EdgeHost.v
Service.v
SgxsdFfi.v
Avx.v
HashLookup.v
HashAes.v
HashTable.v
CdsLookup.v
Cds.v
CdsSafety.v
CdsSpec.v
Client.v
ClientSpec.v
JniEnclave.v
Java.v
Users.v
Auth.v
HostRanges.v
RequestQueue.v
RequestQueueSpec.v
RequestBatch.v
RequestBatchSpec.v
Intake.v
JniIo.v
DirectoryMap.v
DirectoryTable.v
DirectoryGrowth.v
DirectorySpec.v
DirectoryStream.v
DirectoryService.v
DirectoryManager.v
DirectoryUsers.v
ClientService.v
SgxsdDemo.v
EdgeDemo.v
CdsDemo.v
DirectoryDemo.v
ClientDemo.v
ServiceDemo.v
