(* ===== verification/Prelude.v ===== *)
(** * Verification of the contact discovery service

    The heart of the program is an enclave: it agrees on keys with clients, takes their queries for
    phones in batches, looks the phones up in the directory that the host keeps, with a hash table
    whose accesses do not depend on the query, and encrypts the replies. The untrusted host only
    sees ciphertext. The sources of the enclave are under src/enclave: the protocol and the
    cryptography are C, the server they call back is Rust. The host is a Java service under
    src/service, which admits and queues the requests of clients, hands them to the enclave in
    batches through the Rust library src/service/src/main/jni/cds_jni, and keeps the directory in
    step with the users in Redis. The client is the Rust library src/client/cds_client.

    ** Parts of the program and files of the development

    - BearSSL primitives (c_src/bearssl): [Codec] and [CtPrim] (inner.h, codec/), [HashClass]
      (the hash interface of bearssl_hash.h), [MerkleDamgard] (what SHA-1 and SHA-2 share),
      [Sha2] (hash/sha2small.c), [Sha1] (hash/sha1.c), [Hmac] (mac/hmac.c), [Aes]
      (symcipher/aes_x86ni.c), [BlockClass] and [AesCtr] (bearssl_block.h,
      symcipher/aes_x86ni_ctr.c), [Ghash] (hash/ghash_pclmul.c), [Gcm] (aead/gcm.c).
      [Intrinsics] gives the x86 vector instructions they use; [Fips197] and [Sp800_38d] are
      the standards they are proved against (FIPS 180-4 and RFC 2104 are in [Sha2], [Sha1] and
      [Hmac]).
    - [Curve25519]: c_src/curve25519-donna-c64.c, proved against the ladder of RFC 7748.
    - [SgxsdCrypto]: the cryptographic helpers of c_src/sgxsd-enclave.c, composed from the above;
      the type class [Aead] is what the protocol relies on.
    - [Sgxsd]: the rest of c_src/sgxsd-enclave.c. The static variables are the record [enclave];
      each entry point is a program of [Threads] over it, whose steps are indivisible actions and
      operations on the spin locks. [SgxsdSafety], [SgxsdSystem], [SgxsdProtocol] and
      [SgxsdEntry] hold its theorems, [SgxsdDemo] a concrete platform and server.
    - [Edge]: include/cds_enclave_t.c, the routines that check and copy what crosses into the
      enclave, and the call out of it; [EdgeHost]: include/cds_enclave_u.c, the host's side.
      [EdgeSafety] and [EdgeHost] hold the theorems, [EdgeDemo] a concrete host.
    - [Service] and [SgxsdFfi]: the Rust side's view of the C part (sgx_ffi/src/untrusted_slice.rs,
      sgxsd_ffi/src/lib.rs and ecalls.rs): programs with [Result] and [?], slices of the host's
      memory, keys and hash contexts, and the trait [SgxsdServer] as a type class.
    - [HashLookup]: cds_enclave/c_src/cds-enclave-hash.rs on the vector instructions of [Avx],
      proved in [HashAes] (the hash is AES-128) and [HashTable] (the table is a lookup in an
      association list); [CdsLookup] is its outer half and cds_enclave/src/ffi/hash_lookup.rs.
    - [Cds]: cds_enclave/src/service/main.rs and the callbacks in cds_enclave/src/lib.rs.
      [CdsSafety] shows that it is a server as [Sgxsd] needs one, [CdsSpec] what it does from end
      to end, [CdsDemo] a concrete directory and query.

    - [JniIo] and [DirectoryMap]: src/directory_map_native/io.rs, internal_buffers.rs and
      directory_map_native.rs of that library, two hash tables with linear probing of which one is
      built and one is served, and the arguments that sgx_enclave.rs makes of them when it stops a
      server. [DirectoryTable] proves the table, [DirectoryGrowth] how it grows, [DirectorySpec]
      that it is a pair of finite maps, [DirectoryStream] what it is on a stream,
      [DirectoryService] what the enclave finds in it; [DirectoryDemo] is a concrete one.
    - [Client]: src/client/cds_client/src/lib.rs, and the negotiation of cds_api_client; [ClientSpec]
      proves it against the standards. [JniEnclave]: what sgx_enclave.rs of cds_jni makes of the
      arrays of Java objects and back. [ClientService] puts client, library, enclave and directory
      together; [ClientDemo] is a concrete exchange.
    - [Java]: the integers, exceptions and control flow of the Java service, the files below
      src/service/src/main/java/org/whispersystems/contactdiscovery.
    - [RequestQueue]: requests/PendingRequestQueue.java and PendingRequestQueueSet.java, proved in
      [RequestQueueSpec]. [RequestBatch]: SgxsdBatch of enclave/SgxEnclave.java and processBatch of
      requests/RequestManager.java, proved in [RequestBatchSpec]. [Intake]: getRegisteredContacts of
      resources/ContactDiscoveryResource.java, with limits/LeakyBucket.java and RateLimiter.java,
      discoveryAllowed of phonelimiter/RateLimitServiceClient.java and submit of RequestManager.java.
    - [Auth]: auth/AuthorizationTokenVerifier.java and UserAuthenticator.java. [HostRanges]:
      phonelimiter/PhoneLimiterPartitioner.java and RateLimitServicePartitioner.java.
    - [Users]: how users are written (directory/DirectoryCache.java). [DirectoryManager]: the rest of
      that file and directory/DirectoryManager.java; the record [node] is a node of the service with
      its view of Redis and its directory, of which it sees the maps of [DirectorySpec] (the
      refinement is [directory_refines], under its conditions).
      [DirectoryUsers] holds its theorems. [ServiceDemo] has concrete instances for the Java part.

    [Prelude] has the machine integers, the byte buffers and the tactics they share.

    ** How code is modelled

    A [w]-bit integer is a [Z] with the wrap-around written out ([wrap], [u32], [u64]); a byte
    buffer is a [list Z]; a pointer that may be NULL is an option. Local variables that the code
    leaves uninitialised are arguments, so that a theorem holds for whatever they contain.
    Undefined behaviour -- an access outside an object or through NULL -- is a result of its own
    ([None], [Undefined] or [Wrong]). A function that writes through a pointer returns the new
    contents. Functions behind vtables are fields of records ([br_hash_class],
    [br_block_ctr_class]), with the class of what users rely on beside them ([HashImpl],
    [CtrImpl]).

    Two executions of an entry point are defined in [Threads]: [run] executes it alone;
    [pool_step] interleaves any number of them, and [reachable] is its closure.

    What is not in the repository is an argument: [platform] (sgx_read_rand, sgx_create_report,
    sgx_is_outside_enclave, calloc, the call to the host) and [sdk] (the same with malloc,
    sgx_ocalloc and sgx_ocall), and the instruction rdrand. [platform_ok] and [sdk_ok] say that
    random numbers fill the buffer they are asked for and that sgx_is_outside_enclave accepts only
    memory outside. Each has a concrete instance in [SgxsdDemo] or [EdgeDemo].

    The C part is verified for any server: [server] is the record of its callbacks, [ServerState]
    and [ServerArgs] are classes of the states and arguments it accepts, and [server_ok] says
    that it behaves on those; [cds_server] is the service, [cds_server_ok] its proof. The Rust
    side sees the host's memory ([HostMemory]) through [read_host] and [write_host], which are
    undefined on the enclave's own memory; a panic is undefined too.

    In the directory a panic is [None], and a call of it [Panics] and poisons the lock it holds.
    Load factors are numbers of [SpecFloat], with the rounding of each operation. The streams of
    the Java side are arguments; [input_stream] and [output_stream] say what their documentation
    promises, and [DirectoryDemo] has an instance of each. The release build that the Makefile makes
    wraps the counts.

    The client is linked with crates: the class [Crates] has their functions, [CratesLaws] what they
    document (AES-256-GCM, SHA-256, HKDF, X25519), and [agreeing] that the two sides of a
    Diffie-Hellman exchange agree. Java code that throws and changes state is a function of the
    monad [Java.M]; a future is a number whose outcome is in a map, and operations that the service
    synchronizes happen one after another. What the batches need of the enclave and the native
    methods is the class [Natives], and [Serves] says that they serve; [batch_settles] needs nothing
    of the kind. Redis is the class [Jedis], and [JedisLaws] says what its commands document; the
    order in which a set is iterated is an argument that has to be a permutation. The hexadecimal
    codecs and the hash of the libraries are arguments of [Auth] and [HostRanges]. Doubles are
    numbers of [SpecFloat] as above; a string is the bytes it is encoded in.

    ** What the theorems show

    - Primitives: each routine equals its standard on all inputs within the documented bounds
      ([sha2_streaming], [sha1_correct], [hmac_is_rfc2104], [keysched_is_fips197],
      [aes_ctr_is_sp800_38a], [ghash_is_sp800_38d], [gcm_is_sp800_38d], [curve25519_is_ladder]),
      for every way of cutting the input into chunks; limbs of the curve arithmetic stay within
      the bounds the products need ([fmul_bounds]).
    - Helpers: one-shot AES-GCM refuses a wrong tag and then leaves no plaintext
      ([aes_gcm_oneshot]); HKDF rounds are RFC 5869 ([hkdf_is_rfc5869]).
    - Every interleaving: no memory error ([enclave_memory_safe]), also when the host passes
      arbitrary structures and changes them meanwhile ([enclave_withstands_host]); no deadlock
      and no endless run ([enclave_completes]); initialisation takes effect once
      ([enclave_initialised_once]).
    - The protocol: the key exchange, the message and the reply fit together
      ([negotiate_then_call], [server_reply_spec]); a request id is good for one call
      ([pending_request_single_use]); the table of requests is a ring ([add_pending_ring],
      [pending_table_capacity]); each entry point on every branch ([server_call_spec],
      [node_init_spec], [report_key_rotation], [server_start_spec], [server_stop_spec],
      [uninitialised_refused]).
    - The bridge: calls and replies cross it unchanged ([server_call_crosses_boundary],
      [reply_crosses_boundary]).
    - The service: a query in order is answered with what the directory says
      ([contact_discovery], from [query_call_spec] and [batch_answered]); in no case is a client
      told anything else than the entry or zeros, and a batch comes to its end
      ([batch_never_wrong]); its state stays well-formed ([batch_well_formed]); slices of the
      host's memory never reach the enclave ([untrusted_slice_confined]); no host and no client
      leads it to undefined behaviour by the calls it may make ([service_withstands_host]).
      [hash_is_aes] and [fingerprint_spec] are its hash and its rate limit fingerprint.
    - The directory: inserts, removals and commits are those of finite maps ([directory_refines]);
      what is written to a stream is read back ([directory_roundtrip]); a client is sent the UUIDs
      that the host committed ([directory_discovery]).
    - The client: with the negotiation, the library, the enclave and the directory it gets the UUIDs
      of its numbers ([client_discovery]); it takes nothing for a reply that was not sealed under the
      key it negotiated ([reply_authentic]).
    - The requests: a user gets in by a token of the main service only ([authenticates]) and is
      looked up in one range of hosts ([lookup_finds_range]); a request is queued when it passes every
      limit ([queued_when_admitted]); no request is lost, repeated or overtaken in the queues
      ([requests_in_order]), and a batch is the front of a queue that is chosen fairly
      ([get_takes_batch]); the response of each request of a batch is completed whatever happens
      ([batch_settles]), and with its own reply when the enclave serves ([batch_answers_each]).
    - The users: members of the set are read back and ordered by UUID ([user_roundtrip]); a chunk of
      users that is reconciled is what the set, the node and, by messages, the other nodes have then
      ([reconcile_installs_chunk], from [addUser_keeps_up] and [removeUser_keeps_up]; likewise
      [existsReconcile_keeps_up] and [deletesReconcile_keeps_up]); a set that is marked as built was
      sent whole ([built_set_was_sent]); a rebuild serves the set ([rebuild_serves_users]).
    - What the code does not intend: [number_zero_stops_nodes], [late_removal_loses_user],
      [unbuilt_set_stays], [limiter_failure_unanswered]; [update_not_published],
      [small_table_panics], [malformed_read_accepted]; [server_stop_breaks_exclusion] and what follows from it,
      [stop_takes_state_from_call]; [crowded_slot_loses_phone], [null_directory_reads_enclave],
      [reply_header_leaks_stack], [size_check_is_bypassed], [negotiate_failure_leaves_key],
      [ratelimit_bridge_undefined]. For these reasons [service_withstands_host] leaves out the
      calls that stop a server and that ask for a fingerprint, and [batch_answered] asks for
      twelve phones at most in a slot.

    ** Bounds

    Loops are structural on the data or run on a count computed from it, with no fuel left to
    choose; the loops that draw a key give up after 10 and 128 attempts, as in the code. The loops
    over the slots of a table of the directory have as many rounds as there are slots, which is when
    they come back to where they started. The loops that fill a buffer from a stream have fuel,
    because a stream may return nothing for ever; [directory_roundtrip] has one round for each byte,
    which is enough for streams that return at least one. The scan of the users in Redis has fuel
    for its pages, because the cursor may never come back to 0; [rebuild_serves_users] and
    [number_zero_stops_nodes] hold for all fuel from the number of pages on that [JedisLaws] says a
    scan has. The theorems on hashing and GCM have no
    bound on the length of the data: the length field that closes a computation is written modulo
    2^64 on both sides. The order of the request table is a byte, as in the code.
    [directory_refines] asks that a full table grows and that what it asks for can be allocated;
    [three_quarters_grow] and [three_quarters_fit] prove it for a load factor of 0.75, from three
    slots up to 2^50 elements.

    ** Not modelled

    - Timing and caches, and stack clearing (sgxsd_br_clear_stack): the model has no such state.
    - free, and fences: no effect on any value.
    - Of the Rust side: which addresses the lookup touches, failure of allocation, the erasure of
      memory when a value is dropped, the parts of the FFI the enclave does not use, and generated
      bindings. The C header and lib.rs disagree on how the arguments of
      sgxsd_enclave_create_ratelimit_fingerprint are passed; the model takes them as received.
    - Of the Java service: attestation and the handshake with Intel's service, building a directory
      from a peer and snapshots, the queue of Amazon, resources that only pass a call on, the test
      resource, configuration, metrics and start-up; its threads, of which only the order of the
      synchronized operations matters here; that a bucket in Redis expires.
    - Of the client, what sends requests over HTTP; of the JNI library, exceptions that the JVM itself
      raises, attestation and the callback that completes a future, and the host side of the
      enclave in Rust (src/enclave-ffi-rust), which passes calls on to the bridge and the SDK.
    - cttk.h, the BearSSL headers of functions the enclave does not use, the SDK stub, the unit
      tests and their framework. *)
From Stdlib Require Import ZArith List Lia Bool Btauto ZifyNat.
Export ListNotations.
#[export] Set Default Goal Selector "!".

Declare Scope cword_scope.
Delimit Scope cword_scope with cword.

(** * Machine integers

    A [w]-bit unsigned integer is a [Z] in [[0, 2^w)]; every C operation that can
    leave the range is followed by an explicit [wrap]. *)

Open Scope Z_scope.

(** [lia] with division and remainder by constants, on [Z] and [nat]. *)
Ltac dlia := zify; Z.to_euclidean_division_equations; lia.

Definition wrap (w x : Z) : Z := x mod 2 ^ w.

Abbreviation u8 := (wrap 8) (only parsing).
Abbreviation u32 := (wrap 32) (only parsing).
Abbreviation u64 := (wrap 64) (only parsing).
Abbreviation u128 := (wrap 128) (only parsing).

(** The conversion of an unsigned [w]-bit value to the signed type of the same width. *)
Definition sint (w u : Z) : Z := if u <? 2 ^ (w - 1) then u else u - 2 ^ w.

Notation "x .& y" := (Z.land x y) (at level 40, left associativity) : cword_scope.
Notation "x .| y" := (Z.lor x y) (at level 46, left associativity) : cword_scope.
Notation "x .^ y" := (Z.lxor x y) (at level 43, left associativity) : cword_scope.
Notation "x << n" := (Z.shiftl x n) (at level 32, left associativity) : cword_scope.
Notation "x >> n" := (Z.shiftr x n) (at level 32, left associativity) : cword_scope.
Open Scope cword_scope.

Definition in_range (w x : Z) : Prop := 0 <= x < 2 ^ w.

(** A byte string: what a C [uint8_t] buffer holds. *)
Definition bytes_ok (l : list Z) : Prop := Forall (in_range 8) l.

Definition words_ok (w : Z) (l : list Z) : Prop := Forall (in_range w) l.

(** Boolean versions, so that witnesses can evaluate them. *)
Definition in_rangeb (w x : Z) : bool := (0 <=? x) && (x <? 2 ^ w).

Lemma in_rangeb_spec w x : in_rangeb w x = true <-> in_range w x.
Proof. unfold in_rangeb, in_range. rewrite andb_true_iff, Z.leb_le, Z.ltb_lt. tauto. Qed.

Lemma words_ok_forallb w l : forallb (in_rangeb w) l = true -> words_ok w l.
Proof.
  intros H. apply Forall_forall. intros x Hx.
  apply in_rangeb_spec. now apply (proj1 (forallb_forall _ _) H).
Qed.

Lemma Forall_words_forallb w ls :
  forallb (forallb (in_rangeb w)) ls = true -> Forall (words_ok w) ls.
Proof.
  intros H. apply Forall_forall. intros x Hx.
  apply words_ok_forallb. now apply (proj1 (forallb_forall _ _) H).
Qed.

Create HintDb word.

Lemma pow2_pos w : 0 <= w -> 0 < 2 ^ w.
Proof. intros. now apply Z.pow_pos_nonneg. Qed.

Lemma wrap_range w x : 0 <= w -> in_range w (wrap w x).
Proof. intros. apply Z.mod_pos_bound. now apply pow2_pos. Qed.

Lemma wrap_small w x : in_range w x -> wrap w x = x.
Proof. intros. now apply Z.mod_small. Qed.

Lemma wrap_wrap w x : wrap w (wrap w x) = wrap w x.
Proof. apply Z.mod_mod_divide, Z.divide_refl. Qed.

Lemma wrap_add_l w x y : wrap w (wrap w x + y) = wrap w (x + y).
Proof. apply Zplus_mod_idemp_l. Qed.

Lemma wrap_add_r w x y : wrap w (x + wrap w y) = wrap w (x + y).
Proof. apply Zplus_mod_idemp_r. Qed.

Lemma wrap_mul_l w x y : wrap w (wrap w x * y) = wrap w (x * y).
Proof. apply Zmult_mod_idemp_l. Qed.

Lemma wrap_mul_r w x y : wrap w (x * wrap w y) = wrap w (x * y).
Proof. apply Zmult_mod_idemp_r. Qed.

Lemma wrap_sub_l w x y : wrap w (wrap w x - y) = wrap w (x - y).
Proof. apply Zminus_mod_idemp_l. Qed.

Lemma wrap_sub_r w x y : wrap w (x - wrap w y) = wrap w (x - y).
Proof. apply Zminus_mod_idemp_r. Qed.

Create Rewrite HintDb wrapdb.
#[export] Hint Rewrite wrap_wrap wrap_add_l wrap_add_r wrap_mul_l wrap_mul_r
  wrap_sub_l wrap_sub_r : wrapdb.

(** ** Bits *)

Lemma testbit_wrap w x i : 0 <= w -> Z.testbit (wrap w x) i = (i <? w) && Z.testbit x i.
Proof.
  intros Hw. unfold wrap. destruct (Z.ltb_spec i w).
  - destruct (Z_lt_le_dec i 0).
    + now rewrite !Z.testbit_neg_r.
    + rewrite Z.mod_pow2_bits_low by lia. reflexivity.
  - rewrite Z.mod_pow2_bits_high by lia. reflexivity.
Qed.

Lemma testbit_above w x i : in_range w x -> 0 <= w <= i -> Z.testbit x i = false.
Proof.
  intros Hx Hi. rewrite <- (wrap_small w x Hx), testbit_wrap by lia.
  destruct (Z.ltb_spec i w); [lia | reflexivity].
Qed.

Lemma range_of_bits w x :
  0 <= w -> 0 <= x -> (forall i, w <= i -> Z.testbit x i = false) -> in_range w x.
Proof.
  intros Hw Hx Hb. rewrite <- (Z.mod_small x (2 ^ w)); [now apply wrap_range|].
  split; [assumption|].
  destruct (Z.eq_dec x 0) as [->|]; [now apply pow2_pos|].
  apply Z.log2_lt_pow2; [lia|]. apply Z.nle_gt. intros Hle.
  specialize (Hb _ Hle). rewrite Z.bit_log2 in Hb by lia. discriminate.
Qed.

Lemma land_range w x y : 0 <= w -> in_range w x -> 0 <= y -> in_range w (x .& y).
Proof.
  intros Hw Hx Hy. apply range_of_bits; [assumption|apply Z.land_nonneg; left; apply Hx|].
  intros i Hi. rewrite Z.land_spec, (testbit_above w x) by (assumption || lia). reflexivity.
Qed.

Lemma land_range2 w x y : 0 <= w -> in_range w x -> in_range w y -> in_range w (x .& y).
Proof. intros Hw Hx Hy. apply land_range; [assumption..|apply Hy]. Qed.

Lemma lor_range w x y : 0 <= w -> in_range w x -> in_range w y -> in_range w (x .| y).
Proof.
  intros Hw Hx Hy. apply range_of_bits; [assumption|apply Z.lor_nonneg; split; [apply Hx|apply Hy]|].
  intros i Hi. rewrite Z.lor_spec, !(testbit_above w) by (assumption || lia). reflexivity.
Qed.

Lemma lxor_range w x y : 0 <= w -> in_range w x -> in_range w y -> in_range w (x .^ y).
Proof.
  intros Hw Hx Hy. apply range_of_bits; [assumption|apply Z.lxor_nonneg; split; intros; [apply Hy|apply Hx]|].
  intros i Hi. rewrite Z.lxor_spec, !(testbit_above w) by (assumption || lia). reflexivity.
Qed.

Lemma shiftr_range w x n : 0 <= w -> 0 <= n -> in_range w x -> in_range w (x >> n).
Proof.
  intros Hw Hn Hx. apply range_of_bits; [assumption|apply Z.shiftr_nonneg, Hx|].
  intros i Hi. rewrite Z.shiftr_spec by lia. apply (testbit_above w); [assumption|lia].
Qed.

Lemma range_weaken w w' x : 0 <= w <= w' -> in_range w x -> in_range w' x.
Proof. intros Hw Hx. pose proof (Z.pow_le_mono_r 2 w w'). unfold in_range in *. lia. Qed.

Lemma range_0 w : 0 <= w -> in_range w 0.
Proof. intros. split; [lia|now apply pow2_pos]. Qed.

#[export] Hint Resolve range_0 wrap_range land_range2 lor_range lxor_range shiftr_range : word.
#[export] Hint Extern 1 (0 <= _) => lia : word.

Lemma testbit_shiftl x n i : Z.testbit (x << n) i = negb (i <? 0) && Z.testbit x (i - n).
Proof.
  destruct (Z.ltb_spec i 0); cbn; [now rewrite Z.testbit_neg_r|now apply Z.shiftl_spec].
Qed.

Lemma testbit_shiftr x n i : Z.testbit (x >> n) i = negb (i <? 0) && Z.testbit x (i + n).
Proof.
  destruct (Z.ltb_spec i 0); cbn; [now rewrite Z.testbit_neg_r|now apply Z.shiftr_spec].
Qed.

Lemma testbit_lnot x i : Z.testbit (Z.lnot x) i = negb (i <? 0) && negb (Z.testbit x i).
Proof.
  destruct (Z.ltb_spec i 0); cbn; [now rewrite Z.testbit_neg_r|now apply Z.lnot_spec].
Qed.

Lemma testbit_ones n i : 0 <= n -> Z.testbit (Z.ones n) i = negb (i <? 0) && (i <? n).
Proof.
  intros. destruct (Z.ltb_spec i 0); cbn; [now rewrite Z.testbit_neg_r|].
  now apply Z.testbit_ones_nonneg.
Qed.

Create Rewrite HintDb zbits.
#[export] Hint Rewrite Z.lor_spec Z.land_spec Z.lxor_spec Z.ldiff_spec Z.testbit_0_l : zbits.
#[export] Hint Rewrite testbit_shiftl testbit_shiftr testbit_lnot : zbits.
#[export] Hint Rewrite testbit_wrap testbit_ones using lia : zbits.

(** [zbits] proves an equation of bit vectors bit by bit: it pushes [Z.testbit] through
    the operations, splits the index comparisons, uses the declared ranges to erase the
    bits above them, and closes the rest as a Boolean tautology. *)
Ltac zbits_split :=
  repeat match goal with
    | |- context [?a <? ?b] => destruct (Z.ltb_spec a b); try (exfalso; lia); cbn [andb orb xorb negb]
    end.

Ltac zbits_idx :=
  repeat match goal with
    | |- context [Z.testbit ?x ?i] =>
        first [ rewrite (Z.testbit_neg_r x i) by lia
              | match goal with H : in_range ?w x |- _ =>
                  rewrite (testbit_above w x i H) by lia end ]
    end.

Ltac zbits_same :=
  repeat match goal with
    | |- context [Z.testbit _ ?i] =>
        assert_fails (is_var i);
        let l := fresh "l" in let E := fresh "E" in remember i as l eqn:E
    end;
  repeat match goal with
    | |- context [Z.testbit ?x ?i] =>
        match goal with |- context [Z.testbit x ?j] =>
          assert_fails (constr_eq i j); replace j with i by lia end
    end.

Ltac zbits_core :=
  autorewrite with zbits; zbits_split; zbits_idx; zbits_same; try reflexivity; try btauto.

Ltac zbits := apply Z.bits_inj'; intros ?i ?Hi; zbits_core.

(** The most significant bit of a [w]-bit word. *)
Lemma testbit_top w x : 0 < w -> in_range w x -> Z.testbit x (w - 1) = (2 ^ (w - 1) <=? x).
Proof.
  intros Hw Hx. assert (E : 2 ^ w = 2 * 2 ^ (w - 1)).
  { rewrite <- Z.pow_succ_r by lia. f_equal. lia. }
  unfold in_range in Hx. pose proof (pow2_pos (w - 1) ltac:(lia)) as Hp.
  rewrite Z.testbit_odd, Z.shiftr_div_pow2 by lia.
  destruct (Z.leb_spec (2 ^ (w - 1)) x).
  - replace (x / 2 ^ (w - 1)) with 1; [reflexivity|].
    apply (Z.div_unique _ _ _ (x - 2 ^ (w - 1))); lia.
  - rewrite Z.div_small by lia. reflexivity.
Qed.

Lemma shiftr_top w x : 0 < w -> in_range w x ->
  x >> (w - 1) = Z.b2z (2 ^ (w - 1) <=? x).
Proof.
  intros Hw Hx. assert (E : 2 ^ w = 2 * 2 ^ (w - 1)).
  { rewrite <- Z.pow_succ_r by lia. f_equal. lia. }
  unfold in_range in Hx. pose proof (pow2_pos (w - 1) ltac:(lia)) as Hp.
  rewrite Z.shiftr_div_pow2 by lia. destruct (Z.leb_spec (2 ^ (w - 1)) x); cbn.
  - symmetry. apply (Z.div_unique _ _ _ (x - 2 ^ (w - 1))); lia.
  - apply Z.div_small. lia.
Qed.

Lemma sint_range w u : 0 < w -> in_range w u -> - 2 ^ (w - 1) <= sint w u < 2 ^ (w - 1).
Proof.
  intros Hw Hu. assert (E : 2 ^ w = 2 * 2 ^ (w - 1)).
  { rewrite <- Z.pow_succ_r by lia. f_equal. lia. }
  unfold sint, in_range in *. destruct (Z.ltb_spec u (2 ^ (w - 1))); lia.
Qed.

Lemma wrap_sint w u : 0 < w -> in_range w u -> wrap w (sint w u) = u.
Proof.
  intros Hw Hu. unfold sint. destruct (u <? 2 ^ (w - 1)).
  - now apply wrap_small.
  - unfold wrap. rewrite <- (Z_mod_plus_full (u - 2 ^ w) 1 (2 ^ w)).
    replace (u - 2 ^ w + 1 * 2 ^ w) with u by lia. now apply Z.mod_small.
Qed.

(** * Byte strings and buffers *)

Lemma Forall_firstn {A} (P : A -> Prop) n l : Forall P l -> Forall P (firstn n l).
Proof. rewrite <- (firstn_skipn n l) at 1. rewrite Forall_app. tauto. Qed.

Lemma Forall_skipn {A} (P : A -> Prop) n l : Forall P l -> Forall P (skipn n l).
Proof. rewrite <- (firstn_skipn n l) at 1. rewrite Forall_app. tauto. Qed.

Lemma Forall_repeat {A} (P : A -> Prop) x n : P x -> Forall P (repeat x n).
Proof. intros. induction n; cbn; constructor; assumption. Qed.

Lemma firstn_repeat {A} (x : A) n m : firstn n (repeat x m) = repeat x (Nat.min n m).
Proof. revert m. induction n; intros [|m]; cbn; auto. f_equal. auto. Qed.

(** Two folds that keep a relation between their accumulators. *)
Lemma fold_left_rel {A B K L} (R : A -> B -> Prop) (S : K -> L -> Prop) f g ks ls :
  (forall a b k l, R a b -> S k l -> R (f a k) (g b l)) -> Forall2 S ks ls ->
  forall a b, R a b -> R (fold_left f ks a) (fold_left g ls b).
Proof. intros H F. induction F; cbn; auto. Qed.

Lemma fold_left_inv {A K} (P : A -> Prop) (f : A -> K -> A) l :
  (forall a k, P a -> P (f a k)) -> forall a, P a -> P (fold_left f l a).
Proof. intros H. induction l; cbn; auto. Qed.

Lemma Forall2_map_l {A B} (f : A -> B) (P : A -> Prop) l :
  Forall P l -> Forall2 (fun x y => x = f y /\ P y) (map f l) l.
Proof. intros H. induction H; cbn; auto. Qed.

Lemma length_flat_map_const {A B} n (f : A -> list B) l :
  (forall x, length (f x) = n) -> length (flat_map f l) = (n * length l)%nat.
Proof.
  intros Hf. induction l as [|x l IH]; cbn [flat_map length]; [lia|].
  rewrite length_app, IH, Hf. lia.
Qed.

Lemma nth_map_lt {A B} (f : A -> B) l i d d' : (i < length l)%nat -> nth i (map f l) d' = f (nth i l d).
Proof. intros. rewrite nth_indep with (d' := f d) by (now rewrite length_map). apply map_nth. Qed.

(** An array element assigned by index; nothing happens out of range. *)
Fixpoint assign {A} (l : list A) (i : nat) (x : A) : list A :=
  match l, i with
  | [], _ => []
  | _ :: l', O => x :: l'
  | y :: l', S i' => y :: assign l' i' x
  end.

Lemma length_assign {A} (l : list A) i x : length (assign l i x) = length l.
Proof. revert i. induction l as [|y l IH]; intros [|i]; cbn; auto. Qed.

Lemma nth_error_assign {A} (l : list A) i j x :
  nth_error (assign l i x) j = if (i =? j)%nat && (j <? length l)%nat then Some x else nth_error l j.
Proof.
  revert i j. induction l as [|y l IH]; intros i j; [destruct i, j; cbn; rewrite ?andb_false_r; reflexivity|].
  destruct i, j; try reflexivity. apply IH.
Qed.

Lemma Forall_assign {A} (P : A -> Prop) l i x : Forall P l -> P x -> Forall P (assign l i x).
Proof. intros H. revert i. induction H; intros [|i] Hx; cbn; constructor; auto. Qed.

(** A byte count turned into a bit count, in 64 bits. *)
Lemma count_bits n : u64 (u64 (Z.of_nat n) << 3) = u64 (8 * Z.of_nat n).
Proof. rewrite Z.shiftl_mul_pow2, wrap_mul_l by lia. f_equal. change (2 ^ 3) with 8. lia. Qed.

(** Sequencing of partial operations. *)
Notation "'let?' x := e 'in' k" := (match e with Some x => k | None => None end)
  (at level 10, x pattern, e at level 100, k at level 200) : cword_scope.

(** [memcpy(dst + off, src, len)] with [src] of length [len]: what [dst] holds afterwards. *)
Definition splice {A} (dst : list A) (off : nat) (src : list A) : list A :=
  firstn off dst ++ src ++ skipn (off + length src) dst.

Lemma length_splice {A} (dst : list A) off src :
  (off + length src <= length dst)%nat -> length (splice dst off src) = length dst.
Proof. intros. unfold splice. rewrite !length_app, length_firstn, length_skipn. lia. Qed.

Lemma firstn_splice {A} (dst : list A) off src :
  (off <= length dst)%nat ->
  firstn (off + length src) (splice dst off src) = firstn off dst ++ src.
Proof.
  intros. unfold splice. rewrite app_assoc, firstn_app.
  rewrite !length_app, length_firstn, Nat.min_l by lia.
  rewrite Nat.sub_diag. cbn. rewrite app_nil_r. apply firstn_all2.
  rewrite length_app, length_firstn. lia.
Qed.

Lemma skipn_splice {A} (dst : list A) off src k :
  (off + length src <= k)%nat -> (off <= length dst)%nat ->
  skipn k (splice dst off src) = skipn k dst.
Proof.
  intros Hk Ho. unfold splice. rewrite app_assoc, skipn_app, skipn_all2, skipn_skipn.
  - rewrite length_app, length_firstn. cbn. f_equal. lia.
  - rewrite length_app, length_firstn. lia.
Qed.

Lemma splice_app {A} (x y s : list A) off :
  length x = off -> splice (x ++ y) off s = x ++ s ++ skipn (length s) y.
Proof.
  intros <-. unfold splice. rewrite firstn_app, Nat.sub_diag, firstn_O, firstn_all, app_nil_r.
  do 2 f_equal. rewrite skipn_app, skipn_all2 by lia. cbn [app]. f_equal. lia.
Qed.

(** The first [n] bytes and the rest of a long enough string. *)
Lemma split_at n (d : list Z) : (n <= length d)%nat -> bytes_ok d ->
  exists b d', d = b ++ d' /\ length b = n /\ bytes_ok b /\ bytes_ok d'.
Proof.
  intros L H. exists (firstn n d), (skipn n d). rewrite firstn_skipn, length_firstn.
  repeat split; [lia|now apply Forall_firstn|now apply Forall_skipn].
Qed.

Lemma skipn_exact {A} n (b d : list A) : length b = n -> skipn n (b ++ d) = d.
Proof. intros <-. now rewrite skipn_app, skipn_all, Nat.sub_diag. Qed.

(** The four 16-byte blocks at the front of a buffer. *)
Lemma skip_blocks {A} (b0 b1 b2 b3 rest : list A) :
  length b0 = 16%nat -> length b1 = 16%nat -> length b2 = 16%nat -> length b3 = 16%nat ->
  let buf := b0 ++ b1 ++ b2 ++ b3 ++ rest in
  skipn 16 buf = b1 ++ b2 ++ b3 ++ rest /\ skipn 32 buf = b2 ++ b3 ++ rest /\
  skipn 48 buf = b3 ++ rest /\ skipn 64 buf = rest.
Proof.
  intros L0 L1 L2 L3 buf. subst buf. split; [|split; [|split]].
  - now apply skipn_exact.
  - rewrite (app_assoc b0). apply skipn_exact. rewrite length_app. lia.
  - rewrite (app_assoc b0), (app_assoc (b0 ++ b1)). apply skipn_exact. rewrite !length_app. lia.
  - rewrite (app_assoc b0), (app_assoc (b0 ++ b1)), (app_assoc ((b0 ++ b1) ++ b2)).
    apply skipn_exact. rewrite !length_app. lia.
Qed.

Lemma splice_full {A} (dst src : list A) :
  (length dst <= length src)%nat -> splice dst 0 src = src.
Proof. intros. unfold splice. cbn. rewrite skipn_all2 by assumption. apply app_nil_r. Qed.

Lemma Forall_splice {A} (P : A -> Prop) dst off src :
  Forall P dst -> Forall P src -> Forall P (splice dst off src).
Proof.
  intros. unfold splice. rewrite !Forall_app.
  auto using Forall_firstn, Forall_skipn.
Qed.

(** The first [k] successive blocks of [n] elements of [l]. *)
Fixpoint take_blocks {A} (k n : nat) (l : list A) : list (list A) :=
  match k with
  | O => []
  | S k' => firstn n l :: take_blocks k' n (skipn n l)
  end.

(** All complete [n]-element blocks of [l]. *)
Definition blocks {A} (n : nat) (l : list A) : list (list A) :=
  take_blocks (length l / n) n l.

Lemma take_blocks_app {A} k k' n (l1 l2 : list A) :
  length l1 = (k * n)%nat ->
  take_blocks (k + k') n (l1 ++ l2) = take_blocks k n l1 ++ take_blocks k' n l2.
Proof.
  revert l1. induction k as [|k IH]; intros l1 H; cbn in *.
  - apply length_zero_iff_nil in H. now subst.
  - rewrite firstn_app, skipn_app, <- IH by (rewrite length_skipn; lia).
    replace (n - length l1)%nat with O by lia. cbn. now rewrite app_nil_r.
Qed.

Lemma take_blocks_prefix {A} k n (l1 l2 : list A) :
  (k * n <= length l1)%nat -> take_blocks k n (l1 ++ l2) = take_blocks k n l1.
Proof.
  revert l1. induction k as [|k IH]; intros l1 H; cbn in *; [reflexivity|].
  rewrite firstn_app, skipn_app. replace (n - length l1)%nat with O by lia. cbn.
  rewrite app_nil_r. f_equal. apply IH. rewrite length_skipn. lia.
Qed.

Lemma blocks_app {A} n (l1 l2 : list A) k :
  (n <> 0)%nat -> length l1 = (k * n)%nat ->
  blocks n (l1 ++ l2) = blocks n l1 ++ blocks n l2.
Proof.
  intros Hn H. unfold blocks. rewrite length_app, H.
  rewrite Nat.div_add_l, Nat.div_mul by assumption.
  now apply take_blocks_app.
Qed.

Lemma blocks_one {A} n (l : list A) : (n <> 0)%nat -> length l = n -> blocks n l = [l].
Proof.
  intros Hn H. unfold blocks. rewrite H, Nat.div_same by assumption. cbn.
  now rewrite firstn_all2 by lia.
Qed.

Lemma blocks_short {A} n (l : list A) : (length l < n)%nat -> blocks n l = [].
Proof. intros. unfold blocks. now rewrite Nat.div_small. Qed.

Lemma blocks_tail {A} n (l1 l2 : list A) k :
  (n <> 0)%nat -> length l1 = (k * n)%nat -> (length l2 < n)%nat ->
  blocks n (l1 ++ l2) = blocks n l1.
Proof. intros. rewrite (blocks_app n l1 l2 k), (blocks_short n l2), app_nil_r; auto. Qed.

Lemma take_blocks_length {A} k n (l : list A) :
  (k * n <= length l)%nat -> Forall (fun b => length b = n) (take_blocks k n l).
Proof.
  revert l. induction k as [|k IH]; intros l H; cbn in *; constructor.
  - rewrite length_firstn. lia.
  - apply IH. rewrite length_skipn. lia.
Qed.

(** Bytewise exclusive or of two buffers (the shorter length). *)
Definition xor_bytes (a b : list Z) : list Z := map (fun p => fst p .^ snd p) (combine a b).

Lemma length_xor_bytes a b : length (xor_bytes a b) = Nat.min (length a) (length b).
Proof. unfold xor_bytes. now rewrite length_map, length_combine. Qed.

Lemma xor_bytes_involutive a b :
  (length a <= length b)%nat -> xor_bytes (xor_bytes a b) b = a.
Proof.
  unfold xor_bytes. revert b. induction a as [|x a IH]; intros [|y b] H; cbn in *; try lia; auto.
  rewrite Z.lxor_assoc, Z.lxor_nilpotent, Z.lxor_0_r, IH by lia. reflexivity.
Qed.

Lemma xor_bytes_comm a b : xor_bytes a b = xor_bytes b a.
Proof.
  unfold xor_bytes. revert b. induction a as [|x a IH]; intros [|y b]; cbn; auto.
  now rewrite Z.lxor_comm, IH.
Qed.

Lemma xor_bytes_0 n b : length b = n -> xor_bytes (repeat 0 n) b = b.
Proof.
  intros <-. induction b as [|x b IH]; [reflexivity|]. cbn [length repeat].
  change (xor_bytes (?a :: ?l) (?b :: ?m)) with (a .^ b :: xor_bytes l m).
  now rewrite IH, Z.lxor_0_l.
Qed.

Lemma xor_bytes_app a b c d : length a = length c ->
  xor_bytes (a ++ b) (c ++ d) = xor_bytes a c ++ xor_bytes b d.
Proof.
  unfold xor_bytes. revert c. induction a as [|x a IH]; intros [|y c] H; try discriminate; auto.
  cbn in *. f_equal. apply IH. lia.
Qed.

Lemma xor_bytes_prefix a b c : (length a <= length b)%nat -> xor_bytes a (b ++ c) = xor_bytes a b.
Proof.
  unfold xor_bytes. revert b. induction a as [|x a IH]; intros [|y b] H; cbn in *; auto; try lia.
  f_equal. apply IH. lia.
Qed.

Lemma xor_bytes_ok a b : bytes_ok a -> bytes_ok b -> bytes_ok (xor_bytes a b).
Proof.
  intros Ha. revert b. induction Ha as [|x a Hx Ha IH]; intros [|y b] Hb; try constructor.
  - inversion Hb; subst. cbn. auto with word.
  - inversion Hb; subst. now apply IH.
Qed.

(** [destruct] an explicit-length list into its elements. *)
Ltac explode l :=
  repeat (let x := fresh "x" in destruct l as [|x l]; [discriminate|]);
  destruct l; [|discriminate].

Ltac inv_Forall :=
  repeat match goal with
    | H : Forall _ (_ :: _) |- _ => inversion H; subst; clear H
    | H : Forall _ [] |- _ => clear H
    | H : bytes_ok (_ :: _) |- _ => unfold bytes_ok in H
    | H : bytes_ok [] |- _ => clear H
    end.
