(* ===== verification/Codec.v ===== *)
(** Integer codecs: the [static inline] encoders and decoders of
    src/enclave/c_src/bearssl/inner.h and the range codecs of
    src/enclave/c_src/bearssl/codec/.  An encoder that stores into [dst] is a function
    returning the bytes it stores; a decoder reads them from a byte list.  The branches
    for unaligned access on a host of the same endianness ([BR_LE_UNALIGNED],
    [BR_BE_UNALIGNED]) store the same bytes; the portable branch is the one written here. *)
From S2P Require Import Prelude.
From Stdlib Require Import ZArith List Lia Bool Btauto.

Module Codec.

Definition byte_at (buf : list Z) (i : nat) : Z := nth i buf 0.

Definition br_enc16le (x : Z) : list Z := [u8 x; u8 (x >> 8)].
Definition br_enc16be (x : Z) : list Z := [u8 (x >> 8); u8 x].
Definition br_dec16le (buf : list Z) : Z :=
  byte_at buf 0 .| u32 (byte_at buf 1 << 8).
Definition br_dec16be (buf : list Z) : Z :=
  u32 (byte_at buf 0 << 8) .| byte_at buf 1.

Definition br_enc32le (x : Z) : list Z :=
  [u8 x; u8 (x >> 8); u8 (x >> 16); u8 (x >> 24)].
Definition br_enc32be (x : Z) : list Z :=
  [u8 (x >> 24); u8 (x >> 16); u8 (x >> 8); u8 x].
Definition br_dec32le (buf : list Z) : Z :=
  byte_at buf 0 .| u32 (byte_at buf 1 << 8)
    .| u32 (byte_at buf 2 << 16) .| u32 (byte_at buf 3 << 24).
Definition br_dec32be (buf : list Z) : Z :=
  u32 (byte_at buf 0 << 24) .| u32 (byte_at buf 1 << 16)
    .| u32 (byte_at buf 2 << 8) .| byte_at buf 3.

Definition br_enc64le (x : Z) : list Z :=
  br_enc32le (u32 x) ++ br_enc32le (u32 (x >> 32)).
Definition br_enc64be (x : Z) : list Z :=
  br_enc32be (u32 (x >> 32)) ++ br_enc32be (u32 x).
Definition br_dec64le (buf : list Z) : Z :=
  br_dec32le buf .| u64 (br_dec32le (skipn 4 buf) << 32).
Definition br_dec64be (buf : list Z) : Z :=
  u64 (br_dec32be buf << 32) .| br_dec32be (skipn 4 buf).

(** [br_swap32] of inner.h. *)
Definition br_swap32 (x : Z) : Z :=
  let x := u32 ((x .& 0x00FF00FF) << 8) .| ((x >> 8) .& 0x00FF00FF) in
  u32 (x << 16) .| (x >> 16).

(** codec/dec32be.c: [num] successive words are decoded from [src]. *)
Fixpoint br_range_dec32be (num : nat) (src : list Z) : list Z :=
  match num with
  | O => []
  | S num' => br_dec32be src :: br_range_dec32be num' (skipn 4 src)
  end.

(** codec/enc32be.c: the first [num] words of [v] are encoded. *)
Fixpoint br_range_enc32be (v : list Z) (num : nat) : list Z :=
  match num with
  | O => []
  | S num' => br_enc32be (hd 0 v) ++ br_range_enc32be (tl v) num'
  end.

(** ** Ranges and lengths *)

Lemma br_enc32be_bytes x : bytes_ok (br_enc32be x).
Proof. unfold bytes_ok, br_enc32be. repeat constructor; apply wrap_range; lia. Qed.

Lemma br_enc32le_bytes x : bytes_ok (br_enc32le x).
Proof. unfold bytes_ok, br_enc32le. repeat constructor; apply wrap_range; lia. Qed.

Lemma br_enc64be_bytes x : bytes_ok (br_enc64be x).
Proof. apply Forall_app. split; apply br_enc32be_bytes. Qed.

Lemma byte_at_range buf i : bytes_ok buf -> in_range 8 (byte_at buf i).
Proof.
  intros H. unfold byte_at. destruct (nth_in_or_default i buf 0) as [Hi | ->].
  - now apply (proj1 (Forall_forall _ _) H).
  - split; [lia | reflexivity].
Qed.

Lemma br_dec32be_range buf : bytes_ok buf -> in_range 32 (br_dec32be buf).
Proof.
  intros H. unfold br_dec32be.
  pose proof (range_weaken 8 32 _ ltac:(lia) (byte_at_range buf 3 H)).
  auto 10 with word.
Qed.

Lemma br_dec32le_range buf : bytes_ok buf -> in_range 32 (br_dec32le buf).
Proof.
  intros H. unfold br_dec32le.
  pose proof (range_weaken 8 32 _ ltac:(lia) (byte_at_range buf 0 H)).
  auto 10 with word.
Qed.

Lemma br_range_dec32be_length num src : length (br_range_dec32be num src) = num.
Proof. revert src. induction num; intros; cbn; auto. Qed.

Lemma br_range_dec32be_range num src :
  bytes_ok src -> words_ok 32 (br_range_dec32be num src).
Proof.
  revert src. induction num as [|num IH]; intros src H; cbn [br_range_dec32be]; constructor.
  - now apply br_dec32be_range.
  - apply IH. now apply Forall_skipn.
Qed.

Lemma br_range_enc32be_length v num : length (br_range_enc32be v num) = (4 * num)%nat.
Proof. revert v. induction num as [|num IH]; intros; cbn; [reflexivity|]. rewrite IH. lia. Qed.

Lemma br_range_enc32be_bytes v num : bytes_ok (br_range_enc32be v num).
Proof.
  revert v. induction num as [|num IH]; intros v; cbn [br_range_enc32be]; [constructor|].
  apply Forall_app. split; [apply br_enc32be_bytes|apply IH].
Qed.

(** ** Round trips *)

Lemma br_dec32be_enc x rest : in_range 32 x -> br_dec32be (br_enc32be x ++ rest) = x.
Proof.
  intros H. unfold br_dec32be, br_enc32be, byte_at. cbn [nth app]. zbits.
Qed.

Lemma br_dec32le_enc x rest : in_range 32 x -> br_dec32le (br_enc32le x ++ rest) = x.
Proof. intros H. unfold br_dec32le, br_enc32le, byte_at. cbn [nth app]. zbits. Qed.

Lemma br_enc32be_dec a b c d rest :
  bytes_ok [a; b; c; d] -> br_enc32be (br_dec32be (a :: b :: c :: d :: rest)) = [a; b; c; d].
Proof.
  intros H. inv_Forall. unfold br_dec32be, br_enc32be, byte_at. cbn [nth].
  repeat (apply f_equal2; [zbits|]). reflexivity.
Qed.

Lemma br_enc32le_dec a b c d rest :
  bytes_ok [a; b; c; d] -> br_enc32le (br_dec32le (a :: b :: c :: d :: rest)) = [a; b; c; d].
Proof.
  intros H. inv_Forall. unfold br_dec32le, br_enc32le, byte_at. cbn [nth].
  repeat (apply f_equal2; [zbits|]). reflexivity.
Qed.

Lemma br_dec64be_enc x rest : in_range 64 x -> br_dec64be (br_enc64be x ++ rest) = x.
Proof.
  intros H. unfold br_dec64be, br_enc64be. rewrite <- app_assoc.
  rewrite br_dec32be_enc by (apply wrap_range; lia). cbn [br_enc32be app skipn].
  change (?a :: ?b :: ?c :: ?d :: rest) with ([a; b; c; d] ++ rest).
  rewrite (br_dec32be_enc (u32 x)) by (apply wrap_range; lia). zbits.
Qed.

Lemma br_dec64le_enc x rest : in_range 64 x -> br_dec64le (br_enc64le x ++ rest) = x.
Proof.
  intros H. unfold br_dec64le, br_enc64le. rewrite <- app_assoc.
  rewrite br_dec32le_enc by (apply wrap_range; lia). cbn [br_enc32le app skipn].
  change (?a :: ?b :: ?c :: ?d :: rest) with ([a; b; c; d] ++ rest).
  rewrite (br_dec32le_enc (u32 (x >> 32))) by (apply wrap_range; lia). zbits.
Qed.

Lemma br_range_dec_enc v num rest :
  words_ok 32 v -> length v = num ->
  br_range_dec32be num (br_range_enc32be v num ++ rest) = v.
Proof.
  intros Hv <-. revert rest. induction v as [|x v IH]; intros rest; cbn [length]; [reflexivity|].
  inversion_clear Hv. cbn [br_range_enc32be br_range_dec32be hd tl]. rewrite <- app_assoc.
  rewrite br_dec32be_enc by assumption. cbn [br_enc32be app skipn]. now rewrite IH.
Qed.

Lemma br_range_enc_dec num src :
  bytes_ok src -> length src = (4 * num)%nat ->
  br_range_enc32be (br_range_dec32be num src) num = src.
Proof.
  revert src. induction num as [|num IH]; intros src Hs Hl.
  - now apply length_zero_iff_nil in Hl.
  - destruct src as [|a [|b [|c [|d src]]]]; try (cbn in Hl; lia).
    cbn [br_range_dec32be br_range_enc32be hd tl skipn]. inv_Forall.
    rewrite br_enc32be_dec by (repeat apply Forall_cons; auto).
    cbn. rewrite IH; [reflexivity|assumption|cbn in Hl; lia].
Qed.

(** Encoding a sequence of 32-bit words big-endian and decoding it back gives the same
    words, whatever follows them in the buffer; conversely, decoding any byte string of the
    right length and encoding the words again gives the same bytes. *)
Theorem range32be_roundtrip (v src rest : list Z) (num : nat)
  (Hv : words_ok 32 v) (Hlv : length v = num)
  (Hs : bytes_ok src) (Hls : length src = (4 * num)%nat) :
  br_range_dec32be num (br_range_enc32be v num ++ rest) = v /\
  br_range_enc32be (br_range_dec32be num src) num = src.
Proof. split; [now apply br_range_dec_enc|now apply br_range_enc_dec]. Qed.

Lemma range32be_roundtrip_witness :
  br_range_dec32be 2 (br_range_enc32be [0x01020304; 0xFFFEFDFC] 2 ++ [7]) = [0x01020304; 0xFFFEFDFC] /\
  br_range_enc32be (br_range_dec32be 2 [1; 2; 3; 4; 255; 0; 128; 9]) 2 = [1; 2; 3; 4; 255; 0; 128; 9].
Proof.
  apply range32be_roundtrip; try reflexivity; apply words_ok_forallb; reflexivity.
Defined.

End Codec.
