(* ===== verification/CtPrim.v ===== *)
(** Constant-time primitives on 32-bit words: the [static inline] comparison, selection and
    bit-length functions of src/enclave/c_src/bearssl/inner.h, with the proofs that the
    branch-free bit manipulation computes the arithmetic it is meant to. *)
From S2P Require Import Prelude.
From Stdlib Require Import ZArith List Lia Bool Btauto.

Module Ct.

(** C's unary operators on [uint32_t]. *)
Definition neg32 (x : Z) : Z := u32 (- x).
Definition not32 (x : Z) : Z := u32 (Z.lnot x).

Definition NOT (ctl : Z) : Z := ctl .^ 1.
Definition MUX (ctl x y : Z) : Z := y .^ (neg32 ctl .& (x .^ y)).
Definition EQ (x y : Z) : Z := let q := x .^ y in NOT ((q .| neg32 q) >> 31).
Definition NEQ (x y : Z) : Z := let q := x .^ y in (q .| neg32 q) >> 31.
Definition GT (x y : Z) : Z :=
  let z := u32 (y - x) in (z .^ ((x .^ y) .& (x .^ z))) >> 31.
Definition GE (x y : Z) : Z := NOT (GT y x).
Definition LT (x y : Z) : Z := GT y x.
Definition LE (x y : Z) : Z := NOT (GT x y).
(** [int32_t] result: a signed integer. *)
Definition CMP (x y : Z) : Z := GT x y .| - GT y x.
(** The operand [x] of the next five is an [int32_t], a signed integer. *)
Definition EQ0 (x : Z) : Z := let q := u32 x in not32 (q .| neg32 q) >> 31.
Definition GT0 (x : Z) : Z := let q := u32 x in (not32 q .& neg32 q) >> 31.
Definition GE0 (x : Z) : Z := not32 (u32 x) >> 31.
Definition LT0 (x : Z) : Z := u32 x >> 31.
Definition LE0 (x : Z) : Z := let q := u32 x in (q .| not32 (neg32 q)) >> 31.

Definition BIT_LENGTH (x : Z) : Z :=
  let k := NEQ x 0 in
  let c := GT x 0xFFFF in let x := MUX c (x >> 16) x in let k := u32 (k + u32 (c << 4)) in
  let c := GT x 0x00FF in let x := MUX c (x >> 8) x in let k := u32 (k + u32 (c << 3)) in
  let c := GT x 0x000F in let x := MUX c (x >> 4) x in let k := u32 (k + u32 (c << 2)) in
  let c := GT x 0x0003 in let x := MUX c (x >> 2) x in let k := u32 (k + u32 (c << 1)) in
  u32 (k + GT x 0x0001).

Definition MIN (x y : Z) : Z := MUX (GT x y) y x.
Definition MAX (x y : Z) : Z := MUX (GT x y) x y.

(** ** Correctness *)

Definition int32 (x : Z) : Prop := - 2 ^ 31 <= x < 2 ^ 31.

(** Case analysis on the sign bit: a shift by 31 of a 32-bit word is its top bit, and the
    top bit of a bitwise expression is that expression of the top bits. *)
Lemma top32 x : in_range 32 x -> x >> 31 = Z.b2z (Z.testbit x 31).
Proof.
  intros H. change 31 with (32 - 1). rewrite testbit_top, shiftr_top by (assumption || lia).
  reflexivity.
Qed.

Lemma bit31 x : in_range 32 x -> Z.testbit x 31 = (2 ^ 31 <=? x).
Proof. intros H. now apply (testbit_top 32). Qed.

Lemma neg32_cases x : in_range 32 x -> neg32 x = if x =? 0 then 0 else 2 ^ 32 - x.
Proof.
  intros H. unfold neg32, wrap. destruct (Z.eqb_spec x 0) as [->|]; [reflexivity|].
  unfold in_range in H. rewrite <- (Z_mod_plus_full (- x) 1 (2 ^ 32)).
  rewrite Z.mod_small; lia.
Qed.

Lemma sub32_cases x y : in_range 32 x -> in_range 32 y ->
  u32 (x - y) = if y <=? x then x - y else 2 ^ 32 + x - y.
Proof.
  unfold in_range, wrap. intros Hx Hy. destruct (Z.leb_spec y x).
  - apply Z.mod_small. lia.
  - rewrite <- (Z_mod_plus_full (x - y) 1 (2 ^ 32)). rewrite Z.mod_small; lia.
Qed.

Lemma u32_signed x : int32 x -> u32 x = if x <? 0 then x + 2 ^ 32 else x.
Proof.
  unfold int32, wrap. intros H. destruct (Z.ltb_spec x 0).
  - rewrite <- (Z_mod_plus_full x 1 (2 ^ 32)). rewrite Z.mod_small; lia.
  - apply Z.mod_small. lia.
Qed.

Ltac decide_tops :=
  change (2 ^ 31) with 2147483648 in *; change (2 ^ 32) with 4294967296 in *;
  repeat match goal with
    | |- context [if ?a <=? ?b then _ else _] => destruct (Z.leb_spec a b)
    | |- context [if ?a <? ?b then _ else _] => destruct (Z.ltb_spec a b)
    | |- context [if ?a =? ?b then _ else _] => destruct (Z.eqb_spec a b)
    end;
  repeat match goal with
    | |- context [?a <=? ?b] => destruct (Z.leb_spec a b)
    | |- context [?a <? ?b] => destruct (Z.ltb_spec a b)
    | |- context [?a =? ?b] => destruct (Z.eqb_spec a b)
    end; cbn [negb andb orb xorb Z.b2z]; try reflexivity; try lia.

Lemma NOT_spec b : NOT (Z.b2z b) = Z.b2z (negb b).
Proof. now destruct b. Qed.

Lemma MUX_spec b x y : in_range 32 x -> in_range 32 y ->
  MUX (Z.b2z b) x y = if b then x else y.
Proof.
  intros Hx Hy. unfold MUX. destruct b; cbn [Z.b2z].
  - change (neg32 1) with (Z.ones 32). zbits.
  - change (neg32 0) with 0. zbits.
Qed.

Lemma neq0_word q : in_range 32 q -> (q .| neg32 q) >> 31 = Z.b2z (negb (q =? 0)).
Proof.
  intros Hq. assert (Hn : in_range 32 (neg32 q)) by (apply wrap_range; lia).
  rewrite top32, Z.lor_spec, !bit31, neg32_cases by auto with word.
  unfold in_range in Hq. decide_tops.
Qed.

Lemma lxor_eqb x y : (x .^ y =? 0) = (x =? y).
Proof.
  destruct (Z.eqb_spec x y) as [->|N]; [now rewrite Z.lxor_nilpotent|].
  apply Z.eqb_neq. intros E. apply N. now apply Z.lxor_eq.
Qed.

Lemma NEQ_spec x y : in_range 32 x -> in_range 32 y -> NEQ x y = Z.b2z (negb (x =? y)).
Proof. intros. unfold NEQ. rewrite neq0_word, lxor_eqb by auto with word. reflexivity. Qed.

Lemma EQ_spec x y : in_range 32 x -> in_range 32 y -> EQ x y = Z.b2z (x =? y).
Proof.
  intros. unfold EQ. rewrite neq0_word, lxor_eqb, NOT_spec, negb_involutive by auto with word.
  reflexivity.
Qed.

Lemma GT_spec x y : in_range 32 x -> in_range 32 y -> GT x y = Z.b2z (y <? x).
Proof.
  intros Hx Hy. unfold GT. assert (Hz : in_range 32 (u32 (y - x))) by (apply wrap_range; lia).
  rewrite top32 by auto 10 with word.
  rewrite Z.lxor_spec, Z.land_spec, !Z.lxor_spec, !bit31, sub32_cases by assumption.
  unfold in_range in *. decide_tops.
Qed.

(** The signed comparisons with zero: unfold to the top bits and decide. *)
Ltac signed_top x H :=
  let q := fresh "q" in set (q := wrap 32 x);
  assert (in_range 32 q) by (apply wrap_range; lia);
  assert (in_range 32 (neg32 q)) by (apply wrap_range; lia);
  unfold not32; rewrite top32 by auto with word; autorewrite with zbits;
  rewrite ?bit31 by assumption; rewrite ?neg32_cases by assumption;
  cbn [Z.ltb Z.compare Pos.compare Pos.compare_cont andb negb];
  subst q; rewrite u32_signed by assumption; unfold int32 in H; decide_tops.

Lemma EQ0_spec x : int32 x -> EQ0 x = Z.b2z (x =? 0).
Proof. intros H. unfold EQ0. signed_top x H. Qed.

Lemma GT0_spec x : int32 x -> GT0 x = Z.b2z (0 <? x).
Proof. intros H. unfold GT0. signed_top x H. Qed.

Lemma GE0_spec x : int32 x -> GE0 x = Z.b2z (0 <=? x).
Proof. intros H. unfold GE0. signed_top x H. Qed.

Lemma LT0_spec x : int32 x -> LT0 x = Z.b2z (x <? 0).
Proof. intros H. unfold LT0. signed_top x H. Qed.

Lemma LE0_spec x : int32 x -> LE0 x = Z.b2z (x <=? 0).
Proof. intros H. unfold LE0. signed_top x H. Qed.

Lemma CMP_spec x y : in_range 32 x -> in_range 32 y ->
  CMP x y = match x ?= y with Lt => -1 | Eq => 0 | Gt => 1 end.
Proof.
  intros Hx Hy. unfold CMP. rewrite !GT_spec by assumption.
  destruct (Z.ltb_spec y x), (Z.ltb_spec x y), (Z.compare_spec x y); try lia; reflexivity.
Qed.

Lemma MIN_spec x y : in_range 32 x -> in_range 32 y -> MIN x y = Z.min x y.
Proof.
  intros. unfold MIN. rewrite GT_spec, MUX_spec by assumption. destruct (Z.ltb_spec y x); lia.
Qed.

Lemma MAX_spec x y : in_range 32 x -> in_range 32 y -> MAX x y = Z.max x y.
Proof.
  intros. unfold MAX. rewrite GT_spec, MUX_spec by assumption. destruct (Z.ltb_spec y x); lia.
Qed.

(** The number of significant bits. *)
Definition bitlen (x : Z) : Z := if x =? 0 then 0 else Z.log2 x + 1.

Lemma bitlen_shift n x : 0 < n -> 2 ^ n <= x -> bitlen x = n + bitlen (x >> n).
Proof.
  intros Hn Hx. pose proof (pow2_pos n ltac:(lia)) as Hp. unfold bitlen.
  assert (0 < x >> n).
  { rewrite Z.shiftr_div_pow2 by lia. apply Z.div_str_pos. lia. }
  rewrite (proj2 (Z.eqb_neq x 0)), (proj2 (Z.eqb_neq (x >> n) 0)) by lia.
  rewrite Z.log2_shiftr, Z.max_r by (lia || apply Z.le_0_sub, Z.log2_le_pow2; lia). lia.
Qed.

(** One halving step of [BIT_LENGTH]: the test [x > 2^n - 1], the selection and the
    contribution to the count. *)
Lemma bit_length_step n x :
  0 < n -> in_range (2 * n) x -> in_range 32 x -> in_range 32 (2 ^ n - 1) ->
  let c := GT x (2 ^ n - 1) in
  let x' := MUX c (x >> n) x in
  bitlen x = c * n + bitlen x' /\ in_range n x' /\ in_range 32 x' /\ (x' =? 0) = (x =? 0)
  /\ (c = 0 \/ c = 1).
Proof.
  intros Hn Hx H32 Hm c x'. subst c x'.
  assert (Hs : in_range 32 (x >> n)) by (apply shiftr_range; auto; lia).
  rewrite GT_spec, MUX_spec by assumption. pose proof (pow2_pos n ltac:(lia)) as Hp.
  destruct (Z.ltb_spec (2 ^ n - 1) x); cbn [Z.b2z].
  - rewrite (bitlen_shift n x) by lia. assert (0 < x >> n).
    { rewrite Z.shiftr_div_pow2 by lia. apply Z.div_str_pos. lia. }
    rewrite !(proj2 (Z.eqb_neq _ 0)) by lia.
    split; [lia|]. split; [|auto]. split; [lia|].
    rewrite Z.shiftr_div_pow2 by lia. apply Z.div_lt_upper_bound; [lia|].
    rewrite <- Z.pow_add_r by lia. replace (n + n) with (2 * n) by lia. apply Hx.
  - unfold in_range in *. repeat split; try lia.
Qed.

Lemma BIT_LENGTH_spec x : in_range 32 x -> BIT_LENGTH x = bitlen x.
Proof.
  intros Hx. unfold BIT_LENGTH. rewrite NEQ_spec by (assumption || (split; [lia|reflexivity])).
  destruct (bit_length_step 16 x) as (E1 & R1 & W1 & Z1 & C1);
    [lia|assumption|assumption|split; [lia|reflexivity]|].
  change (2 ^ 16 - 1) with 0xFFFF in *. set (c1 := GT x 0xFFFF) in *. set (x1 := MUX c1 _ _) in *.
  destruct (bit_length_step 8 x1) as (E2 & R2 & W2 & Z2 & C2);
    [lia|assumption|assumption|split; [lia|reflexivity]|].
  change (2 ^ 8 - 1) with 0x00FF in *. set (c2 := GT x1 0x00FF) in *. set (x2 := MUX c2 _ _) in *.
  destruct (bit_length_step 4 x2) as (E3 & R3 & W3 & Z3 & C3);
    [lia|assumption|assumption|split; [lia|reflexivity]|].
  change (2 ^ 4 - 1) with 0x000F in *. set (c3 := GT x2 0x000F) in *. set (x3 := MUX c3 _ _) in *.
  destruct (bit_length_step 2 x3) as (E4 & R4 & W4 & Z4 & C4);
    [lia|assumption|assumption|split; [lia|reflexivity]|].
  change (2 ^ 2 - 1) with 0x0003 in *. set (c4 := GT x3 0x0003) in *. set (x4 := MUX c4 _ _) in *.
  rewrite GT_spec by (assumption || (split; [lia|reflexivity])).
  rewrite !(wrap_small 32 (_ << _)) by
    (destruct C1 as [-> | ->], C2 as [-> | ->], C3 as [-> | ->], C4 as [-> | ->]; split; cbn; lia).
  rewrite E1, E2, E3, E4, <- Z1, <- Z2, <- Z3, <- Z4. rewrite !Z.shiftl_mul_pow2 by lia.
  autorewrite with wrapdb. cbn [Z.pow Z.pow_pos Pos.iter Z.mul].
  assert (x4 = 0 \/ x4 = 1 \/ x4 = 2 \/ x4 = 3) as [->|[->|[->| ->]]]
    by (unfold in_range in R4; lia);
    destruct C1 as [-> | ->], C2 as [-> | ->], C3 as [-> | ->], C4 as [-> | ->]; reflexivity.
Qed.

(** The branch-free word comparisons return the truth value of the comparison they are
    named after, on every pair of [uint32_t] operands, and [MUX], [MIN], [MAX], [CMP] and
    [BIT_LENGTH] built on them select, order and measure correctly. *)
Theorem ct_word_ops_correct (x y : Z) (b : bool) (Hx : in_range 32 x) (Hy : in_range 32 y) :
  EQ x y = Z.b2z (x =? y) /\ NEQ x y = Z.b2z (negb (x =? y)) /\
  GT x y = Z.b2z (y <? x) /\ GE x y = Z.b2z (y <=? x) /\
  LT x y = Z.b2z (x <? y) /\ LE x y = Z.b2z (x <=? y) /\
  CMP x y = (match x ?= y with Lt => -1 | Eq => 0 | Gt => 1 end) /\
  MUX (Z.b2z b) x y = (if b then x else y) /\
  MIN x y = Z.min x y /\ MAX x y = Z.max x y /\
  BIT_LENGTH x = (if x =? 0 then 0 else Z.log2 x + 1).
Proof.
  repeat split; auto using EQ_spec, NEQ_spec, GT_spec, CMP_spec, MUX_spec, MIN_spec, MAX_spec,
    BIT_LENGTH_spec; unfold GE, LT, LE; rewrite GT_spec, ?NOT_spec by assumption;
    rewrite <- ?Z.leb_antisym; reflexivity.
Qed.

Lemma ct_word_ops_correct_witness :
  GT 0x80000001 5 = 1 /\ BIT_LENGTH 0x80000001 = 32.
Proof.
  pose proof (ct_word_ops_correct 0x80000001 5 true
    (proj1 (in_rangeb_spec 32 0x80000001) eq_refl) (proj1 (in_rangeb_spec 32 5) eq_refl)) as H.
  split; [exact (proj1 (proj2 (proj2 H)))|].
  exact (proj2 (proj2 (proj2 (proj2 (proj2 (proj2 (proj2 (proj2 (proj2 (proj2 H)))))))))).
Defined.

(** The comparisons of a signed word with zero return the truth value they are named
    after on the whole [int32_t] range, the most negative value included. *)
Theorem ct_signed_ops_correct (x : Z) (Hx : int32 x) :
  EQ0 x = Z.b2z (x =? 0) /\ GT0 x = Z.b2z (0 <? x) /\ GE0 x = Z.b2z (0 <=? x) /\
  LT0 x = Z.b2z (x <? 0) /\ LE0 x = Z.b2z (x <=? 0).
Proof. auto 10 using EQ0_spec, GT0_spec, GE0_spec, LT0_spec, LE0_spec. Qed.

Lemma ct_signed_ops_correct_witness : LE0 (- 2 ^ 31) = 1 /\ int32 (- 2 ^ 31).
Proof.
  assert (H : int32 (- 2 ^ 31)) by (split; [apply Z.le_refl|reflexivity]).
  split; [exact (proj2 (proj2 (proj2 (proj2 (ct_signed_ops_correct (- 2 ^ 31) H)))))|exact H].
Defined.

End Ct.
