(* ===== verification/MerkleDamgard.v ===== *)
(** The Merkle-Damgard construction with 64-byte blocks shared by SHA-1, SHA-224 and SHA-256
    (FIPS 180-4, sections 5.1.1 and 6): the one-shot specification, what a streaming context
    represents, and the two facts every streaming implementation of it needs -- feeding one
    chunk into the block buffer, and closing the computation with the padding. *)
From S2P Require Import Prelude Codec.
From Stdlib Require Import ZArith List Lia Bool.
Import Codec.

Module MD.

Section Spec.

Context {St : Type} (compress : list Z -> St -> St).

(** Process every complete block of [m], in order. *)
Definition absorb (s : St) (m : list Z) : St :=
  fold_left (fun s b => compress b s) (blocks 64 m) s.

(** The padding of a message of [len] bytes: a one bit, the least number of zero bits that
    leaves room for the 64-bit length, and the length in bits, big-endian. *)
Definition padding (len : nat) : list Z :=
  0x80 :: repeat 0 (Z.to_nat ((55 - Z.of_nat len) mod 64))
       ++ br_enc64be (u64 (8 * Z.of_nat len)).

Definition md_hash (iv : St) (m : list Z) : St := absorb iv (m ++ padding (length m)).

Lemma absorb_app s m1 m2 k :
  length m1 = (k * 64)%nat -> absorb s (m1 ++ m2) = absorb (absorb s m1) m2.
Proof. intros H. unfold absorb. rewrite (blocks_app 64 m1 m2 k) by lia. apply fold_left_app. Qed.

Lemma absorb_one s b : length b = 64%nat -> absorb s b = compress b s.
Proof. intros H. unfold absorb. rewrite blocks_one by lia. reflexivity. Qed.

Lemma absorb_short s m : (length m < 64)%nat -> absorb s m = s.
Proof. intros H. unfold absorb. now rewrite blocks_short. Qed.

Lemma absorb_inv (P : St -> Prop) s m :
  P s -> (forall b s', P s' -> P (compress b s')) -> P (absorb s m).
Proof.
  intros Hs Hc. unfold absorb. revert s Hs.
  induction (blocks 64 m) as [|b bs IH]; intros s Hs; [assumption|].
  cbn [fold_left]. apply IH. now apply Hc.
Qed.

Lemma padding_length len : ((len + length (padding len)) mod 64 = 0)%nat.
Proof.
  unfold padding. cbn [length]. rewrite length_app, repeat_length.
  unfold br_enc64be, br_enc32be. cbn [length app].
  pose proof (Z.mod_pos_bound (55 - Z.of_nat len) 64 ltac:(lia)) as Hb.
  pose proof (Z.div_mod (55 - Z.of_nat len) 64 ltac:(lia)) as Hd.
  set (z := (55 - Z.of_nat len) mod 64) in *. set (q := (55 - Z.of_nat len) / 64) in *.
  apply Nat2Z.inj. rewrite Nat2Z.inj_mod. cbn [Z.of_nat].
  replace (Z.of_nat (len + S (Z.to_nat z + 8))) with ((1 - q) * 64) by lia.
  now rewrite Z.mod_mul.
Qed.

(** ** Streaming contexts

    [buf], [count] and [val] of a context, and the message [m] absorbed so far: the running
    value has absorbed the complete blocks and the buffer starts with the remaining bytes. *)
Definition tail_len (m : list Z) : nat := (length m mod 64)%nat.
Definition full_len (m : list Z) : nat := (length m / 64 * 64)%nat.

Definition represents (iv : St) (m : list Z) (buf : list Z) (val : St) : Prop :=
  length buf = 64%nat /\
  val = absorb iv (firstn (full_len m) m) /\
  firstn (tail_len m) buf = skipn (full_len m) m.

Lemma full_tail m : (full_len m + tail_len m = length m)%nat.
Proof. unfold full_len, tail_len. pose proof (Nat.div_mod_eq (length m) 64). lia. Qed.

Lemma tail_lt m : (tail_len m < 64)%nat.
Proof. apply Nat.mod_upper_bound. discriminate. Qed.

Lemma length_full m : length (firstn (full_len m) m) = full_len m.
Proof. rewrite length_firstn. pose proof (full_tail m). lia. Qed.

Lemma represents_nil iv buf : length buf = 64%nat -> represents iv [] buf iv.
Proof. intros H. repeat split; assumption. Qed.

(** What [full_len] and [tail_len] become when a chunk that fits the buffer is appended. *)
Lemma tail_app m d : (tail_len m + length d < 64)%nat ->
  tail_len (m ++ d) = (tail_len m + length d)%nat /\ full_len (m ++ d) = full_len m.
Proof.
  intros H. pose proof (full_tail m). unfold tail_len, full_len in *. rewrite length_app.
  set (q := (length m / 64)%nat) in *. set (r := (length m mod 64)%nat) in *.
  replace (length m + length d)%nat with (r + length d + q * 64)%nat by lia.
  rewrite Nat.Div0.mod_add, Nat.div_add by lia.
  rewrite Nat.mod_small, Nat.div_small by lia. lia.
Qed.

Lemma tail_app_full m d : (tail_len m + length d = 64)%nat ->
  tail_len (m ++ d) = 0%nat /\ full_len (m ++ d) = length (m ++ d).
Proof.
  intros H. pose proof (full_tail m). unfold tail_len, full_len in *. rewrite length_app.
  set (q := (length m / 64)%nat) in *. set (r := (length m mod 64)%nat) in *.
  replace (length m + length d)%nat with ((q + 1) * 64)%nat by lia.
  rewrite Nat.Div0.mod_mul, Nat.div_mul by lia. lia.
Qed.

Lemma represents_split iv m buf val : represents iv m buf val ->
  m = firstn (full_len m) m ++ firstn (tail_len m) buf.
Proof. intros (_ & _ & ->). now rewrite firstn_skipn. Qed.

(** Feeding a chunk [d] that fits in the buffer: stored after the pending bytes, and
    compressed when the buffer is full. *)
Lemma represents_feed iv m buf val d :
  represents iv m buf val -> (tail_len m + length d <= 64)%nat ->
  let buf' := splice buf (tail_len m) d in
  represents iv (m ++ d) buf'
    (if (tail_len m + length d =? 64)%nat then compress buf' val else val).
Proof.
  intros HR Hd buf'. pose proof HR as (Hl & Hv & Ht). pose proof (full_tail m) as Hft.
  assert (Hl' : length buf' = 64%nat) by (subst buf'; rewrite length_splice; lia).
  assert (Hp : firstn (tail_len m + length d) buf' = skipn (full_len m) m ++ d).
  { subst buf'. rewrite firstn_splice by lia. now rewrite Ht. }
  destruct (Nat.eqb_spec (tail_len m + length d) 64) as [E|N].
  - destruct (tail_app_full m d E) as [E1 E2]. split; [assumption|]. split.
    + rewrite E2, firstn_all. rewrite E, firstn_all2 in Hp by lia. rewrite Hp.
      replace (m ++ d) with (firstn (full_len m) m ++ skipn (full_len m) m ++ d)
        by now rewrite app_assoc, firstn_skipn.
      rewrite (absorb_app iv _ _ (length m / 64)) by apply length_full.
      rewrite absorb_one, <- Hv; [reflexivity|].
      rewrite length_app, length_skipn. lia.
    + rewrite E1, E2, skipn_all. reflexivity.
  - destruct (tail_app m d ltac:(lia)) as [E1 E2]. split; [assumption|]. rewrite E1, E2.
    split.
    + rewrite Hv, firstn_app. replace (full_len m - length m)%nat with O by lia.
      cbn. now rewrite app_nil_r.
    + rewrite Hp, skipn_app. replace (full_len m - length m)%nat with O by lia. reflexivity.
Qed.

(** The update loop every implementation runs, on buffer, value and write position. *)
Fixpoint feed_loop (fuel : nat) (buf : list Z) (val : St) (ptr : nat) (data : list Z)
  : list Z * St :=
  match fuel with
  | O => (buf, val)
  | S fuel' =>
      if (0 <? length data)%nat then
        let clen := (64 - ptr)%nat in
        let clen := if (length data <? clen)%nat then length data else clen in
        let buf := splice buf ptr (firstn clen data) in
        let ptr := (ptr + clen)%nat in
        let data := skipn clen data in
        if (ptr =? 64)%nat
        then feed_loop fuel' buf (compress buf val) 0 data
        else feed_loop fuel' buf val ptr data
      else (buf, val)
  end.

Lemma feed_loop_represents iv fuel m b v data :
  represents iv m b v -> (length data <= fuel)%nat ->
  let '(b', v') := feed_loop fuel b v (tail_len m) data in
  represents iv (m ++ data) b' v'.
Proof.
  revert m b v data. induction fuel as [|fuel IH]; intros m b v data HR Hf;
    cbn [feed_loop].
  { replace data with (@nil Z) by (symmetry; apply length_zero_iff_nil; lia).
    now rewrite app_nil_r. }
  destruct (Nat.ltb_spec 0 (length data)) as [Hd|Hd].
  2: { replace data with (@nil Z) by (symmetry; apply length_zero_iff_nil; lia).
       now rewrite app_nil_r. }
  set (clen := if (length data <? 64 - tail_len m)%nat then _ else _).
  pose proof (tail_lt m) as Hlt.
  assert (Hc : (0 < clen /\ clen <= length data /\ tail_len m + clen <= 64)%nat)
    by (subst clen; destruct (Nat.ltb_spec (length data) (64 - tail_len m)); lia).
  assert (Hl : length (firstn clen data) = clen) by (rewrite length_firstn; lia).
  pose proof (represents_feed iv m b v (firstn clen data) HR ltac:(lia)) as HF.
  cbn zeta in HF. rewrite Hl in HF.
  replace (m ++ data) with ((m ++ firstn clen data) ++ skipn clen data)
    by now rewrite <- app_assoc, firstn_skipn.
  destruct (Nat.eqb_spec (tail_len m + clen) 64) as [E|N].
  - replace 0%nat with (tail_len (m ++ firstn clen data))
      by (apply tail_app_full; lia).
    apply IH; [assumption|rewrite length_skipn; lia].
  - replace (tail_len m + clen)%nat with (tail_len (m ++ firstn clen data)).
    2: { rewrite <- Hl at 2. apply tail_app. lia. }
    apply IH; [assumption|rewrite length_skipn; lia].
Qed.

(** Closing: the pending bytes, the one bit, zeros and the length fill one or two blocks.
    [close_one] and [close_two] are the two shapes the implementations build. *)
Definition close_one (tail len8 : list Z) : list Z :=
  tail ++ 0x80 :: repeat 0 (55 - length tail) ++ len8.
Definition close_two_a (tail : list Z) : list Z :=
  tail ++ 0x80 :: repeat 0 (63 - length tail).
Definition close_two_b (len8 : list Z) : list Z := repeat 0 56 ++ len8.

Lemma md_hash_close iv m buf val :
  represents iv m buf val ->
  let tail := firstn (tail_len m) buf in
  let len8 := br_enc64be (u64 (8 * Z.of_nat (length m))) in
  md_hash iv m =
    if (55 <? tail_len m)%nat
    then compress (close_two_b len8) (compress (close_two_a tail) val)
    else compress (close_one tail len8) val.
Proof.
  intros HR tail len8. pose proof HR as (Hl & Hv & Ht). pose proof (full_tail m) as Hft.
  pose proof (tail_lt m) as Hlt.
  assert (Htl : length tail = tail_len m) by (subst tail; rewrite length_firstn; lia).
  assert (Hm : m = firstn (full_len m) m ++ tail).
  { subst tail. rewrite Ht. now rewrite firstn_skipn. }
  assert (L8 : length len8 = 8%nat) by reflexivity.
  assert (Hz : Z.to_nat ((55 - Z.of_nat (length m)) mod 64) =
    if (55 <? tail_len m)%nat then (119 - tail_len m)%nat else (55 - tail_len m)%nat).
  { rewrite <- Hft at 1. unfold full_len. set (q := (length m / 64)%nat) in *.
    replace (55 - Z.of_nat (q * 64 + tail_len m))
      with (55 - Z.of_nat (tail_len m) + (- Z.of_nat q) * 64) by lia.
    rewrite Z_mod_plus_full. destruct (Nat.ltb_spec 55 (tail_len m)).
    - rewrite <- (Z_mod_plus_full _ 1), Z.mod_small by lia. lia.
    - rewrite Z.mod_small by lia. lia. }
  unfold md_hash, padding. fold len8. rewrite Hz, Hm at 1. rewrite <- app_assoc.
  rewrite (absorb_app iv _ _ (length m / 64)) by apply length_full. rewrite <- Hv.
  destruct (Nat.ltb_spec 55 (tail_len m)).
  - replace (119 - tail_len m)%nat with (63 - length tail + 56)%nat by lia.
    rewrite repeat_app, <- app_assoc.
    change (0x80 :: repeat 0 ?a ++ ?b) with ((0x80 :: repeat 0 a) ++ b).
    rewrite app_assoc. fold (close_two_a tail). fold (close_two_b len8).
    assert (length (close_two_a tail) = 64%nat).
    { unfold close_two_a. rewrite length_app. cbn [length]. rewrite repeat_length. lia. }
    rewrite (absorb_app _ _ _ 1), !absorb_one by assumption || reflexivity. reflexivity.
  - rewrite <- Htl. fold (close_one tail len8). apply absorb_one. unfold close_one.
    rewrite length_app. cbn [length]. rewrite length_app, repeat_length. lia.
Qed.

End Spec.

(** Two compression functions that agree on the reachable values give the same hash. *)
Lemma absorb_ext {St} (f g : list Z -> St -> St) (P : St -> Prop) s m :
  P s -> (forall b s', P s' -> f b s' = g b s' /\ P (g b s')) ->
  absorb f s m = absorb g s m.
Proof.
  intros Hs H. unfold absorb. revert s Hs.
  induction (blocks 64 m) as [|b bs IH]; intros s Hs; [reflexivity|].
  cbn [fold_left]. destruct (H b s Hs) as [-> Hg]. now apply IH.
Qed.

(** The low six bits of the 64-bit byte counter are the number of pending bytes. *)
Lemma count_ptr m : Z.to_nat (u64 (Z.of_nat (length m)) .& 63) = tail_len m.
Proof.
  change 63 with (Z.ones 6). rewrite Z.land_ones by lia. unfold wrap.
  rewrite Z.mod_mod_divide by (exists (2 ^ 58); reflexivity).
  change (2 ^ 6) with (Z.of_nat 64). rewrite <- Nat2Z.inj_mod. apply Nat2Z.id.
Qed.

Lemma count_add (m d : list Z) :
  u64 (u64 (Z.of_nat (length m)) + Z.of_nat (length d)) = u64 (Z.of_nat (length (m ++ d))).
Proof. rewrite wrap_add_l, length_app. f_equal. lia. Qed.

(** Overwriting the middle of a buffer. *)
Lemma splice_mid {A} (x y z s : list A) off :
  length x = off -> length y = length s -> splice (x ++ y ++ z) off s = x ++ s ++ z.
Proof.
  intros <- Hy. unfold splice. rewrite firstn_app, Nat.sub_diag, firstn_all. cbn.
  rewrite app_nil_r. do 2 f_equal. rewrite app_assoc, skipn_app, skipn_all2 by
    (rewrite length_app; lia). rewrite length_app, Hy, Nat.sub_diag. reflexivity.
Qed.

Lemma splice_front {A} (y z s : list A) :
  length y = length s -> splice (y ++ z) 0 s = s ++ z.
Proof. intros H. exact (splice_mid [] y z s 0 eq_refl H). Qed.

Lemma repeat_split {A} (x : A) n m : (m <= n)%nat -> repeat x n = repeat x m ++ repeat x (n - m).
Proof. intros. rewrite <- repeat_app. f_equal. lia. Qed.

(** The local block buffer the [out] functions build: pending bytes, [0x80], then zeros and
    the length, in one block or two. *)
Lemma close_buffer tail len8 :
  (length tail < 64)%nat -> length len8 = 8%nat ->
  let t := length tail in
  let tmp := splice (splice (repeat 0 64) 0 tail) t [0x80] in
  ((t + 1 <= 56)%nat ->
     splice (splice tmp (t + 1) (repeat 0 (56 - (t + 1)))) 56 len8 = close_one tail len8) /\
  ((56 < t + 1)%nat ->
     splice tmp (t + 1) (repeat 0 (64 - (t + 1))) = close_two_a tail /\
     splice (splice (close_two_a tail) 0 (repeat 0 56)) 56 len8 = close_two_b len8).
Proof.
  intros Ht H8 t tmp. assert (Et : length tail = t) by reflexivity. clearbody t.
  assert (Htmp : tmp = tail ++ [0x80] ++ repeat 0 (63 - t)).
  { subst tmp. rewrite (repeat_split 0 64 t) by lia.
    rewrite splice_front by (rewrite repeat_length; congruence).
    replace (64 - t)%nat with (1 + (63 - t))%nat by lia. rewrite repeat_app.
    apply (splice_mid tail); [assumption|reflexivity]. }
  rewrite Htmp, app_assoc. assert (L : length (tail ++ [0x80]) = (t + 1)%nat)
    by (rewrite length_app, Et; reflexivity). split; intros Hc.
  - rewrite (repeat_split 0 (63 - t) (56 - (t + 1))) by lia.
    rewrite (splice_mid (tail ++ [0x80])) by (assumption || reflexivity).
    rewrite app_assoc, <- (app_nil_r (repeat 0 (63 - t - (56 - (t + 1))))).
    rewrite splice_mid by (rewrite ?length_app, ?repeat_length; cbn [length]; lia).
    rewrite app_nil_r, <- !app_assoc. unfold close_one.
    replace (55 - length tail)%nat with (56 - (t + 1))%nat by lia. reflexivity.
  - split.
    + rewrite <- (app_nil_r (repeat 0 (63 - t))).
      rewrite (splice_mid (tail ++ [0x80])) by (rewrite ?repeat_length; lia).
      rewrite app_nil_r, <- app_assoc. unfold close_two_a.
      replace (63 - length tail)%nat with (64 - (t + 1))%nat by lia. reflexivity.
    + assert (L2 : length (close_two_a tail) = 64%nat).
      { unfold close_two_a. rewrite length_app. cbn [length]. rewrite repeat_length. lia. }
      rewrite <- (firstn_skipn 56 (close_two_a tail)).
      rewrite splice_front by (rewrite length_firstn, repeat_length; lia).
      rewrite <- (app_nil_r (skipn 56 _)).
      rewrite splice_mid by (rewrite ?length_skipn, ?repeat_length; lia).
      rewrite app_nil_r. reflexivity.
Qed.

End MD.
