(* ===== verification/HashClass.v ===== *)
(** The hash-function interface of src/enclave/include/bearssl/bearssl_hash.h: the class
    structure [br_hash_class] with its descriptor word, and what its users rely on. *)
From S2P Require Import Prelude.
From Stdlib Require Import ZArith List Lia Bool.

(** The vtable a context points to, by name. *)
Inductive hash_name := HASH_SHA1 | HASH_SHA224 | HASH_SHA256.

Definition br_sha1_ID : Z := 2.
Definition br_sha224_ID : Z := 3.
Definition br_sha256_ID : Z := 4.

Definition BR_HASHDESC_OUT_OFF : Z := 8.
Definition BR_HASHDESC_OUT_MASK : Z := 0x7F.
Definition BR_HASHDESC_LBLEN_OFF : Z := 23.
Definition BR_HASHDESC_LBLEN_MASK : Z := 0x0F.
Definition BR_HASHDESC_ID (id : Z) : Z := u32 (id << 0).
Definition BR_HASHDESC_OUT (size : Z) : Z := u32 (size << BR_HASHDESC_OUT_OFF).
Definition BR_HASHDESC_STATE (size : Z) : Z := u32 (size << 15).
Definition BR_HASHDESC_LBLEN (ls : Z) : Z := u32 (ls << BR_HASHDESC_LBLEN_OFF).
Definition BR_HASHDESC_MD_PADDING : Z := u32 (1 << 28).
Definition BR_HASHDESC_MD_PADDING_BE : Z := u32 (1 << 30).

(** [struct br_hash_class_]: the methods take the context (here the context itself, not a
    pointer to its first field) and return the updated context or the bytes they store. *)
Record br_hash_class (ctx : Type) := {
  desc : Z;
  init : ctx -> ctx;
  update : ctx -> list Z -> ctx;
  out : ctx -> list Z;
  state : ctx -> list Z * Z;
  set_state : ctx -> list Z -> Z -> ctx }.
Arguments desc {ctx}.
Arguments init {ctx}.
Arguments update {ctx}.
Arguments out {ctx}.
Arguments state {ctx}.
Arguments set_state {ctx}.

(** [br_digest_size] of inner.h. *)
Definition br_digest_size {ctx} (dig : br_hash_class ctx) : Z :=
  (desc dig >> BR_HASHDESC_OUT_OFF) .& BR_HASHDESC_OUT_MASK.

(** [block_size] of mac/hmac.c. *)
Definition block_size {ctx} (dig : br_hash_class ctx) : Z :=
  let ls := (desc dig >> BR_HASHDESC_LBLEN_OFF) .& BR_HASHDESC_LBLEN_MASK in
  1 << ls.

(** What a class promises its users: [digest] is the hash function it computes, [holds c m]
    says that context [c] has absorbed exactly the bytes [m].  [wf_ctx] is the shape of the
    storage, initialised or not. *)
Class HashImpl {ctx : Type} (dig : br_hash_class ctx) := {
  digest : list Z -> list Z;
  wf_ctx : ctx -> Prop;
  holds : ctx -> list Z -> Prop;
  holds_wf c m : holds c m -> wf_ctx c;
  init_holds c : wf_ctx c -> holds (init dig c) [];
  update_holds c m d : holds c m -> holds (update dig c d) (m ++ d);
  out_digest c m : holds c m -> out dig c = digest m;
  state_count c m : holds c m -> snd (state dig c) = u64 (Z.of_nat (length m));
  state_length c m : holds c m -> (length (fst (state dig c)) <= 64)%nat;
  state_resume c c' m k rest :
    holds c m -> wf_ctx c' -> Z.of_nat (length m) = k * block_size dig ->
    holds (set_state dig c' (fst (state dig c) ++ rest) (u64 (Z.of_nat (length m)))) m;
  digest_length m : Z.of_nat (length (digest m)) = br_digest_size dig;
  digest_bytes m : bytes_ok (digest m) }.
Arguments digest {ctx} dig {_}.
Arguments wf_ctx {ctx} dig {_}.
Arguments holds {ctx} dig {_}.

(** Hashing a sequence of chunks with any implementation of the interface. *)
Lemma stream_digest {ctx} (dig : br_hash_class ctx) {I : HashImpl dig} cc chunks :
  wf_ctx dig cc ->
  out dig (fold_left (update dig) chunks (init dig cc)) = digest dig (concat chunks).
Proof.
  intros Hw. apply out_digest. change (concat chunks) with ([] ++ concat chunks).
  generalize (init_holds cc Hw). generalize (init dig cc) as c, (@nil Z) as m.
  induction chunks as [|d ds IH]; intros c m Hc; cbn [fold_left concat].
  - now rewrite app_nil_r.
  - rewrite app_assoc. apply IH. now apply update_holds.
Qed.
