(* ===== verification/Sha2.v ===== *)
(** SHA-224 and SHA-256: src/enclave/c_src/bearssl/hash/sha2small.c.

    The compression function with its eight-fold unrolled loop and rotating variable names,
    the streaming context and the vtables are translated as written; [Fips] is the function
    of FIPS 180-4 section 6.2, and the theorems relate the two. *)
From S2P Require Import Prelude Codec MerkleDamgard HashClass.
From Stdlib Require Import ZArith List Lia Bool Btauto.
Import Codec.

Module Sha2.

(** ** The source *)

Definition CH (X Y W : Z) : Z := ((Y .^ W) .& X) .^ W.
Definition MAJ (X Y W : Z) : Z := (Y .& W) .| ((Y .| W) .& X).
Definition ROTR (x n : Z) : Z := u32 (x << (32 - n)) .| (x >> n).
Definition BSG2_0 (x : Z) : Z := ROTR x 2 .^ ROTR x 13 .^ ROTR x 22.
Definition BSG2_1 (x : Z) : Z := ROTR x 6 .^ ROTR x 11 .^ ROTR x 25.
Definition SSG2_0 (x : Z) : Z := ROTR x 7 .^ ROTR x 18 .^ (x >> 3).
Definition SSG2_1 (x : Z) : Z := ROTR x 17 .^ ROTR x 19 .^ (x >> 10).

Definition br_sha224_IV : list Z := [
    0xC1059ED8; 0x367CD507; 0x3070DD17; 0xF70E5939;
    0xFFC00B31; 0x68581511; 0x64F98FA7; 0xBEFA4FA4 ].

Definition br_sha256_IV : list Z := [
    0x6A09E667; 0xBB67AE85; 0x3C6EF372; 0xA54FF53A;
    0x510E527F; 0x9B05688C; 0x1F83D9AB; 0x5BE0CD19 ].

Definition K : list Z := [
    0x428A2F98; 0x71374491; 0xB5C0FBCF; 0xE9B5DBA5;
    0x3956C25B; 0x59F111F1; 0x923F82A4; 0xAB1C5ED5;
    0xD807AA98; 0x12835B01; 0x243185BE; 0x550C7DC3;
    0x72BE5D74; 0x80DEB1FE; 0x9BDC06A7; 0xC19BF174;
    0xE49B69C1; 0xEFBE4786; 0x0FC19DC6; 0x240CA1CC;
    0x2DE92C6F; 0x4A7484AA; 0x5CB0A9DC; 0x76F988DA;
    0x983E5152; 0xA831C66D; 0xB00327C8; 0xBF597FC7;
    0xC6E00BF3; 0xD5A79147; 0x06CA6351; 0x14292967;
    0x27B70A85; 0x2E1B2138; 0x4D2C6DFC; 0x53380D13;
    0x650A7354; 0x766A0ABB; 0x81C2C92E; 0x92722C85;
    0xA2BFE8A1; 0xA81A664B; 0xC24B8B70; 0xC76C51A3;
    0xD192E819; 0xD6990624; 0xF40E3585; 0x106AA070;
    0x19A4C116; 0x1E376C08; 0x2748774C; 0x34B0BCB5;
    0x391C0CB3; 0x4ED8AA4A; 0x5B9CCA4F; 0x682E6FF3;
    0x748F82EE; 0x78A5636F; 0x84C87814; 0x8CC70208;
    0x90BEFFFA; 0xA4506CEB; 0xBEF9A3F7; 0xC67178F2 ].

(** The message schedule loop [for (i = 16; i < 64; i ++)]: [n] more words from index [i]. *)
Fixpoint sha2_schedule (n i : nat) (w : list Z) : list Z :=
  match n with
  | O => w
  | S n' =>
      sha2_schedule n' (i + 1)
        (w ++ [u32 (SSG2_1 (nth (i - 2) w 0) + nth (i - 7) w 0
                    + SSG2_0 (nth (i - 15) w 0) + nth (i - 16) w 0)])
  end.

(** The macro [SHA2_STEP]: the new values of its arguments [D] and [H]. *)
Definition SHA2_STEP (w : list Z) (A B C D E F G H : Z) (j : nat) : Z * Z :=
  let T1 := u32 (H + BSG2_1 E + CH E F G + nth j K 0 + nth j w 0) in
  let T2 := u32 (BSG2_0 A + MAJ A B C) in
  (u32 (D + T1), u32 (T1 + T2)).

Definition regs : Type := Z * Z * Z * Z * Z * Z * Z * Z.

(** The body of [for (i = 0; i < 64; i += 8)]. *)
Definition sha2_eight (w : list Z) (i : nat) (r : regs) : regs :=
  let '(a, b, c, d, e, f, g, h) := r in
  let '(d, h) := SHA2_STEP w a b c d e f g h (i + 0) in
  let '(c, g) := SHA2_STEP w h a b c d e f g (i + 1) in
  let '(b, f) := SHA2_STEP w g h a b c d e f (i + 2) in
  let '(a, e) := SHA2_STEP w f g h a b c d e (i + 3) in
  let '(h, d) := SHA2_STEP w e f g h a b c d (i + 4) in
  let '(g, c) := SHA2_STEP w d e f g h a b c (i + 5) in
  let '(f, b) := SHA2_STEP w c d e f g h a b (i + 6) in
  let '(e, a) := SHA2_STEP w b c d e f g h a (i + 7) in
  (a, b, c, d, e, f, g, h).

Fixpoint sha2_loop (n : nat) (w : list Z) (i : nat) (r : regs) : regs :=
  match n with
  | O => r
  | S n' => sha2_loop n' w (i + 8) (sha2_eight w i r)
  end.

Definition br_sha2small_round (buf : list Z) (val : list Z) : list Z :=
  let w := sha2_schedule 48 16 (br_range_dec32be 16 buf) in
  let v i := nth i val 0 in
  let '(a, b, c, d, e, f, g, h) :=
    sha2_loop 8 w 0 (v 0%nat, v 1%nat, v 2%nat, v 3%nat, v 4%nat, v 5%nat, v 6%nat, v 7%nat) in
  [u32 (v 0%nat + a); u32 (v 1%nat + b); u32 (v 2%nat + c); u32 (v 3%nat + d);
   u32 (v 4%nat + e); u32 (v 5%nat + f); u32 (v 6%nat + g); u32 (v 7%nat + h)].

Arguments br_sha2small_round : simpl never.

(** [br_sha224_context], also the type [br_sha256_context]. *)
Record br_sha224_context := {
  vtable : hash_name;
  buf : list Z;
  count : Z;
  val : list Z }.

(** The loop [while (len > 0)] of [sha2small_update]; an iteration consumes at least one byte
    of [data], so [length data] iterations are enough. *)
Fixpoint sha2small_update_loop (fuel : nat) (bufc val : list Z) (ptr : nat) (data : list Z)
  : list Z * list Z :=
  match fuel with
  | O => (bufc, val)
  | S fuel' =>
      if (0 <? length data)%nat then
        let clen := (64 - ptr)%nat in
        let clen := if (length data <? clen)%nat then length data else clen in
        let bufc := splice bufc ptr (firstn clen data) in
        let ptr := (ptr + clen)%nat in
        let data := skipn clen data in
        if (ptr =? 64)%nat
        then sha2small_update_loop fuel' bufc (br_sha2small_round bufc val) 0 data
        else sha2small_update_loop fuel' bufc val ptr data
      else (bufc, val)
  end.

Definition sha2small_update (cc : br_sha224_context) (data : list Z) : br_sha224_context :=
  let len := length data in
  let ptr := Z.to_nat (count cc .& 63) in
  let '(b, v) := sha2small_update_loop len (buf cc) (val cc) ptr data in
  {| vtable := vtable cc; buf := b; count := u64 (count cc + Z.of_nat len); val := v |}.

(** [sha2small_out]: [tmp] is the local [buf] of the function, whose initial content does not
    matter beyond its length. *)
Definition sha2small_out (cc : br_sha224_context) (num : nat) : list Z :=
  let ptr := Z.to_nat (count cc .& 63) in
  let tmp := splice (repeat 0 64) 0 (firstn ptr (buf cc)) in
  let v := val cc in
  let tmp := splice tmp ptr [0x80] in
  let ptr := (ptr + 1)%nat in
  let '(tmp, v) :=
    if (56 <? ptr)%nat then
      let tmp := splice tmp ptr (repeat 0 (64 - ptr)) in
      let v := br_sha2small_round tmp v in
      (splice tmp 0 (repeat 0 56), v)
    else (splice tmp ptr (repeat 0 (56 - ptr)), v) in
  let tmp := splice tmp 56 (br_enc64be (u64 (count cc << 3))) in
  let v := br_sha2small_round tmp v in
  br_range_enc32be v num.

Definition br_sha224_init (cc : br_sha224_context) : br_sha224_context :=
  {| vtable := HASH_SHA224; buf := buf cc; count := 0; val := br_sha224_IV |}.
Definition br_sha224_update (cc : br_sha224_context) (data : list Z) : br_sha224_context :=
  sha2small_update cc data.
Definition br_sha224_out (cc : br_sha224_context) : list Z := sha2small_out cc 7.
Definition br_sha224_state (cc : br_sha224_context) : list Z * Z :=
  (br_range_enc32be (val cc) 8, count cc).
Definition br_sha224_set_state (cc : br_sha224_context) (stb : list Z) (cnt : Z)
  : br_sha224_context :=
  {| vtable := vtable cc; buf := buf cc; count := cnt; val := br_range_dec32be 8 stb |}.
Definition br_sha256_init (cc : br_sha224_context) : br_sha224_context :=
  {| vtable := HASH_SHA256; buf := buf cc; count := 0; val := br_sha256_IV |}.
Definition br_sha256_out (cc : br_sha224_context) : list Z := sha2small_out cc 8.

(** [bearssl_hash.h] defines [br_sha256_update], [br_sha256_state] and [br_sha256_set_state]
    as the SHA-224 functions. *)
Definition br_sha256_update := br_sha224_update.
Definition br_sha256_state := br_sha224_state.
Definition br_sha256_set_state := br_sha224_set_state.

Definition br_sha224_vtable : br_hash_class br_sha224_context := {|
  desc := BR_HASHDESC_ID br_sha224_ID .| BR_HASHDESC_OUT 28 .| BR_HASHDESC_STATE 32
          .| BR_HASHDESC_LBLEN 6 .| BR_HASHDESC_MD_PADDING .| BR_HASHDESC_MD_PADDING_BE;
  init := br_sha224_init; update := br_sha224_update; out := br_sha224_out;
  state := br_sha224_state; set_state := br_sha224_set_state |}.

Definition br_sha256_vtable : br_hash_class br_sha224_context := {|
  desc := BR_HASHDESC_ID br_sha256_ID .| BR_HASHDESC_OUT 32 .| BR_HASHDESC_STATE 32
          .| BR_HASHDESC_LBLEN 6 .| BR_HASHDESC_MD_PADDING .| BR_HASHDESC_MD_PADDING_BE;
  init := br_sha256_init; update := br_sha256_update; out := br_sha256_out;
  state := br_sha256_state; set_state := br_sha256_set_state |}.

(** ** FIPS 180-4, sections 4.1.2, 4.2.2, 5.3 and 6.2 *)
Module Fips.

Definition Ch (x y z : Z) : Z := (x .& y) .^ (Z.lnot x .& z).
Definition Maj (x y z : Z) : Z := (x .& y) .^ (x .& z) .^ (y .& z).

(** [W] is the message schedule of the sixteen words [M]. *)
Definition schedule (M W : list Z) : Prop :=
  length W = 64%nat /\
  (forall t, (t < 16)%nat -> nth t W 0 = nth t M 0) /\
  (forall t, (16 <= t < 64)%nat ->
     nth t W 0 = u32 (SSG2_1 (nth (t - 2) W 0) + nth (t - 7) W 0
                      + SSG2_0 (nth (t - 15) W 0) + nth (t - 16) W 0)).

(** One of the 64 rounds, on the working variables. *)
Definition step (W : list Z) (r : regs) (t : nat) : regs :=
  let '(a, b, c, d, e, f, g, h) := r in
  let T1 := u32 (h + BSG2_1 e + Ch e f g + nth t K 0 + nth t W 0) in
  let T2 := u32 (BSG2_0 a + Maj a b c) in
  (u32 (T1 + T2), a, b, c, u32 (d + T1), e, f, g).

Definition regs_of (H : list Z) : regs :=
  let v i := nth i H 0 in
  (v 0%nat, v 1%nat, v 2%nat, v 3%nat, v 4%nat, v 5%nat, v 6%nat, v 7%nat).

(** The new hash value: each word of [H] plus the corresponding working variable. *)
Definition add_regs (H : list Z) (r : regs) : list Z :=
  let '(a, b, c, d, e, f, g, h) := r in
  map (fun p => u32 (fst p + snd p)) (combine H [a; b; c; d; e; f; g; h]).

Definition compress_with (W H : list Z) : list Z :=
  add_regs H (fold_left (step W) (seq 0 64) (regs_of H)).

Definition compress (b H : list Z) : list Z :=
  compress_with (sha2_schedule 48 16 (br_range_dec32be 16 b)) H.

(** The whole function: pad, compress every block, and keep the leading [num] words of the
    result as bytes. *)
Definition sha2 (iv : list Z) (num : nat) (m : list Z) : list Z :=
  br_range_enc32be (MD.md_hash compress iv m) num.

(** Section 4.2.2 and 5.3: where the constants come from. *)
Definition is_prime (n : Z) : bool :=
  forallb (fun d => negb (n mod d =? 0)) (map Z.of_nat (seq 2 (Z.to_nat n - 2))).
Definition primes_upto (n : nat) : list Z :=
  filter is_prime (map Z.of_nat (seq 2 (n - 1))).

(** [k] is the first 32 bits of the fractional part of the cube root of [p]. *)
Definition frac_cbrt (p k : Z) : Prop :=
  exists r, in_range 32 k /\ (r * 2 ^ 32 + k) ^ 3 <= p * 2 ^ 96 < (r * 2 ^ 32 + k + 1) ^ 3.
(** [k] is bits [32 i] to [32 i + 31] of the fractional part of the square root of [p]. *)
Definition frac_sqrt (i : Z) (p k : Z) : Prop :=
  exists r, in_range 32 k /\
    (r * 2 ^ 32 + k) ^ 2 <= p * 2 ^ (64 * (i + 1)) < (r * 2 ^ 32 + k + 1) ^ 2.

End Fips.

(** ** The compression function is the one of FIPS 180-4 *)

Lemma CH_Ch x y z : CH x y z = Fips.Ch x y z.
Proof. unfold CH, Fips.Ch. zbits. Qed.

Lemma MAJ_Maj x y z : MAJ x y z = Fips.Maj x y z.
Proof. unfold MAJ, Fips.Maj. zbits. Qed.

Lemma step_of_macro w a b c d e f g h j :
  Fips.step w (a, b, c, d, e, f, g, h) j =
  let '(d', h') := SHA2_STEP w a b c d e f g h j in (h', a, b, c, d', e, f, g).
Proof. unfold SHA2_STEP. rewrite CH_Ch, MAJ_Maj. reflexivity. Qed.

Lemma sha2_eight_steps w i r : sha2_eight w i r = fold_left (Fips.step w) (seq i 8) r.
Proof.
  destruct r as [[[[[[[a b] c] d] e] f] g] h]. cbn [seq fold_left]. unfold sha2_eight.
  rewrite (Nat.add_comm i 0), (Nat.add_comm i 1), (Nat.add_comm i 2), (Nat.add_comm i 3),
    (Nat.add_comm i 4), (Nat.add_comm i 5), (Nat.add_comm i 6), (Nat.add_comm i 7).
  cbn [Nat.add].
  repeat (rewrite step_of_macro; destruct (SHA2_STEP _ _ _ _ _ _ _ _ _ _)).
  reflexivity.
Qed.

Lemma sha2_loop_steps n w i r :
  sha2_loop n w i r = fold_left (Fips.step w) (seq i (8 * n)) r.
Proof.
  revert i r. induction n as [|n IH]; intros i r; [reflexivity|].
  cbn [sha2_loop]. rewrite IH, sha2_eight_steps, <- fold_left_app, <- seq_app.
  f_equal. f_equal. lia.
Qed.

Lemma sha2_schedule_length n i w : length (sha2_schedule n i w) = (length w + n)%nat.
Proof.
  revert i w. induction n as [|n IH]; intros i w; cbn [sha2_schedule]; [lia|].
  rewrite IH, length_app. cbn. lia.
Qed.

Lemma sha2_schedule_prefix n i w t :
  (t < length w)%nat -> nth t (sha2_schedule n i w) 0 = nth t w 0.
Proof.
  revert i w. induction n as [|n IH]; intros i w H; cbn [sha2_schedule]; [reflexivity|].
  rewrite IH by (rewrite length_app; lia). now rewrite app_nth1.
Qed.

Lemma sha2_schedule_rec n i w t :
  length w = i -> (16 <= i)%nat -> (i <= t < i + n)%nat ->
  let W := sha2_schedule n i w in
  nth t W 0 = u32 (SSG2_1 (nth (t - 2) W 0) + nth (t - 7) W 0
                   + SSG2_0 (nth (t - 15) W 0) + nth (t - 16) W 0).
Proof.
  revert i w. induction n as [|n IH]; intros i w Hl Hi Ht; [lia|]. cbn [sha2_schedule].
  set (w' := w ++ _). assert (Hl' : length w' = (i + 1)%nat)
    by (subst w'; rewrite length_app; cbn; lia).
  destruct (Nat.eq_dec t i) as [->|N].
  - rewrite !(sha2_schedule_prefix n (i + 1) w') by lia. subst w'.
    rewrite (app_nth2 w) by lia. rewrite Hl, Nat.sub_diag. cbn [nth].
    rewrite !(app_nth1 w) by lia. reflexivity.
  - apply (IH (i + 1)%nat w'); lia.
Qed.

Lemma sha2_schedule_spec M :
  length M = 16%nat -> Fips.schedule M (sha2_schedule 48 16 M).
Proof.
  intros H. split; [rewrite sha2_schedule_length, H; reflexivity|]. split.
  - intros t Ht. apply sha2_schedule_prefix. lia.
  - intros t Ht. apply sha2_schedule_rec; lia.
Qed.

Lemma schedule_unique M W W' : Fips.schedule M W -> Fips.schedule M W' -> W = W'.
Proof.
  intros (L & A & B) (L' & A' & B'). apply (nth_ext _ _ 0 0); [congruence|].
  rewrite L. intros n Hn. induction n as [n IH] using (well_founded_ind Wf_nat.lt_wf).
  destruct (Nat.lt_ge_cases n 16).
  - rewrite A, A' by assumption. reflexivity.
  - rewrite B, B', !IH by lia. reflexivity.
Qed.

Lemma br_sha2small_round_shape b v :
  length (br_sha2small_round b v) = 8%nat /\ words_ok 32 (br_sha2small_round b v).
Proof.
  unfold br_sha2small_round.
  destruct (sha2_loop _ _ _ _) as [[[[[[[? ?] ?] ?] ?] ?] ?] ?].
  split; [reflexivity|]. repeat constructor; apply wrap_range; lia.
Qed.

Lemma round_compress b v W :
  length v = 8%nat -> Fips.schedule (br_range_dec32be 16 b) W ->
  br_sha2small_round b v = Fips.compress_with W v.
Proof.
  intros Hv HW.
  rewrite (schedule_unique _ _ _ HW (sha2_schedule_spec _ (br_range_dec32be_length 16 b))).
  unfold br_sha2small_round, Fips.compress_with. rewrite sha2_loop_steps.
  change (8 * 8)%nat with 64%nat. unfold Fips.regs_of.
  destruct (fold_left _ _ _) as [[[[[[[? ?] ?] ?] ?] ?] ?] ?].
  explode v. reflexivity.
Qed.

(** The SHA-2 compression function of the code -- schedule loop, eight-fold unrolled
    rounds with rotating variable names, multiplexer forms of Ch and Maj -- is the function
    of FIPS 180-4 section 6.2.2, for the message schedule [W] that section defines. *)
Theorem sha2_round_is_fips (b v W : list Z)
  (Hv : length v = 8%nat) (HW : Fips.schedule (br_range_dec32be 16 b) W) :
  br_sha2small_round b v = Fips.compress_with W v.
Proof. now apply round_compress. Qed.

Lemma sha2_round_is_fips_witness :
  br_sha2small_round (repeat 0 64) br_sha256_IV
  = Fips.compress_with (sha2_schedule 48 16 (repeat 0 16)) br_sha256_IV.
Proof.
  apply (sha2_round_is_fips (repeat 0 64) br_sha256_IV); [reflexivity|].
  apply (sha2_schedule_spec (repeat 0 16)). reflexivity.
Defined.

(** ** Streaming *)

(** The context has absorbed exactly [m] since an [init] with initial value [iv]. *)
Definition sha2_holds (iv : list Z) (cc : br_sha224_context) (m : list Z) : Prop :=
  MD.represents br_sha2small_round iv m (buf cc) (val cc) /\
  count cc = u64 (Z.of_nat (length m)).

Lemma update_loop_feed fuel b v ptr data :
  sha2small_update_loop fuel b v ptr data
  = MD.feed_loop br_sha2small_round fuel b v ptr data.
Proof.
  revert b v ptr data. induction fuel as [|fuel IH]; intros; [reflexivity|].
  cbn [sha2small_update_loop MD.feed_loop]. now rewrite !IH.
Qed.

Lemma sha2_update_holds iv cc m data :
  sha2_holds iv cc m -> sha2_holds iv (sha2small_update cc data) (m ++ data).
Proof.
  intros [HR Hc]. unfold sha2small_update. rewrite Hc, MD.count_ptr.
  pose proof (MD.feed_loop_represents _ iv (length data) m (buf cc) (val cc) data HR
    (le_n _)) as HU. rewrite update_loop_feed.
  destruct (MD.feed_loop _ _ _ _ _ _) as [b' v']. split; [exact HU|].
  apply MD.count_add.
Qed.

Lemma md_hash_compress iv m : length iv = 8%nat ->
  MD.md_hash br_sha2small_round iv m = MD.md_hash Fips.compress iv m.
Proof.
  intros Hl. apply (MD.absorb_ext _ _ (fun v => length v = 8%nat)); [assumption|].
  intros b v Hv. assert (E : br_sha2small_round b v = Fips.compress b v).
  { apply round_compress; [assumption|]. apply sha2_schedule_spec, br_range_dec32be_length. }
  split; [exact E|]. rewrite <- E. apply br_sha2small_round_shape.
Qed.

Lemma sha2_out_spec iv cc m num : length iv = 8%nat ->
  sha2_holds iv cc m -> sha2small_out cc num = Fips.sha2 iv num m.
Proof.
  intros Hiv [HR Hc]. unfold sha2small_out, Fips.sha2. rewrite <- md_hash_compress by assumption. rewrite Hc, MD.count_ptr, count_bits.
  pose proof (MD.tail_lt m) as Hlt. pose proof HR as (Hl & _).
  rewrite (MD.md_hash_close _ iv m _ _ HR). set (len8 := br_enc64be _).
  set (tail := firstn (MD.tail_len m) (buf cc)).
  assert (Ht : length tail = MD.tail_len m) by (subst tail; rewrite length_firstn; lia).
  rewrite <- Ht in *.
  destruct (MD.close_buffer tail len8 ltac:(lia) eq_refl) as [C1 C2].
  destruct (Nat.ltb_spec 55 (length tail)), (Nat.ltb_spec 56 (length tail + 1)); try lia.
  - destruct C2 as [Ca Cb]; [assumption|]. now rewrite Ca, Cb.
  - now rewrite C1.
Qed.

Definition wf_context (cc : br_sha224_context) : Prop := length (buf cc) = 64%nat.

Lemma sha224_init_holds cc :
  wf_context cc -> sha2_holds br_sha224_IV (br_sha224_init cc) [].
Proof. intros H. split; [now apply MD.represents_nil|reflexivity]. Qed.

Lemma sha256_init_holds cc :
  wf_context cc -> sha2_holds br_sha256_IV (br_sha256_init cc) [].
Proof. intros H. split; [now apply MD.represents_nil|reflexivity]. Qed.

(** The running value always is eight 32-bit words. *)
Lemma absorb_shape iv m : length iv = 8%nat -> words_ok 32 iv ->
  length (MD.absorb br_sha2small_round iv m) = 8%nat /\
  words_ok 32 (MD.absorb br_sha2small_round iv m).
Proof.
  intros Hl Hw.
  apply (MD.absorb_inv _ (fun v => length v = 8%nat /\ words_ok 32 v)); [split; assumption|].
  intros b v _. apply br_sha2small_round_shape.
Qed.

Lemma holds_shape iv cc m : length iv = 8%nat -> words_ok 32 iv -> sha2_holds iv cc m ->
  length (val cc) = 8%nat /\ words_ok 32 (val cc).
Proof. intros Hl Hw [(_ & -> & _) _]. now apply absorb_shape. Qed.

(** Saving the running state after whole blocks and restoring it in another context resumes
    the same computation. *)
Lemma sha2_state_resume iv cc cc' m k rest :
  length iv = 8%nat -> words_ok 32 iv ->
  sha2_holds iv cc m -> wf_context cc' -> length m = (k * 64)%nat ->
  sha2_holds iv (br_sha224_set_state cc' (fst (br_sha224_state cc) ++ rest)
                   (u64 (Z.of_nat (length m)))) m.
Proof.
  intros Hl Hw HS Hwf Hm. pose proof HS as [(Hb & Hv & Ht) Hc].
  destruct (holds_shape iv cc m Hl Hw HS) as [Lv Wv].
  split; [|reflexivity]. unfold br_sha224_set_state, br_sha224_state. cbn [buf val fst].
  rewrite br_range_dec_enc by assumption.
  split; [assumption|]. split; [assumption|].
  assert (E : MD.tail_len m = O) by (unfold MD.tail_len; rewrite Hm; apply Nat.Div0.mod_mul).
  rewrite E in Ht |- *. exact Ht.
Qed.

Lemma sha2_length iv num m : length (Fips.sha2 iv num m) = (4 * num)%nat.
Proof. apply br_range_enc32be_length. Qed.

Lemma sha2_holds_wf iv cc m : sha2_holds iv cc m -> wf_context cc.
Proof. intros [(H & _) _]. exact H. Qed.

Lemma IV_words : words_ok 32 br_sha224_IV /\ words_ok 32 br_sha256_IV.
Proof. split; apply words_ok_forallb; reflexivity. Qed.

(** SHA-224 and SHA-256 implement the hash-class interface. *)
#[global] Instance sha224_impl : HashImpl br_sha224_vtable.
Proof.
  refine {| digest := Fips.sha2 br_sha224_IV 7; wf_ctx := wf_context;
            holds := sha2_holds br_sha224_IV |}.
  - apply sha2_holds_wf.
  - apply sha224_init_holds.
  - intros c m d. apply sha2_update_holds.
  - intros c m. now apply sha2_out_spec.
  - intros c m [_ H]. exact H.
  - intros c m _. apply Nat.leb_le. reflexivity.
  - intros c c' m k rest H Hw Hk. apply (sha2_state_resume _ _ _ _ (Z.to_nat k));
      [reflexivity|apply IV_words|assumption..|].
    change (block_size br_sha224_vtable) with 64 in Hk. lia.
  - intros m. rewrite sha2_length. reflexivity.
  - intros m. apply br_range_enc32be_bytes.
Defined.

#[global] Instance sha256_impl : HashImpl br_sha256_vtable.
Proof.
  refine {| digest := Fips.sha2 br_sha256_IV 8; wf_ctx := wf_context;
            holds := sha2_holds br_sha256_IV |}.
  - apply sha2_holds_wf.
  - apply sha256_init_holds.
  - intros c m d. apply sha2_update_holds.
  - intros c m. now apply sha2_out_spec.
  - intros c m [_ H]. exact H.
  - intros c m _. apply Nat.leb_le. reflexivity.
  - intros c c' m k rest H Hw Hk. apply (sha2_state_resume _ _ _ _ (Z.to_nat k));
      [reflexivity|apply IV_words|assumption..|].
    change (block_size br_sha256_vtable) with 64 in Hk. lia.
  - intros m. rewrite sha2_length. reflexivity.
  - intros m. apply br_range_enc32be_bytes.
Defined.

(** Hashing with SHA-224 or SHA-256 does not depend on how the data is cut into
    [update] calls: whatever the chunks (empty ones, chunks across block boundaries) and
    whatever the buffer held before [init], the output is the FIPS 180-4 digest of their
    concatenation. *)
Theorem sha2_streaming (cc : br_sha224_context) (chunks : list (list Z))
  (Hcc : length (buf cc) = 64%nat) :
  br_sha256_out (fold_left br_sha256_update chunks (br_sha256_init cc))
    = Fips.sha2 br_sha256_IV 8 (concat chunks) /\
  br_sha224_out (fold_left br_sha224_update chunks (br_sha224_init cc))
    = Fips.sha2 br_sha224_IV 7 (concat chunks).
Proof.
  split.
  - exact (stream_digest br_sha256_vtable cc chunks Hcc).
  - exact (stream_digest br_sha224_vtable cc chunks Hcc).
Qed.

Definition blank_context : br_sha224_context :=
  {| vtable := HASH_SHA1; buf := repeat 0xAA 64; count := 7; val := [] |}.

Lemma sha2_streaming_witness :
  br_sha256_out (fold_left br_sha256_update [[0x61]; []; [0x62; 0x63]] (br_sha256_init blank_context))
    = Fips.sha2 br_sha256_IV 8 [0x61; 0x62; 0x63].
Proof. exact (proj1 (sha2_streaming blank_context [[0x61]; []; [0x62; 0x63]] eq_refl)). Defined.

(** The digest of "abc" (FIPS 180-4 example). *)
Example sha256_abc :
  br_sha256_out (br_sha256_update (br_sha256_init blank_context) [0x61; 0x62; 0x63])
  = br_range_enc32be [0xBA7816BF; 0x8F01CFEA; 0x414140DE; 0x5DAE2223;
                      0xB00361A3; 0x96177A9C; 0xB410FF61; 0xF20015AD] 8.
Proof. vm_compute. reflexivity. Qed.

(** ** The tables *)

Fixpoint forallb2 {A B} (f : A -> B -> bool) (l : list A) (l' : list B) : bool :=
  match l, l' with
  | [], [] => true
  | x :: l, y :: l' => f x y && forallb2 f l l'
  | _, _ => false
  end.

Lemma forallb2_Forall2 {A B} (f : A -> B -> bool) (R : A -> B -> Prop) l l' :
  (forall x y, f x y = true -> R x y) -> forallb2 f l l' = true -> Forall2 R l l'.
Proof.
  intros HR. revert l'. induction l as [|x l IH]; intros [|y l'] H; try discriminate;
    [constructor|]. cbn in H. apply andb_true_iff in H. destruct H. constructor; auto.
Qed.

(** The root with fractional part [k]: the integer part is at most the one of the operand. *)
Definition frac_rootb (e s p k : Z) : bool :=
  in_rangeb 32 k &&
  let c := fun r => r * 2 ^ 32 + k in
  existsb (fun r => (c r ^ e <=? p * 2 ^ s) && (p * 2 ^ s <? (c r + 1) ^ e))
    [Z.sqrt (p * 2 ^ s) / 2 ^ 32; 1; 2; 3; 4; 5; 6].

Lemma frac_rootb_spec e s p k : frac_rootb e s p k = true ->
  exists r, in_range 32 k /\ (r * 2 ^ 32 + k) ^ e <= p * 2 ^ s < (r * 2 ^ 32 + k + 1) ^ e.
Proof.
  unfold frac_rootb. rewrite andb_true_iff, in_rangeb_spec, existsb_exists.
  intros (Hk & r & _ & Hr). apply andb_true_iff in Hr.
  rewrite Z.leb_le, Z.ltb_lt in Hr. now exists r.
Qed.

(** The constant tables are the ones FIPS 180-4 defines: [K] holds the first 32
    fractional bits of the cube roots of the first 64 primes, the SHA-256 initial value the
    first 32 fractional bits of the square roots of the first 8 primes, and the SHA-224
    initial value the second 32 fractional bits of the square roots of the 9th to 16th. *)
Theorem sha2_tables :
  Forall2 Fips.frac_cbrt (Fips.primes_upto 311) K /\
  Forall2 (Fips.frac_sqrt 0) (firstn 8 (Fips.primes_upto 53)) br_sha256_IV /\
  Forall2 (Fips.frac_sqrt 1) (skipn 8 (Fips.primes_upto 53)) br_sha224_IV.
Proof.
  split; [|split]; (eapply forallb2_Forall2; [intros p k; apply frac_rootb_spec|]);
    vm_compute; reflexivity.
Qed.

End Sha2.
