(* ===== verification/Sha1.v ===== *)
(** SHA-1: src/enclave/c_src/bearssl/hash/sha1.c, translated as written and related to the
    function of FIPS 180-4 section 6.1. *)
From S2P Require Import Prelude Codec MerkleDamgard HashClass.
From Stdlib Require Import ZArith List Lia Bool Btauto.
Import Codec.

Module Sha1.

(** ** The source *)

Definition F (B C D : Z) : Z := ((C .^ D) .& B) .^ D.
Definition G (B C D : Z) : Z := B .^ C .^ D.
Definition H (B C D : Z) : Z := (D .& C) .| ((D .| C) .& B).
Definition I (B C D : Z) : Z := G B C D.
Definition ROTL (x n : Z) : Z := u32 (x << n) .| (x >> (32 - n)).

Definition K1 : Z := 0x5A827999.
Definition K2 : Z := 0x6ED9EBA1.
Definition K3 : Z := 0x8F1BBCDC.
Definition K4 : Z := 0xCA62C1D6.

Definition br_sha1_IV : list Z :=
  [0x67452301; 0xEFCDAB89; 0x98BADCFE; 0x10325476; 0xC3D2E1F0].

(** [for (i = 16; i < 80; i ++)]: [n] more words of [m] from index [i]. *)
Fixpoint sha1_schedule (n i : nat) (m : list Z) : list Z :=
  match n with
  | O => m
  | S n' =>
      let x := nth (i - 3) m 0 .^ nth (i - 8) m 0 .^ nth (i - 14) m 0 .^ nth (i - 16) m 0 in
      sha1_schedule n' (i + 1) (m ++ [ROTL x 1])
  end.

Definition regs : Type := Z * Z * Z * Z * Z.

(** The body of each of the four loops [for (i = ..; i < ..; i += 5)], for its function [f]
    and constant [k]. *)
Definition sha1_five (f : Z -> Z -> Z -> Z) (k : Z) (m : list Z) (i : nat) (r : regs) : regs :=
  let '(a, b, c, d, e) := r in
  let e := u32 (e + (ROTL a 5 + f b c d + k + nth (i + 0) m 0)) in let b := ROTL b 30 in
  let d := u32 (d + (ROTL e 5 + f a b c + k + nth (i + 1) m 0)) in let a := ROTL a 30 in
  let c := u32 (c + (ROTL d 5 + f e a b + k + nth (i + 2) m 0)) in let e := ROTL e 30 in
  let b := u32 (b + (ROTL c 5 + f d e a + k + nth (i + 3) m 0)) in let d := ROTL d 30 in
  let a := u32 (a + (ROTL b 5 + f c d e + k + nth (i + 4) m 0)) in let c := ROTL c 30 in
  (a, b, c, d, e).

Fixpoint sha1_loop (n : nat) (f : Z -> Z -> Z -> Z) (k : Z) (m : list Z) (i : nat) (r : regs)
  : regs :=
  match n with
  | O => r
  | S n' => sha1_loop n' f k m (i + 5) (sha1_five f k m i r)
  end.

Definition br_sha1_round (buf : list Z) (val : list Z) : list Z :=
  let v i := nth i val 0 in
  let r := (v 0%nat, v 1%nat, v 2%nat, v 3%nat, v 4%nat) in
  let m := sha1_schedule 64 16 (br_range_dec32be 16 buf) in
  let r := sha1_loop 4 F K1 m 0 r in
  let r := sha1_loop 4 G K2 m 20 r in
  let r := sha1_loop 4 H K3 m 40 r in
  let r := sha1_loop 4 I K4 m 60 r in
  let '(a, b, c, d, e) := r in
  [u32 (v 0%nat + a); u32 (v 1%nat + b); u32 (v 2%nat + c); u32 (v 3%nat + d); u32 (v 4%nat + e)].

Arguments br_sha1_round : simpl never.

Record br_sha1_context := {
  vtable : hash_name;
  buf : list Z;
  count : Z;
  val : list Z }.

Definition br_sha1_init (cc : br_sha1_context) : br_sha1_context :=
  {| vtable := HASH_SHA1; buf := buf cc; count := 0; val := br_sha1_IV |}.

(** The loop [while (len > 0)] of [br_sha1_update], which also advances the byte count. *)
Fixpoint sha1_update_loop (fuel : nat) (bufc val : list Z) (cnt : Z) (ptr : nat) (data : list Z)
  : list Z * list Z * Z :=
  match fuel with
  | O => (bufc, val, cnt)
  | S fuel' =>
      if (0 <? length data)%nat then
        let clen := (64 - ptr)%nat in
        let clen := if (length data <? clen)%nat then length data else clen in
        let bufc := splice bufc ptr (firstn clen data) in
        let ptr := (ptr + clen)%nat in
        let data := skipn clen data in
        let cnt := u64 (cnt + Z.of_nat clen) in
        if (ptr =? 64)%nat
        then sha1_update_loop fuel' bufc (br_sha1_round bufc val) cnt 0 data
        else sha1_update_loop fuel' bufc val cnt ptr data
      else (bufc, val, cnt)
  end.

Definition br_sha1_update (cc : br_sha1_context) (data : list Z) : br_sha1_context :=
  let ptr := Z.to_nat (count cc .& 63) in
  let '(b, v, n) := sha1_update_loop (length data) (buf cc) (val cc) (count cc) ptr data in
  {| vtable := vtable cc; buf := b; count := n; val := v |}.

Definition br_sha1_out (cc : br_sha1_context) : list Z :=
  let ptr := Z.to_nat (count cc .& 63) in
  let tmp := splice (repeat 0 64) 0 (firstn ptr (buf cc)) in
  let v := val cc in
  let tmp := splice tmp ptr [0x80] in
  let ptr := (ptr + 1)%nat in
  let '(tmp, v) :=
    if (56 <? ptr)%nat then
      let tmp := splice tmp ptr (repeat 0 (64 - ptr)) in
      let v := br_sha1_round tmp v in
      (splice tmp 0 (repeat 0 56), v)
    else (splice tmp ptr (repeat 0 (56 - ptr)), v) in
  let tmp := splice tmp 56 (br_enc64be (u64 (count cc << 3))) in
  let v := br_sha1_round tmp v in
  br_range_enc32be v 5.

Definition br_sha1_state (cc : br_sha1_context) : list Z * Z :=
  (br_range_enc32be (val cc) 5, count cc).
Definition br_sha1_set_state (cc : br_sha1_context) (stb : list Z) (cnt : Z) : br_sha1_context :=
  {| vtable := vtable cc; buf := buf cc; count := cnt; val := br_range_dec32be 5 stb |}.

Definition br_sha1_vtable : br_hash_class br_sha1_context := {|
  desc := BR_HASHDESC_ID br_sha1_ID .| BR_HASHDESC_OUT 20 .| BR_HASHDESC_STATE 20
          .| BR_HASHDESC_LBLEN 6 .| BR_HASHDESC_MD_PADDING .| BR_HASHDESC_MD_PADDING_BE;
  init := br_sha1_init; update := br_sha1_update; out := br_sha1_out;
  state := br_sha1_state; set_state := br_sha1_set_state |}.

(** ** FIPS 180-4, sections 4.1.1, 4.2.1 and 6.1 *)
Module Fips.

Definition Ch (x y z : Z) : Z := (x .& y) .^ (Z.lnot x .& z).
Definition Parity (x y z : Z) : Z := x .^ y .^ z.
Definition Maj (x y z : Z) : Z := (x .& y) .^ (x .& z) .^ (y .& z).

Definition f (t : nat) : Z -> Z -> Z -> Z :=
  if (t <? 20)%nat then Ch else if (t <? 40)%nat then Parity
  else if (t <? 60)%nat then Maj else Parity.
Definition K (t : nat) : Z :=
  if (t <? 20)%nat then 0x5A827999 else if (t <? 40)%nat then 0x6ED9EBA1
  else if (t <? 60)%nat then 0x8F1BBCDC else 0xCA62C1D6.

Definition schedule (M W : list Z) : Prop :=
  length W = 80%nat /\
  (forall t, (t < 16)%nat -> nth t W 0 = nth t M 0) /\
  (forall t, (16 <= t < 80)%nat ->
     nth t W 0 = ROTL (nth (t - 3) W 0 .^ nth (t - 8) W 0
                       .^ nth (t - 14) W 0 .^ nth (t - 16) W 0) 1).

Definition step (W : list Z) (r : regs) (t : nat) : regs :=
  let '(a, b, c, d, e) := r in
  let T := u32 (ROTL a 5 + f t b c d + e + K t + nth t W 0) in
  (T, a, ROTL b 30, c, d).

Definition regs_of (H : list Z) : regs :=
  let v i := nth i H 0 in (v 0%nat, v 1%nat, v 2%nat, v 3%nat, v 4%nat).

Definition add_regs (H : list Z) (r : regs) : list Z :=
  let '(a, b, c, d, e) := r in
  map (fun p => u32 (fst p + snd p)) (combine H [a; b; c; d; e]).

Definition compress_with (W H : list Z) : list Z :=
  add_regs H (fold_left (step W) (seq 0 80) (regs_of H)).

Definition compress (b H : list Z) : list Z :=
  compress_with (sha1_schedule 64 16 (br_range_dec32be 16 b)) H.

Definition sha1 (m : list Z) : list Z :=
  br_range_enc32be (MD.md_hash compress br_sha1_IV m) 5.

End Fips.

(** ** The compression function *)

Lemma F_Ch x y z : F x y z = Fips.Ch x y z.
Proof. unfold F, Fips.Ch. zbits. Qed.

Lemma H_Maj x y z : H x y z = Fips.Maj x y z.
Proof. unfold H, Fips.Maj. zbits. Qed.

(** One source statement pair is one FIPS step when [f] and [k] are those of round [t]. *)
Lemma step_with f k w a b c d e t :
  (forall x y z, f x y z = Fips.f t x y z) -> k = Fips.K t ->
  Fips.step w (a, b, c, d, e) t =
  (u32 (e + (ROTL a 5 + f b c d + k + nth t w 0)), a, ROTL b 30, c, d).
Proof. intros Hf ->. unfold Fips.step. rewrite Hf. do 4 f_equal. f_equal. lia. Qed.

Lemma sha1_five_steps f k w i r :
  (forall t x y z, (i <= t < i + 5)%nat -> f x y z = Fips.f t x y z) ->
  (forall t, (i <= t < i + 5)%nat -> k = Fips.K t) ->
  sha1_five f k w i r = fold_left (Fips.step w) (seq i 5) r.
Proof.
  intros Hf Hk. destruct r as [[[[a b] c] d] e]. cbn [seq fold_left]. unfold sha1_five.
  rewrite (Nat.add_comm i 0), (Nat.add_comm i 1), (Nat.add_comm i 2), (Nat.add_comm i 3),
    (Nat.add_comm i 4). cbn [Nat.add].
  repeat (rewrite (step_with f k) by (intros; first [apply Hf | apply Hk]; lia)).
  reflexivity.
Qed.

Lemma sha1_loop_steps f k w n i r :
  (forall t x y z, (i <= t < i + 5 * n)%nat -> f x y z = Fips.f t x y z) ->
  (forall t, (i <= t < i + 5 * n)%nat -> k = Fips.K t) ->
  sha1_loop n f k w i r = fold_left (Fips.step w) (seq i (5 * n)) r.
Proof.
  revert i r. induction n as [|n IH]; intros i r Hf Hk; [reflexivity|].
  cbn [sha1_loop]. rewrite IH by (intros; first [apply Hf | apply Hk]; lia).
  rewrite sha1_five_steps by (intros; first [apply Hf | apply Hk]; lia).
  rewrite <- fold_left_app, <- seq_app. f_equal. f_equal. lia.
Qed.

(** Decides the round functions and constants on an interval of rounds. *)
Ltac round_consts :=
  intros; unfold Fips.f, Fips.K;
  repeat match goal with |- context [(?a <? ?b)%nat] => destruct (Nat.ltb_spec a b); try lia end;
  auto using F_Ch, H_Maj.

Lemma sha1_rounds w r :
  sha1_loop 4 I K4 w 60 (sha1_loop 4 H K3 w 40 (sha1_loop 4 G K2 w 20 (sha1_loop 4 F K1 w 0 r)))
  = fold_left (Fips.step w) (seq 0 80) r.
Proof.
  rewrite !sha1_loop_steps by round_consts. rewrite <- !fold_left_app, <- !seq_app. reflexivity.
Qed.

Lemma sha1_schedule_length n i w : length (sha1_schedule n i w) = (length w + n)%nat.
Proof.
  revert i w. induction n as [|n IH]; intros i w; cbn [sha1_schedule]; [lia|].
  rewrite IH, length_app. cbn. lia.
Qed.

Lemma sha1_schedule_prefix n i w t :
  (t < length w)%nat -> nth t (sha1_schedule n i w) 0 = nth t w 0.
Proof.
  revert i w. induction n as [|n IH]; intros i w Hl; cbn [sha1_schedule]; [reflexivity|].
  rewrite IH by (rewrite length_app; lia). now rewrite app_nth1.
Qed.

Lemma sha1_schedule_rec n i w t :
  length w = i -> (16 <= i)%nat -> (i <= t < i + n)%nat ->
  let W := sha1_schedule n i w in
  nth t W 0 = ROTL (nth (t - 3) W 0 .^ nth (t - 8) W 0
                    .^ nth (t - 14) W 0 .^ nth (t - 16) W 0) 1.
Proof.
  revert i w. induction n as [|n IH]; intros i w Hl Hi Ht; [lia|]. cbn [sha1_schedule].
  set (w' := w ++ _). assert (Hl' : length w' = (i + 1)%nat)
    by (subst w'; rewrite length_app; cbn; lia).
  destruct (Nat.eq_dec t i) as [->|N].
  - rewrite !(sha1_schedule_prefix n (i + 1) w') by lia. subst w'.
    rewrite (app_nth2 w) by lia. rewrite Hl, Nat.sub_diag. cbn [nth].
    rewrite !(app_nth1 w) by lia. reflexivity.
  - apply (IH (i + 1)%nat w'); lia.
Qed.

Lemma sha1_schedule_spec M :
  length M = 16%nat -> Fips.schedule M (sha1_schedule 64 16 M).
Proof.
  intros Hl. split; [rewrite sha1_schedule_length, Hl; reflexivity|]. split.
  - intros t Ht. apply sha1_schedule_prefix. lia.
  - intros t Ht. apply sha1_schedule_rec; lia.
Qed.

Lemma br_sha1_round_shape b v :
  length (br_sha1_round b v) = 5%nat /\ words_ok 32 (br_sha1_round b v).
Proof.
  unfold br_sha1_round. destruct (sha1_loop _ I _ _ _ _) as [[[[? ?] ?] ?] ?].
  split; [reflexivity|]. repeat constructor; apply wrap_range; lia.
Qed.

Lemma sha1_schedule_unique M W W' : Fips.schedule M W -> Fips.schedule M W' -> W = W'.
Proof.
  intros (L & A & B) (L' & A' & B'). apply (nth_ext _ _ 0 0); [congruence|].
  rewrite L. intros n Hn. induction n as [n IH] using (well_founded_ind Wf_nat.lt_wf).
  destruct (Nat.lt_ge_cases n 16).
  - rewrite A, A' by assumption. reflexivity.
  - rewrite B, B', !IH by lia. reflexivity.
Qed.

Lemma sha1_round_compress b v W :
  length v = 5%nat -> Fips.schedule (br_range_dec32be 16 b) W ->
  br_sha1_round b v = Fips.compress_with W v.
Proof.
  intros Hv HW.
  rewrite (sha1_schedule_unique _ _ _ HW (sha1_schedule_spec _ (br_range_dec32be_length 16 b))).
  unfold br_sha1_round, Fips.compress_with. rewrite sha1_rounds.
  unfold Fips.regs_of. destruct (fold_left _ _ _) as [[[[? ?] ?] ?] ?].
  explode v. reflexivity.
Qed.

Lemma sha1_md_hash_compress m :
  MD.md_hash br_sha1_round br_sha1_IV m = MD.md_hash Fips.compress br_sha1_IV m.
Proof.
  apply (MD.absorb_ext _ _ (fun v => length v = 5%nat)); [reflexivity|].
  intros b v Hv. assert (E : br_sha1_round b v = Fips.compress b v).
  { apply sha1_round_compress; [assumption|]. apply sha1_schedule_spec, br_range_dec32be_length. }
  split; [exact E|]. rewrite <- E. apply br_sha1_round_shape.
Qed.

(** ** Streaming *)

Definition sha1_holds (cc : br_sha1_context) (m : list Z) : Prop :=
  MD.represents br_sha1_round br_sha1_IV m (buf cc) (val cc) /\
  count cc = u64 (Z.of_nat (length m)).

Lemma sha1_update_loop_feed fuel b v n ptr data :
  in_range 64 n -> (ptr < 64)%nat -> (length data <= fuel)%nat ->
  sha1_update_loop fuel b v n ptr data
  = (MD.feed_loop br_sha1_round fuel b v ptr data, u64 (n + Z.of_nat (length data))).
Proof.
  revert b v n ptr data. induction fuel as [|fuel IH]; intros b v n ptr data Hn Hp Hf;
    cbn [sha1_update_loop MD.feed_loop].
  { replace (length data) with O by lia. now rewrite Z.add_0_r, wrap_small. }
  destruct (Nat.ltb_spec 0 (length data)) as [Hd|Hd].
  2: { replace (length data) with O by lia. now rewrite Z.add_0_r, wrap_small. }
  set (clen := if (length data <? 64 - ptr)%nat then _ else _).
  assert (Hc : (0 < clen /\ clen <= length data /\ ptr + clen <= 64)%nat)
    by (subst clen; destruct (Nat.ltb_spec (length data) (64 - ptr)); lia).
  destruct (Nat.eqb_spec (ptr + clen) 64) as [E|N];
    rewrite IH by (rewrite ?length_skipn; auto with word || lia);
    rewrite wrap_add_l, length_skipn; do 2 f_equal; lia.
Qed.

Lemma sha1_update_holds cc m data :
  sha1_holds cc m -> sha1_holds (br_sha1_update cc data) (m ++ data).
Proof.
  intros [HR Hc]. unfold br_sha1_update. rewrite Hc, MD.count_ptr.
  pose proof (MD.feed_loop_represents _ br_sha1_IV (length data) m (buf cc) (val cc) data HR
    (le_n _)) as HU. pose proof (MD.tail_lt m).
  rewrite sha1_update_loop_feed by (auto with word || lia).
  destruct (MD.feed_loop _ _ _ _ _ _) as [b' v']. split; [exact HU|]. apply MD.count_add.
Qed.

Lemma sha1_out_spec cc m : sha1_holds cc m -> br_sha1_out cc = Fips.sha1 m.
Proof.
  intros [HR Hc]. unfold br_sha1_out, Fips.sha1. rewrite <- sha1_md_hash_compress.
  rewrite Hc, MD.count_ptr, count_bits.
  pose proof (MD.tail_lt m) as Hlt. pose proof HR as (Hl & _).
  rewrite (MD.md_hash_close _ _ m _ _ HR). set (len8 := br_enc64be _).
  set (tail := firstn (MD.tail_len m) (buf cc)).
  assert (Ht : length tail = MD.tail_len m) by (subst tail; rewrite length_firstn; lia).
  rewrite <- Ht in *.
  destruct (MD.close_buffer tail len8 ltac:(lia) eq_refl) as [C1 C2].
  destruct (Nat.ltb_spec 55 (length tail)), (Nat.ltb_spec 56 (length tail + 1)); try lia.
  - destruct C2 as [Ca Cb]; [assumption|]. now rewrite Ca, Cb.
  - now rewrite C1.
Qed.

Definition wf_context (cc : br_sha1_context) : Prop := length (buf cc) = 64%nat.

Lemma sha1_holds_shape cc m : sha1_holds cc m -> length (val cc) = 5%nat /\ words_ok 32 (val cc).
Proof.
  intros [(_ & -> & _) _].
  apply (MD.absorb_inv _ (fun v => length v = 5%nat /\ words_ok 32 v)).
  - split; [reflexivity|]. apply words_ok_forallb. reflexivity.
  - intros b v _. apply br_sha1_round_shape.
Qed.

Lemma sha1_state_resume cc cc' m k rest :
  sha1_holds cc m -> wf_context cc' -> length m = (k * 64)%nat ->
  sha1_holds (br_sha1_set_state cc' (fst (br_sha1_state cc) ++ rest) (u64 (Z.of_nat (length m)))) m.
Proof.
  intros HS Hwf Hm. pose proof HS as [(Hb & Hv & Ht) Hc]. destruct (sha1_holds_shape cc m HS).
  split; [|reflexivity]. unfold br_sha1_set_state, br_sha1_state. cbn [buf val fst].
  rewrite br_range_dec_enc by assumption.
  split; [assumption|]. split; [assumption|].
  assert (E : MD.tail_len m = O) by (unfold MD.tail_len; rewrite Hm; apply Nat.Div0.mod_mul).
  rewrite E in Ht |- *. exact Ht.
Qed.

#[global] Instance sha1_impl : HashImpl br_sha1_vtable.
Proof.
  refine {| digest := Fips.sha1; wf_ctx := wf_context; holds := sha1_holds |}.
  - intros c m [(Hb & _) _]. exact Hb.
  - intros c Hw. split; [now apply MD.represents_nil|reflexivity].
  - intros c m d. apply sha1_update_holds.
  - intros c m. apply sha1_out_spec.
  - intros c m [_ Hc]. exact Hc.
  - intros c m _. apply Nat.leb_le. reflexivity.
  - intros c c' m k rest HS Hw Hk. apply (sha1_state_resume _ _ _ (Z.to_nat k)); [assumption..|].
    change (block_size br_sha1_vtable) with 64 in Hk. lia.
  - intros m. unfold Fips.sha1. rewrite br_range_enc32be_length. reflexivity.
  - intros m. apply br_range_enc32be_bytes.
Defined.

(** The SHA-1 compression function of the code is the one of FIPS 180-4 section 6.1.2 for
    the schedule [W] defined there, and hashing any sequence of chunks with [init], [update]
    and [out] gives the FIPS digest of their concatenation. *)
Theorem sha1_correct (b v W : list Z) (cc : br_sha1_context) (chunks : list (list Z))
  (Hv : length v = 5%nat) (HW : Fips.schedule (br_range_dec32be 16 b) W)
  (Hcc : length (buf cc) = 64%nat) :
  br_sha1_round b v = Fips.compress_with W v /\
  br_sha1_out (fold_left br_sha1_update chunks (br_sha1_init cc)) = Fips.sha1 (concat chunks).
Proof.
  split; [now apply sha1_round_compress|]. exact (stream_digest br_sha1_vtable cc chunks Hcc).
Qed.

Definition blank_context : br_sha1_context :=
  {| vtable := HASH_SHA256; buf := repeat 0x55 64; count := 3; val := [] |}.

Lemma sha1_correct_witness :
  br_sha1_out (fold_left br_sha1_update [[0x61; 0x62]; [0x63]] (br_sha1_init blank_context))
  = Fips.sha1 [0x61; 0x62; 0x63].
Proof.
  exact (proj2 (sha1_correct (repeat 0 64) br_sha1_IV (sha1_schedule 64 16 (repeat 0 16))
    blank_context [[0x61; 0x62]; [0x63]] eq_refl
    (sha1_schedule_spec (repeat 0 16) eq_refl) eq_refl)).
Defined.

(** The digest of "abc" (FIPS 180-4 example). *)
Example sha1_abc :
  br_sha1_out (br_sha1_update (br_sha1_init blank_context) [0x61; 0x62; 0x63])
  = br_range_enc32be [0xA9993E36; 0x4706816A; 0xBA3E2571; 0x7850C26C; 0x9CD0D89D] 5.
Proof. vm_compute. reflexivity. Qed.

End Sha1.
