(* ===== verification/Hmac.v ===== *)
(** HMAC over any hash class: src/enclave/c_src/bearssl/mac/hmac.c, proved against the
    [HashImpl] interface of HashClass.v; [Rfc2104] is the function it must compute. *)
From S2P Require Import Prelude Codec MerkleDamgard HashClass Sha2 Sha1.
From Stdlib Require Import ZArith List Lia Bool.

(** ** RFC 2104 *)
Module Rfc2104.
Section Spec.

Context (H : list Z -> list Z) (B : nat).

(** Keys longer than a block are hashed first; the result is padded with zeros to [B]. *)
Definition block_key (key : list Z) : list Z :=
  let k := if (B <? length key)%nat then H key else key in
  k ++ repeat 0 (B - length k).

Definition pad_key (b : Z) (key : list Z) : list Z := map (fun x => x .^ b) (block_key key).

Definition hmac (key text : list Z) : list Z :=
  H (pad_key 0x5C key ++ H (pad_key 0x36 key ++ text)).

End Spec.
End Rfc2104.

Module Hmac.

Section WithHash.

Context {ctx : Type}.

(** [br_hmac_key_context] and [br_hmac_context]; [dig_vtable] of the latter is the vtable its
    hash context points to. *)
Record br_hmac_key_context := {
  kc_dig_vtable : br_hash_class ctx;
  kc_ksi : list Z;
  kc_kso : list Z }.

Record br_hmac_context := {
  dig_vtable : br_hash_class ctx;
  dig : ctx;
  kso : list Z;
  out_len : Z }.

(** [process_key]: the running state after hashing the padded key, stored at the start of
    [ks].  [hc] is the caller's hash context, [tmp] the local array of 256 bytes. *)
Definition process_key (hcls : br_hash_class ctx) (hc : ctx) (ks key : list Z) (bb : Z)
  : ctx * list Z :=
  let blen := Z.to_nat (block_size hcls) in
  let key_len := length key in
  let tmp := splice (repeat 0 256) 0 key in
  let tmp := map (fun x => x .^ u8 bb) (firstn key_len tmp) ++ skipn key_len tmp in
  let tmp := splice tmp key_len (repeat (u8 bb) (blen - key_len)) in
  let hc := init hcls hc in
  let hc := update hcls hc (firstn blen tmp) in
  (hc, splice ks 0 (fst (state hcls hc))).

(** [br_hmac_key_init]: [hc] is the uninitialised local hash context, [kbuf] the local array
    of 64 bytes. *)
Definition br_hmac_key_init (kc : br_hmac_key_context) (hc : ctx) (hcls : br_hash_class ctx)
  (key : list Z) : br_hmac_key_context :=
  let '(hc, key) :=
    if block_size hcls <? Z.of_nat (length key) then
      let hc := init hcls hc in
      let hc := update hcls hc key in
      let kbuf := splice (repeat 0 64) 0 (out hcls hc) in
      (hc, firstn (Z.to_nat (br_digest_size hcls)) kbuf)
    else (hc, key) in
  let '(hc, ksi) := process_key hcls hc (kc_ksi kc) key 0x36 in
  let '(hc, kso) := process_key hcls hc (kc_kso kc) key 0x5C in
  {| kc_dig_vtable := hcls; kc_ksi := ksi; kc_kso := kso |}.

(** [br_hmac_init]: [hc] is the storage of the context's hash context. *)
Definition br_hmac_init (hc : ctx) (kc : br_hmac_key_context) (olen : Z) : br_hmac_context :=
  let hcls := kc_dig_vtable kc in
  let blen := block_size hcls in
  let hc := init hcls hc in
  let hc := set_state hcls hc (kc_ksi kc) (u64 blen) in
  let hlen := br_digest_size hcls in
  let hlen := if (0 <? olen) && (olen <? hlen) then olen else hlen in
  {| dig_vtable := hcls; dig := hc; kso := kc_kso kc; out_len := hlen |}.

Definition br_hmac_update (c : br_hmac_context) (data : list Z) : br_hmac_context :=
  {| dig_vtable := dig_vtable c; dig := update (dig_vtable c) (dig c) data;
     kso := kso c; out_len := out_len c |}.

(** [br_hmac_out]: the bytes stored in [out] and the returned length; [hc] is the
    uninitialised local hash context, [tmp] the local array of 64 bytes. *)
Definition br_hmac_out (c : br_hmac_context) (hc : ctx) : list Z * Z :=
  let hcls := dig_vtable c in
  let tmp := splice (repeat 0 64) 0 (out hcls (dig c)) in
  let blen := block_size hcls in
  let hc := init hcls hc in
  let hc := set_state hcls hc (kso c) (u64 blen) in
  let hlen := br_digest_size hcls in
  let hc := update hcls hc (firstn (Z.to_nat hlen) tmp) in
  let tmp := splice tmp 0 (out hcls hc) in
  (firstn (Z.to_nat (out_len c)) tmp, out_len c).

(** ** Correctness, for every class that keeps the interface's promises and whose sizes fit
    the local arrays *)

Context (hcls : br_hash_class ctx) {impl : HashImpl hcls}.
Context (digest_fits : 0 <= br_digest_size hcls <= 64)
        (digest_block : br_digest_size hcls <= block_size hcls)
        (block_fits : block_size hcls <= 256).

Let B : nat := Z.to_nat (block_size hcls).

Lemma block_nat : Z.of_nat B = block_size hcls.
Proof. subst B. apply Z2Nat.id. lia. Qed.

Lemma digest_len_nat m : length (digest hcls m) = Z.to_nat (br_digest_size hcls).
Proof. pose proof (digest_length m). lia. Qed.

(** The digest, read back from a 64-byte array it was stored in. *)
Lemma read_back_digest buf m : length buf = 64%nat ->
  firstn (Z.to_nat (br_digest_size hcls)) (splice buf 0 (digest hcls m)) = digest hcls m.
Proof.
  intros Hb. rewrite <- (digest_len_nat m) at 1.
  exact (firstn_splice buf 0 (digest hcls m) (Nat.le_0_l _)).
Qed.

(** The key as [br_hmac_key_init] hands it to [process_key]. *)
Definition short_key (key : list Z) : list Z :=
  if (B <? length key)%nat then digest hcls key else key.

Lemma short_key_le key : (length (short_key key) <= B)%nat.
Proof.
  unfold short_key. destruct (Nat.ltb_spec B (length key)); [|assumption].
  rewrite digest_len_nat. subst B. lia.
Qed.

Lemma process_key_holds hc ks key bb :
  wf_ctx hcls hc -> length ks = 64%nat -> (length key <= B)%nat ->
  let '(hc', ks') := process_key hcls hc ks key bb in
  wf_ctx hcls hc' /\
  exists rest,
    ks' = fst (state hcls hc') ++ rest /\
    holds hcls hc' (map (fun x => x .^ u8 bb) (key ++ repeat 0 (B - length key))).
Proof.
  intros Hw Hks Hk. unfold process_key. fold B.
  set (tmp := firstn B _). set (hc' := update hcls _ tmp).
  assert (Hh : holds hcls hc' tmp).
  { change tmp with ([] ++ tmp). apply update_holds. now apply init_holds. }
  split; [now apply (holds_wf _ tmp)|]. exists (skipn (length (fst (state hcls hc'))) ks).
  split; [reflexivity|]. replace (map _ _) with tmp; [assumption|]. subst tmp.
  pose proof block_nat.
  assert (Hl : length (splice (repeat 0 256) 0 key) = 256%nat).
  { rewrite length_splice; rewrite repeat_length; lia. }
  assert (Hf : firstn (length key) (splice (repeat 0 256) 0 key) = key)
    by exact (firstn_splice (repeat 0 256) 0 key (Nat.le_0_l _)).
  rewrite Hf. set (t := map _ key ++ _).
  assert (Lm : length (map (fun x => x .^ u8 bb) key) = length key) by apply length_map.
  replace (firstn B (splice t (length key) (repeat (u8 bb) (B - length key)))) with
    (firstn (length key) t ++ repeat (u8 bb) (B - length key)).
  2: { rewrite <- firstn_splice by (subst t; rewrite length_app, length_skipn; lia).
       f_equal. rewrite repeat_length. lia. }
  subst t. rewrite firstn_app, Lm, Nat.sub_diag. cbn [firstn]. rewrite app_nil_r.
  rewrite <- Lm at 1. rewrite firstn_all, map_app, map_repeat. now rewrite Z.lxor_0_l.
Qed.

Lemma pad_key_eq bb key :
  map (fun x => x .^ bb) (short_key key ++ repeat 0 (B - length (short_key key)))
  = Rfc2104.pad_key (digest hcls) B bb key.
Proof. reflexivity. Qed.

(** What the key context holds: the two saved running states. *)
Definition key_ready (kc : br_hmac_key_context) (key : list Z) : Prop :=
  kc_dig_vtable kc = hcls /\
  exists ci co ri ro,
    kc_ksi kc = fst (state hcls ci) ++ ri /\ kc_kso kc = fst (state hcls co) ++ ro /\
    holds hcls ci (Rfc2104.pad_key (digest hcls) B 0x36 key) /\
    holds hcls co (Rfc2104.pad_key (digest hcls) B 0x5C key).

Lemma key_init_ready kc hc key :
  wf_ctx hcls hc -> length (kc_ksi kc) = 64%nat -> length (kc_kso kc) = 64%nat ->
  key_ready (br_hmac_key_init kc hc hcls key) key.
Proof.
  intros Hw Hi Ho. unfold br_hmac_key_init.
  set (p := if block_size hcls <? Z.of_nat (length key) then _ else _).
  assert (Hp : wf_ctx hcls (fst p) /\ snd p = short_key key).
  { subst p. unfold short_key. pose proof block_nat.
    destruct (Z.ltb_spec (block_size hcls) (Z.of_nat (length key))),
      (Nat.ltb_spec B (length key)); try lia; cbn [fst snd]; [|split; auto].
    assert (Hh : holds hcls (update hcls (init hcls hc) key) ([] ++ key)).
    { apply update_holds. now apply init_holds. }
    split; [now apply (holds_wf _ _ Hh)|]. rewrite (out_digest _ _ Hh).
    apply read_back_digest. apply repeat_length. }
  destruct p as [hc1 key1]. cbn [fst snd] in Hp. destruct Hp as [Hw1 ->].
  pose proof (process_key_holds hc1 (kc_ksi kc) (short_key key) 0x36 Hw1 Hi
    (short_key_le key)) as H1.
  destruct (process_key hcls hc1 (kc_ksi kc) (short_key key) 0x36) as [hc2 ksi].
  destruct H1 as (Hw2 & ri & Ei & H1).
  pose proof (process_key_holds hc2 (kc_kso kc) (short_key key) 0x5C Hw2 Ho
    (short_key_le key)) as H2.
  destruct (process_key hcls hc2 (kc_kso kc) (short_key key) 0x5C) as [hc3 kso].
  destruct H2 as (Hw3 & ro & Eo & H2).
  split; [reflexivity|]. exists hc2, hc3, ri, ro. auto.
Qed.

Lemma pad_key_length bb key : length (Rfc2104.pad_key (digest hcls) B bb key) = B.
Proof.
  rewrite <- pad_key_eq, length_map, length_app, repeat_length. pose proof (short_key_le key). lia.
Qed.

(** Restoring a saved state after one block of padded key. *)
Lemma resume_pad hc c bb key rest :
  wf_ctx hcls hc -> holds hcls c (Rfc2104.pad_key (digest hcls) B bb key) ->
  holds hcls (set_state hcls (init hcls hc) (fst (state hcls c) ++ rest)
                (u64 (block_size hcls))) (Rfc2104.pad_key (digest hcls) B bb key).
Proof.
  intros Hw Hc. pose proof block_nat as HB.
  rewrite <- HB, <- (pad_key_length bb key) at 1.
  apply (state_resume c _ _ 1); [assumption|apply (holds_wf _ []); now apply init_holds|].
  rewrite pad_key_length. lia.
Qed.

Definition hmac_len (olen : Z) : Z :=
  if (0 <? olen) && (olen <? br_digest_size hcls) then olen else br_digest_size hcls.

(** What the context holds after any sequence of updates. *)
Lemma hmac_absorbed kc hc key olen chunks : key_ready kc key -> wf_ctx hcls hc ->
  let c := fold_left br_hmac_update chunks (br_hmac_init hc kc olen) in
  dig_vtable c = hcls /\ kso c = kc_kso kc /\ out_len c = hmac_len olen /\
  holds hcls (dig c) (Rfc2104.pad_key (digest hcls) B 0x36 key ++ concat chunks).
Proof.
  intros (Ev & ci & co & ri & ro & Ei & _ & Hi & _) Hw.
  assert (Hs : forall chunks c m, dig_vtable c = hcls -> holds hcls (dig c) m ->
    let c' := fold_left br_hmac_update chunks c in
    dig_vtable c' = hcls /\ kso c' = kso c /\ out_len c' = out_len c /\
    holds hcls (dig c') (m ++ concat chunks)).
  { clear. induction chunks as [|d ds IH]; intros c m Ec Hc; cbn [fold_left concat].
    - now rewrite app_nil_r.
    - specialize (IH (br_hmac_update c d) (m ++ d)). rewrite app_assoc. apply IH; [assumption|].
      cbn [dig br_hmac_update]. rewrite Ec. now apply update_holds. }
  destruct (Hs chunks (br_hmac_init hc kc olen) (Rfc2104.pad_key (digest hcls) B 0x36 key)) as (E1 & E2 & E3 & E4).
  { unfold br_hmac_init. cbn. assumption. }
  { unfold br_hmac_init. cbn [dig]. rewrite Ev, Ei. now apply resume_pad. }
  split; [exact E1|]. split; [exact E2|]. split; [|exact E4].
  rewrite E3. unfold br_hmac_init. cbn [out_len]. now rewrite Ev.
Qed.

Lemma hmac_stream kc hc hc' key olen chunks :
  key_ready kc key -> wf_ctx hcls hc -> wf_ctx hcls hc' ->
  br_hmac_out (fold_left br_hmac_update chunks (br_hmac_init hc kc olen)) hc' =
  (firstn (Z.to_nat (hmac_len olen)) (Rfc2104.hmac (digest hcls) B key (concat chunks)),
   hmac_len olen).
Proof.
  intros Hk Hw Hw'. destruct (hmac_absorbed kc hc key olen chunks Hk Hw) as (E1 & E2 & E3 & E4).
  destruct Hk as (Ev & ci & co & ri & ro & Ei & Eo & Hi & Ho).
  set (inner := Rfc2104.pad_key (digest hcls) B 0x36 key) in *.
  unfold br_hmac_out. rewrite E1, E2, E3. rewrite (out_digest _ _ E4).
  rewrite Eo.
  rewrite read_back_digest by apply repeat_length.
  rewrite (out_digest _ (Rfc2104.pad_key (digest hcls) B 0x5C key
                         ++ digest hcls (inner ++ concat chunks))).
  2: { apply update_holds. now apply resume_pad. }
  fold inner. set (d1 := digest hcls (inner ++ concat chunks)).
  change (Rfc2104.hmac (digest hcls) B key (concat chunks))
    with (digest hcls (Rfc2104.pad_key (digest hcls) B 0x5C key ++ d1)).
  set (d2 := digest hcls _). f_equal. unfold splice at 1. cbn [firstn app].
  rewrite firstn_app. replace (Z.to_nat (hmac_len olen) - length d2)%nat with O.
  - cbn. apply app_nil_r.
  - subst d2. rewrite digest_len_nat. unfold hmac_len.
    destruct (Z.ltb_spec 0 olen), (Z.ltb_spec olen (br_digest_size hcls)); cbn [andb]; lia.
Qed.

Lemma hmac_correct d b kc hc1 hc2 hc3 key olen chunks :
  br_digest_size hcls = d -> block_size hcls = Z.of_nat b ->
  wf_ctx hcls hc1 -> wf_ctx hcls hc2 -> wf_ctx hcls hc3 ->
  length (kc_ksi kc) = 64%nat -> length (kc_kso kc) = 64%nat ->
  let n := if (0 <? olen) && (olen <? d) then olen else d in
  br_hmac_out (fold_left br_hmac_update chunks
    (br_hmac_init hc2 (br_hmac_key_init kc hc1 hcls key) olen)) hc3
  = (firstn (Z.to_nat n) (Rfc2104.hmac (digest hcls) b key (concat chunks)), n).
Proof.
  intros Ed Eb H1 H2 H3 Hi Ho n. rewrite (hmac_stream _ _ _ key); auto using key_init_ready.
  unfold hmac_len. rewrite Ed. replace B with b; [reflexivity|]. pose proof block_nat. lia.
Qed.

End WithHash.

Arguments br_hmac_key_context : clear implicits.
Arguments br_hmac_context : clear implicits.

(** Evaluates the size conditions of a concrete class. *)
Ltac sizes := solve [vm_compute; repeat split; discriminate].

(** HMAC computed by [br_hmac_key_init], [br_hmac_init], any sequence of [br_hmac_update]
    calls and [br_hmac_out] is the HMAC of RFC 2104 of the concatenated data, truncated to the
    requested length: for keys shorter than, as long as and longer than a block, for SHA-1,
    SHA-224 and SHA-256, and whatever the uninitialised storage holds. *)
Theorem hmac_is_rfc2104 (olen : Z) (key : list Z) (chunks : list (list Z))
  (kc1 : br_hmac_key_context Sha1.br_sha1_context) (s1 s2 s3 : Sha1.br_sha1_context)
  (kc2 : br_hmac_key_context Sha2.br_sha224_context) (t1 t2 t3 : Sha2.br_sha224_context)
  (Hs : length (Sha1.buf s1) = 64%nat /\ length (Sha1.buf s2) = 64%nat /\ length (Sha1.buf s3) = 64%nat)
  (Ht : length (Sha2.buf t1) = 64%nat /\ length (Sha2.buf t2) = 64%nat /\ length (Sha2.buf t3) = 64%nat)
  (Hk1 : length (kc_ksi kc1) = 64%nat /\ length (kc_kso kc1) = 64%nat)
  (Hk2 : length (kc_ksi kc2) = 64%nat /\ length (kc_kso kc2) = 64%nat) :
  let trunc n := if (0 <? olen) && (olen <? n) then olen else n in
  br_hmac_out (fold_left br_hmac_update chunks
      (br_hmac_init s2 (br_hmac_key_init kc1 s1 Sha1.br_sha1_vtable key) olen)) s3
    = (firstn (Z.to_nat (trunc 20)) (Rfc2104.hmac Sha1.Fips.sha1 64 key (concat chunks)), trunc 20) /\
  br_hmac_out (fold_left br_hmac_update chunks
      (br_hmac_init t2 (br_hmac_key_init kc2 t1 Sha2.br_sha224_vtable key) olen)) t3
    = (firstn (Z.to_nat (trunc 28))
         (Rfc2104.hmac (Sha2.Fips.sha2 Sha2.br_sha224_IV 7) 64 key (concat chunks)), trunc 28) /\
  br_hmac_out (fold_left br_hmac_update chunks
      (br_hmac_init t2 (br_hmac_key_init kc2 t1 Sha2.br_sha256_vtable key) olen)) t3
    = (firstn (Z.to_nat (trunc 32))
         (Rfc2104.hmac (Sha2.Fips.sha2 Sha2.br_sha256_IV 8) 64 key (concat chunks)), trunc 32).
Proof.
  destruct Hs as (S1 & S2 & S3), Ht as (T1 & T2 & T3), Hk1 as [K1 K2], Hk2 as [K3 K4].
  cbv zeta beta. split; [|split].
  - change Sha1.Fips.sha1 with (digest Sha1.br_sha1_vtable).
    apply (hmac_correct Sha1.br_sha1_vtable) with (d := 20) (b := 64%nat);
      assumption || reflexivity || sizes.
  - change (Sha2.Fips.sha2 Sha2.br_sha224_IV 7) with (digest Sha2.br_sha224_vtable).
    apply (hmac_correct Sha2.br_sha224_vtable) with (d := 28) (b := 64%nat);
      assumption || reflexivity || sizes.
  - change (Sha2.Fips.sha2 Sha2.br_sha256_IV 8) with (digest Sha2.br_sha256_vtable).
    apply (hmac_correct Sha2.br_sha256_vtable) with (d := 32) (b := 64%nat);
      assumption || reflexivity || sizes.
Qed.

Definition blank_key_context {ctx} (dig : br_hash_class ctx) : br_hmac_key_context ctx :=
  {| kc_dig_vtable := dig; kc_ksi := repeat 1 64; kc_kso := repeat 2 64 |}.

Lemma hmac_is_rfc2104_witness :
  fst (br_hmac_out (fold_left br_hmac_update [[0x48]; [0x69]]
      (br_hmac_init Sha2.blank_context
        (br_hmac_key_init (blank_key_context Sha2.br_sha256_vtable) Sha2.blank_context
           Sha2.br_sha256_vtable (repeat 0x0b 20)) 0)) Sha2.blank_context)
  = Rfc2104.hmac (Sha2.Fips.sha2 Sha2.br_sha256_IV 8) 64 (repeat 0x0b 20) [0x48; 0x69].
Proof.
  pose proof (hmac_is_rfc2104 0 (repeat 0x0b 20) [[0x48]; [0x69]]
    (blank_key_context Sha1.br_sha1_vtable) Sha1.blank_context Sha1.blank_context Sha1.blank_context
    (blank_key_context Sha2.br_sha256_vtable) Sha2.blank_context Sha2.blank_context Sha2.blank_context
    (conj eq_refl (conj eq_refl eq_refl)) (conj eq_refl (conj eq_refl eq_refl))
    (conj eq_refl eq_refl) (conj eq_refl eq_refl)) as H.
  rewrite (proj2 (proj2 H)). reflexivity.
Defined.

End Hmac.
