(* ===== verification/Fips197.v ===== *)
(** The Advanced Encryption Standard as FIPS 197 defines it: the byte substitution built from
    inversion in GF(2^8), the state transformations, the key expansion and the cipher.  A
    word is a list of four bytes, the state a list of sixteen bytes, column by column. *)
From S2P Require Import Prelude.
From Stdlib Require Import ZArith List Lia Bool.

Module Fips197.

(** ** Arithmetic in GF(2^8), polynomials modulo x^8 + x^4 + x^3 + x + 1 *)

Definition xtime (b : Z) : Z := u8 (b << 1) .^ (if Z.testbit b 7 then 0x1b else 0).

Fixpoint gmul_bits (n : nat) (a b : Z) : Z :=
  match n with
  | O => 0
  | S n' => (if Z.testbit a 0 then b else 0) .^ gmul_bits n' (a >> 1) (xtime b)
  end.

Definition gmul (a b : Z) : Z := gmul_bits 8 a b.

(** The multiplicative inverse as the power 254, which maps 0 to 0. *)
Definition ginv (b : Z) : Z :=
  let b2 := gmul b b in let b4 := gmul b2 b2 in let b8 := gmul b4 b4 in
  let b16 := gmul b8 b8 in let b32 := gmul b16 b16 in let b64 := gmul b32 b32 in
  let b128 := gmul b64 b64 in
  gmul b2 (gmul b4 (gmul b8 (gmul b16 (gmul b32 (gmul b64 b128))))).

Definition rotl8 (b n : Z) : Z := u8 (b << n) .| (b >> (8 - n)).

Definition affine (b : Z) : Z :=
  b .^ rotl8 b 1 .^ rotl8 b 2 .^ rotl8 b 3 .^ rotl8 b 4 .^ 0x63.

Definition all_bytes : list Z := map Z.of_nat (seq 0 256).

(** The substitution table, evaluated. *)
Definition sbox : list Z := Eval vm_compute in map (fun b => affine (ginv b)) all_bytes.

Definition sub_byte (b : Z) : Z := nth (Z.to_nat b) sbox 0.

(** ** Transformations of the state *)

Definition at_ (s : list Z) (i : nat) : Z := nth i s 0.

Definition SubBytes (s : list Z) : list Z := map sub_byte s.

(** Row [r] is rotated left by [r] columns. *)
Definition ShiftRows (s : list Z) : list Z :=
  map (fun i => at_ s (i mod 4 + 4 * ((i / 4 + i mod 4) mod 4))) (seq 0 16).

Definition mix_with (m0 m1 m2 m3 : Z) (s : list Z) : list Z :=
  map (fun i =>
    let c := (4 * (i / 4))%nat in let r := (i mod 4)%nat in
    gmul m0 (at_ s (c + r)) .^ gmul m1 (at_ s (c + (r + 1) mod 4))
      .^ gmul m2 (at_ s (c + (r + 2) mod 4)) .^ gmul m3 (at_ s (c + (r + 3) mod 4)))
    (seq 0 16).

Definition MixColumns (s : list Z) : list Z := mix_with 2 3 1 1 s.
Definition InvMixColumns (s : list Z) : list Z := mix_with 0x0e 0x0b 0x0d 0x09 s.

Definition AddRoundKey (s k : list Z) : list Z := xor_bytes s k.

(** ** Key expansion *)

Definition SubWord (w : list Z) : list Z := map sub_byte w.
Definition RotWord (w : list Z) : list Z := skipn 1 w ++ firstn 1 w.

Fixpoint rcon_byte (n : nat) : Z :=
  match n with O => 1 | S n' => xtime (rcon_byte n') end.
Definition Rcon (j : nat) : list Z := [rcon_byte (j - 1); 0; 0; 0].

(** Word [i] of the schedule from the words before it. *)
Definition next_word (nk i : nat) (w : list (list Z)) : list Z :=
  let temp := nth (i - 1) w [] in
  let temp' :=
    if (i mod nk =? 0)%nat then xor_bytes (SubWord (RotWord temp)) (Rcon (i / nk))
    else if ((6 <? nk) && (i mod nk =? 4))%nat then SubWord temp
    else temp in
  xor_bytes (nth (i - nk) w []) temp'.

Fixpoint expand (nk n : nat) (w : list (list Z)) : list (list Z) :=
  match n with
  | O => w
  | S n' => expand nk n' (w ++ [next_word nk (length w) w])
  end.

Definition Nr (nk : nat) : nat := nk + 6.

Definition KeyExpansion (key : list Z) : list (list Z) :=
  let nk := (length key / 4)%nat in
  expand nk (4 * (Nr nk + 1) - nk) (blocks 4 key).

(** The round keys, sixteen bytes each. *)
Definition round_keys (key : list Z) : list (list Z) := blocks 16 (concat (KeyExpansion key)).

(** ** The cipher *)

Definition round (s k : list Z) : list Z :=
  AddRoundKey (MixColumns (ShiftRows (SubBytes s))) k.
Definition final_round (s k : list Z) : list Z :=
  AddRoundKey (ShiftRows (SubBytes s)) k.

Definition cipher_with (ks : list (list Z)) (input : list Z) : list Z :=
  let s := AddRoundKey input (nth 0 ks []) in
  let nr := (length ks - 1)%nat in
  final_round (fold_left round (firstn (nr - 1) (skipn 1 ks)) s) (nth nr ks []).

Definition Cipher (key input : list Z) : list Z := cipher_with (round_keys key) input.

(** The table is the affine map of the field inverse, and the power used as the inverse is
    one: the table evaluated above is the one of the standard's definition. *)
Lemma sbox_correct :
  (forall b, in_range 8 b -> sub_byte b = affine (ginv b)) /\
  (forall b, in_range 8 b -> b <> 0 -> gmul b (ginv b) = 1).
Proof.
  assert (H : forallb (fun b => (sub_byte b =? affine (ginv b)) && ((b =? 0) || (gmul b (ginv b) =? 1)))
                all_bytes = true) by (vm_compute; reflexivity).
  rewrite forallb_forall in H.
  assert (I : forall b, in_range 8 b -> In b all_bytes).
  { intros b Hb. apply in_map_iff. exists (Z.to_nat b). unfold in_range in Hb.
    rewrite in_seq. lia. }
  split; intros b Hb; specialize (H b (I b Hb)); apply andb_true_iff in H as [H1 H2].
  - now apply Z.eqb_eq.
  - intros Hn. apply orb_true_iff in H2 as [H2|H2]; apply Z.eqb_eq in H2; congruence.
Qed.

(** The test vector of FIPS 197, appendix C.3 (256-bit key). *)
Example fips197_c3 :
  Cipher (map Z.of_nat (seq 0 32)) (map (fun i => Z.of_nat i * 0x11) (seq 0 16))
  = [0x8e; 0xa2; 0xb7; 0xca; 0x51; 0x67; 0x45; 0xbf;
     0xea; 0xfc; 0x49; 0x90; 0x4b; 0x49; 0x60; 0x89].
Proof. vm_compute. reflexivity. Qed.

(** ** Shape of the transformations *)

Lemma gmul_bits_range n : forall a b, in_range 8 b -> in_range 8 (gmul_bits n a b).
Proof.
  induction n as [|n IH]; intros a b Hb; cbn [gmul_bits].
  - auto with word.
  - apply lxor_range; [lia|destruct (Z.testbit a 0); auto with word|].
    apply IH. unfold xtime. apply lxor_range; auto with word.
    destruct (Z.testbit b 7); split; reflexivity || lia.
Qed.

Lemma sub_byte_range b : in_range 8 (sub_byte b).
Proof.
  unfold sub_byte. destruct (Nat.lt_ge_cases (Z.to_nat b) (length sbox)) as [H|H].
  - assert (F : words_ok 8 sbox) by (apply words_ok_forallb; vm_compute; reflexivity).
    unfold words_ok in F. rewrite Forall_forall in F. apply F. now apply nth_In.
  - rewrite nth_overflow by assumption. auto with word.
Qed.

Lemma at_range s i : bytes_ok s -> in_range 8 (at_ s i).
Proof.
  intros Hs. unfold at_. destruct (Nat.lt_ge_cases i (length s)).
  - unfold bytes_ok in Hs. rewrite Forall_forall in Hs. apply Hs. now apply nth_In.
  - rewrite nth_overflow by assumption. auto with word.
Qed.

Lemma SubBytes_ok s : bytes_ok (SubBytes s).
Proof. apply Forall_map, Forall_forall. intros. apply sub_byte_range. Qed.

Lemma ShiftRows_ok s : bytes_ok s -> bytes_ok (ShiftRows s).
Proof. intros H. apply Forall_map, Forall_forall. intros. now apply at_range. Qed.

Lemma mix_with_ok m0 m1 m2 m3 s : bytes_ok s -> bytes_ok (mix_with m0 m1 m2 m3 s).
Proof.
  intros H. apply Forall_map, Forall_forall. intros i _.
  do 3 (apply lxor_range; [lia| |now apply gmul_bits_range, at_range]).
  now apply gmul_bits_range, at_range.
Qed.

Lemma SubBytes_length s : length (SubBytes s) = length s.
Proof. apply length_map. Qed.
Lemma ShiftRows_length s : length (ShiftRows s) = 16%nat.
Proof. reflexivity. Qed.
Lemma mix_with_length m0 m1 m2 m3 s : length (mix_with m0 m1 m2 m3 s) = 16%nat.
Proof. reflexivity. Qed.

End Fips197.
