(* ===== verification/Intrinsics.v ===== *)
(** The x86 vector instructions the enclave's C sources use through intrinsics (SSE2, SSSE3,
    SSE4.1, AES-NI and PCLMULQDQ), with the meaning of the processor manual.  A register
    [__m128i] is a [Z] in [[0, 2^128)]; byte 0 of memory is its least significant byte. *)
From S2P Require Import Prelude Fips197.
From Stdlib Require Import ZArith List Lia Bool.
Import Fips197.

Module X86.

(** ** Little-endian memory *)

Fixpoint le_dec (l : list Z) : Z :=
  match l with [] => 0 | b :: l' => b .| (le_dec l' << 8) end.

Fixpoint le_enc (n : nat) (x : Z) : list Z :=
  match n with O => [] | S n' => u8 x :: le_enc n' (x >> 8) end.

(** ** Registers and lanes *)

(** Doubleword [i] and the register with the given doublewords, least significant first. *)
Definition dw (x i : Z) : Z := u32 (x >> (32 * i)).
Definition mk128 (a b c d : Z) : Z := a .| (b << 32) .| (c << 64) .| (d << 96).

Definition lo64 (x : Z) : Z := u64 x.
Definition hi64 (x : Z) : Z := u64 (x >> 64).
Definition mk64 (lo hi : Z) : Z := lo .| (hi << 64).

(** ** SSE2 to SSE4.1 *)

Definition _mm_loadu_si128 (p : list Z) : Z := le_dec (firstn 16 p).
Definition _mm_storeu_si128 (x : Z) : list Z := le_enc 16 x.

Definition _mm_xor_si128 (a b : Z) : Z := a .^ b.
Definition _mm_or_si128 (a b : Z) : Z := a .| b.
Definition _mm_slli_si128 (a n : Z) : Z := u128 (a << (8 * n)).

Definition _mm_shuffle_epi32 (a imm : Z) : Z :=
  mk128 (dw a (imm .& 3)) (dw a ((imm >> 2) .& 3))
        (dw a ((imm >> 4) .& 3)) (dw a ((imm >> 6) .& 3)).

Definition _mm_insert_epi32 (a v : Z) (imm : Z) : Z :=
  mk128 (if imm =? 0 then v else dw a 0) (if imm =? 1 then v else dw a 1)
        (if imm =? 2 then v else dw a 2) (if imm =? 3 then v else dw a 3).

(** Shifts of the two quadwords; counts are below 64 here. *)
Definition _mm_slli_epi64 (a n : Z) : Z := mk64 (u64 (lo64 a << n)) (u64 (hi64 a << n)).
Definition _mm_srli_epi64 (a n : Z) : Z := mk64 (lo64 a >> n) (hi64 a >> n).

Definition _mm_unpacklo_epi64 (a b : Z) : Z := mk64 (lo64 a) (lo64 b).

(** [_mm_shuffle_pd] on the bit patterns of two registers. *)
Definition _mm_shuffle_pd (a b imm : Z) : Z :=
  mk64 (if Z.testbit imm 0 then hi64 a else lo64 a) (if Z.testbit imm 1 then hi64 b else lo64 b).

(** Byte [i] of the result is byte [idx_i mod 16] of [a], or zero where bit 7 of [idx_i] is set. *)
Definition _mm_shuffle_epi8 (a idx : Z) : Z :=
  le_dec (map (fun k => if Z.testbit k 7 then 0 else nth (Z.to_nat (k .& 15)) (le_enc 16 a) 0)
              (le_enc 16 idx)).

(** [_mm_set_epi8] lists the bytes from the most significant one. *)
Definition _mm_set_epi8 (l : list Z) : Z := le_dec (rev l).

(** ** PCLMULQDQ *)

(** Carry-less product of the low [n] bits of [a] with [b]. *)
Fixpoint clmul (n : nat) (a b : Z) : Z :=
  match n with
  | O => 0
  | S n' => clmul n' a b .^ (if Z.testbit a (Z.of_nat n') then b << Z.of_nat n' else 0)
  end.

Definition _mm_clmulepi64_si128 (a b imm : Z) : Z :=
  clmul 64 (if Z.testbit imm 0 then hi64 a else lo64 a) (if Z.testbit imm 4 then hi64 b else lo64 b).

(** ** AES-NI *)

Definition SubDword (w : Z) : Z := le_dec (SubWord (le_enc 4 w)).
Definition RotDword (w : Z) : Z := le_dec (RotWord (le_enc 4 w)).

Definition _mm_aesenc_si128 (a k : Z) : Z :=
  le_dec (MixColumns (ShiftRows (SubBytes (le_enc 16 a)))) .^ k.
Definition _mm_aesenclast_si128 (a k : Z) : Z :=
  le_dec (ShiftRows (SubBytes (le_enc 16 a))) .^ k.
Definition _mm_aesimc_si128 (a : Z) : Z := le_dec (InvMixColumns (le_enc 16 a)).
Definition _mm_aeskeygenassist_si128 (a rcon : Z) : Z :=
  let s1 := SubDword (dw a 1) in let s3 := SubDword (dw a 3) in
  mk128 s1 (RotDword s1 .^ rcon) s3 (RotDword s3 .^ rcon).

(** ** Encoding lemmas *)

Lemma length_le_enc n x : length (le_enc n x) = n.
Proof. revert x. induction n; intros x; cbn; auto. Qed.

Lemma length_store x : length (_mm_storeu_si128 x) = 16%nat.
Proof. apply length_le_enc. Qed.

Lemma le_enc_ok n x : bytes_ok (le_enc n x).
Proof. revert x. induction n; intros x; cbn; constructor; auto with word. apply IHn. Qed.

Lemma le_dec_nonneg l : bytes_ok l -> 0 <= le_dec l.
Proof.
  intros H. induction H as [|b l Hb _ IH]; cbn [le_dec]; [lia|].
  apply Z.lor_nonneg. split; [apply Hb|]. now apply Z.shiftl_nonneg.
Qed.

Lemma le_dec_range l : bytes_ok l -> in_range (8 * Z.of_nat (length l)) (le_dec l).
Proof.
  intros H. induction H as [|b l Hb Hl IH]; cbn [le_dec length].
  - split; reflexivity || lia.
  - assert (0 <= le_dec l) by now apply le_dec_nonneg.
    apply lor_range; [lia| |].
    + apply (range_weaken 8); [lia|assumption].
    + apply range_of_bits; [lia|now apply Z.shiftl_nonneg|]. intros i Hi.
      rewrite Z.shiftl_spec by lia. apply (testbit_above (8 * Z.of_nat (length l))); [assumption|lia].
Qed.

Lemma le_enc_dec l : bytes_ok l -> le_enc (length l) (le_dec l) = l.
Proof.
  intros H. induction H as [|b l Hb Hl IH]; cbn [le_dec length le_enc]; [reflexivity|].
  f_equal; [|etransitivity; [|exact IH]; f_equal]; zbits.
Qed.

Lemma le_dec_enc n : forall x, in_range (8 * Z.of_nat n) x -> le_dec (le_enc n x) = x.
Proof.
  induction n as [|n IH]; intros x Hx; cbn [le_dec le_enc].
  - unfold in_range in Hx. cbn in Hx. lia.
  - rewrite IH.
    + zbits.
    + apply range_of_bits; [lia|apply Z.shiftr_nonneg, Hx|]. intros i Hi.
      rewrite Z.shiftr_spec by lia. apply (testbit_above (8 * Z.of_nat (S n))); [assumption|lia].
Qed.

Lemma le_enc_inj n x y : in_range (8 * Z.of_nat n) x -> in_range (8 * Z.of_nat n) y ->
  le_enc n x = le_enc n y -> x = y.
Proof. intros Hx Hy E. rewrite <- (le_dec_enc n x), <- (le_dec_enc n y), E; auto. Qed.

Lemma le_enc_xor n : forall x y, le_enc n (x .^ y) = xor_bytes (le_enc n x) (le_enc n y).
Proof.
  induction n as [|n IH]; intros x y; [reflexivity|]. cbn [le_enc].
  change (xor_bytes (?a :: ?l) (?b :: ?m)) with (a .^ b :: xor_bytes l m).
  rewrite <- IH, <- Z.shiftr_lxor. f_equal. zbits.
Qed.

Lemma le_dec_xor a b : bytes_ok a -> bytes_ok b -> length a = length b ->
  le_dec (xor_bytes a b) = le_dec a .^ le_dec b.
Proof.
  intros Ha Hb E. pose proof (le_dec_range a Ha) as Ra. pose proof (le_dec_range b Hb) as Rb.
  rewrite <- E in Rb.
  pose proof (le_dec_range _ (xor_bytes_ok a b Ha Hb)) as Rx.
  rewrite length_xor_bytes, <- E, Nat.min_id in Rx.
  apply (le_enc_inj (length a)); [assumption|apply lxor_range; auto with word|].
  rewrite le_enc_xor, (le_enc_dec a Ha). rewrite E at 2. rewrite (le_enc_dec b Hb).
  rewrite <- (le_enc_dec (xor_bytes a b)) at 2 by now apply xor_bytes_ok.
  now rewrite length_xor_bytes, <- E, Nat.min_id.
Qed.

Lemma le_dec_app a b : bytes_ok a ->
  le_dec (a ++ b) = le_dec a .| (le_dec b << (8 * Z.of_nat (length a))).
Proof.
  intros H. induction H as [|x a Hx Ha IH]; cbn [app le_dec length].
  - cbn [Z.of_nat]. now rewrite Z.shiftl_0_r.
  - rewrite IH, Z.shiftl_lor, Z.lor_assoc, Z.shiftl_shiftl by lia. do 2 f_equal. lia.
Qed.

Lemma le_enc_app n m x : le_enc (n + m) x = le_enc n x ++ le_enc m (x >> (8 * Z.of_nat n)).
Proof.
  revert x. induction n as [|n IH]; intros x; cbn [Nat.add le_enc app].
  - cbn [Z.of_nat]. now rewrite Z.shiftr_0_r.
  - rewrite IH, Z.shiftr_shiftr by lia.
    now replace (8 * Z.of_nat (S n)) with (8 + 8 * Z.of_nat n) by lia.
Qed.

(** ** Lanes *)

(** Bit-by-bit equality of registers, one doubleword lane at a time. *)
Ltac lanes :=
  apply Z.bits_inj'; intros ?i ?Hi;
  match goal with i : Z |- _ =>
    destruct (Z_lt_le_dec i 32);
    [|destruct (Z_lt_le_dec i 64); [|destruct (Z_lt_le_dec i 96); [|destruct (Z_lt_le_dec i 128)]]]
  end; zbits_core.

Lemma dw_range x i : in_range 32 (dw x i).
Proof. unfold dw. auto with word. Qed.

Section Lanes.
Variables a b c d a' b' c' d' : Z.
Hypotheses (Ha : in_range 32 a) (Hb : in_range 32 b) (Hc : in_range 32 c) (Hd : in_range 32 d)
  (Ha' : in_range 32 a') (Hb' : in_range 32 b') (Hc' : in_range 32 c') (Hd' : in_range 32 d').

Lemma mk128_xor : mk128 a b c d .^ mk128 a' b' c' d' = mk128 (a .^ a') (b .^ b') (c .^ c') (d .^ d').
Proof. unfold mk128. lanes. Qed.

Lemma mk128_slli4 : _mm_slli_si128 (mk128 a b c d) 4 = mk128 0 a b c.
Proof. unfold mk128, _mm_slli_si128. lanes. Qed.

Lemma dw_mk128 : dw (mk128 a b c d) 0 = a /\ dw (mk128 a b c d) 1 = b /\
  dw (mk128 a b c d) 2 = c /\ dw (mk128 a b c d) 3 = d.
Proof. unfold dw, mk128. repeat split; zbits. Qed.

Lemma mk128_range : in_range 128 (mk128 a b c d).
Proof.
  unfold mk128. repeat apply lor_range; try lia; try now apply (range_weaken 32).
  all: apply range_of_bits; [lia|apply Z.shiftl_nonneg; unfold in_range in *; lia|].
  all: intros i Hi; rewrite Z.shiftl_spec by lia; apply (testbit_above 32); [assumption|lia].
Qed.

Lemma le_enc_mk128 : le_enc 16 (mk128 a b c d) = le_enc 4 a ++ le_enc 4 b ++ le_enc 4 c ++ le_enc 4 d.
Proof.
  unfold mk128. cbn [le_enc app]. repeat (f_equal; [zbits|]). f_equal; zbits.
Qed.

Lemma lo64_mk128 : lo64 (mk128 a b c d) = a .| (b << 32).
Proof. unfold lo64, mk128. lanes. Qed.

Lemma hi64_mk128 : hi64 (mk128 a b c d) = c .| (d << 32).
Proof. unfold hi64, mk128. lanes. Qed.

Lemma mk64_dwords : mk64 (a .| (b << 32)) (c .| (d << 32)) = mk128 a b c d.
Proof. unfold mk64, mk128. lanes. Qed.
End Lanes.

Lemma mk128_dw x : in_range 128 x -> mk128 (dw x 0) (dw x 1) (dw x 2) (dw x 3) = x.
Proof. intros H. unfold mk128, dw. lanes. Qed.

(** A load of sixteen bytes, by words. *)
Lemma loadu_words p0 p1 p2 p3 rest :
  length p0 = 4%nat -> length p1 = 4%nat -> length p2 = 4%nat -> length p3 = 4%nat ->
  bytes_ok p0 -> bytes_ok p1 -> bytes_ok p2 -> bytes_ok p3 ->
  _mm_loadu_si128 (p0 ++ p1 ++ p2 ++ p3 ++ rest)
    = mk128 (le_dec p0) (le_dec p1) (le_dec p2) (le_dec p3).
Proof.
  intros L0 L1 L2 L3 H0 H1 H2 H3. unfold _mm_loadu_si128, mk128.
  rewrite !app_assoc, firstn_app, <- !app_assoc, !length_app, L0, L1, L2, L3.
  cbn [Nat.add Nat.sub]. rewrite firstn_O, app_nil_r, firstn_all2 by (rewrite !length_app; lia).
  rewrite !le_dec_app, L0, L1, L2 by assumption.
  rewrite !Z.shiftl_lor, !Z.shiftl_shiftl, !Z.lor_assoc by lia. reflexivity.
Qed.

Lemma le_dec4_range p : length p = 4%nat -> bytes_ok p -> in_range 32 (le_dec p).
Proof. intros L H. pose proof (le_dec_range p H) as R. now rewrite L in R. Qed.

Lemma load_store x rest : in_range 128 x -> _mm_loadu_si128 (_mm_storeu_si128 x ++ rest) = x.
Proof.
  intros H. unfold _mm_loadu_si128, _mm_storeu_si128.
  rewrite firstn_app, length_le_enc, Nat.sub_diag, firstn_O, app_nil_r.
  rewrite firstn_all2 by (now rewrite length_le_enc). now apply le_dec_enc.
Qed.

Lemma store_load p : length p = 16%nat -> bytes_ok p -> _mm_storeu_si128 (_mm_loadu_si128 p) = p.
Proof.
  intros L H. unfold _mm_loadu_si128, _mm_storeu_si128. rewrite firstn_all2 by lia.
  pose proof (le_enc_dec p H) as E. now rewrite L in E.
Qed.

Lemma SubDword_range w : in_range 32 (SubDword w).
Proof.
  apply le_dec4_range; [unfold SubWord; now rewrite length_map, length_le_enc|].
  apply SubBytes_ok.
Qed.

Lemma RotWord_ok w : bytes_ok w -> bytes_ok (RotWord w).
Proof. intros. apply Forall_app. auto using Forall_firstn, Forall_skipn. Qed.

Lemma RotWord_length w : length (RotWord w) = length w.
Proof. unfold RotWord. rewrite length_app, length_skipn, length_firstn. lia. Qed.

Lemma RotDword_range w : in_range 32 (RotDword w).
Proof.
  apply le_dec4_range; [now rewrite RotWord_length, length_le_enc|].
  apply RotWord_ok, le_enc_ok.
Qed.

#[export] Hint Resolve dw_range SubDword_range RotDword_range mk128_range : word.

End X86.
