(* ===== verification/Aes.v ===== *)
(** The AES key schedule of src/enclave/c_src/bearssl/symcipher/aes_x86ni.c, built on the
    AES-NI instructions, against the key expansion of FIPS 197. *)
From S2P Require Import Prelude Fips197 Intrinsics.
From Stdlib Require Import ZArith List Lia Bool.
Import Fips197 X86.

Module Aes.

(** * The code *)

Definition expand_step128 (k k2 : Z) : Z :=
  let k := _mm_xor_si128 k (_mm_slli_si128 k 4) in
  let k := _mm_xor_si128 k (_mm_slli_si128 k 4) in
  let k := _mm_xor_si128 k (_mm_slli_si128 k 4) in
  let k2 := _mm_shuffle_epi32 k2 0xFF in
  _mm_xor_si128 k k2.

(** The three registers are in-out parameters. *)
Definition expand_step192 (t1 t2 t3 : Z) : Z * Z * Z :=
  let t2 := _mm_shuffle_epi32 t2 0x55 in
  let t4 := _mm_slli_si128 t1 4 in
  let t1 := _mm_xor_si128 t1 t4 in
  let t4 := _mm_slli_si128 t4 4 in
  let t1 := _mm_xor_si128 t1 t4 in
  let t4 := _mm_slli_si128 t4 4 in
  let t1 := _mm_xor_si128 t1 t4 in
  let t1 := _mm_xor_si128 t1 t2 in
  let t2 := _mm_shuffle_epi32 t1 0xFF in
  let t4 := _mm_slli_si128 t3 4 in
  let t3 := _mm_xor_si128 t3 t4 in
  let t3 := _mm_xor_si128 t3 t2 in
  (t1, t2, t3).

Definition expand_step256_1 (t1 t2 : Z) : Z * Z :=
  let t2 := _mm_shuffle_epi32 t2 0xFF in
  let t4 := _mm_slli_si128 t1 4 in
  let t1 := _mm_xor_si128 t1 t4 in
  let t4 := _mm_slli_si128 t4 4 in
  let t1 := _mm_xor_si128 t1 t4 in
  let t4 := _mm_slli_si128 t4 4 in
  let t1 := _mm_xor_si128 t1 t4 in
  let t1 := _mm_xor_si128 t1 t2 in
  (t1, t2).

Definition expand_step256_2 (t1 t3 : Z) : Z :=
  let t4 := _mm_aeskeygenassist_si128 t1 0 in
  let t2 := _mm_shuffle_epi32 t4 0xAA in
  let t4 := _mm_slli_si128 t3 4 in
  let t3 := _mm_xor_si128 t3 t4 in
  let t4 := _mm_slli_si128 t4 4 in
  let t3 := _mm_xor_si128 t3 t4 in
  let t4 := _mm_slli_si128 t4 4 in
  let t3 := _mm_xor_si128 t3 t4 in
  _mm_xor_si128 t3 t2.

(** [sk[i] = v]. *)
Definition put (sk : list Z) (i : nat) (v : Z) : list Z := splice sk i [v].

(** The macros of [x86ni_keysched], with the variables they assign as results. *)
Definition KEXP128 (i : nat) (rcon : Z) (s : list Z * Z) : list Z * Z :=
  let '(sk, k) := s in
  let k := expand_step128 k (_mm_aeskeygenassist_si128 k rcon) in
  (put sk i k, k).

Definition KEXP192 (i : nat) (rcon1 rcon2 : Z) (s : list Z * Z * Z) : list Z * Z * Z :=
  let '(sk, t1, t3) := s in
  let sk := put sk (i + 0) t1 in
  let sk := put sk (i + 1) t3 in
  let t2 := _mm_aeskeygenassist_si128 t3 rcon1 in
  let '(t1, t2, t3) := expand_step192 t1 t2 t3 in
  let sk := put sk (i + 1) (_mm_shuffle_pd (nth (i + 1) sk 0) t1 0) in
  let sk := put sk (i + 2) (_mm_shuffle_pd t1 t3 1) in
  let t2 := _mm_aeskeygenassist_si128 t3 rcon2 in
  let '(t1, t2, t3) := expand_step192 t1 t2 t3 in
  (sk, t1, t3).

Definition KEXP256 (i : nat) (rcon : Z) (s : list Z * Z * Z) : list Z * Z * Z :=
  let '(sk, t1, t3) := s in
  let sk := put sk (i + 0) t3 in
  let t2 := _mm_aeskeygenassist_si128 t3 rcon in
  let '(t1, t2) := expand_step256_1 t1 t2 in
  let sk := put sk (i + 1) t1 in
  let t3 := expand_step256_2 t1 t3 in
  (sk, t1, t3).

(** [sk] is the caller's array of 15 registers; the number of rounds is returned. *)
Definition x86ni_keysched (sk key : list Z) (len : Z) : list Z * Z :=
  if len =? 16 then
    let t1 := _mm_loadu_si128 key in
    let s := (put sk 0 t1, t1) in
    let s := KEXP128  1 0x01 s in
    let s := KEXP128  2 0x02 s in
    let s := KEXP128  3 0x04 s in
    let s := KEXP128  4 0x08 s in
    let s := KEXP128  5 0x10 s in
    let s := KEXP128  6 0x20 s in
    let s := KEXP128  7 0x40 s in
    let s := KEXP128  8 0x80 s in
    let s := KEXP128  9 0x1B s in
    let s := KEXP128 10 0x36 s in
    (fst s, 10)
  else if len =? 24 then
    let t1 := _mm_loadu_si128 key in
    let t3 := _mm_loadu_si128 (skipn 8 key) in
    let t3 := _mm_shuffle_epi32 t3 0x4E in
    let s := (sk, t1, t3) in
    let s := KEXP192 0 0x01 0x02 s in
    let s := KEXP192 3 0x04 0x08 s in
    let s := KEXP192 6 0x10 0x20 s in
    let s := KEXP192 9 0x40 0x80 s in
    let '(sk, t1, _) := s in
    (put sk 12 t1, 12)
  else if len =? 32 then
    let t1 := _mm_loadu_si128 key in
    let t3 := _mm_loadu_si128 (skipn 16 key) in
    let s := (put sk 0 t1, t1, t3) in
    let s := KEXP256  1 0x01 s in
    let s := KEXP256  3 0x02 s in
    let s := KEXP256  5 0x04 s in
    let s := KEXP256  7 0x08 s in
    let s := KEXP256  9 0x10 s in
    let s := KEXP256 11 0x20 s in
    let '(sk, t1, t3) := s in
    let sk := put sk 13 t3 in
    let t2 := _mm_aeskeygenassist_si128 t3 0x40 in
    let '(t1, t2) := expand_step256_1 t1 t2 in
    (put sk 14 t1, 14)
  else (sk, 0).

(** [sk] is the local array before it is written, [skni] the caller's buffer. *)
Definition br_aes_x86ni_keysched_enc (sk skni key : list Z) (len : Z) : list Z * Z :=
  let '(sk, num_rounds) := x86ni_keysched sk key len in
  let n := Z.to_nat ((num_rounds + 1) << 4) in
  (splice skni 0 (firstn n (flat_map _mm_storeu_si128 sk)), num_rounds).

Fixpoint keysched_dec_loop (n : nat) (u num_rounds : Z) (sk skni : list Z) : list Z :=
  match n with
  | O => skni
  | S n' =>
      let skni := splice skni (Z.to_nat (u << 4))
        (_mm_storeu_si128 (_mm_aesimc_si128 (nth (Z.to_nat (num_rounds - u)) sk 0))) in
      keysched_dec_loop n' (u + 1) num_rounds sk skni
  end.

Definition br_aes_x86ni_keysched_dec (sk skni key : list Z) (len : Z) : list Z * Z :=
  let '(sk, num_rounds) := x86ni_keysched sk key len in
  let skni := splice skni 0 (_mm_storeu_si128 (nth (Z.to_nat num_rounds) sk 0)) in
  let skni := keysched_dec_loop (Z.to_nat (num_rounds - 1)) 1 num_rounds sk skni in
  let skni := splice skni (Z.to_nat (num_rounds << 4)) (_mm_storeu_si128 (nth 0 sk 0)) in
  (skni, num_rounds).

(** * Words in registers *)

(** A word of the schedule: four bytes. *)
Definition word4 (p : list Z) : Prop := length p = 4%nat /\ bytes_ok p.

Definition reg (p0 p1 p2 p3 : list Z) : Z := mk128 (le_dec p0) (le_dec p1) (le_dec p2) (le_dec p3).

Definition xw (a b : list Z) : list Z := xor_bytes a b.

Lemma word4_range p : word4 p -> in_range 32 (le_dec p).
Proof. intros [L H]. now apply le_dec4_range. Qed.

Lemma word4_xor a b : word4 a -> word4 b -> word4 (xw a b).
Proof.
  intros [La Ha] [Lb Hb]. split; [|now apply xor_bytes_ok].
  unfold xw. rewrite length_xor_bytes. lia.
Qed.

Lemma word4_sub a : word4 a -> word4 (SubWord a).
Proof. intros [L _]. split; [now rewrite <- L; apply length_map|apply SubBytes_ok]. Qed.

Lemma word4_rot a : word4 a -> word4 (RotWord a).
Proof. intros [L H]. split; [now rewrite RotWord_length|now apply RotWord_ok]. Qed.

Lemma word4_rcon rc : in_range 8 rc -> word4 [rc; 0; 0; 0].
Proof. intros H. split; [reflexivity|]. repeat constructor; apply H || reflexivity || lia. Qed.

Create HintDb aes.
#[local] Hint Resolve word4_range word4_xor word4_sub word4_rot word4_rcon : aes.
#[local] Hint Resolve word4_range : word.

Lemma dec_xw a b : word4 a -> word4 b -> le_dec (xw a b) = le_dec a .^ le_dec b.
Proof. intros [La Ha] [Lb Hb]. apply le_dec_xor; congruence || assumption. Qed.

Lemma SubDword_word p : word4 p -> SubDword (le_dec p) = le_dec (SubWord p).
Proof. intros [L H]. unfold SubDword. rewrite <- L. now rewrite le_enc_dec. Qed.

Lemma RotDword_word p : word4 p -> RotDword (le_dec p) = le_dec (RotWord p).
Proof. intros [L H]. unfold RotDword. rewrite <- L. now rewrite le_enc_dec. Qed.

Lemma Rot_Sub p : RotWord (SubWord p) = SubWord (RotWord p).
Proof. unfold RotWord, SubWord. now rewrite map_app, skipn_map, firstn_map. Qed.

Lemma rcon_dec rc : in_range 8 rc -> le_dec [rc; 0; 0; 0] = rc.
Proof. intros. cbn. now rewrite Z.lor_0_r. Qed.

(** The word [AESKEYGENASSIST] puts in lanes 1 and 3. *)
Definition key_core (p : list Z) (rc : Z) : list Z := xw (SubWord (RotWord p)) [rc; 0; 0; 0].

Lemma word4_core p rc : word4 p -> in_range 8 rc -> word4 (key_core p rc).
Proof. intros. unfold key_core. auto with aes. Qed.
#[local] Hint Resolve word4_core : aes.

Lemma core_dword p rc : word4 p -> in_range 8 rc ->
  RotDword (SubDword (le_dec p)) .^ rc = le_dec (key_core p rc).
Proof.
  intros Hp Hr. unfold key_core. rewrite dec_xw, rcon_dec by auto with aes.
  rewrite SubDword_word, RotDword_word, Rot_Sub by auto with aes. reflexivity.
Qed.

(** * One step of the schedule, by lanes *)

Section Shuffles.
Variables a b c d : Z.
Hypotheses (Ha : in_range 32 a) (Hb : in_range 32 b) (Hc : in_range 32 c) (Hd : in_range 32 d).

Ltac shuffle :=
  unfold _mm_shuffle_epi32; destruct (dw_mk128 a b c d) as (E0 & E1 & E2 & E3); auto;
  cbn -[dw mk128]; now rewrite ?E0, ?E1, ?E2, ?E3.

Lemma shuffle_FF : _mm_shuffle_epi32 (mk128 a b c d) 0xFF = mk128 d d d d.
Proof. shuffle. Qed.
Lemma shuffle_AA : _mm_shuffle_epi32 (mk128 a b c d) 0xAA = mk128 c c c c.
Proof. shuffle. Qed.
Lemma shuffle_55 : _mm_shuffle_epi32 (mk128 a b c d) 0x55 = mk128 b b b b.
Proof. shuffle. Qed.
Lemma shuffle_4E : _mm_shuffle_epi32 (mk128 a b c d) 0x4E = mk128 c d a b.
Proof. shuffle. Qed.

End Shuffles.

Ltac lane_step :=
  unfold _mm_xor_si128;
  repeat (rewrite ?mk128_slli4, ?shuffle_FF, ?shuffle_AA, ?shuffle_55 by auto 20 with word;
          rewrite ?mk128_xor by auto 20 with word);
  rewrite ?Z.lxor_0_r.

Section Steps.
Variables a b c d e f g h t x y z : Z.
Hypotheses (Ha : in_range 32 a) (Hb : in_range 32 b) (Hc : in_range 32 c) (Hd : in_range 32 d)
  (He : in_range 32 e) (Hf : in_range 32 f) (Hg : in_range 32 g) (Hh : in_range 32 h)
  (Ht : in_range 32 t) (Hx : in_range 32 x) (Hy : in_range 32 y) (Hz : in_range 32 z).

(** The lanes of the next group: each is the previous group's lane and the lane before it. *)
Definition chain (a b c d t : Z) : Z * Z * Z * Z :=
  let q0 := a .^ t in let q1 := b .^ q0 in let q2 := c .^ q1 in (q0, q1, q2, d .^ q2).

Lemma expand128_lanes : expand_step128 (mk128 a b c d) (mk128 x y z t) =
  let '(q0, q1, q2, q3) := chain a b c d t in mk128 q0 q1 q2 q3.
Proof. unfold expand_step128, chain. lane_step. f_equal; zbits. Qed.

Lemma expand256_1_lanes : fst (expand_step256_1 (mk128 a b c d) (mk128 x y z t)) =
  let '(q0, q1, q2, q3) := chain a b c d t in mk128 q0 q1 q2 q3.
Proof. unfold expand_step256_1, chain. cbn [fst]. lane_step. f_equal; zbits. Qed.

Lemma expand192_lanes : expand_step192 (mk128 a b c d) (mk128 x t y z) (mk128 e f g h) =
  let '(q0, q1, q2, q3) := chain a b c d t in
  (mk128 q0 q1 q2 q3, mk128 q3 q3 q3 q3,
   mk128 (e .^ q3) (f .^ (e .^ q3)) (g .^ (f .^ q3)) (h .^ (g .^ q3))).
Proof.
  unfold expand_step192, chain. lane_step. f_equal; [f_equal|]; f_equal; zbits.
Qed.

Lemma expand256_2_lanes k0 k1 k2 :
  in_range 32 k0 -> in_range 32 k1 -> in_range 32 k2 ->
  expand_step256_2 (mk128 k0 k1 k2 t) (mk128 a b c d) =
  let '(q0, q1, q2, q3) := chain a b c d (SubDword t) in mk128 q0 q1 q2 q3.
Proof.
  intros. unfold expand_step256_2, _mm_aeskeygenassist_si128, chain.
  destruct (dw_mk128 k0 k1 k2 t) as (_ & -> & _ & ->); auto.
  rewrite Z.lxor_0_r. lane_step. f_equal; zbits.
Qed.
End Steps.

(** * One step of the schedule, by words *)

Section Words.
Variables p0 p1 p2 p3 : list Z.
Hypotheses (H0 : word4 p0) (H1 : word4 p1) (H2 : word4 p2) (H3 : word4 p3).

(** Four successive words, each the exclusive or of the word a group earlier and the one
    before it, starting from [t]. *)
Definition next4 (p0 p1 p2 p3 t : list Z) : list Z * list Z * list Z * list Z :=
  let q0 := xw p0 t in let q1 := xw p1 q0 in let q2 := xw p2 q1 in (q0, q1, q2, xw p3 q2).

Lemma chain_words t : word4 t ->
  (let '(q0, q1, q2, q3) := chain (le_dec p0) (le_dec p1) (le_dec p2) (le_dec p3) (le_dec t) in
   mk128 q0 q1 q2 q3)
  = (let '(q0, q1, q2, q3) := next4 p0 p1 p2 p3 t in reg q0 q1 q2 q3).
Proof. intros. unfold next4, chain, reg. rewrite !dec_xw by auto 10 with aes. reflexivity. Qed.

Lemma keygen_reg rc : in_range 8 rc ->
  _mm_aeskeygenassist_si128 (reg p0 p1 p2 p3) rc
  = mk128 (SubDword (le_dec p1)) (le_dec (key_core p1 rc)) (SubDword (le_dec p3)) (le_dec (key_core p3 rc)).
Proof.
  intros Hr. unfold _mm_aeskeygenassist_si128, reg.
  destruct (dw_mk128 (le_dec p0) (le_dec p1) (le_dec p2) (le_dec p3)) as (_ & -> & _ & ->);
    auto with aes.
  now rewrite !core_dword by assumption.
Qed.

Lemma step128_words rc : in_range 8 rc ->
  expand_step128 (reg p0 p1 p2 p3) (_mm_aeskeygenassist_si128 (reg p0 p1 p2 p3) rc)
  = let '(q0, q1, q2, q3) := next4 p0 p1 p2 p3 (key_core p3 rc) in reg q0 q1 q2 q3.
Proof.
  intros Hr. rewrite keygen_reg by assumption. unfold reg at 1.
  rewrite expand128_lanes by auto with aes word. apply chain_words. auto with aes.
Qed.

End Words.

Section Words8.
Variables p0 p1 p2 p3 p4 p5 p6 p7 : list Z.
Hypotheses (H0 : word4 p0) (H1 : word4 p1) (H2 : word4 p2) (H3 : word4 p3)
  (H4 : word4 p4) (H5 : word4 p5) (H6 : word4 p6) (H7 : word4 p7).

Lemma step256_1_words rc : in_range 8 rc ->
  fst (expand_step256_1 (reg p0 p1 p2 p3) (_mm_aeskeygenassist_si128 (reg p4 p5 p6 p7) rc))
  = let '(q0, q1, q2, q3) := next4 p0 p1 p2 p3 (key_core p7 rc) in reg q0 q1 q2 q3.
Proof.
  intros. rewrite keygen_reg by assumption. unfold reg at 1.
  rewrite expand256_1_lanes by auto with aes word. apply chain_words; auto with aes.
Qed.

Lemma step256_2_words :
  expand_step256_2 (reg p0 p1 p2 p3) (reg p4 p5 p6 p7)
  = let '(q4, q5, q6, q7) := next4 p4 p5 p6 p7 (SubWord p3) in reg q4 q5 q6 q7.
Proof.
  unfold reg at 1 2. rewrite expand256_2_lanes by auto with aes word.
  rewrite SubDword_word by assumption. apply chain_words; auto with aes.
Qed.

(** For 192-bit keys the second register holds two words and two unused lanes. *)
Lemma step192_words g h rc : in_range 8 rc -> in_range 32 g -> in_range 32 h ->
  let '(q0, q1, q2, q3) := next4 p0 p1 p2 p3 (key_core p5 rc) in
  exists t2 g' h', in_range 32 g' /\ in_range 32 h' /\
  expand_step192 (reg p0 p1 p2 p3)
    (_mm_aeskeygenassist_si128 (mk128 (le_dec p4) (le_dec p5) g h) rc)
    (mk128 (le_dec p4) (le_dec p5) g h)
  = (reg q0 q1 q2 q3, t2, mk128 (le_dec (xw p4 q3)) (le_dec (xw p5 (xw p4 q3))) g' h').
Proof.
  intros Hr Hg Hh. cbn [next4].
  assert (Hr' : in_range 32 rc) by (apply (range_weaken 8); [lia|assumption]).
  assert (Ht : word4 (key_core p5 rc)) by auto with aes. set (t := key_core p5 rc) in *.
  pose proof (chain_words p0 p1 p2 p3 H0 H1 H2 H3 t Ht) as E. cbn [chain next4] in E.
  unfold _mm_aeskeygenassist_si128.
  destruct (dw_mk128 (le_dec p4) (le_dec p5) g h) as (_ & -> & _ & ->); auto with aes.
  rewrite core_dword by assumption. fold t. unfold reg at 1.
  rewrite expand192_lanes by auto 10 with aes word. cbn [chain]. rewrite E.
  rewrite !dec_xw by auto 10 with aes.
  do 3 eexists. split; [|split; [|reflexivity]]; auto 20 with aes word.
Qed.
End Words8.

(** * The words of FIPS 197, by groups *)

(** The word combined with the one a group earlier, for position [k] of group [j + 1]. *)
Definition temp_word (nk j k : nat) (last : list Z) : list Z :=
  if (k =? 0)%nat then xw (SubWord (RotWord last)) (Rcon (S j))
  else if ((6 <? nk) && (k =? 4))%nat then SubWord last
  else last.

Lemma next_word_at nk j k pre ws :
  length pre = (nk * j)%nat -> length ws = (nk + k)%nat -> (k < nk)%nat ->
  next_word nk (length (pre ++ ws)) (pre ++ ws)
  = xw (nth k ws []) (temp_word nk j k (nth (nk + k - 1) ws [])).
Proof.
  intros Hp Hw Hk. unfold next_word. rewrite length_app, Hp, Hw.
  replace (nk * j + (nk + k))%nat with (k + (j + 1) * nk)%nat by lia.
  rewrite Nat.Div0.mod_add, Nat.div_add, Nat.mod_small, Nat.div_small by lia.
  rewrite !app_nth2 by (rewrite Hp; nia). rewrite Hp.
  replace (k + (j + 1) * nk - 1 - nk * j)%nat with (nk + k - 1)%nat by nia.
  replace (k + (j + 1) * nk - nk - nk * j)%nat with k by nia.
  unfold temp_word, xw. now replace (0 + (j + 1))%nat with (S j) by lia.
Qed.

Lemma expand_at nk j k pre ws n :
  length pre = (nk * j)%nat -> length ws = (nk + k)%nat -> (k < nk)%nat ->
  expand nk (S n) (pre ++ ws)
  = expand nk n (pre ++ ws ++ [xw (nth k ws []) (temp_word nk j k (nth (nk + k - 1) ws []))]).
Proof.
  intros. cbn [expand]. rewrite (next_word_at nk j k) by assumption. now rewrite <- app_assoc.
Qed.

Lemma expand_add nk n m w : expand nk (n + m) w = expand nk m (expand nk n w).
Proof. revert w. induction n as [|n IH]; intros w; cbn; auto. Qed.

Lemma rcon_range j : in_range 8 (rcon_byte j).
Proof.
  induction j as [|j IH]; [now apply in_rangeb_spec|]. cbn [rcon_byte]. unfold xtime.
  apply lxor_range; auto with word. destruct (Z.testbit _ 7); split; reflexivity || lia.
Qed.
#[local] Hint Resolve rcon_range : aes.

(** * The macros, by words *)

Definition word4s (l : list (list Z)) : Prop := Forall word4 l.

Ltac words4 := repeat (apply Forall_cons; [auto 15 with aes|]); apply Forall_nil.

Lemma temp_word_core nk j p : temp_word nk j 0 p = key_core p (rcon_byte j).
Proof. unfold temp_word, Rcon. cbn [Nat.eqb Nat.sub]. now rewrite Nat.sub_0_r. Qed.

Ltac expand_done :=
  cbn [expand nth Nat.add Nat.sub app]; rewrite temp_word_core, <- app_assoc; reflexivity.

Lemma KEXP128_words j pre p0 p1 p2 p3 :
  length pre = (4 * j)%nat -> word4s [p0; p1; p2; p3] ->
  exists q0 q1 q2 q3, word4s [q0; q1; q2; q3] /\
    expand 4 4 (pre ++ [p0; p1; p2; p3]) = (pre ++ [p0; p1; p2; p3]) ++ [q0; q1; q2; q3] /\
    forall sk i, KEXP128 i (rcon_byte j) (sk, reg p0 p1 p2 p3)
      = (put sk i (reg q0 q1 q2 q3), reg q0 q1 q2 q3).
Proof.
  intros Hp Hw. unfold word4s in Hw. inv_Forall.
  set (t := key_core p3 (rcon_byte j)).
  exists (xw p0 t), (xw p1 (xw p0 t)), (xw p2 (xw p1 (xw p0 t))), (xw p3 (xw p2 (xw p1 (xw p0 t)))).
  split; [unfold t; words4|split].
  - rewrite (expand_at 4 j 0), (expand_at 4 j 1), (expand_at 4 j 2), (expand_at 4 j 3) by (cbn; lia).
    expand_done.
  - intros sk i. unfold KEXP128. rewrite step128_words by auto with aes. reflexivity.
Qed.

Lemma KEXP192_words j pre p0 p1 p2 p3 p4 p5 g h :
  length pre = (6 * j)%nat -> word4s [p0; p1; p2; p3; p4; p5] -> in_range 32 g -> in_range 32 h ->
  exists q0 q1 q2 q3 q4 q5, word4s [q0; q1; q2; q3; q4; q5] /\
    expand 6 4 (pre ++ [p0; p1; p2; p3; p4; p5])
      = (pre ++ [p0; p1; p2; p3; p4; p5]) ++ [q0; q1; q2; q3] /\
    expand 6 6 (pre ++ [p0; p1; p2; p3; p4; p5])
      = (pre ++ [p0; p1; p2; p3; p4; p5]) ++ [q0; q1; q2; q3; q4; q5] /\
    exists t2 g' h', in_range 32 g' /\ in_range 32 h' /\
      expand_step192 (reg p0 p1 p2 p3)
        (_mm_aeskeygenassist_si128 (mk128 (le_dec p4) (le_dec p5) g h) (rcon_byte j))
        (mk128 (le_dec p4) (le_dec p5) g h)
      = (reg q0 q1 q2 q3, t2, mk128 (le_dec q4) (le_dec q5) g' h').
Proof.
  intros Hp Hw Hg Hh. unfold word4s in Hw. inv_Forall.
  set (t := key_core p5 (rcon_byte j)). set (q0 := xw p0 t). set (q1 := xw p1 q0).
  set (q2 := xw p2 q1). set (q3 := xw p3 q2). set (q4 := xw p4 q3).
  exists q0, q1, q2, q3, q4, (xw p5 q4).
  split; [unfold q4, q3, q2, q1, q0, t; words4|split; [|split]].
  - rewrite (expand_at 6 j 0), (expand_at 6 j 1), (expand_at 6 j 2), (expand_at 6 j 3) by (cbn; lia).
    expand_done.
  - rewrite (expand_at 6 j 0), (expand_at 6 j 1), (expand_at 6 j 2), (expand_at 6 j 3),
      (expand_at 6 j 4), (expand_at 6 j 5) by (cbn; lia).
    expand_done.
  - apply (step192_words p0 p1 p2 p3 p4 p5); auto with aes.
Qed.

Lemma KEXP256_words j pre p0 p1 p2 p3 p4 p5 p6 p7 :
  length pre = (8 * j)%nat -> word4s [p0; p1; p2; p3; p4; p5; p6; p7] ->
  exists q0 q1 q2 q3 q4 q5 q6 q7, word4s [q0; q1; q2; q3; q4; q5; q6; q7] /\
    expand 8 4 (pre ++ [p0; p1; p2; p3; p4; p5; p6; p7])
      = (pre ++ [p0; p1; p2; p3; p4; p5; p6; p7]) ++ [q0; q1; q2; q3] /\
    expand 8 8 (pre ++ [p0; p1; p2; p3; p4; p5; p6; p7])
      = (pre ++ [p0; p1; p2; p3; p4; p5; p6; p7]) ++ [q0; q1; q2; q3; q4; q5; q6; q7] /\
    fst (expand_step256_1 (reg p0 p1 p2 p3)
           (_mm_aeskeygenassist_si128 (reg p4 p5 p6 p7) (rcon_byte j))) = reg q0 q1 q2 q3 /\
    expand_step256_2 (reg q0 q1 q2 q3) (reg p4 p5 p6 p7) = reg q4 q5 q6 q7.
Proof.
  intros Hp Hw. unfold word4s in Hw. inv_Forall.
  set (t := key_core p7 (rcon_byte j)). set (q0 := xw p0 t). set (q1 := xw p1 q0).
  set (q2 := xw p2 q1). set (q3 := xw p3 q2). set (q4 := xw p4 (SubWord q3)).
  set (q5 := xw p5 q4). set (q6 := xw p6 q5).
  assert (Hq : word4s [q0; q1; q2; q3; q4; q5; q6; xw p7 q6])
    by (unfold q6, q5, q4, q3, q2, q1, q0, t; words4).
  exists q0, q1, q2, q3, q4, q5, q6, (xw p7 q6).
  split; [exact Hq|unfold word4s in Hq; inversion Hq as [|? ? Q0 Hq1]; subst].
  inversion Hq1 as [|? ? Q1 Hq2]; subst. inversion Hq2 as [|? ? Q2 Hq3]; subst.
  inversion Hq3 as [|? ? Q3 _]; subst.
  split; [|split; [|split]].
  - rewrite (expand_at 8 j 0), (expand_at 8 j 1), (expand_at 8 j 2), (expand_at 8 j 3) by (cbn; lia).
    expand_done.
  - rewrite (expand_at 8 j 0), (expand_at 8 j 1), (expand_at 8 j 2), (expand_at 8 j 3),
      (expand_at 8 j 4), (expand_at 8 j 5), (expand_at 8 j 6), (expand_at 8 j 7) by (cbn; lia).
    expand_done.
  - rewrite step256_1_words by auto with aes. reflexivity.
  - rewrite step256_2_words by auto with aes. reflexivity.
Qed.

(** * The whole schedule *)

Definition reg4 (ws : list (list Z)) : Z := reg (nth 0 ws []) (nth 1 ws []) (nth 2 ws []) (nth 3 ws []).

(** What the schedule leaves: [nr + 1] registers with the words of FIPS 197, and [nr]. *)
Definition scheduled (sk key : list Z) (nr : nat) : Prop :=
  word4s (KeyExpansion key) /\ length (KeyExpansion key) = (4 * (nr + 1))%nat /\
  x86ni_keysched sk key (Z.of_nat (length key))
  = (map reg4 (blocks 4 (KeyExpansion key)) ++ skipn (nr + 1) sk, Z.of_nat nr).

(** [key] as explicit words. *)
Lemma key_words key n : length key = (4 * n)%nat -> bytes_ok key ->
  word4s (blocks 4 key) /\ length (blocks 4 key) = n /\ concat (blocks 4 key) = key.
Proof.
  unfold word4s, blocks. intros L Hk. rewrite L, Nat.mul_comm, Nat.div_mul by lia.
  revert key L Hk. induction n as [|n IH]; intros key L Hk; cbn [take_blocks concat length].
  - destruct key; [|discriminate]. repeat split. constructor.
  - destruct (IH (skipn 4 key)) as (H1 & H2 & H3).
    + rewrite length_skipn. lia.
    + now apply Forall_skipn.
    + rewrite H2, H3, firstn_skipn. split; [|split; reflexivity].
      constructor; [|exact H1]. split; [rewrite length_firstn; lia|now apply Forall_firstn].
Qed.

Lemma load_reg p0 p1 p2 p3 rest : word4s [p0; p1; p2; p3] ->
  _mm_loadu_si128 (p0 ++ p1 ++ p2 ++ p3 ++ rest) = reg p0 p1 p2 p3.
Proof. intros H. unfold word4s, word4 in H. inv_Forall. unfold reg. apply loadu_words; tauto. Qed.

Lemma skipn_words (ws : list (list Z)) n : word4s ws -> (n <= length ws)%nat ->
  skipn (4 * n) (concat ws) = concat (skipn n ws).
Proof.
  intros H. revert n. induction H as [|w ws [L _] _ IH]; intros [|n] Hn; try reflexivity.
  replace (4 * S n)%nat with (length w + 4 * n)%nat by lia. cbn [concat skipn].
  rewrite skipn_app, skipn_all2, Nat.add_comm, Nat.add_sub by lia.
  apply IH. cbn in Hn. lia.
Qed.

(** One application of a group lemma: names the new words, rewrites both sides. *)
Ltac step128 :=
  match goal with
  | |- context [expand 4 ?n (?pre ++ [?a; ?b; ?c; ?d])] =>
      let H := fresh "W" in let E := fresh "E" in let K := fresh "K" in
      let q0 := fresh "q" in let q1 := fresh "q" in let q2 := fresh "q" in let q3 := fresh "q" in
      let j := eval cbn in (Nat.div (length pre) 4) in
      destruct (KEXP128_words j pre a b c d eq_refl ltac:(assumption))
        as (q0 & q1 & q2 & q3 & H & E & K);
      let m := eval cbn in (n - 4)%nat in
      change (expand 4 n) with (expand 4 (4 + m)); rewrite expand_add, E; clear E;
      let rc := eval vm_compute in (rcon_byte j) in change (rcon_byte j) with rc in K;
      rewrite K; clear K
  end.

Lemma word4s_app a b : word4s a -> word4s b -> word4s (a ++ b).
Proof. intros. now apply Forall_app. Qed.

Lemma keysched128 sk key : length sk = 15%nat -> length key = 16%nat -> bytes_ok key ->
  scheduled sk key 10.
Proof.
  intros Ls Lk Hk. destruct (key_words key 4 Lk Hk) as (Hw & Ln & Ec).
  enough (exists ws, KeyExpansion key = ws /\ word4s ws /\ length ws = 44%nat /\
    x86ni_keysched sk key 16 = (map reg4 (blocks 4 ws) ++ skipn 11 sk, 10)) as (ws & E & H).
  { unfold scheduled. now rewrite Lk, E. }
  unfold KeyExpansion. rewrite Lk. revert Hw Ln Ec.
  generalize (blocks 4 key) as ws. intros ws Hw Ln <-. explode ws. explode sk.
  unfold x86ni_keysched. cbn [Z.eqb Pos.eqb concat]. rewrite load_reg by assumption.
  change (16 / 4)%nat with 4%nat. change (4 * (Nr 4 + 1) - 4)%nat with 40%nat.
  change [x; x0; x1; x2] with ([] ++ [x; x0; x1; x2]). cbv zeta.
  do 10 step128.
  eexists. split; [reflexivity|]. split; [repeat apply word4s_app; assumption || constructor|].
  split; reflexivity.
Qed.

(** ** Keys of 192 bits *)

Lemma length_put sk i v : (i < length sk)%nat -> length (put sk i v) = length sk.
Proof. intros. unfold put. apply length_splice. cbn. lia. Qed.

Lemma nth_put sk i v : (i < length sk)%nat -> nth i (put sk i v) 0 = v.
Proof.
  intros. unfold put, splice. rewrite app_nth2; rewrite length_firstn; [|lia].
  now replace (i - Nat.min i (length sk))%nat with O by lia.
Qed.

Lemma put_put sk i v w : (i < length sk)%nat -> put (put sk i v) i w = put sk i w.
Proof.
  intros. unfold put, splice. cbn [length]. f_equal; [|f_equal].
  - rewrite firstn_app, length_firstn, firstn_firstn, Nat.min_id, Nat.min_l, Nat.sub_diag by lia.
    apply app_nil_r.
  - rewrite skipn_app, length_firstn, Nat.min_l by lia.
    rewrite skipn_all2 by (rewrite length_firstn; lia).
    replace (i + 1 - i)%nat with 1%nat by lia. reflexivity.
Qed.

Lemma shuffle_pd_words p0 p1 q0 q1 q2 q3 p4 p5 g h :
  word4s [p0; p1; q0; q1; q2; q3; p4; p5] -> in_range 32 g -> in_range 32 h ->
  _mm_shuffle_pd (mk128 (le_dec p0) (le_dec p1) g h) (reg q0 q1 q2 q3) 0 = reg p0 p1 q0 q1 /\
  _mm_shuffle_pd (reg q0 q1 q2 q3) (mk128 (le_dec p4) (le_dec p5) g h) 1 = reg q2 q3 p4 p5.
Proof.
  intros Hw Hg Hh. unfold word4s in Hw. inv_Forall. unfold _mm_shuffle_pd, reg.
  cbn [Z.testbit Z.odd Pos.testbit].
  split; rewrite ?lo64_mk128, ?hi64_mk128 by auto with aes; apply mk64_dwords; auto with aes.
Qed.

Lemma KEXP192_two j pre p0 p1 p2 p3 p4 p5 g h :
  length pre = (6 * j)%nat -> word4s [p0; p1; p2; p3; p4; p5] -> in_range 32 g -> in_range 32 h ->
  exists q0 q1 q2 q3 q4 q5 r0 r1 r2 r3 r4 r5,
    word4s [q0; q1; q2; q3; q4; q5] /\ word4s [r0; r1; r2; r3; r4; r5] /\
    expand 6 10 (pre ++ [p0; p1; p2; p3; p4; p5])
      = ((pre ++ [p0; p1; p2; p3; p4; p5]) ++ [q0; q1; q2; q3; q4; q5]) ++ [r0; r1; r2; r3] /\
    expand 6 12 (pre ++ [p0; p1; p2; p3; p4; p5])
      = ((pre ++ [p0; p1; p2; p3; p4; p5]) ++ [q0; q1; q2; q3; q4; q5]) ++ [r0; r1; r2; r3; r4; r5] /\
    exists g' h', in_range 32 g' /\ in_range 32 h' /\
      forall sk i, (i + 2 < length sk)%nat ->
      KEXP192 i (rcon_byte j) (rcon_byte (S j))
        (sk, reg p0 p1 p2 p3, mk128 (le_dec p4) (le_dec p5) g h)
      = (put (put (put sk (i + 0) (reg p0 p1 p2 p3)) (i + 1) (reg p4 p5 q0 q1)) (i + 2) (reg q2 q3 q4 q5),
         reg r0 r1 r2 r3, mk128 (le_dec r4) (le_dec r5) g' h').
Proof.
  intros Hp Hw Hg Hh.
  destruct (KEXP192_words j pre p0 p1 p2 p3 p4 p5 g h Hp Hw Hg Hh)
    as (q0 & q1 & q2 & q3 & q4 & q5 & Hq & _ & E1 & t2 & g1 & h1 & Hg1 & Hh1 & S1).
  destruct (KEXP192_words (S j) (pre ++ [p0; p1; p2; p3; p4; p5]) q0 q1 q2 q3 q4 q5 g1 h1)
    as (r0 & r1 & r2 & r3 & r4 & r5 & Hr & E2 & E3 & t2' & g2 & h2 & Hg2 & Hh2 & S2); auto.
  { rewrite length_app. cbn [length]. lia. }
  exists q0, q1, q2, q3, q4, q5, r0, r1, r2, r3, r4, r5.
  split; [assumption|]. split; [assumption|].
  split; [change 10%nat with (6 + 4)%nat; now rewrite expand_add, E1|].
  split; [change 12%nat with (6 + 6)%nat; now rewrite expand_add, E1|].
  exists g2, h2. split; [assumption|]. split; [assumption|].
  intros sk i Hi. unfold KEXP192. rewrite S1, S2, nth_put by (rewrite length_put; lia).
  rewrite put_put by (rewrite length_put; lia).
  unfold word4s in Hw, Hq. inv_Forall.
  destruct (shuffle_pd_words p4 p5 q0 q1 q2 q3 q4 q5 g h) as [-> _]; try words4; auto.
  destruct (shuffle_pd_words p4 p5 q0 q1 q2 q3 q4 q5 g1 h1) as [_ ->]; try words4; auto.
Qed.

Ltac step192 :=
  match goal with
  | |- context [expand 6 ?n (?pre ++ [?a; ?b; ?c; ?d; ?e; ?f])] =>
      match goal with Hg : in_range 32 ?g, Hh : in_range 32 ?h |-
        context [KEXP192 _ _ _ (_, reg a b c d, mk128 (le_dec e) (le_dec f) ?g ?h)] =>
      let W1 := fresh "W" in let W2 := fresh "W" in let E0 := fresh "E" in let E := fresh "E" in
      let K := fresh "K" in
      let g' := fresh "g" in let h' := fresh "h" in let G := fresh "G" in let H := fresh "G" in
      let j := eval cbn in (Nat.div (length pre) 6) in
      destruct (KEXP192_two j pre a b c d e f g h eq_refl ltac:(assumption) Hg Hh)
        as (? & ? & ? & ? & ? & ? & ? & ? & ? & ? & ? & ? & W1 & W2 & E0 & E & g' & h' & G & H & K);
      tryif constr_eq n 10%nat then rewrite E0 else
        (let m := eval cbn in (n - 12)%nat in
         change (expand 6 n) with (expand 6 (12 + m)); rewrite expand_add, E);
      clear E0 E;
      let rc := eval vm_compute in (rcon_byte j) in change (rcon_byte j) with rc in K;
      let rc := eval vm_compute in (rcon_byte (S j)) in change (rcon_byte (S j)) with rc in K;
      rewrite K by (rewrite ?length_put; cbn; lia); clear K
      end
  end.

Lemma word4s_firstn n ws : word4s ws -> word4s (firstn n ws).
Proof. apply Forall_firstn. Qed.

Lemma keysched192 sk key : length sk = 15%nat -> length key = 24%nat -> bytes_ok key ->
  scheduled sk key 12.
Proof.
  intros Ls Lk Hk. destruct (key_words key 6 Lk Hk) as (Hw & Ln & Ec).
  enough (exists ws, KeyExpansion key = ws /\ word4s ws /\ length ws = 52%nat /\
    x86ni_keysched sk key 24 = (map reg4 (blocks 4 ws) ++ skipn 13 sk, 12)) as (ws & E & H).
  { unfold scheduled. now rewrite Lk, E. }
  unfold KeyExpansion. rewrite Lk. revert Hw Ln Ec.
  generalize (blocks 4 key) as ws. intros ws Hw Ln <-. explode ws. explode sk.
  pose proof Hw as Hw'. unfold word4s in Hw'. inv_Forall.
  unfold x86ni_keysched. cbn [Z.eqb Pos.eqb].
  change (skipn 8) with (@skipn Z (4 * 2)). rewrite skipn_words by (assumption || cbn; lia).
  cbn [concat skipn]. rewrite !load_reg by words4. unfold reg at 2.
  rewrite shuffle_4E by auto with aes.
  change (24 / 4)%nat with 6%nat. change (4 * (Nr 6 + 1) - 6)%nat with 46%nat.
  change [x; x0; x1; x2; x3; x4] with ([] ++ [x; x0; x1; x2; x3; x4]). cbv zeta.
  assert (in_range 32 (le_dec x1)) by auto with aes. assert (in_range 32 (le_dec x2)) by auto with aes.
  do 4 step192.
  eexists. split; [reflexivity|]. split.
  - repeat apply word4s_app; try assumption; [constructor|].
    match goal with H : word4s [?a; ?b; ?c; ?d; ?e; ?f] |- word4s [?a; ?b; ?c; ?d] =>
      exact (word4s_firstn 4 _ H) end.
  - split; reflexivity.
Qed.

(** ** Keys of 256 bits *)

Lemma KEXP256_reg j p0 p1 p2 p3 p4 p5 p6 p7 q0 q1 q2 q3 q4 q5 q6 q7 :
  fst (expand_step256_1 (reg p0 p1 p2 p3)
         (_mm_aeskeygenassist_si128 (reg p4 p5 p6 p7) (rcon_byte j))) = reg q0 q1 q2 q3 ->
  expand_step256_2 (reg q0 q1 q2 q3) (reg p4 p5 p6 p7) = reg q4 q5 q6 q7 ->
  forall sk i, KEXP256 i (rcon_byte j) (sk, reg p0 p1 p2 p3, reg p4 p5 p6 p7)
    = (put (put sk (i + 0) (reg p4 p5 p6 p7)) (i + 1) (reg q0 q1 q2 q3),
       reg q0 q1 q2 q3, reg q4 q5 q6 q7).
Proof.
  intros E1 E2 sk i. unfold KEXP256.
  destruct (expand_step256_1 _ _) as [t1 t2]. cbn [fst] in E1. now rewrite E1, E2.
Qed.

Ltac step256 :=
  match goal with
  | |- context [expand 8 ?n (?pre ++ [?a; ?b; ?c; ?d; ?e; ?f; ?g; ?h])] =>
      let W := fresh "W" in let E0 := fresh "E" in let E := fresh "E" in
      let K1 := fresh "K1" in let K2 := fresh "K2" in let K := fresh "K" in
      let j := eval cbn in (Nat.div (length pre) 8) in
      destruct (KEXP256_words j pre a b c d e f g h eq_refl ltac:(assumption))
        as (? & ? & ? & ? & ? & ? & ? & ? & W & E0 & E & K1 & K2);
      let rc := eval vm_compute in (rcon_byte j) in
      tryif constr_eq n 4%nat
      then (rewrite E0; change (rcon_byte j) with rc in K1)
      else
        (let m := eval cbn in (n - 8)%nat in
         change (expand 8 n) with (expand 8 (8 + m)); rewrite expand_add, E;
         pose proof (KEXP256_reg j _ _ _ _ _ _ _ _ _ _ _ _ _ _ _ _ K1 K2) as K;
         change (rcon_byte j) with rc in K; rewrite K; clear K K1 K2);
      clear E0 E
  end.

Lemma keysched256 sk key : length sk = 15%nat -> length key = 32%nat -> bytes_ok key ->
  scheduled sk key 14.
Proof.
  intros Ls Lk Hk. destruct (key_words key 8 Lk Hk) as (Hw & Ln & Ec).
  enough (exists ws, KeyExpansion key = ws /\ word4s ws /\ length ws = 60%nat /\
    x86ni_keysched sk key 32 = (map reg4 (blocks 4 ws) ++ skipn 15 sk, 14)) as (ws & E & H).
  { unfold scheduled. now rewrite Lk, E. }
  unfold KeyExpansion. rewrite Lk. revert Hw Ln Ec.
  generalize (blocks 4 key) as ws. intros ws Hw Ln <-. explode ws. explode sk.
  pose proof Hw as Hw'. unfold word4s in Hw'. inv_Forall.
  unfold x86ni_keysched. cbn [Z.eqb Pos.eqb].
  change (skipn 16) with (@skipn Z (4 * 4)). rewrite skipn_words by (assumption || cbn; lia).
  cbn [concat skipn]. rewrite !load_reg by words4.
  change (32 / 4)%nat with 8%nat. change (4 * (Nr 8 + 1) - 8)%nat with 52%nat.
  change [x; x0; x1; x2; x3; x4; x5; x6] with ([] ++ [x; x0; x1; x2; x3; x4; x5; x6]). cbv zeta.
  do 7 step256.
  destruct (expand_step256_1 _ _) as [t1 t2]. cbn [fst] in *. subst t1.
  eexists. split; [reflexivity|]. split.
  - repeat apply word4s_app; try assumption; [constructor|].
    match goal with H : word4s [?a; ?b; ?c; ?d; _; _; _; _] |- word4s [?a; ?b; ?c; ?d] =>
      exact (word4s_firstn 4 _ H) end.
  - split; reflexivity.
Qed.

(** * Both directions of the schedule *)

Lemma keysched_scheduled sk key nk :
  length sk = 15%nat -> length key = (4 * nk)%nat -> bytes_ok key -> In nk [4; 6; 8]%nat ->
  scheduled sk key (nk + 6).
Proof.
  intros Ls Lk Hk [<-|[<-|[<-|[]]]];
    [apply keysched128|apply keysched192|apply keysched256]; assumption.
Qed.

Lemma word4_enc p : word4 p -> le_enc 4 (le_dec p) = p.
Proof. intros [L H]. rewrite <- L. now apply le_enc_dec. Qed.

Lemma store_reg p0 p1 p2 p3 : word4s [p0; p1; p2; p3] ->
  _mm_storeu_si128 (reg p0 p1 p2 p3) = p0 ++ p1 ++ p2 ++ p3.
Proof.
  intros H. unfold word4s in H. inv_Forall. unfold _mm_storeu_si128, reg.
  rewrite le_enc_mk128 by auto with aes. now rewrite !word4_enc by assumption.
Qed.

Lemma store_regs k ws : length ws = (4 * k)%nat -> word4s ws ->
  map _mm_storeu_si128 (map reg4 (take_blocks k 4 ws)) = take_blocks k 16 (concat ws).
Proof.
  revert ws. induction k as [|k IH]; intros ws L Hw; [reflexivity|].
  do 4 (destruct ws as [|? ws]; [cbn in L; lia|]).
  assert (W : word4s [l; l0; l1; l2]) by (exact (word4s_firstn 4 _ Hw)).
  pose proof W as W'. unfold word4s, word4 in W'. inv_Forall.
  cbn [take_blocks map concat]. f_equal.
  - change (reg4 (firstn 4 _)) with (reg l l0 l1 l2). rewrite store_reg by assumption.
    rewrite !app_assoc, firstn_app, firstn_all2 by (rewrite !length_app; lia).
    rewrite !length_app. replace (16 - _)%nat with O by lia. now rewrite firstn_O, app_nil_r.
  - change (skipn 4 (_ :: _ :: _ :: _ :: ws)) with ws.
    rewrite IH; [|cbn in L; lia|now apply (Forall_skipn _ 4) in Hw].
    f_equal. rewrite !app_assoc, skipn_app, skipn_all2 by (rewrite !length_app; lia).
    rewrite !length_app. replace (16 - _)%nat with O by lia. reflexivity.
Qed.

Lemma length_concat_words ws : word4s ws -> length (concat ws) = (4 * length ws)%nat.
Proof.
  intros H. induction H as [|w ws [L _] _ IH]; [reflexivity|].
  cbn [concat length]. rewrite length_app, IH. lia.
Qed.

Lemma scheduled_keys sk key nr : scheduled sk key nr ->
  exists regs, x86ni_keysched sk key (Z.of_nat (length key)) = (regs ++ skipn (nr + 1) sk, Z.of_nat nr) /\
    map _mm_storeu_si128 regs = round_keys key /\ length regs = (nr + 1)%nat.
Proof.
  intros (Hw & L & E). exists (map reg4 (blocks 4 (KeyExpansion key))). split; [exact E|].
  unfold round_keys, blocks. rewrite length_concat_words, L by assumption.
  replace (4 * (4 * (nr + 1)))%nat with ((nr + 1) * 16)%nat by lia.
  rewrite (Nat.mul_comm 4), !Nat.div_mul by lia.
  rewrite store_regs by (assumption || lia). split; [reflexivity|]. rewrite length_map.
  clear. generalize (nr + 1)%nat, (KeyExpansion key). intros n. induction n; intros l; cbn; auto.
Qed.

Lemma keysched_dec_loop_out n : forall u nr sk skni,
  (16 * (u + n) <= length skni)%nat ->
  keysched_dec_loop n (Z.of_nat u) (Z.of_nat nr) sk skni
  = firstn (16 * u) skni
    ++ flat_map (fun i => _mm_storeu_si128 (_mm_aesimc_si128 (nth (nr - i) sk 0))) (seq u n)
    ++ skipn (16 * (u + n)) skni.
Proof.
  induction n as [|n IH]; intros u nr sk skni L; cbn [keysched_dec_loop seq flat_map].
  - rewrite Nat.add_0_r. symmetry. apply firstn_skipn.
  - rewrite Z.shiftl_mul_pow2 by lia.
    replace (Z.to_nat (Z.of_nat u * 2 ^ 4)) with (16 * u)%nat by (change (2 ^ 4) with 16; lia).
    replace (Z.of_nat u + 1) with (Z.of_nat (S u)) by lia.
    replace (Z.to_nat (Z.of_nat nr - Z.of_nat u)) with (nr - u)%nat by lia.
    set (b := _mm_storeu_si128 _). assert (Lb : length b = 16%nat) by apply length_le_enc.
    rewrite IH by (rewrite length_splice; lia).
    replace (16 * S u)%nat with (16 * u + length b)%nat by lia.
    rewrite firstn_splice, skipn_splice by lia. rewrite <- !app_assoc.
    now replace (S u + n)%nat with (u + S n)%nat by lia.
Qed.

Lemma store_imc x : _mm_storeu_si128 (_mm_aesimc_si128 x) = InvMixColumns (_mm_storeu_si128 x).
Proof.
  unfold _mm_storeu_si128, _mm_aesimc_si128.
  pose proof (le_enc_dec (InvMixColumns (le_enc 16 x))) as E. apply E.
  apply mix_with_ok, le_enc_ok.
Qed.

(** Registers [regs], stored as the sixteen-byte keys [rk], at the front of the array. *)
Section Stored.
Variables (regs tl skni : list Z) (rk : list (list Z)) (nr : nat).
Hypotheses (Er : map _mm_storeu_si128 regs = rk) (Lr : length regs = (nr + 1)%nat)
  (Hn : (1 <= nr <= 14)%nat) (Hskni : length skni = 240%nat).

Lemma stored_nth i : (i <= nr)%nat -> _mm_storeu_si128 (nth i (regs ++ tl) 0) = nth i rk [].
Proof. intros Hi. rewrite app_nth1, <- Er by lia. symmetry. apply nth_map_lt. lia. Qed.

Lemma stored_length : length (concat rk) = (16 * (nr + 1))%nat.
Proof.
  rewrite <- Er, <- Lr. clear. induction regs as [|r l IH]; [reflexivity|]. cbn [map concat].
  rewrite length_app, IH, length_store. cbn [length]. lia.
Qed.

Lemma stored_enc :
  splice skni 0 (firstn (Z.to_nat ((Z.of_nat nr + 1) << 4)) (flat_map _mm_storeu_si128 (regs ++ tl)))
  = concat rk ++ skipn (16 * (nr + 1)) skni.
Proof.
  rewrite Z.shiftl_mul_pow2 by lia. change (2 ^ 4) with 16.
  replace (Z.to_nat _) with (16 * (nr + 1))%nat by lia.
  rewrite flat_map_concat_map, map_app, concat_app, Er, firstn_app.
  rewrite stored_length, Nat.sub_diag, firstn_O, app_nil_r, firstn_all2
    by (rewrite stored_length; lia).
  unfold splice. now rewrite stored_length, firstn_O.
Qed.

Lemma stored_dec :
  splice (keysched_dec_loop (Z.to_nat (Z.of_nat nr - 1)) 1 (Z.of_nat nr) (regs ++ tl)
            (splice skni 0 (_mm_storeu_si128 (nth (Z.to_nat (Z.of_nat nr)) (regs ++ tl) 0))))
    (Z.to_nat (Z.of_nat nr << 4)) (_mm_storeu_si128 (nth 0 (regs ++ tl) 0))
  = nth nr rk [] ++ flat_map (fun u => InvMixColumns (nth (nr - u) rk [])) (seq 1 (nr - 1))
      ++ nth 0 rk [] ++ skipn (16 * (nr + 1)) skni.
Proof.
  rewrite Z.shiftl_mul_pow2 by lia. change (2 ^ 4) with 16.
  replace (Z.to_nat (Z.of_nat nr * 16)) with (16 * nr)%nat by lia.
  replace (Z.to_nat (Z.of_nat nr - 1)) with (nr - 1)%nat by lia.
  rewrite Nat2Z.id. rewrite !stored_nth by lia.
  assert (Li : forall i, (i <= nr)%nat -> length (nth i rk []) = 16%nat).
  { intros i Hi. rewrite <- stored_nth by assumption. apply length_store. }
  change 1 with (Z.of_nat 1). rewrite keysched_dec_loop_out
    by (rewrite length_splice; rewrite ?Li; lia).
  replace (16 * 1)%nat with (0 + length (nth nr rk []))%nat by (rewrite Li; lia).
  rewrite firstn_splice, skipn_splice by (rewrite ?Li; lia). cbn [firstn app].
  erewrite flat_map_ext with (g := fun u => InvMixColumns (nth (nr - u) rk []))
    by (intros u; rewrite store_imc, stored_nth by lia; reflexivity).
  set (mid := flat_map _ _).
  assert (Lm : length mid = (16 * (nr - 1))%nat).
  { unfold mid. rewrite (length_flat_map_const 16) by reflexivity. now rewrite length_seq. }
  rewrite app_assoc, splice_app by (rewrite length_app, Li, Lm; lia).
  rewrite <- app_assoc, skipn_skipn, Li by lia. do 4 f_equal. lia.
Qed.
End Stored.

(** For 16-, 24- and 32-byte keys, [br_aes_x86ni_keysched_enc] stores exactly the round
    keys of the FIPS 197 key expansion and returns its number of rounds, and
    [br_aes_x86ni_keysched_dec] stores the round keys of the equivalent inverse cipher: the
    same keys in reverse order, with InvMixColumns on all but the first and the last.  Bytes
    of the caller's buffer beyond the schedule are left as they were. *)
Theorem keysched_is_fips197 (sk skni key : list Z) (nk : nat)
  (Hsk : length sk = 15%nat) (Hskni : length skni = 240%nat)
  (Hlen : length key = (4 * nk)%nat) (Hkey : bytes_ok key) (Hnk : In nk [4; 6; 8]%nat) :
  let nr := (nk + 6)%nat in
  let rk := round_keys key in
  length rk = (nr + 1)%nat /\
  br_aes_x86ni_keysched_enc sk skni key (Z.of_nat (length key))
    = (concat rk ++ skipn (16 * (nr + 1)) skni, Z.of_nat nr) /\
  br_aes_x86ni_keysched_dec sk skni key (Z.of_nat (length key))
    = (nth nr rk [] ++ flat_map (fun u => InvMixColumns (nth (nr - u) rk [])) (seq 1 (nr - 1))
         ++ nth 0 rk [] ++ skipn (16 * (nr + 1)) skni, Z.of_nat nr).
Proof.
  intros nr rk. pose proof (keysched_scheduled sk key nk Hsk Hlen Hkey Hnk) as Hs.
  destruct (scheduled_keys _ _ _ Hs) as (regs & E & Er & Lr). fold nr in E, Lr. fold rk in Er.
  assert (Hn : (nr <= 14)%nat) by (destruct Hnk as [<-|[<-|[<-|[]]]]; cbn; lia).
  assert (Lrk : length rk = (nr + 1)%nat) by (rewrite <- Er, length_map; exact Lr).
  split; [exact Lrk|]. unfold br_aes_x86ni_keysched_enc, br_aes_x86ni_keysched_dec. rewrite E.
  assert (1 <= nr)%nat by (unfold nr; lia).
  split; f_equal; [apply stored_enc|apply stored_dec]; auto.
Qed.

Lemma keysched_is_fips197_witness :
  fst (br_aes_x86ni_keysched_enc (repeat 0 15) (repeat 0 240) (map Z.of_nat (seq 0 32)) 32)
  = concat (round_keys (map Z.of_nat (seq 0 32))).
Proof.
  destruct (keysched_is_fips197 (repeat 0 15) (repeat 0 240) (map Z.of_nat (seq 0 32)) 8
    eq_refl eq_refl eq_refl) as (_ & E & _).
  - apply words_ok_forallb. reflexivity.
  - cbn. tauto.
  - change 32 with (Z.of_nat (length (map Z.of_nat (seq 0 32)))). rewrite E. apply app_nil_r.
Defined.

End Aes.
