(* ===== verification/BlockClass.v ===== *)
(** The CTR interface of src/enclave/include/bearssl/bearssl_block.h: the class structure
    [br_block_ctr_class], the counter mode of SP 800-38A with a 32-bit big-endian counter,
    and what users of the class rely on. *)
From S2P Require Import Prelude Codec.
From Stdlib Require Import ZArith List Lia Bool.
Import Codec.

(** [struct br_block_ctr_class_]: [run] returns the new counter and the processed data. *)
Record br_block_ctr_class (ctx : Type) := {
  context_size : Z;
  ctr_block_size : Z;
  log_block_size : Z;
  ctr_init : ctx -> list Z -> Z -> ctx;
  ctr_run : ctx -> list Z -> Z -> list Z -> Z * list Z }.
Arguments context_size {ctx}.
Arguments ctr_block_size {ctx}.
Arguments log_block_size {ctx}.
Arguments ctr_init {ctx}.
Arguments ctr_run {ctx}.

(** ** Counter mode *)

Module Ctr.
Section Mode.
(** The block cipher under a fixed key. *)
Variable E : list Z -> list Z.

(** The counter block and the key stream block for counter value [cc]. *)
Definition counter_block (iv : list Z) (cc : Z) : list Z := iv ++ br_enc32be (u32 cc).
Definition stream_block (iv : list Z) (cc : Z) : list Z := E (counter_block iv cc).

Definition keystream (iv : list Z) (cc : Z) (n : nat) : list Z :=
  flat_map (fun i => stream_block iv (cc + Z.of_nat i)) (seq 0 n).

(** Encryption and decryption of [data], the last block possibly partial. *)
Definition crypt (iv : list Z) (cc : Z) (data : list Z) : list Z :=
  xor_bytes data (keystream iv cc ((length data + 15) / 16)).

Lemma keystream_ext iv cc cc' n : u32 cc = u32 cc' -> keystream iv cc n = keystream iv cc' n.
Proof.
  intros H. unfold keystream. apply flat_map_ext. intros i.
  unfold stream_block, counter_block. do 3 f_equal.
  now rewrite <- (wrap_add_l 32 cc), H, wrap_add_l.
Qed.

Lemma keystream_app iv cc n m :
  keystream iv cc (n + m) = keystream iv cc n ++ keystream iv (cc + Z.of_nat n) m.
Proof.
  unfold keystream. rewrite seq_app, flat_map_app. f_equal.
  cbn [Nat.add]. rewrite <- (Nat.add_0_r n) at 1. generalize O as k. revert n.
  induction m as [|m IH]; intros n k; [reflexivity|]. cbn [seq flat_map]. f_equal.
  - f_equal. lia.
  - rewrite <- IH. now replace (n + S k)%nat with (S (n + k)) by lia.
Qed.

(** Splitting at a block boundary, for an [iv] whose stream blocks have full size. *)
Variable iv : list Z.
Hypothesis stream_len : forall cc, length (stream_block iv cc) = 16%nat.

Lemma length_keystream cc n : length (keystream iv cc n) = (16 * n)%nat.
Proof.
  unfold keystream. rewrite (length_flat_map_const 16), length_seq; [reflexivity|].
  intros i. apply stream_len.
Qed.

Lemma crypt_length cc data : length (crypt iv cc data) = length data.
Proof.
  unfold crypt. rewrite length_xor_bytes, length_keystream. apply Nat.min_l.
  pose proof (Nat.div_mod (length data + 15) 16 ltac:(lia)).
  pose proof (Nat.mod_upper_bound (length data + 15) 16 ltac:(lia)). lia.
Qed.

Lemma crypt_app cc k a b : length a = (16 * k)%nat ->
  crypt iv cc (a ++ b) = crypt iv cc a ++ crypt iv (cc + Z.of_nat k) b.
Proof.
  intros L. unfold crypt. rewrite length_app, L.
  replace (16 * k + length b + 15)%nat with (length b + 15 + k * 16)%nat by lia.
  replace (16 * k + 15)%nat with (15 + k * 16)%nat by lia.
  rewrite !Nat.div_add by lia. change (15 / 16)%nat with O. cbn [Nat.add].
  rewrite Nat.add_comm, keystream_app. apply xor_bytes_app. now rewrite length_keystream.
Qed.

Lemma crypt_ext cc cc' data : u32 cc = u32 cc' -> crypt iv cc data = crypt iv cc' data.
Proof. intros H. unfold crypt. f_equal. now apply keystream_ext. Qed.

(** More key stream than needed does not change the result. *)
Lemma crypt_long cc n data : (length data <= 16 * n)%nat ->
  crypt iv cc data = xor_bytes data (keystream iv cc n).
Proof.
  intros L. unfold crypt.
  assert (H : ((length data + 15) / 16 <= n)%nat).
  { transitivity ((16 * n + 15) / 16)%nat; [apply Nat.Div0.div_le_mono; lia|].
    rewrite Nat.mul_comm, Nat.add_comm, Nat.div_add by lia. reflexivity. }
  pose proof (crypt_length cc data) as C. unfold crypt in C. rewrite length_xor_bytes in C.
  set (m := ((length data + 15) / 16)%nat) in *. replace n with (m + (n - m))%nat by lia.
  rewrite keystream_app. symmetry. apply xor_bytes_prefix. lia.
Qed.

Lemma crypt_involutive cc data : crypt iv cc (crypt iv cc data) = data.
Proof.
  unfold crypt at 1. rewrite crypt_length. unfold crypt. apply xor_bytes_involutive.
  pose proof (crypt_length cc data) as C. unfold crypt in C. rewrite length_xor_bytes in C. lia.
Qed.

(** Data at byte position [n] of a longer message. *)
Definition crypt_at (cc : Z) (n : nat) (d : list Z) : list Z :=
  xor_bytes d (skipn n (keystream iv cc ((n + length d + 15) / 16))).

Lemma crypt_at_long cc n N d : (n + length d <= 16 * N)%nat ->
  crypt_at cc n d = xor_bytes d (skipn n (keystream iv cc N)).
Proof.
  intros L. unfold crypt_at. set (m := ((n + length d + 15) / 16)%nat).
  assert (Hm : (n + length d <= 16 * m)%nat) by (unfold m; dlia).
  assert (HN : (m <= N)%nat) by (unfold m; dlia).
  replace N with (m + (N - m))%nat by lia. rewrite keystream_app, skipn_app.
  symmetry. apply xor_bytes_prefix. rewrite length_skipn, length_keystream. lia.
Qed.

Lemma crypt_at_0 cc d : crypt_at cc 0 d = crypt iv cc d.
Proof. reflexivity. Qed.

Lemma crypt_at_app cc n a b : crypt_at cc n (a ++ b) = crypt_at cc n a ++ crypt_at cc (n + length a) b.
Proof.
  set (N := (n + length (a ++ b))%nat). pose proof (length_app a b) as La.
  rewrite !(crypt_at_long cc _ N) by (unfold N; lia).
  rewrite <- (firstn_skipn (length a) (skipn n (keystream iv cc N))), skipn_skipn.
  rewrite xor_bytes_app by (rewrite length_firstn, length_skipn, length_keystream; unfold N; lia).
  f_equal; [|now rewrite (Nat.add_comm (length a))].
  symmetry. apply xor_bytes_prefix. rewrite length_firstn, length_skipn, length_keystream.
  unfold N; lia.
Qed.

Lemma crypt_at_block cc q d : crypt_at cc (16 * q) d = crypt iv (cc + Z.of_nat q) d.
Proof.
  set (N := ((length d + 15) / 16)%nat).
  rewrite (crypt_at_long cc _ (q + N)) by (unfold N; dlia).
  unfold crypt. fold N. rewrite keystream_app, skipn_app, length_keystream.
  rewrite skipn_all2 by (rewrite length_keystream; lia). now rewrite Nat.sub_diag.
Qed.

Lemma crypt_at_inside cc q t d : (t + length d <= 16)%nat ->
  crypt_at cc (16 * q + t) d = xor_bytes d (skipn t (stream_block iv (cc + Z.of_nat q))).
Proof.
  intros L. rewrite (crypt_at_long cc _ (q + 1)) by lia.
  rewrite keystream_app, skipn_app, length_keystream, skipn_all2 by (rewrite length_keystream; lia).
  replace (16 * q + t - 16 * q)%nat with t by lia. cbn [app].
  unfold keystream. cbn [seq flat_map Z.of_nat]. now rewrite Z.add_0_r, app_nil_r.
Qed.

Lemma crypt_at_length cc n d : length (crypt_at cc n d) = length d.
Proof.
  unfold crypt_at. rewrite length_xor_bytes, length_skipn, length_keystream.
  apply Nat.min_l. dlia.
Qed.

Lemma crypt_at_involutive cc n d : crypt_at cc n (crypt_at cc n d) = d.
Proof.
  unfold crypt_at at 1. rewrite crypt_at_length. unfold crypt_at. apply xor_bytes_involutive.
  rewrite length_skipn, length_keystream. dlia.
Qed.

Lemma crypt_nil cc : crypt iv cc [] = [].
Proof. reflexivity. Qed.
End Mode.
End Ctr.

(** What a CTR implementation promises: [keyed c E] says that context [c] is set up for the
    block cipher [E], and [run] then computes counter mode. *)
Class CtrImpl {ctx : Type} (cls : br_block_ctr_class ctx) := {
  keyed : ctx -> (list Z -> list Z) -> Prop;
  keyed_block c E b : keyed c E -> length b = 16%nat -> bytes_ok b ->
    length (E b) = 16%nat /\ bytes_ok (E b);
  run_crypt c E iv cc data : keyed c E ->
    length iv = 12%nat -> bytes_ok iv -> in_range 32 cc -> bytes_ok data ->
    ctr_run cls c iv cc data
    = (u32 (cc + Z.of_nat (length data) / 16), Ctr.crypt E iv cc data) }.
Arguments keyed {ctx} cls {_}.
