(* ===== verification/AesCtr.v ===== *)
(** AES in counter mode, src/enclave/c_src/bearssl/symcipher/aes_x86ni_ctr.c: four blocks at
    a time through the AES-NI pipeline, against the block-by-block mode of SP 800-38A. *)
From S2P Require Import Prelude Codec Fips197 Intrinsics Aes BlockClass.
From Stdlib Require Import ZArith List Lia Bool.
Import Codec Fips197 X86 Aes.

Module AesCtr.

(** * The code *)

(** [br_aes_x86ni_ctr_keys], without the vtable pointer. *)
Record br_aes_x86ni_ctr_keys := { skni : list Z; num_rounds : Z }.

Section Scratch.
(** The contents of the uninitialised local arrays: [sk[15]] of the key schedule, [sk[15]]
    and [ivbuf[16]] of [br_aes_x86ni_ctr_run]. *)
Variables (sk_init sk_run ivbuf : list Z).

Definition ctr_init_with (ctx : br_aes_x86ni_ctr_keys) (key : list Z) (len : Z)
  : br_aes_x86ni_ctr_keys :=
  let '(skni', nr) := br_aes_x86ni_keysched_enc sk_init (skni ctx) key len in
  {| skni := skni'; num_rounds := nr |}.

(** [__builtin_bswap32]. *)
Definition br_bswap32 (x : Z) : Z := le_dec (rev (le_enc 4 x)).

(** The registers x0..x3 and the four-fold instructions on them. *)
Definition quad : Type := Z * Z * Z * Z.
Definition quad_map (f : Z -> Z) (q : quad) : quad :=
  let '(x0, x1, x2, x3) := q in (f x0, f x1, f x2, f x3).
Definition xor4 (q : quad) (k : Z) : quad := quad_map (fun x => _mm_xor_si128 x k) q.
Definition enc4 (q : quad) (k : Z) : quad := quad_map (fun x => _mm_aesenc_si128 x k) q.
Definition enclast4 (q : quad) (k : Z) : quad := quad_map (fun x => _mm_aesenclast_si128 x k) q.

(** The rounds, [sk] being the array of round keys. *)
Definition rounds4 (nr : Z) (sk : list Z) (q : quad) : quad :=
  let q := xor4 q (nth 0 sk 0) in
  let q := enc4 q (nth 1 sk 0) in
  let q := enc4 q (nth 2 sk 0) in
  let q := enc4 q (nth 3 sk 0) in
  let q := enc4 q (nth 4 sk 0) in
  let q := enc4 q (nth 5 sk 0) in
  let q := enc4 q (nth 6 sk 0) in
  let q := enc4 q (nth 7 sk 0) in
  let q := enc4 q (nth 8 sk 0) in
  let q := enc4 q (nth 9 sk 0) in
  if nr =? 10 then
    enclast4 q (nth 10 sk 0)
  else if nr =? 12 then
    let q := enc4 q (nth 10 sk 0) in
    let q := enc4 q (nth 11 sk 0) in
    enclast4 q (nth 12 sk 0)
  else
    let q := enc4 q (nth 10 sk 0) in
    let q := enc4 q (nth 11 sk 0) in
    let q := enc4 q (nth 12 sk 0) in
    let q := enc4 q (nth 13 sk 0) in
    enclast4 q (nth 14 sk 0).

(** The [while (len > 0)] loop on the remaining data [buf]. *)
Fixpoint ctr_run_loop (fuel : nat) (nr : Z) (sk : list Z) (ivx cc : Z) (buf : list Z)
  : Z * list Z :=
  match fuel with
  | O => (cc, buf)
  | S fuel' =>
      let len := Z.of_nat (length buf) in
      if len =? 0 then (cc, buf) else
      let x0 := _mm_insert_epi32 ivx (br_bswap32 (u32 (cc + 0))) 3 in
      let x1 := _mm_insert_epi32 ivx (br_bswap32 (u32 (cc + 1))) 3 in
      let x2 := _mm_insert_epi32 ivx (br_bswap32 (u32 (cc + 2))) 3 in
      let x3 := _mm_insert_epi32 ivx (br_bswap32 (u32 (cc + 3))) 3 in
      let '(x0, x1, x2, x3) := rounds4 nr sk (x0, x1, x2, x3) in
      if 64 <=? len then
        let x0 := _mm_xor_si128 x0 (_mm_loadu_si128 (skipn 0 buf)) in
        let x1 := _mm_xor_si128 x1 (_mm_loadu_si128 (skipn 16 buf)) in
        let x2 := _mm_xor_si128 x2 (_mm_loadu_si128 (skipn 32 buf)) in
        let x3 := _mm_xor_si128 x3 (_mm_loadu_si128 (skipn 48 buf)) in
        let '(cc', rest) := ctr_run_loop fuel' nr sk ivx (u32 (cc + 4)) (skipn 64 buf) in
        (cc', _mm_storeu_si128 x0 ++ _mm_storeu_si128 x1 ++ _mm_storeu_si128 x2
                ++ _mm_storeu_si128 x3 ++ rest)
      else
        let tmp := _mm_storeu_si128 x0 ++ _mm_storeu_si128 x1 ++ _mm_storeu_si128 x2
                     ++ _mm_storeu_si128 x3 in
        (u32 (cc + (u32 len >> 4)), xor_bytes buf tmp)
  end.

Definition ctr_run_with (ctx : br_aes_x86ni_ctr_keys) (iv : list Z) (cc : Z) (data : list Z)
  : Z * list Z :=
  let ivbuf := splice ivbuf 0 (firstn 12 iv) in
  let nr := num_rounds ctx in
  let sk := fold_left (fun sk u => put sk u (_mm_loadu_si128 (skipn (16 * u) (skni ctx))))
              (seq 0 (Z.to_nat (nr + 1))) sk_run in
  let ivx := _mm_loadu_si128 ivbuf in
  ctr_run_loop (length data) nr sk ivx cc data.
End Scratch.

(** The functions with the local arrays zeroed; the theorems hold for any contents. *)
Definition br_aes_x86ni_ctr_init := ctr_init_with (repeat 0 15).
Definition br_aes_x86ni_ctr_run := ctr_run_with (repeat 0 15) (repeat 0 16).

Definition br_aes_x86ni_ctr_vtable : br_block_ctr_class br_aes_x86ni_ctr_keys := {|
  context_size := 256;
  ctr_block_size := 16;
  log_block_size := 4;
  ctr_init := br_aes_x86ni_ctr_init;
  ctr_run := br_aes_x86ni_ctr_run |}.

(** * One block *)

Definition b16 (s : list Z) : Prop := length s = 16%nat /\ bytes_ok s.

Lemma le_enc_b16 s : b16 s -> le_enc 16 (le_dec s) = s.
Proof. intros [L H]. rewrite <- L. now apply le_enc_dec. Qed.

Lemma b16_xor a b : b16 a -> b16 b -> b16 (xor_bytes a b).
Proof.
  intros [La Ha] [Lb Hb]. split; [rewrite length_xor_bytes; lia|now apply xor_bytes_ok].
Qed.

Lemma b16_round s k : b16 k -> b16 (round s k).
Proof.
  intros Hk. apply b16_xor; [|exact Hk]. split; [reflexivity|].
  apply mix_with_ok, ShiftRows_ok, SubBytes_ok.
Qed.

Lemma b16_final s k : b16 k -> b16 (final_round s k).
Proof.
  intros Hk. apply b16_xor; [|exact Hk]. split; [reflexivity|]. apply ShiftRows_ok, SubBytes_ok.
Qed.

Create HintDb aesctr.
#[local] Hint Resolve b16_xor b16_round b16_final : aesctr.

Lemma xor_add s k : b16 s -> b16 k -> _mm_xor_si128 (le_dec s) (le_dec k) = le_dec (AddRoundKey s k).
Proof. intros [Ls Hs] [Lk Hk]. symmetry. apply le_dec_xor; congruence || assumption. Qed.

Lemma aesenc_round s k : b16 s -> b16 k -> _mm_aesenc_si128 (le_dec s) (le_dec k) = le_dec (round s k).
Proof.
  intros Hs [Lk Hk]. unfold _mm_aesenc_si128. rewrite le_enc_b16 by assumption. symmetry.
  apply le_dec_xor; [apply mix_with_ok, ShiftRows_ok, SubBytes_ok|assumption|now rewrite Lk].
Qed.

Lemma aesenclast_round s k : b16 s -> b16 k ->
  _mm_aesenclast_si128 (le_dec s) (le_dec k) = le_dec (final_round s k).
Proof.
  intros Hs [Lk Hk]. unfold _mm_aesenclast_si128. rewrite le_enc_b16 by assumption. symmetry.
  apply le_dec_xor; [apply ShiftRows_ok, SubBytes_ok|assumption|now rewrite Lk].
Qed.

(** The four registers do not interact. *)
Definition rounds1 (nr : Z) (sk : list Z) (x : Z) : Z :=
  let '(y, _, _, _) := rounds4 nr sk (x, x, x, x) in y.

Lemma rounds4_lanes nr sk x0 x1 x2 x3 :
  rounds4 nr sk (x0, x1, x2, x3)
  = (rounds1 nr sk x0, rounds1 nr sk x1, rounds1 nr sk x2, rounds1 nr sk x3).
Proof.
  unfold rounds1, rounds4, xor4, enc4, enclast4, quad_map.
  destruct (nr =? 10); [|destruct (nr =? 12)]; cbv beta iota zeta; reflexivity.
Qed.

#[local] Opaque _mm_aesenc_si128 _mm_aesenclast_si128 _mm_xor_si128.

Lemma rounds1_fold nk ks tl x : In nk [4; 6; 8]%nat -> length ks = (nk + 7)%nat ->
  rounds1 (Z.of_nat (nk + 6)) (ks ++ tl) x
  = _mm_aesenclast_si128
      (fold_left _mm_aesenc_si128 (firstn (nk + 5) (skipn 1 ks)) (_mm_xor_si128 x (nth 0 ks 0)))
      (nth (nk + 6) ks 0).
Proof.
  intros Hnk L. unfold rounds1, rounds4, xor4, enc4, enclast4, quad_map.
  destruct Hnk as [<-|[<-|[<-|[]]]]; explode ks;
    cbv beta iota zeta delta [Z.of_nat Nat.add Pos.of_succ_nat Pos.succ Z.eqb Pos.eqb app nth
      firstn skipn fold_left]; reflexivity.
Qed.

#[local] Transparent _mm_aesenc_si128 _mm_aesenclast_si128 _mm_xor_si128.

Lemma fold_rounds ks : Forall b16 ks -> forall s, b16 s ->
  fold_left _mm_aesenc_si128 (map le_dec ks) (le_dec s) = le_dec (fold_left round ks s) /\
  b16 (fold_left round ks s).
Proof.
  intros H s Hs.
  apply (fold_left_rel (fun x y => x = le_dec y /\ b16 y) (fun x y => x = le_dec y /\ b16 y));
    [|now apply Forall2_map_l|now split].
  intros ? s' ? k [-> Hs'] [-> Hk]. split; [now apply aesenc_round|auto with aesctr].
Qed.

Lemma rounds1_cipher nk ks tl s :
  In nk [4; 6; 8]%nat -> length ks = (nk + 7)%nat -> Forall b16 ks -> b16 s ->
  rounds1 (Z.of_nat (nk + 6)) (map le_dec ks ++ tl) (le_dec s) = le_dec (cipher_with ks s) /\
  b16 (cipher_with ks s).
Proof.
  intros Hnk Lk Hk Hs. unfold cipher_with. rewrite Lk.
  replace (nk + 7 - 1)%nat with (nk + 6)%nat by lia.
  replace (nk + 6 - 1)%nat with (nk + 5)%nat by lia.
  assert (Hn : forall i, (i < nk + 7)%nat -> b16 (nth i ks [])).
  { intros i Hi. rewrite Forall_forall in Hk. apply Hk, nth_In. lia. }
  destruct (fold_rounds (firstn (nk + 5) (skipn 1 ks))
    (Forall_firstn _ _ _ (Forall_skipn _ _ _ Hk)) (AddRoundKey s (nth 0 ks []))) as [E B].
  { apply b16_xor; [assumption|apply Hn; lia]. }
  split; [|apply b16_final, Hn; lia].
  rewrite rounds1_fold by (rewrite ?length_map; assumption).
  rewrite skipn_map, firstn_map, !(nth_map_lt le_dec ks _ []) by lia.
  rewrite xor_add, E, aesenclast_round by (try apply Hn; assumption || lia). reflexivity.
Qed.

(** * Counter blocks and round keys in registers *)

Lemma bswap_be x : br_bswap32 x = le_dec (br_enc32be x).
Proof.
  unfold br_bswap32, br_enc32be. cbn [le_enc rev app].
  rewrite !Z.shiftr_shiftr by lia. reflexivity.
Qed.

Lemma enc32be_word x : word4 (br_enc32be x).
Proof. split; [reflexivity|]. unfold br_enc32be. repeat constructor; auto with word; apply wrap_range; lia. Qed.

Lemma load_b16 s rest : b16 s -> _mm_loadu_si128 (s ++ rest) = le_dec s.
Proof.
  intros [L _]. unfold _mm_loadu_si128.
  now rewrite firstn_app, L, Nat.sub_diag, firstn_O, app_nil_r, firstn_all2 by lia.
Qed.

Lemma counter_b16 iv cc : length iv = 12%nat -> bytes_ok iv -> b16 (Ctr.counter_block iv cc).
Proof.
  intros L H. destruct (enc32be_word (u32 cc)) as [Lw Hw]. unfold Ctr.counter_block. split.
  - rewrite length_app, L, Lw. reflexivity.
  - now apply Forall_app.
Qed.

Lemma insert_counter iv tail cc :
  length iv = 12%nat -> bytes_ok iv -> word4 tail ->
  _mm_insert_epi32 (_mm_loadu_si128 (iv ++ tail)) (br_bswap32 (u32 cc)) 3
  = le_dec (Ctr.counter_block iv cc).
Proof.
  intros L H Ht. destruct (key_words iv 3 L H) as (Hw & Ln & Ec).
  rewrite <- (load_b16 _ [] (counter_b16 iv cc L H)), app_nil_r. unfold Ctr.counter_block.
  revert Hw Ln Ec. generalize (blocks 4 iv) as ws. intros ws Hw Ln <-. explode ws.
  unfold word4s in Hw. inv_Forall. cbn [concat]. rewrite !app_nil_r, <- !app_assoc.
  rewrite <- (app_nil_r tail), <- (app_nil_r (br_enc32be _)).
  rewrite !load_reg by (unfold word4s; repeat (apply Forall_cons; [assumption || apply enc32be_word|]); constructor).
  unfold _mm_insert_epi32, reg. cbn [Z.eqb Pos.eqb].
  destruct (dw_mk128 (le_dec x) (le_dec x0) (le_dec x1) (le_dec tail)) as (-> & -> & -> & _);
    try (now apply word4_range). now rewrite bswap_be.
Qed.

(** The loop that loads the round keys. *)
Lemma load_loop (f : nat -> Z) n sk : (n <= length sk)%nat ->
  fold_left (fun sk u => put sk u (f u)) (seq 0 n) sk = map f (seq 0 n) ++ skipn n sk.
Proof.
  induction n as [|n IH]; intros L; [reflexivity|].
  rewrite seq_S, fold_left_app, map_app, IH by lia. cbn [fold_left Nat.add map].
  unfold put. rewrite splice_app by now rewrite length_map, length_seq.
  rewrite <- app_assoc, skipn_skipn. cbn [length app]. now replace (1 + n)%nat with (S n) by lia.
Qed.

Lemma load_keys ks tail : Forall b16 ks ->
  map (fun u => _mm_loadu_si128 (skipn (16 * u) (concat ks ++ tail))) (seq 0 (length ks))
  = map le_dec ks.
Proof.
  intros H. induction H as [|k ks Hk Hks IH]; [reflexivity|].
  cbn [length seq map concat]. f_equal.
  - rewrite Nat.mul_0_r. cbn [skipn]. rewrite <- app_assoc. now apply load_b16.
  - rewrite <- IH, <- seq_shift, map_map. apply map_ext. intros u. f_equal.
    destruct Hk as [L _]. rewrite <- app_assoc.
    replace (16 * S u)%nat with (length k + 16 * u)%nat by lia.
    rewrite skipn_app, skipn_all2 by lia. cbn [app]. f_equal. lia.
Qed.

Lemma round_keys_b16 key nk :
  length key = (4 * nk)%nat -> bytes_ok key -> In nk [4; 6; 8]%nat ->
  Forall b16 (round_keys key) /\ length (round_keys key) = (nk + 7)%nat.
Proof.
  intros L H Hnk.
  destruct (scheduled_keys _ _ _ (keysched_scheduled (repeat 0 15) key nk eq_refl L H Hnk))
    as (regs & _ & <- & Lr).
  split; [|rewrite length_map; lia].
  apply Forall_map, Forall_forall. intros x _. split; [apply length_store|apply le_enc_ok].
Qed.

(** * The loop *)

Section Run.
Variables (nk : nat) (key iv tail junk : list Z).
Hypotheses (Hnk : In nk [4; 6; 8]%nat) (Lkey : length key = (4 * nk)%nat) (Hkey : bytes_ok key)
  (Liv : length iv = 12%nat) (Hiv : bytes_ok iv) (Htail : word4 tail).

Abbreviation E := (Cipher key).
Abbreviation lane := (rounds1 (Z.of_nat (nk + 6)) (map le_dec (round_keys key) ++ junk)).
Abbreviation ctr i :=
  (_mm_insert_epi32 (_mm_loadu_si128 (iv ++ tail)) (br_bswap32 (u32 i)) 3).

Lemma cipher_b16 s : b16 s -> b16 (E s).
Proof.
  intros Hs. destruct (round_keys_b16 key nk Lkey Hkey Hnk) as [B L].
  now apply (rounds1_cipher nk (round_keys key) junk s).
Qed.

Lemma lane_stream cc : lane (ctr cc) = le_dec (Ctr.stream_block E iv cc).
Proof.
  destruct (round_keys_b16 key nk Lkey Hkey Hnk) as [B L].
  rewrite insert_counter by assumption.
  now apply rounds1_cipher; [| | |apply counter_b16].
Qed.

Lemma stream_b16 cc : b16 (Ctr.stream_block E iv cc).
Proof. now apply cipher_b16, counter_b16. Qed.

Lemma store_xor_load S b rest : b16 S -> b16 b ->
  _mm_storeu_si128 (_mm_xor_si128 (le_dec S) (_mm_loadu_si128 (b ++ rest))) = xor_bytes b S.
Proof.
  intros HS Hb. unfold _mm_storeu_si128, _mm_xor_si128.
  rewrite load_b16, le_enc_xor, !le_enc_b16 by assumption. apply xor_bytes_comm.
Qed.

Lemma stream4 cc : Ctr.keystream E iv cc 4
  = Ctr.stream_block E iv cc ++ Ctr.stream_block E iv (cc + 1)
    ++ Ctr.stream_block E iv (cc + 2) ++ Ctr.stream_block E iv (cc + 3).
Proof. unfold Ctr.keystream. cbn [seq flat_map Z.of_nat Pos.of_succ_nat Pos.succ]. now rewrite Z.add_0_r, app_nil_r. Qed.

(** Four full blocks. *)
Lemma crypt64 cc b0 b1 b2 b3 rest : b16 b0 -> b16 b1 -> b16 b2 -> b16 b3 ->
  Ctr.crypt E iv cc (b0 ++ b1 ++ b2 ++ b3 ++ rest)
  = xor_bytes b0 (Ctr.stream_block E iv cc) ++ xor_bytes b1 (Ctr.stream_block E iv (cc + 1))
    ++ xor_bytes b2 (Ctr.stream_block E iv (cc + 2)) ++ xor_bytes b3 (Ctr.stream_block E iv (cc + 3))
    ++ Ctr.crypt E iv (cc + 4) rest.
Proof.
  intros [L0 _] [L1 _] [L2 _] [L3 _].
  assert (Hs : forall i, length (Ctr.stream_block E iv i) = 16%nat) by (intros; apply stream_b16).
  replace (b0 ++ b1 ++ b2 ++ b3 ++ rest) with ((b0 ++ b1 ++ b2 ++ b3) ++ rest)
    by (now rewrite <- !app_assoc).
  rewrite (Ctr.crypt_app _ iv Hs cc 4) by (rewrite !length_app; lia).
  rewrite (Ctr.crypt_long _ iv Hs cc 4) by (rewrite !length_app; lia).
  rewrite stream4, !xor_bytes_app by (rewrite Hs; assumption). now rewrite <- !app_assoc.
Qed.

(** The first 64 bytes as four blocks. *)
Lemma split64 buf : (64 <= length buf)%nat -> bytes_ok buf ->
  exists b0 b1 b2 b3 rest, buf = b0 ++ b1 ++ b2 ++ b3 ++ rest /\
    b16 b0 /\ b16 b1 /\ b16 b2 /\ b16 b3 /\ bytes_ok rest.
Proof.
  intros L H.
  exists (firstn 16 buf), (firstn 16 (skipn 16 buf)), (firstn 16 (skipn 32 buf)),
    (firstn 16 (skipn 48 buf)), (skipn 64 buf).
  split.
  - rewrite <- (firstn_skipn 16 buf) at 1. f_equal.
    rewrite <- (firstn_skipn 16 (skipn 16 buf)) at 1. rewrite skipn_skipn. f_equal.
    rewrite <- (firstn_skipn 16 (skipn (16 + 16) buf)) at 1. rewrite skipn_skipn. f_equal.
    rewrite <- (firstn_skipn 16 (skipn (16 + (16 + 16)) buf)) at 1. now rewrite skipn_skipn.
  - assert (B : forall n, (n <= 48)%nat -> b16 (firstn 16 (skipn n buf))).
    { intros n Hn. split; [rewrite length_firstn, length_skipn; lia|].
      now apply Forall_firstn, Forall_skipn. }
    pose proof (B O ltac:(lia)) as B0. cbn [skipn] in B0.
    repeat split; try (apply B; lia); try apply B0. now apply Forall_skipn.
Qed.

Lemma tail_counter cc n : (n < 64)%nat ->
  u32 (cc + (u32 (Z.of_nat n) >> 4)) = u32 (cc + Z.of_nat n / 16).
Proof.
  intros. rewrite (wrap_small 32 (Z.of_nat n)) by (unfold in_range; lia).
  now rewrite Z.shiftr_div_pow2 by lia.
Qed.

Lemma ctr_run_loop_crypt fuel : forall cc buf,
  (length buf <= fuel)%nat -> in_range 32 cc -> bytes_ok buf ->
  ctr_run_loop fuel (Z.of_nat (nk + 6)) (map le_dec (round_keys key) ++ junk)
    (_mm_loadu_si128 (iv ++ tail)) cc buf
  = (u32 (cc + Z.of_nat (length buf) / 16), Ctr.crypt E iv cc buf).
Proof.
  assert (Hs : forall i, length (Ctr.stream_block E iv i) = 16%nat) by (intros; apply stream_b16).
  induction fuel as [|fuel IH]; intros cc buf L Hc Hb; cbn [ctr_run_loop].
  { destruct buf; [|cbn in L; lia]. cbn [length Z.of_nat]. rewrite Z.div_0_l, Z.add_0_r by lia.
    now rewrite wrap_small. }
  destruct (Z.eqb_spec (Z.of_nat (length buf)) 0) as [Z0|Z0].
  { destruct buf; [|cbn in Z0; lia]. cbn [length Z.of_nat]. rewrite Z.div_0_l, Z.add_0_r by lia.
    now rewrite wrap_small. }
  rewrite rounds4_lanes, Z.add_0_r, !lane_stream.
  destruct (Z.leb_spec 64 (Z.of_nat (length buf))) as [H64|H64].
  - destruct (split64 buf) as (b0 & b1 & b2 & b3 & rest & -> & B0 & B1 & B2 & B3 & Hr);
      [lia|assumption|].
    destruct (skip_blocks b0 b1 b2 b3 rest) as (-> & -> & -> & ->);
      [apply B0|apply B1|apply B2|apply B3|].
    change (skipn 0 ?l) with l. rewrite !store_xor_load by (assumption || apply stream_b16).
    rewrite crypt64 by assumption. destruct B0 as [L0 _], B1 as [L1 _], B2 as [L2 _], B3 as [L3 _].
    rewrite !length_app, L0, L1, L2, L3 in *.
    rewrite IH by (lia || auto with word || assumption). f_equal.
    + rewrite wrap_add_l. f_equal. rewrite !Nat2Z.inj_add.
      replace (Z.of_nat 16 + (Z.of_nat 16 + (Z.of_nat 16 + (Z.of_nat 16 + Z.of_nat (length rest)))))
        with (Z.of_nat (length rest) + 4 * 16) by lia. rewrite Z.div_add by lia. lia.
    + do 4 f_equal. apply Ctr.crypt_ext. apply wrap_wrap.
  - rewrite tail_counter by lia. f_equal.
    rewrite (Ctr.crypt_long _ iv Hs cc 4), stream4 by lia. unfold _mm_storeu_si128.
    now rewrite !le_enc_b16 by apply stream_b16.
Qed.
End Run.

(** * The implementation of the interface *)

(** Context [c] holds the key schedule of [key], for any contents of the unused end. *)
Definition ctr_keyed (c : br_aes_x86ni_ctr_keys) (key : list Z) : Prop :=
  exists nk tl, In nk [4; 6; 8]%nat /\ length key = (4 * nk)%nat /\ bytes_ok key /\
    num_rounds c = Z.of_nat (nk + 6) /\ skni c = concat (round_keys key) ++ tl.

Lemma ctr_init_keyed sk c key nk :
  length sk = 15%nat -> length (skni c) = 240%nat ->
  length key = (4 * nk)%nat -> bytes_ok key -> In nk [4; 6; 8]%nat ->
  ctr_keyed (ctr_init_with sk c key (Z.of_nat (length key))) key.
Proof.
  intros Ls Lc Lk Hk Hnk. unfold ctr_init_with, br_aes_x86ni_keysched_enc.
  destruct (scheduled_keys _ _ _ (keysched_scheduled sk key nk Ls Lk Hk Hnk)) as (regs & E & Er & Lr).
  rewrite E. assert (Hn : (nk + 6 <= 14)%nat) by (destruct Hnk as [<-|[<-|[<-|[]]]]; cbn; lia).
  rewrite (stored_enc regs _ _ (round_keys key) (nk + 6)) by (assumption || lia).
  exists nk. eexists. repeat split; assumption || reflexivity.
Qed.

Lemma ctr_run_with_crypt sk ivbuf c key iv cc data :
  ctr_keyed c key -> length sk = 15%nat -> length ivbuf = 16%nat -> bytes_ok ivbuf ->
  length iv = 12%nat -> bytes_ok iv -> in_range 32 cc -> bytes_ok data ->
  ctr_run_with sk ivbuf c iv cc data
  = (u32 (cc + Z.of_nat (length data) / 16), Ctr.crypt (Cipher key) iv cc data).
Proof.
  intros (nk & tl & Hnk & Lk & Hk & En & Es) Ls Lb Hb Li Hi Hc Hd.
  destruct (round_keys_b16 key nk Lk Hk Hnk) as [B L].
  unfold ctr_run_with. rewrite En, Es.
  replace (Z.to_nat (Z.of_nat (nk + 6) + 1)) with (length (round_keys key)) by lia.
  assert (Hn : (nk + 7 <= 15)%nat) by (destruct Hnk as [<-|[<-|[<-|[]]]]; cbn; lia).
  rewrite load_loop, load_keys by (assumption || lia).
  unfold splice. rewrite firstn_O, (firstn_all2 iv) by lia. cbn [app Nat.add]. rewrite Li.
  apply ctr_run_loop_crypt; auto.
  split; [rewrite length_skipn; lia|now apply Forall_skipn].
Qed.

#[global] Instance aes_ctr_impl : CtrImpl br_aes_x86ni_ctr_vtable.
Proof.
  refine {| keyed := fun c E => exists key, E = Cipher key /\ ctr_keyed c key |}.
  - intros c E b (key & -> & nk & tl & Hnk & Lk & Hk & _) L H.
    exact (cipher_b16 nk key [] Hnk Lk Hk b (conj L H)).
  - intros c E iv cc data (key & -> & Hc) Li Hi Hcc Hd. cbn [br_aes_x86ni_ctr_vtable ctr_run].
    apply ctr_run_with_crypt; try assumption; try reflexivity.
    apply Forall_repeat. auto with word.
Defined.

(** Initialising the context with a 16-, 24- or 32-byte key and running CTR over data of
    any length gives counter-mode encryption with the FIPS 197 cipher: block [i] of the data
    is xored with the cipher of the 12-byte IV followed by the big-endian 32-bit counter
    [cc + i] (modulo 2^32), a final partial block uses the start of its key stream block, and
    the returned counter has advanced by the number of full blocks.  This holds whatever the
    uninitialised local arrays contain. *)
Theorem aes_ctr_is_sp800_38a (sk1 sk2 ivbuf : list Z) (c : br_aes_x86ni_ctr_keys)
  (key iv data : list Z) (nk : nat) (cc : Z)
  (Hs1 : length sk1 = 15%nat) (Hs2 : length sk2 = 15%nat)
  (Hb : length ivbuf = 16%nat) (Hb' : bytes_ok ivbuf) (Hc : length (skni c) = 240%nat)
  (Hlen : length key = (4 * nk)%nat) (Hkey : bytes_ok key) (Hnk : In nk [4; 6; 8]%nat)
  (Hiv : length iv = 12%nat) (Hiv' : bytes_ok iv) (Hcc : in_range 32 cc) (Hd : bytes_ok data) :
  ctr_run_with sk2 ivbuf (ctr_init_with sk1 c key (Z.of_nat (length key))) iv cc data
  = (u32 (cc + Z.of_nat (length data) / 16), Ctr.crypt (Cipher key) iv cc data).
Proof. apply ctr_run_with_crypt; auto. now apply ctr_init_keyed with (nk := nk). Qed.

Definition blank_keys : br_aes_x86ni_ctr_keys := {| skni := repeat 0 240; num_rounds := 0 |}.

(** The CTR-AES256 vector of SP 800-38A, F.5.5, first two blocks. *)
Definition f55_key : list Z :=
    [0x60; 0x3d; 0xeb; 0x10; 0x15; 0xca; 0x71; 0xbe; 0x2b; 0x73; 0xae; 0xf0;
     0x85; 0x7d; 0x77; 0x81; 0x1f; 0x35; 0x2c; 0x07; 0x3b; 0x61; 0x08; 0xd7;
     0x2d; 0x98; 0x10; 0xa3; 0x09; 0x14; 0xdf; 0xf4].
Definition f55_iv : list Z :=
    [0xf0; 0xf1; 0xf2; 0xf3; 0xf4; 0xf5; 0xf6; 0xf7; 0xf8; 0xf9; 0xfa; 0xfb].
Definition f55_plain : list Z :=
    [0x6b; 0xc1; 0xbe; 0xe2; 0x2e; 0x40; 0x9f; 0x96; 0xe9; 0x3d; 0x7e; 0x11;
     0x73; 0x93; 0x17; 0x2a; 0xae; 0x2d; 0x8a; 0x57; 0x1e; 0x03; 0xac; 0x9c;
     0x9e; 0xb7; 0x6f; 0xac; 0x45; 0xaf; 0x8e; 0x51].

Lemma aes_ctr_is_sp800_38a_witness :
  ctr_run_with (repeat 7 15) (repeat 9 16) (ctr_init_with (repeat 3 15) blank_keys f55_key 32)
    f55_iv 0xfcfdfeff f55_plain
  = (0xfcfdfeff + 2, Ctr.crypt (Cipher f55_key) f55_iv 0xfcfdfeff f55_plain).
Proof.
  apply (aes_ctr_is_sp800_38a (repeat 3 15) (repeat 7 15) (repeat 9 16) blank_keys
    f55_key f55_iv f55_plain 8); try reflexivity;
    try (apply words_ok_forallb; reflexivity); try (now apply in_rangeb_spec).
  cbn. tauto.
Defined.

Example ctr_f55 :
  br_aes_x86ni_ctr_run (br_aes_x86ni_ctr_init blank_keys f55_key 32) f55_iv 0xfcfdfeff f55_plain
  = (0xfcfdff01,
    [0x60; 0x1e; 0xc3; 0x13; 0x77; 0x57; 0x89; 0xa5; 0xb7; 0xa7; 0xf5; 0x04;
     0xbb; 0xf3; 0xd2; 0x28; 0xf4; 0x43; 0xe3; 0xca; 0x4d; 0x62; 0xb5; 0x9a;
     0xca; 0x84; 0xe9; 0x90; 0xca; 0xca; 0xf5; 0xc5]).
Proof. vm_compute. reflexivity. Qed.

End AesCtr.
