(* ===== verification/Sp800_38d.v ===== *)
(** Galois/Counter Mode as NIST SP 800-38D defines it: the field GF(2^128) in the standard's
    bit order with the algebra the implementation relies on, GHASH, and authenticated
    encryption and decryption for any block cipher. *)
From S2P Require Import Prelude Codec BlockClass Intrinsics.
From Stdlib Require Import ZArith List Lia Bool.
Import Codec.

Module Gf128.

(** ** The field

    A block is a 128-bit integer read big-endian: bit 127 is the coefficient of [u^0]. *)

Definition R : Z := 0xe1 << 120.

(** Multiplication by [u]. *)
Definition mulX (v : Z) : Z := if Z.testbit v 0 then (v >> 1) .^ R else v >> 1.

(** Algorithm 1 of the standard: bits of [x] from the left, [n] steps to go. *)
Fixpoint mul_loop (n : nat) (x z v : Z) : Z :=
  match n with
  | O => z
  | S n' => mul_loop n' x (if Z.testbit x (Z.of_nat n') then z .^ v else z) (mulX v)
  end.

Definition mul (x y : Z) : Z := mul_loop 128 x 0 y.

(** ** Sums over bits *)

Fixpoint xsum (n : nat) (f : nat -> Z) : Z :=
  match n with O => 0 | S n' => xsum n' f .^ f n' end.

Definition linear (f : Z -> Z) : Prop := forall x y, f (x .^ y) = f x .^ f y.

Lemma linear_0 f : linear f -> f 0 = 0.
Proof. intros H. specialize (H 0 0). change (0 .^ 0) with 0 in H. now rewrite Z.lxor_nilpotent in H. Qed.

Lemma xsum_ext n f g : (forall i, (i < n)%nat -> f i = g i) -> xsum n f = xsum n g.
Proof. induction n as [|n IH]; intros H; cbn; [reflexivity|]. rewrite IH, H by auto. reflexivity. Qed.

Lemma xsum_linear n f g : linear f -> f (xsum n g) = xsum n (fun i => f (g i)).
Proof.
  intros H. induction n as [|n IH]; cbn; [now apply linear_0|]. now rewrite H, IH.
Qed.

Lemma xsum_lxor n f g : xsum n (fun i => f i .^ g i) = xsum n f .^ xsum n g.
Proof.
  induction n as [|n IH]; cbn; [reflexivity|]. rewrite IH, !Z.lxor_assoc. f_equal.
  rewrite <- !Z.lxor_assoc. f_equal. apply Z.lxor_comm.
Qed.

Lemma xsum_0 n : xsum n (fun _ => 0) = 0.
Proof. induction n as [|n IH]; cbn; [reflexivity|]. now rewrite IH. Qed.

Lemma xsum_S_l n f : xsum (S n) f = f O .^ xsum n (fun i => f (S i)).
Proof.
  induction n as [|n IH]; [cbn [xsum]; apply Z.lxor_comm|].
  change (xsum (S (S n)) f) with (xsum (S n) f .^ f (S n)). rewrite IH, Z.lxor_assoc. reflexivity.
Qed.

Lemma xsum_rev n f : xsum n f = xsum n (fun i => f (n - 1 - i)%nat).
Proof.
  revert f. induction n as [|n IH]; intros f; [reflexivity|]. rewrite xsum_S_l. cbn [xsum].
  rewrite (IH (fun i => f (S i))), Z.lxor_comm. f_equal.
  - apply xsum_ext. intros i Hi. f_equal. lia.
  - f_equal. lia.
Qed.

Lemma xsum_app n m f : xsum (n + m) f = xsum n f .^ xsum m (fun i => f (n + i)%nat).
Proof.
  induction m as [|m IH]; [rewrite Nat.add_0_r; cbn; now rewrite Z.lxor_0_r|].
  rewrite Nat.add_succ_r. cbn [xsum]. now rewrite IH, Z.lxor_assoc.
Qed.

Definition sel (b : bool) (v : Z) : Z := if b then v else 0.

Lemma sel_xorb b c v : sel (xorb b c) v = sel b v .^ sel c v.
Proof. destruct b, c; cbn; now rewrite ?Z.lxor_nilpotent, ?Z.lxor_0_r, ?Z.lxor_0_l. Qed.

Lemma sel_lxor b v w : sel b (v .^ w) = sel b v .^ sel b w.
Proof. now destruct b. Qed.

Lemma sel_linear f b v : linear f -> f (sel b v) = sel b (f v).
Proof. intros H. destruct b; [reflexivity|now apply linear_0]. Qed.

(** A word is the sum of its bits. *)
Lemma bits_sum n x : in_range (Z.of_nat n) x ->
  x = xsum n (fun i => sel (Z.testbit x (Z.of_nat i)) (2 ^ Z.of_nat i)).
Proof.
  intros Hx.
  assert (H : forall m, (m <= n)%nat ->
    wrap (Z.of_nat m) x = xsum m (fun i => sel (Z.testbit x (Z.of_nat i)) (2 ^ Z.of_nat i))).
  { induction m as [|m IH]; intros Hm.
    - unfold wrap. cbn. apply Z.mod_1_r.
    - cbn [xsum]. rewrite <- IH by lia. unfold sel.
      replace (if Z.testbit x (Z.of_nat m) then 2 ^ Z.of_nat m else 0)
        with (Z.b2z (Z.testbit x (Z.of_nat m)) << Z.of_nat m)
        by (destruct (Z.testbit x (Z.of_nat m)); [now rewrite Z.shiftl_1_l|apply Z.shiftl_0_l]).
      apply Z.bits_inj'. intros i Hi. rewrite Z.lxor_spec, !testbit_wrap, Z.shiftl_spec by lia.
      destruct (Z.lt_trichotomy i (Z.of_nat m)) as [H|[->|H]].
      + rewrite (Z.testbit_neg_r _ (i - _)) by lia.
        rewrite !(proj2 (Z.ltb_lt _ _)) by lia. now rewrite xorb_false_r.
      + rewrite Z.sub_diag, Z.b2z_bit0, Z.ltb_irrefl. now rewrite (proj2 (Z.ltb_lt _ _)) by lia.
      + rewrite !(proj2 (Z.ltb_ge _ _)) by lia.
        replace (i - Z.of_nat m) with (Z.succ (i - Z.of_nat m - 1)) by lia.
        destruct (Z.testbit x (Z.of_nat m)); cbn [Z.b2z].
        * change 1 with (2 * 0 + 1). now rewrite Z.testbit_odd_succ, Z.testbit_0_l by lia.
        * now rewrite Z.testbit_0_l. }
  rewrite <- H by lia. symmetry. now apply wrap_small.
Qed.

(** Linear functions that agree on the powers of two agree on words. *)
Lemma linear_agree n f g : linear f -> linear g ->
  (forall i, (i < n)%nat -> f (2 ^ Z.of_nat i) = g (2 ^ Z.of_nat i)) ->
  forall x, in_range (Z.of_nat n) x -> f x = g x.
Proof.
  intros Hf Hg H x Hx. rewrite (bits_sum n x Hx), !xsum_linear by assumption.
  apply xsum_ext. intros i Hi. rewrite !sel_linear by assumption. now rewrite H.
Qed.

(** ** The product is bilinear, commutative and associative *)

Lemma mulX_linear : linear mulX.
Proof.
  intros x y. unfold mulX. rewrite Z.lxor_spec, Z.shiftr_lxor.
  destruct (Z.testbit x 0), (Z.testbit y 0); cbn [xorb];
    generalize (x >> 1) as a, (y >> 1) as b, R as r; intros a b r; zbits.
Qed.

Lemma mulX_range v : in_range 128 v -> in_range 128 (mulX v).
Proof.
  intros H. unfold mulX. destruct (Z.testbit v 0); auto with word.
  apply lxor_range; auto with word. now apply in_rangeb_spec.
Qed.

Definition iterX (i : nat) (v : Z) : Z := Nat.iter i mulX v.

Lemma iterX_linear i : linear (iterX i).
Proof.
  induction i as [|i IH]; intros x y; [reflexivity|]. change (iterX (S i)) with (fun v => mulX (iterX i v)).
  cbv beta. rewrite IH. apply mulX_linear.
Qed.

Lemma iterX_range i v : in_range 128 v -> in_range 128 (iterX i v).
Proof. intros H. induction i as [|i IH]; cbn; [exact H|]. now apply mulX_range. Qed.

Lemma iterX_add i j v : iterX (i + j) v = iterX i (iterX j v).
Proof.
  induction i as [|i IH]; [reflexivity|]. change (iterX (S i + j) v) with (mulX (iterX (i + j) v)).
  now rewrite IH.
Qed.

Lemma mul_loop_sum n x : forall z v,
  mul_loop n x z v
  = z .^ xsum n (fun i => sel (Z.testbit x (Z.of_nat (n - 1 - i))) (iterX i v)).
Proof.
  induction n as [|n IH]; intros z v; [cbn; now rewrite Z.lxor_0_r|].
  cbn [mul_loop]. rewrite IH, xsum_S_l.
  replace (S n - 1 - 0)%nat with n by lia. cbn [iterX Nat.iter].
  replace (if Z.testbit x (Z.of_nat n) then z .^ v else z)
    with (z .^ sel (Z.testbit x (Z.of_nat n)) v)
    by (destruct (Z.testbit x (Z.of_nat n)); cbn; now rewrite ?Z.lxor_0_r).
  rewrite Z.lxor_assoc. do 2 f_equal. apply xsum_ext. intros i Hi.
  replace (S n - 1 - S i)%nat with (n - 1 - i)%nat by lia.
  replace (S i) with (i + 1)%nat by lia. now rewrite iterX_add.
Qed.

(** The product by powers of [u]: bit [127 - i] of [x] selects [u^i * y]. *)
Lemma mul_sum x y : mul x y = xsum 128 (fun i => sel (Z.testbit x (Z.of_nat (127 - i))) (iterX i y)).
Proof. unfold mul. now rewrite mul_loop_sum, Z.lxor_0_l. Qed.

Lemma mul_linear_l y : linear (fun x => mul x y).
Proof.
  intros a b. rewrite !mul_sum, <- xsum_lxor. apply xsum_ext. intros i _.
  now rewrite Z.lxor_spec, sel_xorb.
Qed.

Lemma mul_linear_r x : linear (mul x).
Proof.
  intros a b. rewrite !mul_sum, <- xsum_lxor. apply xsum_ext. intros i _.
  now rewrite iterX_linear, sel_lxor.
Qed.

Lemma mul_range x y : in_range 128 y -> in_range 128 (mul x y).
Proof.
  intros Hy. rewrite mul_sum. generalize 128%nat at 1. intros n.
  induction n as [|n IH]; cbn [xsum]; auto with word. apply lxor_range; auto with word.
  unfold sel. destruct (Z.testbit _ _); auto with word. now apply iterX_range.
Qed.

(** [2^(127 - i)] is [u^i]. *)
Lemma power_u k : (k < 128)%nat -> 2 ^ Z.of_nat k = iterX (127 - k) (2 ^ 127).
Proof.
  intros Hk.
  assert (H : forallb (fun k => 2 ^ Z.of_nat k =? iterX (127 - k) (2 ^ 127)) (seq 0 128) = true)
    by (vm_compute; reflexivity).
  rewrite forallb_forall in H. apply Z.eqb_eq, H, in_seq. lia.
Qed.

Lemma mul_power k y : (k < 128)%nat -> mul (2 ^ Z.of_nat k) y = iterX (127 - k) y.
Proof.
  intros Hk. rewrite mul_sum.
  rewrite (xsum_ext 128 _ (fun i => sel (i =? 127 - k)%nat (iterX (127 - k) y))).
  - replace 128%nat with ((127 - k) + (1 + k))%nat by lia. rewrite xsum_app, xsum_app.
    cbn [xsum]. rewrite Nat.add_0_r, Nat.eqb_refl.
    rewrite (xsum_ext (127 - k) _ (fun _ => 0)), (xsum_ext k _ (fun _ => 0)), !xsum_0.
    + now rewrite Z.lxor_0_l, Z.lxor_0_l, Z.lxor_0_r.
    + intros i Hi. rewrite (proj2 (Nat.eqb_neq _ _)) by lia. reflexivity.
    + intros i Hi. rewrite (proj2 (Nat.eqb_neq _ _)) by lia. reflexivity.
  - intros i Hi. destruct (Nat.eqb_spec i (127 - k)) as [->|Hne].
    + replace (127 - (127 - k))%nat with k by lia. now rewrite Z.pow2_bits_true by lia.
    + now rewrite Z.pow2_bits_false by lia.
Qed.

Lemma mul_comm x y : in_range 128 x -> in_range 128 y -> mul x y = mul y x.
Proof.
  intros Hx Hy.
  apply (linear_agree 128 (fun x => mul x y) (mul y) (mul_linear_l y) (mul_linear_r y)); [|exact Hx].
  intros i Hi.
  apply (linear_agree 128 (mul (2 ^ Z.of_nat i)) (fun y => mul y (2 ^ Z.of_nat i))
           (mul_linear_r _) (mul_linear_l _)); [|exact Hy].
  intros j Hj. rewrite !mul_power by assumption. rewrite (power_u i), (power_u j) by assumption.
  now rewrite <- !iterX_add, Nat.add_comm.
Qed.

Lemma mul_iterX_r i x y : mul x (iterX i y) = iterX i (mul x y).
Proof.
  rewrite !mul_sum, xsum_linear by apply iterX_linear. apply xsum_ext. intros j _.
  rewrite (sel_linear _ _ _ (iterX_linear i)), <- !iterX_add. now rewrite Nat.add_comm.
Qed.

Lemma mul_assoc a b c : in_range 128 b -> in_range 128 c ->
  mul (mul a b) c = mul a (mul b c).
Proof.
  intros Hb Hc. rewrite (mul_sum a b), (mul_sum a (mul b c)).
  rewrite (xsum_linear _ (fun x => mul x c)) by apply mul_linear_l. apply xsum_ext. intros i _.
  rewrite (sel_linear (fun x => mul x c)) by apply mul_linear_l. f_equal.
  rewrite (mul_comm (iterX i b)), mul_iterX_r, (mul_comm c b) by auto using iterX_range.
  reflexivity.
Qed.

End Gf128.

(** ** GHASH and the mode *)

Module Sp38d.
Import Gf128.

(** Blocks as integers, big-endian. *)
Definition be_dec (l : list Z) : Z := X86.le_dec (rev l).
Definition be_enc (n : nat) (x : Z) : list Z := rev (X86.le_enc n x).

(** Zero bytes up to a multiple of the block size. *)
Definition pad16 (l : list Z) : list Z := l ++ repeat 0 ((16 - length l mod 16) mod 16).

Definition ghash_step (h y : Z) (b : list Z) : Z := mul (y .^ be_dec b) h.

(** GHASH over [data], padded, from the intermediate value [y]. *)
Definition ghash_from (h y : Z) (data : list Z) : Z :=
  fold_left (ghash_step h) (blocks 16 (pad16 data)) y.

Definition GHASH (h : Z) (x : list Z) : Z := ghash_from h 0 x.

Definition len64 (l : list Z) : list Z := br_enc64be (u64 (8 * Z.of_nat (length l))).

Section Mode.
(** The forward cipher under the key. *)
Variable E : list Z -> list Z.

Definition hash_key : Z := be_dec (E (repeat 0 16)).

(** The pre-counter block. *)
Definition J0 (iv : list Z) : list Z :=
  if (length iv =? 12)%nat then iv ++ [0; 0; 0; 1]
  else be_enc 16 (GHASH hash_key (pad16 iv ++ repeat 0 8 ++ len64 iv)).

Definition inc32 (b : list Z) : list Z := firstn 12 b ++ br_enc32be (u32 (br_dec32be (skipn 12 b) + 1)).

Definition GCTR (icb x : list Z) : list Z := Ctr.crypt E (firstn 12 icb) (br_dec32be (skipn 12 icb)) x.

Definition gcm_tag (iv aad c : list Z) : list Z :=
  GCTR (J0 iv) (be_enc 16 (GHASH hash_key (pad16 aad ++ pad16 c ++ len64 aad ++ len64 c))).

(** Authenticated encryption, and decryption that fails when the tag is wrong. *)
Definition GCM_AE (iv aad p : list Z) : list Z * list Z :=
  let c := GCTR (inc32 (J0 iv)) p in (c, gcm_tag iv aad c).

Definition GCM_AD (iv aad c t : list Z) : option (list Z) :=
  if list_eq_dec Z.eq_dec t (gcm_tag iv aad c) then Some (GCTR (inc32 (J0 iv)) c) else None.
End Mode.

(** What the mode asks of a GHASH routine: [gh y h data] is the new value of [y]. *)
Class GhashImpl (gh : list Z -> list Z -> list Z -> list Z) := {
  gh_spec y h data : length y = 16%nat -> bytes_ok y -> length h = 16%nat -> bytes_ok h ->
    bytes_ok data -> gh y h data = be_enc 16 (ghash_from (be_dec h) (be_dec y) data) }.

(** ** Lemmas *)

Lemma length_be_enc n x : length (be_enc n x) = n.
Proof. unfold be_enc. now rewrite length_rev, X86.length_le_enc. Qed.

Lemma be_enc_ok n x : bytes_ok (be_enc n x).
Proof. apply Forall_rev, X86.le_enc_ok. Qed.

Lemma be_dec_enc n x : in_range (8 * Z.of_nat n) x -> be_dec (be_enc n x) = x.
Proof. intros. unfold be_dec, be_enc. rewrite rev_involutive. now apply X86.le_dec_enc. Qed.

Lemma be_enc_dec l : bytes_ok l -> be_enc (length l) (be_dec l) = l.
Proof.
  intros H. unfold be_dec, be_enc. rewrite <- length_rev, X86.le_enc_dec by now apply Forall_rev.
  apply rev_involutive.
Qed.

Lemma be_dec_range l : bytes_ok l -> in_range (8 * Z.of_nat (length l)) (be_dec l).
Proof. intros H. unfold be_dec. rewrite <- length_rev. now apply X86.le_dec_range, Forall_rev. Qed.

Lemma be_dec16_range l : length l = 16%nat -> bytes_ok l -> in_range 128 (be_dec l).
Proof. intros L H. pose proof (be_dec_range l H) as R. now rewrite L in R. Qed.

Lemma pad16_full l k : length l = (16 * k)%nat -> pad16 l = l.
Proof.
  intros L. unfold pad16. rewrite L, Nat.mul_comm, Nat.Div0.mod_mul. apply app_nil_r.
Qed.

Lemma pad16_app a b k : length a = (16 * k)%nat -> pad16 (a ++ b) = a ++ pad16 b.
Proof.
  intros L. unfold pad16. rewrite <- app_assoc, length_app, L.
  replace (16 * k + length b)%nat with (length b + k * 16)%nat by lia.
  now rewrite Nat.Div0.mod_add.
Qed.

Lemma pad16_length l : length (pad16 l) = (16 * ((length l + 15) / 16))%nat.
Proof.
  unfold pad16. rewrite length_app, repeat_length.
  pose proof (Nat.div_mod (length l) 16 ltac:(lia)) as D.
  pose proof (Nat.mod_upper_bound (length l) 16 ltac:(lia)) as M.
  set (q := (length l / 16)%nat) in *. set (r := (length l mod 16)%nat) in *.
  rewrite D. destruct (Nat.eq_dec r 0) as [->|Hr].
  - change ((16 - 0) mod 16)%nat with O.
    replace (16 * q + 0 + 15)%nat with (15 + q * 16)%nat by lia.
    rewrite Nat.div_add by lia. change (15 / 16)%nat with O. lia.
  - rewrite Nat.mod_small by lia.
    replace (16 * q + r + 15)%nat with ((r - 1) + (q + 1) * 16)%nat by lia.
    rewrite Nat.div_add, Nat.div_small by lia. lia.
Qed.

Lemma ghash_from_app h y a b k : length a = (16 * k)%nat ->
  ghash_from h y (a ++ b) = ghash_from h (ghash_from h y a) b.
Proof.
  intros L. unfold ghash_from. rewrite (pad16_app a b k), (pad16_full a k) by assumption.
  rewrite (blocks_app 16 a (pad16 b) k), fold_left_app by lia. reflexivity.
Qed.

Lemma ghash_from_block h y b : length b = 16%nat -> ghash_from h y b = ghash_step h y b.
Proof.
  intros L. unfold ghash_from. rewrite (pad16_full b 1), blocks_one by (lia || assumption).
  reflexivity.
Qed.

Lemma ghash_from_cons h y b d : length b = 16%nat ->
  ghash_from h y (b ++ d) = ghash_from h (ghash_step h y b) d.
Proof. intros L. rewrite (ghash_from_app h y b d 1) by lia. now rewrite (ghash_from_block h y b). Qed.

Lemma ghash_from_pad h y d : ghash_from h y (pad16 d) = ghash_from h y d.
Proof.
  unfold ghash_from. do 2 f_equal. apply (pad16_full _ ((length d + 15) / 16)), pad16_length.
Qed.

Lemma pad16_ok d : bytes_ok d -> bytes_ok (pad16 d).
Proof. intros H. apply Forall_app. split; [exact H|]. apply Forall_repeat. auto with word. Qed.

Lemma ghash_from_pad_app h y a b : ghash_from h y (pad16 a ++ b) = ghash_from h (ghash_from h y a) b.
Proof.
  rewrite (ghash_from_app _ _ _ _ ((length a + 15) / 16)) by apply pad16_length.
  now rewrite ghash_from_pad.
Qed.

Lemma ghash_from_nil h y : ghash_from h y [] = y.
Proof. reflexivity. Qed.

Lemma ghash_step_range h y b : in_range 128 h -> in_range 128 (ghash_step h y b).
Proof. apply mul_range. Qed.

Lemma ghash_from_range h y data : in_range 128 h -> in_range 128 y ->
  in_range 128 (ghash_from h y data).
Proof.
  intros Hh Hy. unfold ghash_from. apply fold_left_inv; [|exact Hy].
  intros. now apply ghash_step_range.
Qed.

End Sp38d.
