(* ===== verification/Ghash.v ===== *)
(** GHASH with carry-less multiplication, src/enclave/c_src/bearssl/hash/ghash_pclmul.c:
    Karatsuba products of byte-swapped blocks, a shift and a reduction by words, and four
    blocks at a time with the powers of the key, against SP 800-38D. *)
From S2P Require Import Prelude Codec BlockClass Intrinsics Sp800_38d.
From Stdlib Require Import ZArith List Lia Bool.
Import X86 Gf128 Sp38d.

Module Ghash.

(** * The code *)

Definition byteswap_index : Z :=
  _mm_set_epi8 [0; 1; 2; 3; 4; 5; 6; 7; 8; 9; 10; 11; 12; 13; 14; 15].

Definition BYTESWAP (x : Z) : Z := _mm_shuffle_epi8 x byteswap_index.

Definition pclmulqdq00 (x y : Z) : Z := _mm_clmulepi64_si128 x y 0x00.
Definition pclmulqdq11 (x y : Z) : Z := _mm_clmulepi64_si128 x y 0x11.

Definition BK (kw : Z) : Z := _mm_xor_si128 kw (_mm_shuffle_epi32 kw 0x0E).

Definition PBK (k0 k1 : Z) : Z * Z := (_mm_unpacklo_epi64 k1 k0, _mm_xor_si128 k0 k1).

Definition quad : Type := Z * Z * Z * Z.

Definition SL_256 (x : quad) : quad :=
  let '(x0, x1, x2, x3) := x in
  let x0 := _mm_or_si128 (_mm_slli_epi64 x0 1) (_mm_srli_epi64 x1 63) in
  let x1 := _mm_or_si128 (_mm_slli_epi64 x1 1) (_mm_srli_epi64 x2 63) in
  let x2 := _mm_or_si128 (_mm_slli_epi64 x2 1) (_mm_srli_epi64 x3 63) in
  let x3 := _mm_slli_epi64 x3 1 in
  (x0, x1, x2, x3).

Definition REDUCE_F128 (x : quad) : quad :=
  let '(x0, x1, x2, x3) := x in
  let x1 := _mm_xor_si128 x1
    (_mm_xor_si128 (_mm_xor_si128 x3 (_mm_srli_epi64 x3 1))
                   (_mm_xor_si128 (_mm_srli_epi64 x3 2) (_mm_srli_epi64 x3 7))) in
  let x2 := _mm_xor_si128 (_mm_xor_si128 x2 (_mm_slli_epi64 x3 63))
                          (_mm_xor_si128 (_mm_slli_epi64 x3 62) (_mm_slli_epi64 x3 57)) in
  let x0 := _mm_xor_si128 x0
    (_mm_xor_si128 (_mm_xor_si128 x2 (_mm_srli_epi64 x2 1))
                   (_mm_xor_si128 (_mm_srli_epi64 x2 2) (_mm_srli_epi64 x2 7))) in
  let x1 := _mm_xor_si128 (_mm_xor_si128 x1 (_mm_slli_epi64 x2 63))
                          (_mm_xor_si128 (_mm_slli_epi64 x2 62) (_mm_slli_epi64 x2 57)) in
  (x0, x1, x2, x3).

(** The square of [kw] as the pair [(dw, dx)]. *)
Definition SQUARE_F128 (kw : Z) : Z * Z :=
  let z1 := pclmulqdq11 kw kw in
  let z3 := pclmulqdq00 kw kw in
  let z0 := _mm_shuffle_epi32 z1 0x0E in
  let z2 := _mm_shuffle_epi32 z3 0x0E in
  let '(z0, z1, z2, z3) := REDUCE_F128 (SL_256 (z0, z1, z2, z3)) in
  PBK z0 z1.

(** The lines shared by the three products: from the two outer partial products and the
    middle one to the reduced value. *)
Definition combine (t1 t2 t3 : Z) : quad :=
  let t0 := _mm_shuffle_epi32 t1 0x0E in
  let t1 := _mm_xor_si128 t1 (_mm_shuffle_epi32 t2 0x0E) in
  let t2 := _mm_xor_si128 t2 (_mm_shuffle_epi32 t3 0x0E) in
  REDUCE_F128 (SL_256 (t0, t1, t2, t3)).

(** The powers of the key: the 128-bit value and the exclusive or of its halves. *)
Record powers := { h1w : Z; h1x : Z; h2w : Z; h2x : Z; h3w : Z; h3x : Z; h4w : Z; h4x : Z }.

Definition key_powers (h1w h1x : Z) : powers :=
  let '(h2w, h2x) := SQUARE_F128 h1w in
  let t1 := pclmulqdq11 h1w h2w in
  let t3 := pclmulqdq00 h1w h2w in
  let t2 := _mm_xor_si128 (pclmulqdq00 h1x h2x) (_mm_xor_si128 t1 t3) in
  let '(t0, t1, _, _) := combine t1 t2 t3 in
  let '(h3w, h3x) := PBK t0 t1 in
  let '(h4w, h4x) := SQUARE_F128 h2w in
  {| h1w := h1w; h1x := h1x; h2w := h2w; h2x := h2x; h3w := h3w; h3x := h3x; h4w := h4w; h4x := h4x |}.

(** One turn of the four-block loop on 64 bytes of [buf1]. *)
Definition ghash_four (hp : powers) (buf1 : list Z) (yw : Z) : Z :=
  let aw0 := BYTESWAP (_mm_loadu_si128 buf1) in
  let aw1 := BYTESWAP (_mm_loadu_si128 (skipn 16 buf1)) in
  let aw2 := BYTESWAP (_mm_loadu_si128 (skipn 32 buf1)) in
  let aw3 := BYTESWAP (_mm_loadu_si128 (skipn 48 buf1)) in
  let aw0 := _mm_xor_si128 aw0 yw in
  let ax1 := BK aw1 in
  let ax2 := BK aw2 in
  let ax3 := BK aw3 in
  let ax0 := BK aw0 in
  let t1 := _mm_xor_si128
    (_mm_xor_si128 (pclmulqdq11 aw0 (h4w hp)) (pclmulqdq11 aw1 (h3w hp)))
    (_mm_xor_si128 (pclmulqdq11 aw2 (h2w hp)) (pclmulqdq11 aw3 (h1w hp))) in
  let t3 := _mm_xor_si128
    (_mm_xor_si128 (pclmulqdq00 aw0 (h4w hp)) (pclmulqdq00 aw1 (h3w hp)))
    (_mm_xor_si128 (pclmulqdq00 aw2 (h2w hp)) (pclmulqdq00 aw3 (h1w hp))) in
  let t2 := _mm_xor_si128
    (_mm_xor_si128 (pclmulqdq00 ax0 (h4x hp)) (pclmulqdq00 ax1 (h3x hp)))
    (_mm_xor_si128 (pclmulqdq00 ax2 (h2x hp)) (pclmulqdq00 ax3 (h1x hp))) in
  let t2 := _mm_xor_si128 t2 (_mm_xor_si128 t1 t3) in
  let '(t0, t1, _, _) := combine t1 t2 t3 in
  _mm_unpacklo_epi64 t1 t0.

(** The loops: [num] turns of [body] on a buffer that advances by [stride] bytes. *)
Fixpoint block_loop (num stride : nat) (body : list Z -> Z -> Z) (buf : list Z) (yw : Z) : Z :=
  match num with
  | O => yw
  | S n => block_loop n stride body (skipn stride buf) (body buf yw)
  end.

Definition ghash_loop4 (num4 : nat) (hp : powers) (buf1 : list Z) (yw : Z) : Z :=
  block_loop num4 64 (ghash_four hp) buf1 yw.

(** One turn of the one-block loop. *)
Definition ghash_one (h1w h1x : Z) (buf2 : list Z) (yw : Z) : Z :=
  let aw := BYTESWAP (_mm_loadu_si128 buf2) in
  let aw := _mm_xor_si128 aw yw in
  let ax := BK aw in
  let t1 := pclmulqdq11 aw h1w in
  let t3 := pclmulqdq00 aw h1w in
  let t2 := pclmulqdq00 ax h1x in
  let t2 := _mm_xor_si128 t2 (_mm_xor_si128 t1 t3) in
  let '(t0, t1, _, _) := combine t1 t2 t3 in
  _mm_unpacklo_epi64 t1 t0.

Definition ghash_loop1 (num1 : nat) (h1w h1x : Z) (buf2 : list Z) (yw : Z) : Z :=
  block_loop num1 16 (ghash_one h1w h1x) buf2 yw.

(** [y] is updated in place: the result is its new contents. *)
Definition br_ghash_pclmul (y h data : list Z) : list Z :=
  let len := Z.of_nat (length data) in
  let buf1 := data in
  let num4 := len >> 6 in
  let len := len .& 63 in
  let buf2 := skipn (Z.to_nat (num4 << 6)) buf1 in
  let num1 := (len + 15) >> 4 in
  let buf2 :=
    if negb ((len .& 15) =? 0)
    then firstn (Z.to_nat len) buf2 ++ repeat 0 (Z.to_nat ((num1 << 4) - len))
    else buf2 in
  let yw := BYTESWAP (_mm_loadu_si128 y) in
  let h1w := BYTESWAP (_mm_loadu_si128 h) in
  let h1x := BK h1w in
  let yw :=
    if 0 <? num4 then ghash_loop4 (Z.to_nat num4) (key_powers h1w h1x) buf1 yw else yw in
  let yw := ghash_loop1 (Z.to_nat num1) h1w h1x buf2 yw in
  _mm_storeu_si128 (BYTESWAP yw).

(** * Quadword lanes *)

Lemma lo64_range x : in_range 64 (lo64 x).
Proof. unfold lo64. auto with word. Qed.
Lemma hi64_range x : in_range 64 (hi64 x).
Proof. unfold hi64. auto with word. Qed.
#[local] Hint Resolve lo64_range hi64_range : word.

Lemma lo64_mk64 a b : in_range 64 a -> lo64 (mk64 a b) = a.
Proof. intros. unfold lo64, mk64. zbits. Qed.
Lemma hi64_mk64 a b : in_range 64 a -> in_range 64 b -> hi64 (mk64 a b) = b.
Proof. intros. unfold hi64, mk64. zbits. Qed.
Lemma mk64_lo_hi x : in_range 128 x -> mk64 (lo64 x) (hi64 x) = x.
Proof. intros. unfold lo64, hi64, mk64. zbits. Qed.

Lemma lo64_xor a b : lo64 (_mm_xor_si128 a b) = lo64 a .^ lo64 b.
Proof. unfold lo64, _mm_xor_si128. zbits. Qed.
Lemma hi64_xor a b : hi64 (_mm_xor_si128 a b) = hi64 a .^ hi64 b.
Proof. unfold hi64, _mm_xor_si128. zbits. Qed.
Lemma lo64_or a b : lo64 (_mm_or_si128 a b) = lo64 a .| lo64 b.
Proof. unfold lo64, _mm_or_si128. zbits. Qed.
Lemma lo64_slli a n : lo64 (_mm_slli_epi64 a n) = u64 (lo64 a << n).
Proof. apply lo64_mk64. auto with word. Qed.
Lemma lo64_srli a n : 0 <= n -> lo64 (_mm_srli_epi64 a n) = lo64 a >> n.
Proof. intros. apply lo64_mk64. auto with word. Qed.
Lemma lo64_swap a : lo64 (_mm_shuffle_epi32 a 0x0E) = hi64 a.
Proof.
  unfold _mm_shuffle_epi32. change (dw a (0x0E .& 3)) with (dw a 2).
  change (dw a (0x0E >> 2 .& 3)) with (dw a 3).
  rewrite lo64_mk128 by apply dw_range. unfold dw, hi64. zbits.
Qed.

(** * The reduction on one 256-bit integer *)

Definition rfold (x : Z) : Z := (x .^ (x >> 1)) .^ ((x >> 2) .^ (x >> 7)).
Definition lfold (x : Z) : Z := u64 (x << 63) .^ (u64 (x << 62) .^ u64 (x << 57)).

Definition red (w : Z) : Z :=
  let x3 := u64 w in
  let x2 := u64 (w >> 64) .^ lfold x3 in
  let x1 := (u64 (w >> 128) .^ rfold x3) .^ lfold x2 in
  let x0 := u64 (w >> 192) .^ rfold x2 in
  x1 .^ (x0 << 64).

Lemma linear_id : linear (fun x => x).
Proof. intros x y. reflexivity. Qed.
Lemma linear_lxor f g : linear f -> linear g -> linear (fun x => f x .^ g x).
Proof. intros Hf Hg x y. rewrite Hf, Hg. generalize (f x), (f y), (g x), (g y). intros. zbits. Qed.
Lemma linear_wrap w f : 0 <= w -> linear f -> linear (fun x => wrap w (f x)).
Proof. intros Hw Hf x y. rewrite Hf. generalize (f x), (f y). intros. zbits. Qed.
Lemma linear_shl n f : linear f -> linear (fun x => f x << n).
Proof. intros Hf x y. rewrite Hf. apply Z.shiftl_lxor. Qed.
Lemma linear_shr n f : linear f -> linear (fun x => f x >> n).
Proof. intros Hf x y. rewrite Hf. apply Z.shiftr_lxor. Qed.
Lemma linear_rfold f : linear f -> linear (fun x => rfold (f x)).
Proof. intros Hf. unfold rfold. auto using linear_lxor, linear_shr. Qed.
Lemma linear_lfold f : linear f -> linear (fun x => lfold (f x)).
Proof.
  intros Hf. unfold lfold.
  repeat (apply linear_lxor || (apply linear_wrap; [lia|]) || apply linear_shl); assumption.
Qed.

Lemma red_linear : linear red.
Proof.
  unfold red.
  repeat (apply linear_lxor || apply linear_rfold || apply linear_lfold
          || (apply linear_wrap; [lia|]) || apply linear_shl || apply linear_shr || apply linear_id).
Qed.

(** The reduction of [2 ^ (s + 1)] is a power of [u]. *)
Lemma red_power s : (s <= 254)%nat -> red (2 ^ Z.of_nat (s + 1)) = iterX (254 - s) (2 ^ 127).
Proof.
  intros Hs.
  assert (H : forallb (fun s => red (2 ^ Z.of_nat (s + 1)) =? iterX (254 - s) (2 ^ 127)) (seq 0 255) = true)
    by (vm_compute; reflexivity).
  rewrite forallb_forall in H. apply Z.eqb_eq, H, in_seq. lia.
Qed.

(** A shifted word reduces to its product with a power of [u]. *)
Lemma red_shift j b : (j < 128)%nat -> in_range 128 b ->
  red (b << (Z.of_nat j + 1)) = iterX (127 - j) b.
Proof.
  intros Hj Hb.
  apply (linear_agree 128 (fun b => red (b << (Z.of_nat j + 1))) (iterX (127 - j))); auto.
  - intros x y. rewrite Z.shiftl_lxor. apply red_linear.
  - apply iterX_linear.
  - intros k Hk. rewrite Z.shiftl_mul_pow2, <- Z.pow_add_r by lia.
    replace (Z.of_nat k + (Z.of_nat j + 1)) with (Z.of_nat (j + k + 1)) by lia.
    rewrite red_power by lia. rewrite (power_u k), <- iterX_add by assumption. f_equal. lia.
Qed.

(** * Carry-less products *)

Lemma clmul_sum n a b : clmul n a b = xsum n (fun i => sel (Z.testbit a (Z.of_nat i)) (b << Z.of_nat i)).
Proof. induction n as [|n IH]; [reflexivity|]. cbn [clmul xsum]. now rewrite IH. Qed.

Lemma clmul_linear_l n b : linear (fun a => clmul n a b).
Proof.
  intros x y. rewrite !clmul_sum, <- xsum_lxor. apply xsum_ext. intros i _.
  now rewrite Z.lxor_spec, sel_xorb.
Qed.

Lemma clmul_linear_r n a : linear (clmul n a).
Proof.
  intros x y. rewrite !clmul_sum, <- xsum_lxor. apply xsum_ext. intros i _.
  now rewrite Z.shiftl_lxor, sel_lxor.
Qed.

Lemma clmul_shl n a b k : 0 <= k -> clmul n a (b << k) = clmul n a b << k.
Proof.
  intros Hk. rewrite !clmul_sum.
  rewrite (xsum_linear n (fun x => x << k)) by apply linear_shl, linear_id.
  apply xsum_ext. intros i _. destruct (Z.testbit a (Z.of_nat i)); cbn [sel].
  - rewrite !Z.shiftl_shiftl by lia. f_equal. lia.
  - symmetry. apply Z.shiftl_0_l.
Qed.

Lemma clmul_split n m a b :
  clmul (n + m) a b = clmul n a b .^ (clmul m (a >> Z.of_nat n) b << Z.of_nat n).
Proof.
  rewrite !clmul_sum, xsum_app. f_equal.
  rewrite (xsum_linear m (fun x => x << Z.of_nat n)) by apply linear_shl, linear_id.
  apply xsum_ext. intros i _. rewrite Z.shiftr_spec by lia.
  replace (Z.of_nat (n + i)) with (Z.of_nat i + Z.of_nat n) by lia.
  destruct (Z.testbit a _); cbn [sel]; [|symmetry; apply Z.shiftl_0_l].
  now rewrite Z.shiftl_shiftl by lia.
Qed.

Lemma clmul_power n i b : (i < n)%nat -> clmul n (2 ^ Z.of_nat i) b = b << Z.of_nat i.
Proof.
  intros Hi. rewrite clmul_sum.
  replace n with (i + (1 + (n - i - 1)))%nat by lia. rewrite !xsum_app. cbn [xsum].
  rewrite Nat.add_0_r, Z.pow2_bits_true by lia.
  rewrite (xsum_ext i _ (fun _ => 0)), (xsum_ext (n - i - 1) _ (fun _ => 0)), !xsum_0.
  - cbn [sel]. now rewrite !Z.lxor_0_l, Z.lxor_0_r.
  - intros j Hj. now rewrite Z.pow2_bits_false by lia.
  - intros j Hj. now rewrite Z.pow2_bits_false by lia.
Qed.

Lemma clmul_comm n a b : in_range (Z.of_nat n) a -> in_range (Z.of_nat n) b ->
  clmul n a b = clmul n b a.
Proof.
  intros Ha Hb.
  apply (linear_agree n (fun a => clmul n a b) (clmul n b) (clmul_linear_l n b) (clmul_linear_r n b)); auto.
  intros i Hi.
  apply (linear_agree n (clmul n (2 ^ Z.of_nat i)) (fun b => clmul n b (2 ^ Z.of_nat i))
    (clmul_linear_r n _) (clmul_linear_l n _)); auto.
  intros j Hj. rewrite !clmul_power by assumption.
  rewrite !Z.shiftl_mul_pow2 by lia. apply Z.mul_comm.
Qed.

(** The reduction of the shifted product is the product of the field. *)
Lemma red_clmul a b : in_range 128 b -> red (clmul 128 a b << 1) = mul a b.
Proof.
  intros Hb. rewrite clmul_sum, mul_sum.
  rewrite (xsum_linear 128 (fun x => red (x << 1)))
    by (intros x y; rewrite Z.shiftl_lxor; apply red_linear).
  rewrite xsum_rev. apply xsum_ext. intros i Hi.
  rewrite (sel_linear (fun x => red (x << 1)))
    by (intros x y; rewrite Z.shiftl_lxor; apply red_linear).
  replace (128 - 1 - i)%nat with (127 - i)%nat by lia. f_equal.
  rewrite Z.shiftl_shiftl, red_shift by (assumption || lia). f_equal. lia.
Qed.

(** * From registers to integers *)

Ltac lanes64 :=
  apply Z.bits_inj'; intros ?i ?Hi;
  match goal with i : Z |- _ =>
    destruct (Z_lt_le_dec i 64);
    [|destruct (Z_lt_le_dec i 128); [|destruct (Z_lt_le_dec i 192); [|destruct (Z_lt_le_dec i 256)]]]
  end; zbits_core.

(** The integer with the given quadwords, most significant first. *)
Definition lanes4 (a0 a1 a2 a3 : Z) : Z := a3 .^ (a2 << 64) .^ (a1 << 128) .^ (a0 << 192).

Section Lanes4.
Variables a0 a1 a2 a3 : Z.
Hypotheses (H0 : in_range 64 a0) (H1 : in_range 64 a1) (H2 : in_range 64 a2) (H3 : in_range 64 a3).

Lemma lanes4_words :
  u64 (lanes4 a0 a1 a2 a3) = a3 /\ u64 (lanes4 a0 a1 a2 a3 >> 64) = a2 /\
  u64 (lanes4 a0 a1 a2 a3 >> 128) = a1 /\ u64 (lanes4 a0 a1 a2 a3 >> 192) = a0.
Proof. unfold lanes4. repeat split; zbits. Qed.

Lemma lanes4_shl :
  lanes4 (u64 (a0 << 1) .| (a1 >> 63)) (u64 (a1 << 1) .| (a2 >> 63))
         (u64 (a2 << 1) .| (a3 >> 63)) (u64 (a3 << 1))
  = wrap 256 (lanes4 a0 a1 a2 a3 << 1).
Proof.
  unfold lanes4. apply Z.bits_inj'. intros i Hi.
  destruct (Z_lt_le_dec i 1); [|destruct (Z_lt_le_dec i 64); [|destruct (Z_lt_le_dec i 65);
    [|destruct (Z_lt_le_dec i 128); [|destruct (Z_lt_le_dec i 129); [|destruct (Z_lt_le_dec i 192);
    [|destruct (Z_lt_le_dec i 193)]]]]]]; zbits_core.
Qed.
End Lanes4.

Lemma red_wrap w : red (wrap 256 w) = red w.
Proof.
  assert (E0 : u64 (wrap 256 w) = u64 w) by zbits.
  assert (E1 : u64 (wrap 256 w >> 64) = u64 (w >> 64)) by zbits.
  assert (E2 : u64 (wrap 256 w >> 128) = u64 (w >> 128)) by zbits.
  assert (E3 : u64 (wrap 256 w >> 192) = u64 (w >> 192)) by zbits.
  unfold red. now rewrite E0, E1, E2, E3.
Qed.

Lemma mk64_xor a b : in_range 64 a -> mk64 a b = a .^ (b << 64).
Proof. intros. unfold mk64. apply Z.bits_inj'. intros i Hi. destruct (Z_lt_le_dec i 64); zbits_core. Qed.

Lemma unpack_reduce x0 x1 x2 x3 :
  (let '(y0, y1, _, _) := REDUCE_F128 (x0, x1, x2, x3) in _mm_unpacklo_epi64 y1 y0)
  = red (lanes4 (lo64 x0) (lo64 x1) (lo64 x2) (lo64 x3)).
Proof.
  unfold REDUCE_F128, _mm_unpacklo_epi64. rewrite mk64_xor by auto with word.
  rewrite !lo64_xor, !lo64_slli, !lo64_srli, !lo64_xor, !lo64_slli by lia.
  destruct (lanes4_words (lo64 x0) (lo64 x1) (lo64 x2) (lo64 x3)) as (E3 & E2 & E1 & E0);
    auto with word.
  unfold red. rewrite E0, E1, E2, E3. unfold rfold, lfold. now rewrite !Z.lxor_assoc.
Qed.

Lemma SL_lanes x0 x1 x2 x3 :
  let '(y0, y1, y2, y3) := SL_256 (x0, x1, x2, x3) in
  lanes4 (lo64 y0) (lo64 y1) (lo64 y2) (lo64 y3)
  = wrap 256 (lanes4 (lo64 x0) (lo64 x1) (lo64 x2) (lo64 x3) << 1).
Proof.
  unfold SL_256. rewrite !lo64_or, !lo64_slli, !lo64_srli by lia.
  apply lanes4_shl; auto with word.
Qed.

Lemma shift_reduce x0 x1 x2 x3 :
  (let '(y0, y1, _, _) := REDUCE_F128 (SL_256 (x0, x1, x2, x3)) in _mm_unpacklo_epi64 y1 y0)
  = red (lanes4 (lo64 x0) (lo64 x1) (lo64 x2) (lo64 x3) << 1).
Proof.
  pose proof (SL_lanes x0 x1 x2 x3) as H. destruct (SL_256 _) as [[[y0 y1] y2] y3].
  rewrite unpack_reduce, H. apply red_wrap.
Qed.

(** The value [combine] leaves in [t1:t0]. *)
Lemma combine_red t1 t2 t3 : in_range 128 t1 -> in_range 128 t2 -> in_range 128 t3 ->
  (let '(y0, y1, _, _) := combine t1 t2 t3 in _mm_unpacklo_epi64 y1 y0)
  = red ((t3 .^ (t2 << 64) .^ (t1 << 128)) << 1).
Proof.
  intros H1 H2 H3. unfold combine. rewrite shift_reduce, !lo64_xor, !lo64_swap.
  do 2 f_equal. unfold lanes4, lo64, hi64. lanes64.
Qed.

(** * Products *)

Lemma clmul_lo64 a b : clmul 64 a b = clmul 64 (lo64 a) b.
Proof.
  rewrite !clmul_sum. apply xsum_ext. intros i Hi. unfold lo64. rewrite testbit_wrap by lia.
  now rewrite (proj2 (Z.ltb_lt _ _)) by lia.
Qed.

Lemma clmul_range n w a b : 0 <= w -> in_range w b -> in_range (w + Z.of_nat n) (clmul n a b).
Proof.
  intros Hw Hb. rewrite clmul_sum.
  assert (H : forall m, (m <= n)%nat ->
    in_range (w + Z.of_nat n) (xsum m (fun i => sel (Z.testbit a (Z.of_nat i)) (b << Z.of_nat i)))).
  { induction m as [|m IH]; intros Hm; cbn [xsum]; [apply range_0; lia|].
    apply lxor_range; [lia|apply IH; lia|].
    destruct (Z.testbit a _); cbn [sel]; [|apply range_0; lia].
    apply range_of_bits; [lia|apply Z.shiftl_nonneg, Hb|]. intros i Hi.
    rewrite Z.shiftl_spec by lia. apply (testbit_above w); [assumption|lia]. }
  now apply H.
Qed.

Lemma pclmul00_range a b : in_range 128 (pclmulqdq00 a b).
Proof. apply (clmul_range 64 64); [lia|apply lo64_range]. Qed.
Lemma pclmul11_range a b : in_range 128 (pclmulqdq11 a b).
Proof. apply (clmul_range 64 64); [lia|apply hi64_range]. Qed.
#[local] Hint Resolve pclmul00_range pclmul11_range : word.

Lemma karatsuba a b : in_range 128 a -> in_range 128 b ->
  let p00 := clmul 64 (lo64 a) (lo64 b) in let p11 := clmul 64 (hi64 a) (hi64 b) in
  p00 .^ ((clmul 64 (lo64 a .^ hi64 a) (lo64 b .^ hi64 b) .^ (p11 .^ p00)) << 64) .^ (p11 << 128)
  = clmul 128 a b.
Proof.
  intros Ha Hb p00 p11. change 128%nat with (64 + 64)%nat. rewrite clmul_split, (clmul_lo64 a b).
  change (Z.of_nat 64) with 64.
  replace (a >> 64) with (hi64 a) by (unfold hi64; zbits).
  replace b with (lo64 b .^ (hi64 b << 64)) at 3 4 by
    (rewrite <- mk64_xor by auto with word; now apply mk64_lo_hi).
  rewrite !(clmul_linear_r 64 _ _), !clmul_shl by lia.
  rewrite !(clmul_linear_l 64 _ (lo64 a) (hi64 a)).
  fold p00 p11. rewrite !Z.shiftl_lxor, !Z.shiftl_shiftl by lia. change (64 + 64) with 128.
  generalize (clmul 64 (lo64 a) (hi64 b)), (clmul 64 (hi64 a) (lo64 b)). intros c d. zbits.
Qed.

(** [x] holds the exclusive or of the halves of [w] in its low quadword. *)
Definition half (x w : Z) : Prop := lo64 x = lo64 w .^ hi64 w.

Lemma BK_half w : half (BK w) w.
Proof. unfold half, BK. now rewrite lo64_xor, lo64_swap. Qed.

(** The 256-bit product from the three partial ones. *)
Definition joined (t1 t2 t3 : Z) : Z := t3 .^ (t2 << 64) .^ (t1 << 128).

Lemma product a ax b bx : in_range 128 a -> in_range 128 b -> half ax a -> half bx b ->
  joined (pclmulqdq11 a b)
    (_mm_xor_si128 (pclmulqdq00 ax bx) (_mm_xor_si128 (pclmulqdq11 a b) (pclmulqdq00 a b)))
    (pclmulqdq00 a b)
  = clmul 128 a b.
Proof.
  intros Ha Hb Hax Hbx. unfold joined, pclmulqdq00, pclmulqdq11, _mm_clmulepi64_si128,
    _mm_xor_si128. cbn [Z.testbit Z.odd Pos.testbit Pos.pred_N Pos.pred_double]. rewrite Hax, Hbx.
  now apply karatsuba.
Qed.

Lemma pclmul00_eq a b : pclmulqdq00 a b = clmul 64 (lo64 a) (lo64 b).
Proof. reflexivity. Qed.
Lemma pclmul11_eq a b : pclmulqdq11 a b = clmul 64 (hi64 a) (hi64 b).
Proof. reflexivity. Qed.

#[local] Opaque pclmulqdq00 pclmulqdq11 clmul red mul.

Lemma combine_mul a ax b bx : in_range 128 a -> in_range 128 b -> half ax a -> half bx b ->
  (let '(y0, y1, _, _) := combine (pclmulqdq11 a b)
     (_mm_xor_si128 (pclmulqdq00 ax bx) (_mm_xor_si128 (pclmulqdq11 a b) (pclmulqdq00 a b)))
     (pclmulqdq00 a b) in
   _mm_unpacklo_epi64 y1 y0) = mul a b.
Proof.
  intros Ha Hb Hax Hbx. rewrite combine_red by (unfold _mm_xor_si128; auto 10 with word).
  pose proof (product a ax b bx Ha Hb Hax Hbx) as P. unfold joined in P. rewrite P.
  now apply red_clmul.
Qed.

Lemma square_mul a : in_range 128 a ->
  (let '(y0, y1, _, _) := REDUCE_F128 (SL_256 (_mm_shuffle_epi32 (pclmulqdq11 a a) 0x0E,
     pclmulqdq11 a a, _mm_shuffle_epi32 (pclmulqdq00 a a) 0x0E, pclmulqdq00 a a)) in
   _mm_unpacklo_epi64 y1 y0) = mul a a.
Proof.
  intros Ha. rewrite shift_reduce, !lo64_swap, <- red_clmul by assumption. do 2 f_equal.
  rewrite <- karatsuba by assumption.
  rewrite !(clmul_linear_l 64 _ (lo64 a) (hi64 a)), !(clmul_linear_r 64 _ (lo64 a) (hi64 a)).
  rewrite (clmul_comm 64 (hi64 a) (lo64 a)) by (apply hi64_range || apply lo64_range).
  rewrite <- pclmul00_eq, <- pclmul11_eq.
  pose proof (pclmul00_range a a). pose proof (pclmul11_range a a).
  generalize dependent (pclmulqdq00 a a). generalize dependent (pclmulqdq11 a a).
  generalize (clmul 64 (lo64 a) (hi64 a)). intros c p Hp q Hq.
  replace (q .^ c .^ (c .^ p) .^ (p .^ q)) with 0 by zbits.
  rewrite Z.shiftl_0_l, Z.lxor_0_r. unfold lanes4, lo64, hi64. lanes64.
Qed.

Lemma PBK_half k0 k1 : half (snd (PBK k0 k1)) (fst (PBK k0 k1)).
Proof.
  unfold half, PBK, _mm_unpacklo_epi64. cbn [fst snd].
  rewrite lo64_xor, lo64_mk64, hi64_mk64 by auto with word. apply Z.lxor_comm.
Qed.

Lemma SQUARE_ok a : in_range 128 a ->
  fst (SQUARE_F128 a) = mul a a /\ half (snd (SQUARE_F128 a)) (fst (SQUARE_F128 a)).
Proof.
  intros Ha. pose proof (square_mul a Ha) as E. unfold SQUARE_F128.
  destruct (REDUCE_F128 _) as [[[z0 z1] z2] z3]. split; [exact E|apply PBK_half].
Qed.

(** The four powers of [h] with their halves. *)
Definition powers_of (h : Z) (p : powers) : Prop :=
  h1w p = h /\ h2w p = mul h h /\ h3w p = mul h (mul h h) /\ h4w p = mul (mul h h) (mul h h) /\
  half (h1x p) (h1w p) /\ half (h2x p) (h2w p) /\ half (h3x p) (h3w p) /\ half (h4x p) (h4w p).

Lemma key_powers_ok h x : in_range 128 h -> half x h -> powers_of h (key_powers h x).
Proof.
  intros Hh Hx. unfold key_powers. destruct (SQUARE_ok h Hh) as [E2 X2].
  destruct (SQUARE_F128 h) as [w2 x2]. cbn [fst snd] in *. subst w2.
  assert (H2 : in_range 128 (mul h h)) by now apply mul_range.
  pose proof (combine_mul h x (mul h h) x2 Hh H2 Hx X2) as E3.
  destruct (combine _ _ _) as [[[t0 t1] t2] t3].
  pose proof (PBK_half t0 t1) as X3. cbn [PBK fst snd] in X3. rewrite E3 in X3.
  cbn [PBK]. rewrite E3.
  destruct (SQUARE_ok (mul h h) H2) as [E4 X4].
  destruct (SQUARE_F128 (mul h h)) as [w4 x4]. cbn [fst snd] in *. subst w4.
  unfold powers_of. cbn [h1w h2w h3w h4w h1x h2x h3x h4x]. auto 10.
Qed.

(** * Blocks *)

Lemma BYTESWAP_rev x : BYTESWAP x = le_dec (rev (le_enc 16 x)).
Proof.
  unfold BYTESWAP, _mm_shuffle_epi8.
  replace (le_enc 16 byteswap_index) with (map (fun i => 15 - Z.of_nat i) (seq 0 16))
    by reflexivity.
  f_equal.
Qed.

Lemma swap_load b rest : length b = 16%nat -> bytes_ok b ->
  BYTESWAP (_mm_loadu_si128 (b ++ rest)) = be_dec b.
Proof.
  intros L H. rewrite BYTESWAP_rev. unfold _mm_loadu_si128.
  rewrite firstn_app, L, Nat.sub_diag, firstn_O, app_nil_r, firstn_all2 by lia.
  rewrite <- L. now rewrite le_enc_dec.
Qed.

Lemma store_swap y : _mm_storeu_si128 (BYTESWAP y) = be_enc 16 y.
Proof.
  rewrite BYTESWAP_rev. unfold _mm_storeu_si128, be_enc.
  rewrite <- (length_le_enc 16 y) at 1. rewrite <- length_rev. apply le_enc_dec.
  apply Forall_rev, le_enc_ok.
Qed.

Lemma ghash_one_step h x b rest y :
  in_range 128 h -> half x h -> length b = 16%nat -> bytes_ok b -> in_range 128 y ->
  ghash_one h x (b ++ rest) y = ghash_step h y b.
Proof.
  intros Hh Hx L H Hy. unfold ghash_one, ghash_step. rewrite swap_load by assumption.
  rewrite (Z.lxor_comm y). apply combine_mul; auto using BK_half.
  unfold _mm_xor_si128. apply lxor_range; [lia|now apply be_dec16_range|assumption].
Qed.

(** A loop whose turns follow [f], a function that splits at the stride. *)
Lemma block_loop_spec (P : Z -> Prop) body (f : Z -> list Z -> Z) stride :
  (forall b rest y, length b = stride -> bytes_ok b -> P y -> body (b ++ rest) y = f y b /\ P (f y b)) ->
  (forall y b d, length b = stride -> f y (b ++ d) = f (f y b) d) ->
  (forall y, f y [] = y) ->
  forall n d rest y, length d = (stride * n)%nat -> bytes_ok d -> P y ->
  block_loop n stride body (d ++ rest) y = f y d.
Proof.
  intros Hb Hf Hn n. induction n as [|n IH]; intros d rest y L H Hy; cbn [block_loop].
  - destruct d; [now rewrite Hn|cbn in L; lia].
  - destruct (split_at stride d) as (b & d' & -> & Lb & Hb' & Hd'); [lia|assumption|].
    rewrite length_app in L. rewrite <- app_assoc, skipn_exact, Hf by assumption.
    destruct (Hb b (d' ++ rest) y Lb Hb' Hy) as [-> Hp]. apply IH; auto. lia.
Qed.

Lemma ghash_loop1_from n h x d rest y : in_range 128 h -> half x h ->
  length d = (16 * n)%nat -> bytes_ok d -> in_range 128 y ->
  ghash_loop1 n h x (d ++ rest) y = ghash_from h y d.
Proof.
  intros Hh Hx. apply (block_loop_spec (in_range 128)).
  - intros b rest' y' L H Hy. rewrite ghash_from_block by assumption.
    split; [now apply ghash_one_step|now apply ghash_step_range].
  - intros y' b d' L. now apply (ghash_from_app h y' b d' 1).
  - apply ghash_from_nil.
Qed.

(** Four products added before one reduction. *)
Lemma joined_add p1 p2 p3 q1 q2 q3 :
  joined (p1 .^ q1) (p2 .^ q2) (p3 .^ q3) = joined p1 p2 p3 .^ joined q1 q2 q3.
Proof. unfold joined. rewrite !Z.shiftl_lxor. zbits. Qed.

Lemma combine_add a0 x0 b0 y0 a1 x1 b1 y1 a2 x2 b2 y2 a3 x3 b3 y3 :
  in_range 128 a0 -> in_range 128 b0 -> half x0 a0 -> half y0 b0 ->
  in_range 128 a1 -> in_range 128 b1 -> half x1 a1 -> half y1 b1 ->
  in_range 128 a2 -> in_range 128 b2 -> half x2 a2 -> half y2 b2 ->
  in_range 128 a3 -> in_range 128 b3 -> half x3 a3 -> half y3 b3 ->
  let t1 := (pclmulqdq11 a0 b0 .^ pclmulqdq11 a1 b1) .^ (pclmulqdq11 a2 b2 .^ pclmulqdq11 a3 b3) in
  let t3 := (pclmulqdq00 a0 b0 .^ pclmulqdq00 a1 b1) .^ (pclmulqdq00 a2 b2 .^ pclmulqdq00 a3 b3) in
  let t2 := (pclmulqdq00 x0 y0 .^ pclmulqdq00 x1 y1) .^ (pclmulqdq00 x2 y2 .^ pclmulqdq00 x3 y3) in
  red (joined t1 (t2 .^ (t1 .^ t3)) t3 << 1)
  = (mul a0 b0 .^ mul a1 b1) .^ (mul a2 b2 .^ mul a3 b3).
Proof.
  intros A0 B0 X0 Y0 A1 B1 X1 Y1 A2 B2 X2 Y2 A3 B3 X3 Y3 t1 t3 t2.
  rewrite <- !red_clmul by assumption. rewrite <- !red_linear, <- !Z.shiftl_lxor. do 2 f_equal.
  rewrite <- (product a0 x0 b0 y0), <- (product a1 x1 b1 y1), <- (product a2 x2 b2 y2),
    <- (product a3 x3 b3 y3) by assumption.
  unfold _mm_xor_si128. rewrite <- !joined_add. unfold t1, t2, t3. f_equal.
  generalize (pclmulqdq11 a0 b0) (pclmulqdq11 a1 b1) (pclmulqdq11 a2 b2) (pclmulqdq11 a3 b3)
    (pclmulqdq00 a0 b0) (pclmulqdq00 a1 b1) (pclmulqdq00 a2 b2) (pclmulqdq00 a3 b3)
    (pclmulqdq00 x0 y0) (pclmulqdq00 x1 y1) (pclmulqdq00 x2 y2) (pclmulqdq00 x3 y3).
  intros. zbits.
Qed.

(** Four steps of GHASH with the powers of the key. *)
Lemma ghash_powers h y b0 b1 b2 b3 : in_range 128 h ->
  ghash_step h (ghash_step h (ghash_step h (ghash_step h y b0) b1) b2) b3
  = (mul (be_dec b0 .^ y) (mul (mul h h) (mul h h)) .^ mul (be_dec b1) (mul h (mul h h)))
    .^ (mul (be_dec b2) (mul h h) .^ mul (be_dec b3) h).
Proof.
  intros Hh. unfold ghash_step.
  assert (L : forall u v, mul (u .^ v) h = mul u h .^ mul v h) by (intros; apply (mul_linear_l h)).
  assert (Hr : forall u, in_range 128 (mul u h)) by (intros; now apply mul_range).
  rewrite !L, (mul_linear_l _ (be_dec b0) y).
  rewrite !mul_assoc by auto using mul_range.
  generalize (mul y (mul h (mul h (mul h h)))), (mul (be_dec b0) (mul h (mul h (mul h h)))),
    (mul (be_dec b1) (mul h (mul h h))), (mul (be_dec b2) (mul h h)), (mul (be_dec b3) h).
  intros. zbits.
Qed.

Lemma ghash_four_from h hp b0 b1 b2 b3 rest y :
  in_range 128 h -> powers_of h hp -> in_range 128 y ->
  length b0 = 16%nat -> length b1 = 16%nat -> length b2 = 16%nat -> length b3 = 16%nat ->
  bytes_ok b0 -> bytes_ok b1 -> bytes_ok b2 -> bytes_ok b3 ->
  ghash_four hp (b0 ++ b1 ++ b2 ++ b3 ++ rest) y
  = ghash_step h (ghash_step h (ghash_step h (ghash_step h y b0) b1) b2) b3.
Proof.
  intros Hh (E1 & E2 & E3 & E4 & X1 & X2 & X3 & X4) Hy L0 L1 L2 L3 H0 H1 H2 H3.
  rewrite ghash_powers by assumption. unfold ghash_four.
  destruct (skip_blocks b0 b1 b2 b3 rest L0 L1 L2 L3) as (-> & -> & -> & _).
  rewrite !swap_load by assumption. unfold _mm_xor_si128. rewrite E1, E2, E3, E4 in *.
  assert (R : forall u, in_range 128 u -> in_range 128 (mul u u)) by (intros; now apply mul_range).
  assert (Rb : forall b, length b = 16%nat -> bytes_ok b -> in_range 128 (be_dec b))
    by exact be_dec16_range.
  rewrite combine_red by auto 20 with word.
  apply (combine_add _ _ _ (h4x hp) _ _ _ (h3x hp) _ _ _ (h2x hp) _ _ _ (h1x hp));
    auto using BK_half, mul_range with word.
Qed.

Lemma ghash_loop4_from n h hp d rest y : in_range 128 h -> powers_of h hp ->
  length d = (64 * n)%nat -> bytes_ok d -> in_range 128 y ->
  ghash_loop4 n hp (d ++ rest) y = ghash_from h y d.
Proof.
  intros Hh Hp. apply (block_loop_spec (in_range 128)).
  - intros b rest' y' L H Hy.
    destruct (split_at 16 b) as (b0 & c0 & -> & L0 & H0 & Hc0); [lia|assumption|].
    rewrite length_app in L. destruct (split_at 16 c0) as (b1 & c1 & -> & L1 & H1 & Hc1); [lia|assumption|].
    rewrite length_app in L. destruct (split_at 16 c1) as (b2 & b3 & -> & L2 & H2 & H3); [lia|assumption|].
    rewrite length_app in L. assert (L3 : length b3 = 16%nat) by lia.
    rewrite <- !app_assoc, (ghash_four_from h) by assumption.
    rewrite !ghash_from_cons, ghash_from_block by assumption.
    split; [reflexivity|now apply ghash_step_range].
  - intros y' b d' L. apply (ghash_from_app h y' b d' 4). lia.
  - apply ghash_from_nil.
Qed.

(** * The whole function *)

(** The second chunk, copied and zero-padded when its length is not a multiple of 16. *)
Lemma tail_padded (d : list Z) :
  let len := Z.of_nat (length d) in
  (length d < 64)%nat ->
  (if negb ((len .& 15) =? 0)
   then firstn (Z.to_nat len) d ++ repeat 0 (Z.to_nat ((((len + 15) >> 4) << 4) - len))
   else d) = pad16 d.
Proof.
  intros len Hd. unfold len. change 15 with (Z.ones 4) at 1. rewrite Z.land_ones by lia.
  change (2 ^ 4) with 16. rewrite Nat2Z.id, firstn_all, Z.shiftl_mul_pow2, Z.shiftr_div_pow2 by lia.
  change (2 ^ 4) with 16. unfold pad16.
  destruct (Z.eqb_spec (Z.of_nat (length d) mod 16) 0) as [E|E]; cbn [negb].
  - replace (length d mod 16)%nat with O by dlia. symmetry. apply app_nil_r.
  - do 2 f_equal. rewrite (Nat.mod_small (16 - _)) by dlia. dlia.
Qed.

Lemma pclmul_ghash y h data :
  length y = 16%nat -> bytes_ok y -> length h = 16%nat -> bytes_ok h -> bytes_ok data ->
  br_ghash_pclmul y h data = be_enc 16 (ghash_from (be_dec h) (be_dec y) data).
Proof.
  intros Ly Hy Lh Hh Hd. unfold br_ghash_pclmul.
  set (n4 := (length data / 64)%nat).
  assert (E4 : Z.of_nat (length data) >> 6 = Z.of_nat n4)
    by (rewrite Z.shiftr_div_pow2 by lia; unfold n4; dlia).
  assert (L4 : (64 * n4 <= length data)%nat) by (unfold n4; dlia).
  destruct (split_at (64 * n4) data) as (d1 & d2 & E & L1 & H1 & H2); [assumption..|].
  assert (L2 : (length d2 < 64)%nat) by (pose proof (length_app d1 d2); rewrite <- E in *; unfold n4 in L1; dlia).
  assert (Er : Z.of_nat (length data) .& 63 = Z.of_nat (length d2)).
  { change 63 with (Z.ones 6). rewrite Z.land_ones by lia. subst data. rewrite length_app, L1. dlia. }
  rewrite E4, Er. clear E4 Er. replace (Z.to_nat (Z.of_nat n4 << 6)) with (64 * n4)%nat
    by (rewrite Z.shiftl_mul_pow2 by lia; lia).
  rewrite E, (skipn_exact (64 * n4) d1 d2 L1), (tail_padded d2 L2).
  rewrite store_swap, <- (app_nil_r y), <- (app_nil_r h), !swap_load, !app_nil_r by assumption.
  assert (Rh : in_range 128 (be_dec h)) by now apply be_dec16_range.
  assert (Ry : in_range 128 (be_dec y)) by now apply be_dec16_range.
  f_equal. rewrite (ghash_from_app _ _ d1 d2 (4 * n4)) by lia.
  rewrite <- (ghash_from_pad _ _ d2), <- (app_nil_r (pad16 d2)) at 1.
  replace (if 0 <? Z.of_nat n4 then _ else _) with (ghash_from (be_dec h) (be_dec y) d1).
  - rewrite ghash_loop1_from; auto using BK_half, pad16_ok, ghash_from_range.
    rewrite pad16_length, Z.shiftr_div_pow2 by lia. dlia.
  - destruct (Z.ltb_spec 0 (Z.of_nat n4)).
    + symmetry. rewrite Nat2Z.id. apply ghash_loop4_from; auto.
      apply key_powers_ok; auto using BK_half.
    + clearbody n4. destruct d1; [reflexivity|cbn [length] in L1; lia].
Qed.

#[global] Instance ghash_pclmul_impl : GhashImpl br_ghash_pclmul := {| gh_spec := pclmul_ghash |}.

(** [br_ghash_pclmul] computes GHASH of SP 800-38D: from the value [y], every 16-byte block
    of the zero-padded data is added and multiplied by [h] in GF(2^128) with the standard's
    bit-by-bit product.  The byte swap, the Karatsuba products, the shift and word reduction
    and the four-block aggregation with the powers of [h] do not change the result. *)
Theorem ghash_is_sp800_38d (y h data : list Z)
  (Ly : length y = 16%nat) (Hy : bytes_ok y) (Lh : length h = 16%nat) (Hh : bytes_ok h)
  (Hd : bytes_ok data) :
  br_ghash_pclmul y h data
  = be_enc 16 (fold_left (fun z b => mul (z .^ be_dec b) (be_dec h))
                 (blocks 16 (pad16 data)) (be_dec y)).
Proof. now apply pclmul_ghash. Qed.

(** The hash key and the two blocks of the second test case of the GCM proposal. *)
Definition tc2_h : list Z :=
  [0x66; 0xe9; 0x4b; 0xd4; 0xef; 0x8a; 0x2c; 0x3b; 0x88; 0x4c; 0xfa; 0x59;
   0xca; 0x34; 0x2b; 0x2e].
Definition tc2_data : list Z :=
  [0x03; 0x88; 0xda; 0xce; 0x60; 0xb6; 0xa3; 0x92; 0xf3; 0x28; 0xc2; 0xb9;
   0x71; 0xb2; 0xfe; 0x78; 0x00; 0x00; 0x00; 0x00; 0x00; 0x00; 0x00; 0x00;
   0x00; 0x00; 0x00; 0x00; 0x00; 0x00; 0x00; 0x80].

Lemma ghash_is_sp800_38d_witness :
  br_ghash_pclmul (repeat 0 16) tc2_h (tc2_data ++ tc2_data ++ tc2_data)
  = be_enc 16 (fold_left (fun z b => mul (z .^ be_dec b) (be_dec tc2_h))
      (blocks 16 (pad16 (tc2_data ++ tc2_data ++ tc2_data))) (be_dec (repeat 0 16))).
Proof.
  apply (ghash_is_sp800_38d (repeat 0 16) tc2_h (tc2_data ++ tc2_data ++ tc2_data));
    try reflexivity; apply words_ok_forallb; reflexivity.
Defined.

Example ghash_tc2 :
  br_ghash_pclmul (repeat 0 16) tc2_h tc2_data
  = [0xf3; 0x8c; 0xbb; 0x1a; 0xd6; 0x92; 0x23; 0xdc; 0xc3; 0x45; 0x7a; 0xe5;
   0xb6; 0xb0; 0xf8; 0x85].
Proof. vm_compute. reflexivity. Qed.

End Ghash.
