(* ===== verification/Gcm.v ===== *)
(** Galois/Counter Mode, src/enclave/c_src/bearssl/aead/gcm.c: an incremental context over any
    CTR and GHASH implementation, against the one-shot functions of SP 800-38D. *)
From S2P Require Import Prelude Codec CtPrim Fips197 BlockClass Intrinsics AesCtr Sp800_38d Ghash.
From Stdlib Require Import ZArith List Lia Bool.
Import Codec Gf128 Sp38d.

Module Gcm.

(** * The code *)

Section Code.
(** The context type of the block cipher implementation. *)
Context {bc : Type}.

(** [br_gcm_context]; [gc_class] and [gc_bctx] are the class and the context [bctx] points to. *)
Record br_gcm_context := {
  gc_class : br_block_ctr_class bc;
  gc_bctx : bc;
  gc_gh : list Z -> list Z -> list Z -> list Z;
  gc_h : list Z;
  gc_j0_1 : list Z;
  gc_buf : list Z;
  gc_y : list Z;
  gc_j0_2 : Z;
  gc_jc : Z;
  gc_count_aad : Z;
  gc_count_ctr : Z }.

Definition set_y (c : br_gcm_context) (y : list Z) : br_gcm_context :=
  {| gc_class := gc_class c; gc_bctx := gc_bctx c; gc_gh := gc_gh c; gc_h := gc_h c;
     gc_j0_1 := gc_j0_1 c; gc_buf := gc_buf c; gc_y := y; gc_j0_2 := gc_j0_2 c;
     gc_jc := gc_jc c; gc_count_aad := gc_count_aad c; gc_count_ctr := gc_count_ctr c |}.
Definition set_buf (c : br_gcm_context) (buf : list Z) : br_gcm_context :=
  {| gc_class := gc_class c; gc_bctx := gc_bctx c; gc_gh := gc_gh c; gc_h := gc_h c;
     gc_j0_1 := gc_j0_1 c; gc_buf := buf; gc_y := gc_y c; gc_j0_2 := gc_j0_2 c;
     gc_jc := gc_jc c; gc_count_aad := gc_count_aad c; gc_count_ctr := gc_count_ctr c |}.
Definition set_jc (c : br_gcm_context) (jc : Z) : br_gcm_context :=
  {| gc_class := gc_class c; gc_bctx := gc_bctx c; gc_gh := gc_gh c; gc_h := gc_h c;
     gc_j0_1 := gc_j0_1 c; gc_buf := gc_buf c; gc_y := gc_y c; gc_j0_2 := gc_j0_2 c;
     gc_jc := jc; gc_count_aad := gc_count_aad c; gc_count_ctr := gc_count_ctr c |}.
Definition set_count_aad (c : br_gcm_context) (n : Z) : br_gcm_context :=
  {| gc_class := gc_class c; gc_bctx := gc_bctx c; gc_gh := gc_gh c; gc_h := gc_h c;
     gc_j0_1 := gc_j0_1 c; gc_buf := gc_buf c; gc_y := gc_y c; gc_j0_2 := gc_j0_2 c;
     gc_jc := gc_jc c; gc_count_aad := n; gc_count_ctr := gc_count_ctr c |}.
Definition set_count_ctr (c : br_gcm_context) (n : Z) : br_gcm_context :=
  {| gc_class := gc_class c; gc_bctx := gc_bctx c; gc_gh := gc_gh c; gc_h := gc_h c;
     gc_j0_1 := gc_j0_1 c; gc_buf := gc_buf c; gc_y := gc_y c; gc_j0_2 := gc_j0_2 c;
     gc_jc := gc_jc c; gc_count_aad := gc_count_aad c; gc_count_ctr := n |}.

(** [ctx->gh(ctx->y, ctx->h, data, len)]. *)
Definition run_gh (c : br_gcm_context) (data : list Z) : br_gcm_context :=
  set_y c (gc_gh c (gc_y c) (gc_h c) data).

(** [( *ctx->bctx)->run(ctx->bctx, ctx->j0_1, cc, data, len)]. *)
Definition run_ctr (c : br_gcm_context) (cc : Z) (data : list Z) : Z * list Z :=
  ctr_run (gc_class c) (gc_bctx c) (gc_j0_1 c) cc data.

Definition br_gcm_init (c : br_gcm_context) (cls : br_block_ctr_class bc) (bctx : bc)
  (gh : list Z -> list Z -> list Z -> list Z) : br_gcm_context :=
  let h := repeat 0 16 in
  let iv := repeat 0 12 in
  let '(_, h) := ctr_run cls bctx iv 0 h in
  {| gc_class := cls; gc_bctx := bctx; gc_gh := gh; gc_h := h;
     gc_j0_1 := gc_j0_1 c; gc_buf := gc_buf c; gc_y := gc_y c; gc_j0_2 := gc_j0_2 c;
     gc_jc := gc_jc c; gc_count_aad := gc_count_aad c; gc_count_ctr := gc_count_ctr c |}.

Definition br_gcm_reset (c : br_gcm_context) (iv : list Z) : br_gcm_context :=
  let len := Z.of_nat (length iv) in
  let '(j0_1, j0_2) :=
    if len =? 12 then (firstn 12 iv, 1)
    else
      let ty := repeat 0 16 in
      let ty := gc_gh c ty (gc_h c) iv in
      let tmp := repeat 0 8 ++ br_enc64be (u64 (len << 3)) in
      let ty := gc_gh c ty (gc_h c) tmp in
      (firstn 12 ty, br_dec32be (skipn 12 ty)) in
  {| gc_class := gc_class c; gc_bctx := gc_bctx c; gc_gh := gc_gh c; gc_h := gc_h c;
     gc_j0_1 := j0_1; gc_buf := gc_buf c; gc_y := repeat 0 16; gc_j0_2 := j0_2;
     gc_jc := u32 (j0_2 + 1); gc_count_aad := 0; gc_count_ctr := 0 |}.

(** [len & ~(size_t)15]: on a [size_t] value the bits of the complement above the width do
    not matter. *)
Definition whole (len : Z) : Z := len .& Z.lnot 15.

Definition aad_blocks (c : br_gcm_context) (data : list Z) : br_gcm_context :=
  let len := Z.of_nat (length data) in
  let dlen := whole len in
  let c := run_gh c (firstn (Z.to_nat dlen) data) in
  let c := set_buf c (splice (gc_buf c) 0 (skipn (Z.to_nat dlen) data)) in
  set_count_aad c (u64 (gc_count_aad c + len)).

Definition br_gcm_aad_inject (c : br_gcm_context) (data : list Z) : br_gcm_context :=
  let len := Z.of_nat (length data) in
  let ptr := gc_count_aad c .& 15 in
  if negb (ptr =? 0) then
    let clen := 16 - ptr in
    if len <? clen then
      let c := set_buf c (splice (gc_buf c) (Z.to_nat ptr) data) in
      set_count_aad c (u64 (gc_count_aad c + len))
    else
      let c := set_buf c (splice (gc_buf c) (Z.to_nat ptr) (firstn (Z.to_nat clen) data)) in
      let c := run_gh c (gc_buf c) in
      let data := skipn (Z.to_nat clen) data in
      let c := set_count_aad c (u64 (gc_count_aad c + clen)) in
      aad_blocks c data
  else aad_blocks c data.

Definition br_gcm_flip (c : br_gcm_context) : br_gcm_context :=
  let ptr := gc_count_aad c .& 15 in
  if negb (ptr =? 0) then run_gh c (firstn (Z.to_nat ptr) (gc_buf c)) else c.

(** The byte loops of [br_gcm_run]: [ks] are the bytes of [ctx->buf] from the current
    position; the results are their new values and the processed data. *)
Fixpoint mix_bytes (encrypt : bool) (ks data : list Z) : list Z * list Z :=
  match ks, data with
  | k :: ks', x :: data' =>
      let y := x .^ k in
      let '(kb, out) := mix_bytes encrypt ks' data' in
      ((if encrypt then y else x) :: kb, y :: out)
  | _, _ => (ks, data)
  end.

(** From "Process full blocks" to the end. *)
Definition gcm_run_blocks (c : br_gcm_context) (encrypt : bool) (buf : list Z)
  : br_gcm_context * list Z :=
  let len := Z.of_nat (length buf) in
  let dlen := whole len in
  let full := firstn (Z.to_nat dlen) buf in
  let c := if negb encrypt then run_gh c full else c in
  let '(jc, full) := run_ctr c (gc_jc c) full in
  let c := set_jc c jc in
  let c := if encrypt then run_gh c full else c in
  let buf := skipn (Z.to_nat dlen) buf in
  let len := len - dlen in
  let c := set_count_ctr c (u64 (gc_count_ctr c + dlen)) in
  if 0 <? len then
    let '(jc, ks) := run_ctr c (gc_jc c) (repeat 0 16) in
    let c := set_jc c jc in
    let '(kb, out) := mix_bytes encrypt ks buf in
    let c := set_buf c kb in
    let c := set_count_ctr c (u64 (gc_count_ctr c + len)) in
    (c, full ++ out)
  else (c, full).

Definition br_gcm_run (c : br_gcm_context) (encrypt : bool) (data : list Z)
  : br_gcm_context * list Z :=
  let len := Z.of_nat (length data) in
  let ptr := gc_count_ctr c .& 15 in
  if negb (ptr =? 0) then
    let clen := 16 - ptr in
    let clen := if len <? clen then len else clen in
    let '(kb, out) := mix_bytes encrypt (skipn (Z.to_nat ptr) (gc_buf c)) (firstn (Z.to_nat clen) data) in
    let c := set_buf c (firstn (Z.to_nat ptr) (gc_buf c) ++ kb) in
    let c := set_count_ctr c (u64 (gc_count_ctr c + clen)) in
    let rest := skipn (Z.to_nat clen) data in
    if ptr + clen <? 16 then (c, out ++ rest)
    else
      let c := run_gh c (gc_buf c) in
      let '(c, out') := gcm_run_blocks c encrypt rest in
      (c, out ++ out')
  else gcm_run_blocks c encrypt data.

Definition br_gcm_get_tag (c : br_gcm_context) : br_gcm_context * list Z :=
  let ptr := gc_count_ctr c .& 15 in
  let c := if 0 <? ptr then run_gh c (firstn (Z.to_nat ptr) (gc_buf c)) else c in
  let tmp := br_enc64be (u64 (gc_count_aad c << 3)) ++ br_enc64be (u64 (gc_count_ctr c << 3)) in
  let c := run_gh c tmp in
  let tag := gc_y c in
  let '(_, tag) := run_ctr c (gc_j0_2 c) tag in
  (c, tag).

Definition br_gcm_get_tag_trunc (c : br_gcm_context) (len : nat) : br_gcm_context * list Z :=
  let '(c, tmp) := br_gcm_get_tag c in
  (c, firstn len tmp).

(** [x |= tmp[u] ^ tag[u]] for [u < len]. *)
Fixpoint or_diff (len : nat) (tmp tag : list Z) (x : Z) : Z :=
  match len, tmp, tag with
  | S n, a :: tmp', b :: tag' => or_diff n tmp' tag' (x .| (a .^ b))
  | _, _, _ => x
  end.

Definition br_gcm_check_tag_trunc (c : br_gcm_context) (tag : list Z) (len : nat)
  : br_gcm_context * Z :=
  let '(c, tmp) := br_gcm_get_tag c in
  (c, Ct.EQ0 (or_diff len tmp tag 0)).

Definition br_gcm_check_tag (c : br_gcm_context) (tag : list Z) : br_gcm_context * Z :=
  br_gcm_check_tag_trunc c tag 16.
End Code.
Arguments br_gcm_context : clear implicits.

(** * Arithmetic of positions *)

Lemma whole_nat n : Z.to_nat (whole (Z.of_nat n)) = (16 * (n / 16))%nat.
Proof.
  unfold whole. rewrite <- Z.ldiff_land. change 15 with (Z.ones 4).
  rewrite Z.ldiff_ones_r, Z.shiftl_mul_pow2, Z.shiftr_div_pow2 by lia.
  change (2 ^ 4) with 16. dlia.
Qed.

Lemma land15 x : x .& 15 = x mod 16.
Proof. change 15 with (Z.ones 4). now rewrite Z.land_ones by lia. Qed.

Lemma count_land15 n : u64 (Z.of_nat n) .& 15 = Z.of_nat (n mod 16).
Proof.
  rewrite land15. unfold wrap. rewrite (Z.mod_mod_divide _ (2 ^ 64) 16) by (exists (2 ^ 60); reflexivity).
  dlia.
Qed.

(** * The byte loops *)

Lemma mix_bytes_spec e ks data : (length data <= length ks)%nat ->
  mix_bytes e ks data
  = ((if e then xor_bytes data ks else data) ++ skipn (length data) ks, xor_bytes data ks).
Proof.
  revert data. induction ks as [|k ks IH]; intros [|x data] L; cbn in L; try lia.
  - destruct e; reflexivity.
  - destruct e; reflexivity.
  - cbn [mix_bytes length skipn]. rewrite IH by lia. destruct e; reflexivity.
Qed.

Lemma or_diff_zero n : forall a b x, 0 <= x -> bytes_ok a -> bytes_ok b ->
  (n <= length a)%nat -> (n <= length b)%nat ->
  0 <= or_diff n a b x /\ (or_diff n a b x = 0 <-> x = 0 /\ firstn n a = firstn n b).
Proof.
  induction n as [|n IH]; intros a b x Hx Ha Hb La Lb; cbn [or_diff firstn]; [intuition|].
  destruct a as [|u a], b as [|v b]; cbn in La, Lb; try lia. inv_Forall.
  destruct (IH a b (x .| (u .^ v))) as [P Q]; auto; try lia.
  { apply Z.lor_nonneg. split; [assumption|]. apply Z.lxor_nonneg. unfold in_range in *. intuition. }
  split; [exact P|]. rewrite Q, Z.lor_eq_0_iff. rewrite Z.lxor_eq_0_iff. split.
  - intros [[-> ->] E]. split; [reflexivity|]. now rewrite E.
  - intros [-> E]. injection E. auto.
Qed.

Lemma or_diff_range n : forall a b x, in_range 8 x -> bytes_ok a -> bytes_ok b ->
  in_range 8 (or_diff n a b x).
Proof.
  induction n as [|n IH]; intros [|u a] [|v b] x Hx Ha Hb; cbn [or_diff]; auto.
  inv_Forall. apply IH; auto with word.
Qed.

(** * Contexts and what they have absorbed *)

Section Correct.
Context {bc : Type} (cls : br_block_ctr_class bc) {CI : CtrImpl cls}
  (gh : list Z -> list Z -> list Z -> list Z) {GI : GhashImpl gh}
  (bctx : bc) (E : list Z -> list Z) (HE : keyed cls bctx E)
  (iv : list Z) (Hiv : bytes_ok iv).

Abbreviation H := (hash_key E).
Abbreviation iv12 := (firstn 12 (J0 E iv)).
Abbreviation c0 := (br_dec32be (skipn 12 (J0 E iv))).
Abbreviation stream := (Ctr.stream_block E iv12).

Lemma h_block : length (E (repeat 0 16)) = 16%nat /\ bytes_ok (E (repeat 0 16)).
Proof.
  apply (keyed_block bctx E); [assumption|reflexivity|]. apply Forall_repeat. auto with word.
Qed.

Lemma H_range : in_range 128 H.
Proof. now apply be_dec16_range; apply h_block. Qed.

Lemma J0_shape : length (J0 E iv) = 16%nat /\ bytes_ok (J0 E iv).
Proof.
  unfold J0. destruct (Nat.eqb_spec (length iv) 12) as [L|L].
  - rewrite length_app, L. split; [reflexivity|]. apply Forall_app. split; [assumption|].
    apply words_ok_forallb. reflexivity.
  - split; [apply length_be_enc|apply be_enc_ok].
Qed.

Lemma iv12_shape : length iv12 = 12%nat /\ bytes_ok iv12.
Proof.
  destruct J0_shape as [L B]. split; [rewrite length_firstn; lia|now apply Forall_firstn].
Qed.

Lemma c0_range : in_range 32 c0.
Proof.
  destruct J0_shape as [L B]. apply br_dec32be_range.
  apply Forall_skipn. exact B.
Qed.

Lemma stream_shape cc : length (stream cc) = 16%nat /\ bytes_ok (stream cc).
Proof.
  destruct iv12_shape as [L B]. apply (keyed_block bctx E); [assumption| |].
  - unfold Ctr.counter_block. rewrite length_app, L. reflexivity.
  - unfold Ctr.counter_block. apply Forall_app. split; [exact B|apply br_enc32be_bytes].
Qed.

Lemma stream_length cc : length (stream cc) = 16%nat.
Proof. apply stream_shape. Qed.

(** What never changes after [br_gcm_reset]. *)
Definition base (g : br_gcm_context bc) : Prop :=
  gc_class g = cls /\ gc_bctx g = bctx /\ gc_gh g = gh /\ gc_h g = E (repeat 0 16) /\
  gc_j0_1 g = iv12 /\ gc_j0_2 g = c0 /\ length (gc_buf g) = 16%nat /\ bytes_ok (gc_buf g).

Lemma run_gh_y g Y d : base g -> gc_y g = be_enc 16 Y -> in_range 128 Y -> bytes_ok d ->
  gc_y (run_gh g d) = be_enc 16 (ghash_from H Y d).
Proof.
  intros (_ & _ & Eg & Eh & _) Ey HY Hd. unfold run_gh. cbn [gc_y set_y]. rewrite Eg, Eh, Ey.
  destruct h_block as [Lh Bh].
  rewrite gh_spec by (assumption || apply length_be_enc || apply be_enc_ok).
  now rewrite be_dec_enc.
Qed.

Lemma run_ctr_crypt g cc d : base g -> in_range 32 cc -> bytes_ok d ->
  run_ctr g cc d = (u32 (cc + Z.of_nat (length d) / 16), Ctr.crypt E iv12 cc d).
Proof.
  intros (Ec & Eb & _ & _ & Ej & _) Hc Hd. unfold run_ctr. rewrite Ec, Eb, Ej.
  destruct iv12_shape. now apply run_crypt.
Qed.

(** [gcm_ready g]: what [br_gcm_init] establishes. *)
Definition gcm_ready (g : br_gcm_context bc) : Prop :=
  gc_class g = cls /\ gc_bctx g = bctx /\ gc_gh g = gh /\ gc_h g = E (repeat 0 16) /\
  length (gc_buf g) = 16%nat /\ bytes_ok (gc_buf g).

Lemma init_ready g : length (gc_buf g) = 16%nat -> bytes_ok (gc_buf g) ->
  gcm_ready (br_gcm_init g cls bctx gh).
Proof.
  intros L B. unfold br_gcm_init.
  rewrite (run_crypt bctx E) by
    (assumption || reflexivity || (apply Forall_repeat; auto with word) || auto with word).
  unfold gcm_ready. cbn [gc_class gc_bctx gc_gh gc_h gc_buf].
  repeat split; try assumption.
  unfold Ctr.crypt. rewrite repeat_length. change ((16 + 15) / 16)%nat with 1%nat.
  unfold Ctr.keystream. cbn [seq flat_map]. rewrite app_nil_r.
  apply (xor_bytes_0 16). apply h_block.
Qed.

(** The context has absorbed exactly the additional data [aad]. *)
Definition aad_inv (g : br_gcm_context bc) (aad : list Z) : Prop :=
  base g /\ bytes_ok aad /\ gc_jc g = u32 (c0 + 1) /\ gc_count_ctr g = 0 /\
  gc_count_aad g = u64 (Z.of_nat (length aad)) /\
  exists q full tail, aad = full ++ tail /\ length full = (16 * q)%nat /\ (length tail < 16)%nat /\
    gc_y g = be_enc 16 (ghash_from H 0 full) /\ firstn (length tail) (gc_buf g) = tail.

(** The two halves of the pre-counter block, as [br_gcm_reset] computes them. *)
Lemma reset_J0 g : gcm_ready g ->
  (if Z.of_nat (length iv) =? 12 then (firstn 12 iv, 1) else
   let ty := gc_gh g (gc_gh g (repeat 0 16) (gc_h g) iv) (gc_h g)
     (repeat 0 8 ++ br_enc64be (u64 (Z.of_nat (length iv) << 3))) in
   (firstn 12 ty, br_dec32be (skipn 12 ty)))
  = (iv12, c0).
Proof.
  intros (Ec & Eb & Eg & Eh & L & B). symmetry.
  unfold J0. destruct (Nat.eqb_spec (length iv) 12) as [L12|L12].
  - rewrite L12, firstn_app, skipn_app, L12, firstn_all2, skipn_all2 by lia.
    cbn [Z.of_nat Pos.of_succ_nat Pos.succ Z.eqb Pos.eqb Nat.sub firstn skipn app].
    now rewrite app_nil_r.
  - rewrite (proj2 (Z.eqb_neq _ _)) by lia. cbv zeta. destruct h_block as [Lh Bh].
    assert (B0 : bytes_ok (repeat 0 16)) by (apply Forall_repeat; auto with word).
    assert (B8 : bytes_ok (repeat 0 8 ++ br_enc64be (u64 (Z.of_nat (length iv) << 3))))
      by (apply Forall_app; split; [apply Forall_repeat; auto with word|apply br_enc64be_bytes]).
    rewrite Eg, Eh, (gh_spec (repeat 0 16)), gh_spec
      by (assumption || apply length_be_enc || apply be_enc_ok || reflexivity).
    rewrite be_dec_enc by (apply ghash_from_range; [apply H_range|now apply in_rangeb_spec]).
    unfold GHASH, len64. rewrite ghash_from_pad_app.
    replace (Z.of_nat (length iv) << 3) with (8 * Z.of_nat (length iv)) by
      (rewrite Z.shiftl_mul_pow2 by lia; lia).
    reflexivity.
Qed.

Lemma reset_inv g : gcm_ready g -> aad_inv (br_gcm_reset g iv) [].
Proof.
  intros Hg. pose proof (reset_J0 g Hg) as Hj. cbv zeta in Hj.
  destruct Hg as (Ec & Eb & Eg & Eh & L & B).
  unfold br_gcm_reset. rewrite Hj. unfold aad_inv, base.
  cbn [gc_class gc_bctx gc_gh gc_h gc_j0_1 gc_j0_2 gc_buf gc_jc gc_count_aad gc_count_ctr gc_y].
  repeat split; try assumption; [constructor|].
  exists O, [], []. repeat split. cbn [length]. lia.
Qed.

Lemma base_buf g b : base g -> length b = 16%nat -> bytes_ok b -> base (set_buf g b).
Proof. unfold base. cbn. tauto. Qed.
Lemma base_gh g d : base g -> base (run_gh g d).
Proof. exact (fun H => H). Qed.
Lemma base_jc g n : base g -> base (set_jc g n).
Proof. exact (fun H => H). Qed.
Lemma base_aad g n : base g -> base (set_count_aad g n).
Proof. exact (fun H => H). Qed.
Lemma base_ctr g n : base g -> base (set_count_ctr g n).
Proof. exact (fun H => H). Qed.

(** A message, its whole blocks and the pending bytes. *)
Lemma split_block (d : list Z) : bytes_ok d ->
  exists full tail, d = full ++ tail /\ length full = (16 * (length d / 16))%nat /\
    (length tail < 16)%nat /\ bytes_ok full /\ bytes_ok tail.
Proof.
  intros B. destruct (split_at (16 * (length d / 16)) d) as (f & t & E1 & L & Bf & Bt); [dlia|assumption|].
  exists f, t. repeat split; try assumption.
  assert (length d = length f + length t)%nat by (now rewrite <- length_app, <- E1). dlia.
Qed.

Lemma whole_split (full tail : list Z) : length full = (16 * (length (full ++ tail) / 16))%nat ->
  Z.to_nat (whole (Z.of_nat (length (full ++ tail)))) = length full /\
  firstn (length full) (full ++ tail) = full /\ skipn (length full) (full ++ tail) = tail.
Proof.
  intros L. rewrite whole_nat, <- L. split; [reflexivity|].
  rewrite firstn_app, Nat.sub_diag, firstn_O, app_nil_r, firstn_all.
  split; [reflexivity|now apply skipn_exact].
Qed.

Lemma aad_blocks_inv g a d q : aad_inv g a -> length a = (16 * q)%nat -> bytes_ok d ->
  aad_inv (aad_blocks g d) (a ++ d).
Proof.
  intros (Hb & Ba & Ej & Ec & Ea & q' & full & tail & -> & Lf & Lt & Ey & Et) La Bd.
  rewrite length_app in La. assert (length tail = O) as Lt0 by lia.
  destruct tail; [|discriminate]. rewrite app_nil_r in *.
  destruct (split_block d Bd) as (f & t & -> & Lf' & Lt' & Bf & Bt).
  destruct (whole_split f t Lf') as (Ew & E1 & E2).
  assert (Lb : length (gc_buf g) = 16%nat) by apply Hb.
  assert (Bb : bytes_ok (gc_buf g)) by apply Hb.
  unfold aad_blocks. rewrite Ew, E1, E2. split; [|split; [|split; [|split; [|split]]]].
  - apply base_aad, base_buf; [now apply base_gh| |].
    + rewrite length_splice; cbn [gc_buf run_gh set_y]; lia.
    + now apply Forall_splice.
  - now apply Forall_app.
  - exact Ej.
  - exact Ec.
  - cbn [gc_count_aad set_count_aad set_buf run_gh set_y]. rewrite Ea, wrap_add_l, !length_app. f_equal. lia.
  - exists (q' + length (f ++ t) / 16)%nat, (full ++ f), t. rewrite app_assoc, length_app, Lf, Lf'.
    repeat split; [lia|assumption| |].
    + cbn [gc_y set_count_aad set_buf]. rewrite (run_gh_y g (ghash_from H 0 full)); auto.
      * now rewrite (ghash_from_app H 0 full f q').
      * apply ghash_from_range; [apply H_range|now apply in_rangeb_spec].
    + cbn [gc_buf set_count_aad set_buf run_gh set_y].
      apply (firstn_splice (gc_buf g) 0 t). lia.
Qed.

Lemma y_range aad full : in_range 128 (ghash_from H (ghash_from H 0 aad) full).
Proof.
  apply ghash_from_range; [apply H_range|]. apply ghash_from_range; [apply H_range|].
  now apply in_rangeb_spec.
Qed.

Lemma y0_range aad : in_range 128 (ghash_from H 0 aad).
Proof. exact (y_range [] aad). Qed.

Lemma count_tail (full tail : list Z) q : length full = (16 * q)%nat -> (length tail < 16)%nat ->
  u64 (Z.of_nat (length (full ++ tail))) .& 15 = Z.of_nat (length tail).
Proof.
  intros Lf Lt. rewrite count_land15, length_app, Lf. f_equal. dlia.
Qed.

Lemma aad_inject_inv g a d : aad_inv g a -> bytes_ok d -> aad_inv (br_gcm_aad_inject g d) (a ++ d).
Proof.
  intros Hg Bd. pose proof Hg as (Hb & Ba & Ej & Ec & Ea & q & full & tail & -> & Lf & Lt & Ey & Et).
  assert (Lb : length (gc_buf g) = 16%nat) by apply Hb.
  assert (Bb : bytes_ok (gc_buf g)) by apply Hb.
  unfold br_gcm_aad_inject. rewrite Ea, (count_tail full tail q Lf Lt).
  destruct (Z.eqb_spec (Z.of_nat (length tail)) 0) as [T0|T0]; cbn [negb].
  { apply (aad_blocks_inv _ _ _ q); auto. rewrite length_app. lia. }
  replace (16 - Z.of_nat (length tail)) with (Z.of_nat (16 - length tail)) by lia.
  rewrite !Nat2Z.id.
  destruct (Z.ltb_spec (Z.of_nat (length d)) (Z.of_nat (16 - length tail))) as [Hd|Hd].
  - split; [|split; [|split; [|split; [|split]]]]; try assumption.
    + apply base_aad, base_buf; [assumption|rewrite length_splice; lia|now apply Forall_splice].
    + now apply Forall_app.
    + cbn [gc_count_aad set_count_aad set_buf]. rewrite Ea, wrap_add_l, (length_app _ d). f_equal. lia.
    + exists q, full, (tail ++ d). rewrite app_assoc, length_app. repeat split; try assumption; [lia|].
      cbn [gc_buf set_count_aad set_buf]. rewrite firstn_splice by lia. now rewrite Et.
  - destruct (split_at (16 - length tail) d) as (d1 & d2 & -> & L1 & B1 & B2); [lia|assumption|].
    rewrite firstn_app, L1, Nat.sub_diag, firstn_O, app_nil_r, firstn_all2, skipn_exact by lia.
    rewrite app_assoc. apply (aad_blocks_inv _ _ _ (q + 1)); [|rewrite !length_app; lia|assumption].
    assert (Es : splice (gc_buf g) (length tail) d1 = tail ++ d1).
    { unfold splice. rewrite Et, skipn_all2, app_nil_r by lia. reflexivity. }
    assert (Bt : bytes_ok (tail ++ d1)) by (rewrite <- Es; now apply Forall_splice).
    assert (Lt' : length (tail ++ d1) = 16%nat) by (rewrite length_app; lia).
    rewrite Es. split; [|split; [|split; [|split; [|split]]]]; try assumption.
    + now apply base_aad, base_gh, base_buf.
    + now apply Forall_app.
    + cbn [gc_count_aad set_count_aad run_gh set_y set_buf]. rewrite Ea, wrap_add_l, (length_app _ d1). f_equal. lia.
    + exists (q + 1)%nat, (full ++ tail ++ d1), []. rewrite app_nil_r, app_assoc, !length_app.
      repeat split; [lia|cbn; lia|]. cbn [gc_y set_count_aad gc_buf set_buf].
      rewrite (run_gh_y _ (ghash_from H 0 full)); try assumption; [|now apply base_buf|apply y0_range].
      now rewrite <- app_assoc, (ghash_from_app H 0 full (tail ++ d1) q).
Qed.

(** The context has absorbed [aad] and the ciphertext [c]. *)
Definition run_inv (g : br_gcm_context bc) (aad c : list Z) : Prop :=
  base g /\ bytes_ok c /\ gc_count_aad g = u64 (Z.of_nat (length aad)) /\
  gc_count_ctr g = u64 (Z.of_nat (length c)) /\
  exists q full tail, c = full ++ tail /\ length full = (16 * q)%nat /\ (length tail < 16)%nat /\
    gc_y g = be_enc 16 (ghash_from H (ghash_from H 0 aad) full) /\
    gc_jc g = u32 (c0 + 1 + Z.of_nat q + (if tail is nil then 0 else 1)) /\
    (tail <> [] -> gc_buf g = tail ++ skipn (length tail) (stream (c0 + 1 + Z.of_nat q))).

Lemma flip_inv g aad : aad_inv g aad -> run_inv (br_gcm_flip g) aad [].
Proof.
  intros (Hb & Ba & Ej & Ec & Ea & q & full & tail & -> & Lf & Lt & Ey & Et).
  unfold br_gcm_flip. rewrite Ea, (count_tail full tail q Lf Lt), Nat2Z.id, Et.
  assert (Bt : bytes_ok tail) by (apply Forall_app in Ba; tauto).
  split; [|split; [constructor|split; [|split]]].
  - now destruct (negb _).
  - now destruct (negb _).
  - now destruct (negb _).
  - exists O, [], []. repeat split; [cbn; lia| | |congruence].
    + rewrite (ghash_from_app H 0 full tail q), ghash_from_nil by assumption.
      destruct (Z.eqb_spec (Z.of_nat (length tail)) 0) as [T0|T0]; cbn [negb].
      * destruct tail; [|cbn in T0; lia]. now rewrite ghash_from_nil.
      * apply run_gh_y; auto using y0_range.
    + rewrite !Z.add_0_r. now destruct (negb _).
Qed.
Abbreviation crypt_at := (Ctr.crypt_at E iv12 (c0 + 1)).

Lemma crypt_ok cc d : bytes_ok d -> bytes_ok (Ctr.crypt E iv12 cc d).
Proof.
  intros Bd. unfold Ctr.crypt, Ctr.keystream. apply xor_bytes_ok; [assumption|].
  apply Forall_flat_map, Forall_forall. intros i _. apply stream_shape.
Qed.

Lemma crypt_at_ok n d : bytes_ok d -> bytes_ok (crypt_at n d).
Proof.
  intros Bd. unfold Ctr.crypt_at, Ctr.keystream. apply xor_bytes_ok; [assumption|].
  apply Forall_skipn, Forall_flat_map, Forall_forall. intros i _. apply stream_shape.
Qed.

(** The ciphertext of a chunk [d] at position [n], in either direction. *)
Definition cipher_of (e : bool) (n : nat) (d : list Z) : list Z := if e then crypt_at n d else d.

Lemma cipher_of_ok e n d : bytes_ok d -> bytes_ok (cipher_of e n d).
Proof. intros. destruct e; [now apply crypt_at_ok|assumption]. Qed.

Lemma cipher_of_length e n d : length (cipher_of e n d) = length d.
Proof. destruct e; [apply Ctr.crypt_at_length, stream_length|reflexivity]. Qed.

Lemma cipher_of_app e n a b : cipher_of e n (a ++ b) = cipher_of e n a ++ cipher_of e (n + length a) b.
Proof. destruct e; [apply Ctr.crypt_at_app, stream_length|reflexivity]. Qed.

(** Whole blocks, at a block boundary. *)
Lemma run_full g aad c q e f (k : nat) :
  run_inv g aad c -> length c = (16 * q)%nat -> bytes_ok f -> length f = (16 * k)%nat ->
  let g1 := if negb e then run_gh g f else g in
  let '(jc, out) := run_ctr g1 (gc_jc g1) f in
  let g2 := set_jc g1 jc in
  let g3 := if e then run_gh g2 out else g2 in
  out = crypt_at (length c) f /\
  run_inv (set_count_ctr g3 (u64 (gc_count_ctr g3 + Z.of_nat (length f)))) aad
    (c ++ cipher_of e (length c) f).
Proof.
  intros (Hb & Bc & Ea & Ec & q' & full & tail & -> & Lf & Lt & Ey & Ej & _) Lc Bf Lk g1.
  rewrite length_app in Lc. assert (length tail = O) as Lt0 by lia.
  destruct tail; [|discriminate]. rewrite app_nil_r in *. rewrite Z.add_0_r in Ej.
  assert (Hb1 : base g1) by (unfold g1; now destruct e).
  assert (Ej1 : gc_jc g1 = u32 (c0 + 1 + Z.of_nat q')) by (unfold g1; now destruct e).
  rewrite run_ctr_crypt by (rewrite ?Ej1; auto with word).
  assert (Eo : Ctr.crypt E iv12 (gc_jc g1) f = crypt_at (length full) f).
  { rewrite Lf, Ctr.crypt_at_block by apply stream_length. apply Ctr.crypt_ext.
    rewrite Ej1. apply wrap_wrap. }
  rewrite Eo. set (out := crypt_at (length full) f) in *.
  assert (Bo : bytes_ok out) by now apply crypt_at_ok.
  split; [reflexivity|].
  split; [apply base_ctr; now destruct e|]. split; [apply Forall_app; split; [assumption|now apply cipher_of_ok]|].
  split; [unfold g1; destruct e; exact Ea|]. split.
  { unfold g1; destruct e; cbn [gc_count_ctr set_count_ctr run_gh set_y set_jc negb];
      rewrite Ec, wrap_add_l, length_app, cipher_of_length; f_equal; lia. }
  exists (q' + k)%nat, (full ++ cipher_of e (length full) f), [].
  rewrite app_nil_r, length_app, cipher_of_length.
  split; [reflexivity|]. split; [lia|]. split; [cbn; lia|]. split; [|split; [|congruence]].
  - rewrite (ghash_from_app _ _ full _ q') by assumption.
    unfold g1, cipher_of, out. destruct e; cbn [negb gc_y set_count_ctr];
      [rewrite (run_gh_y _ (ghash_from H (ghash_from H 0 aad) full))
      |change (gc_y (set_jc ?g ?n)) with (gc_y g); rewrite (run_gh_y _ (ghash_from H (ghash_from H 0 aad) full))];
      auto using y_range.
  - unfold g1 in *. destruct e; cbn [gc_jc set_count_ctr run_gh set_y set_jc negb] in *;
      rewrite Ej, wrap_add_l, Lk, Z.add_0_r; f_equal; dlia.
Qed.

(** The first bytes of a block, at a block boundary. *)
Lemma run_part g aad c q e t :
  run_inv g aad c -> length c = (16 * q)%nat -> bytes_ok t -> (0 < length t < 16)%nat ->
  let '(jc, ks) := run_ctr g (gc_jc g) (repeat 0 16) in
  let '(kb, out) := mix_bytes e ks t in
  let g1 := set_buf (set_jc g jc) kb in
  out = crypt_at (length c) t /\
  run_inv (set_count_ctr g1 (u64 (gc_count_ctr g1 + Z.of_nat (length t)))) aad
    (c ++ cipher_of e (length c) t).
Proof.
  intros (Hb & Bc & Ea & Ec & q' & full & tail & -> & Lf & Lt & Ey & Ej & _) Lc Bt Lk.
  rewrite length_app in Lc. assert (length tail = O) as Lt0 by lia.
  destruct tail; [|discriminate]. rewrite app_nil_r in *. rewrite Z.add_0_r in Ej.
  rewrite run_ctr_crypt by (rewrite ?Ej; auto with word; apply Forall_repeat; auto with word).
  set (S := stream (c0 + 1 + Z.of_nat q')).
  assert (LS : length S = 16%nat) by apply stream_length.
  assert (Es : Ctr.crypt E iv12 (gc_jc g) (repeat 0 16) = S).
  { rewrite (Ctr.crypt_ext _ _ _ (c0 + 1 + Z.of_nat q')) by (rewrite Ej; apply wrap_wrap).
    unfold Ctr.crypt. rewrite repeat_length. change ((16 + 15) / 16)%nat with 1%nat.
    unfold Ctr.keystream. cbn [seq flat_map Z.of_nat]. rewrite app_nil_r, Z.add_0_r.
    now apply xor_bytes_0. }
  rewrite Es, mix_bytes_spec by lia.
  assert (Eo : xor_bytes t S = crypt_at (length full) t).
  { rewrite Lf. rewrite <- (Nat.add_0_r (16 * q')), Ctr.crypt_at_inside by (apply stream_length || lia).
    reflexivity. }
  rewrite Eo. fold (cipher_of e (length full) t). set (ct := cipher_of e (length full) t).
  assert (Bo : bytes_ok ct) by now apply cipher_of_ok.
  assert (Lo : length ct = length t) by apply cipher_of_length.
  split; [reflexivity|]. split; [|split; [now apply Forall_app|split; [exact Ea|split]]].
  - apply base_ctr, base_buf; [exact Hb|rewrite length_app, length_skipn; lia|].
    apply Forall_app. split; [assumption|]. apply Forall_skipn, stream_shape.
  - cbn [gc_count_ctr set_count_ctr set_buf set_jc]. rewrite Ec, wrap_add_l, length_app, Lo.
    f_equal. lia.
  - exists q', full, ct. split; [reflexivity|]. split; [assumption|]. split; [lia|].
    split; [exact Ey|]. split; [|intros _; cbn [gc_buf set_count_ctr set_buf]; now rewrite Lo].
    destruct ct; [cbn in Lo; lia|].
    cbn [gc_jc set_count_ctr set_buf set_jc]. now rewrite Ej, wrap_add_l, repeat_length.
Qed.

Lemma run_blocks_inv g aad c q e d :
  run_inv g aad c -> length c = (16 * q)%nat -> bytes_ok d ->
  let '(g', out) := gcm_run_blocks g e d in
  out = crypt_at (length c) d /\ run_inv g' aad (c ++ cipher_of e (length c) d).
Proof.
  intros Hg Lc Bd. unfold gcm_run_blocks.
  destruct (split_block d Bd) as (f & t & -> & Lf & Lt & Bf & Bt).
  set (k := (length (f ++ t) / 16)%nat) in *.
  destruct (whole_split f t Lf) as (Ew & E1 & E2).
  assert (Ew' : whole (Z.of_nat (length (f ++ t))) = Z.of_nat (length f)).
  { rewrite <- Ew. rewrite Z2Nat.id; [reflexivity|]. apply Z.land_nonneg. lia. }
  rewrite Ew', Nat2Z.id, E1, E2. clear Ew Ew' E1 E2.
  replace (Z.of_nat (length (f ++ t)) - Z.of_nat (length f)) with (Z.of_nat (length t))
    by (rewrite length_app; lia).
  pose proof (run_full g aad c q e f k Hg Lc Bf Lf) as H1. cbv zeta in H1.
  destruct (run_ctr _ _ f) as [jc out]. destruct H1 as [Eo H1].
  set (g3 := if e then _ else _) in *. set (g4 := set_count_ctr g3 _) in *.
  rewrite Ctr.crypt_at_app, cipher_of_app, <- Eo by apply stream_length.
  destruct (Z.ltb_spec 0 (Z.of_nat (length t))) as [T|T].
  - assert (L1 : length (c ++ cipher_of e (length c) f) = (16 * (q + k))%nat)
      by (rewrite length_app, cipher_of_length; lia).
    pose proof (run_part g4 aad _ (q + k) e t H1 L1 Bt ltac:(lia)) as H2.
    destruct (run_ctr g4 _ _) as [jc' ks]. destruct (mix_bytes e ks t) as [kb out'].
    destruct H2 as [Eo' H2]. rewrite length_app, cipher_of_length in Eo', H2.
    rewrite <- Eo', app_assoc. split; [reflexivity|exact H2].
  - destruct t; [|cbn in T; lia]. rewrite Eo.
    replace (cipher_of e _ []) with (@nil Z) by (now destruct e).
    change (crypt_at _ []) with (@nil Z). rewrite !app_nil_r. split; [reflexivity|exact H1].
Qed.

(** Completing a started block: [d1] fills it at most. *)
Lemma run_complete g aad c e d1 (ptr := (length c mod 16)%nat) :
  run_inv g aad c -> ptr <> O -> bytes_ok d1 -> (ptr + length d1 <= 16)%nat ->
  let '(kb, out) := mix_bytes e (skipn ptr (gc_buf g)) d1 in
  let g1 := set_buf g (firstn ptr (gc_buf g) ++ kb) in
  let g2 := set_count_ctr g1 (u64 (gc_count_ctr g1 + Z.of_nat (length d1))) in
  out = crypt_at (length c) d1 /\
  run_inv (if (ptr + length d1 <? 16)%nat then g2 else run_gh g2 (gc_buf g2)) aad
    (c ++ cipher_of e (length c) d1).
Proof.
  intros (Hb & Bc & Ea & Ec & q & full & tail & -> & Lf & Lt & Ey & Ej & Ebuf) Hp Bd Ld.
  assert (Lp : ptr = length tail) by (unfold ptr; rewrite length_app, Lf; dlia). rewrite Lp in *.
  assert (Ht : tail <> []) by (intros ->; now apply Hp). specialize (Ebuf Ht).
  set (S := stream (c0 + 1 + Z.of_nat q)) in *.
  assert (LS : length S = 16%nat) by apply stream_length.
  rewrite Ebuf, skipn_exact, firstn_app, Nat.sub_diag, firstn_O, app_nil_r, firstn_all by reflexivity.
  rewrite mix_bytes_spec by (rewrite length_skipn; lia).
  assert (Eo : xor_bytes d1 (skipn (length tail) S) = crypt_at (length (full ++ tail)) d1)
    by (rewrite length_app, Lf, Ctr.crypt_at_inside by (apply stream_length || lia); reflexivity).
  rewrite Eo. fold (cipher_of e (length (full ++ tail)) d1). set (ct := cipher_of e _ d1).
  assert (Bo : bytes_ok ct) by now apply cipher_of_ok.
  assert (Lo : length ct = length d1) by apply cipher_of_length.
  split; [reflexivity|]. rewrite skipn_skipn, app_assoc.
  replace (length d1 + length tail)%nat with (length (tail ++ ct)) by (rewrite length_app; lia).
  set (b := (tail ++ ct) ++ skipn (length (tail ++ ct)) S).
  assert (Lb : length b = 16%nat) by (unfold b; rewrite length_app, length_skipn, length_app; lia).
  assert (Bt : bytes_ok tail) by (apply Forall_app in Bc; tauto).
  assert (Bb : bytes_ok b).
  { apply Forall_app. split; [now apply Forall_app|]. apply Forall_skipn, stream_shape. }
  set (g2 := set_count_ctr _ _).
  assert (Hb2 : base g2) by (now apply base_ctr, base_buf).
  assert (Ec2 : gc_count_ctr g2 = u64 (Z.of_nat (length ((full ++ tail) ++ ct)))).
  { unfold g2. cbn [gc_count_ctr set_count_ctr set_buf]. rewrite Ec, wrap_add_l, (length_app _ ct), Lo.
    f_equal. lia. }
  destruct (Nat.ltb_spec (length tail + length d1) 16) as [T|T].
  - split; [assumption|]. split; [now apply Forall_app|]. split; [exact Ea|]. split; [exact Ec2|].
    exists q, full, (tail ++ ct). rewrite app_assoc, length_app.
    repeat split; try assumption; [lia| |].
    + replace (if tail ++ ct is nil then 0 else 1) with (if tail is nil then 0 else 1) by (now destruct tail).
      exact Ej.
    + intros _. unfold g2, b. cbn [gc_buf set_count_ctr set_buf]. now rewrite length_app.
  - split; [now apply base_gh|]. split; [now apply Forall_app|]. split; [exact Ea|]. split; [exact Ec2|].
    assert (Eb : b = tail ++ ct) by (unfold b; rewrite skipn_all2, app_nil_r by (rewrite length_app; lia); reflexivity).
    exists (q + 1)%nat, (full ++ tail ++ ct), []. rewrite app_nil_r, app_assoc, !length_app.
    repeat split; [lia|cbn; lia| |destruct tail; [congruence|]|congruence].
    + cbn [gc_buf]. rewrite (run_gh_y g2 (ghash_from H (ghash_from H 0 aad) full)); auto using y_range.
      change (gc_buf g2) with b. now rewrite Eb, <- app_assoc, (ghash_from_app _ _ full (tail ++ ct) q).
    + change (gc_jc (run_gh g2 _)) with (gc_jc g). rewrite Ej. f_equal. lia.
Qed.

Lemma gcm_run_inv g aad c e d :
  run_inv g aad c -> bytes_ok d ->
  let '(g', out) := br_gcm_run g e d in
  out = crypt_at (length c) d /\ run_inv g' aad (c ++ cipher_of e (length c) d).
Proof.
  intros Hg Bd. pose proof Hg as (_ & _ & _ & Ec & _).
  unfold br_gcm_run. rewrite Ec, count_land15. set (ptr := (length c mod 16)%nat).
  destruct (Z.eqb_spec (Z.of_nat ptr) 0) as [P0|P0]; cbn [negb].
  { apply (run_blocks_inv g aad c (length c / 16)); auto. unfold ptr in P0. dlia. }
  set (clen := Nat.min (length d) (16 - ptr)).
  assert (Hp : (ptr < 16)%nat) by (unfold ptr; apply Nat.mod_upper_bound; discriminate).
  replace (if _ <? _ then _ else _) with (Z.of_nat clen)
    by (unfold clen; destruct (Z.ltb_spec (Z.of_nat (length d)) (16 - Z.of_nat ptr)); lia).
  assert (Hc : clen = Nat.min (length d) (16 - ptr)) by reflexivity. clearbody clen.
  rewrite !Nat2Z.id. destruct (split_at clen d) as (d1 & d2 & -> & L1 & B1 & B2); [lia|assumption|].
  rewrite firstn_app, L1, Nat.sub_diag, firstn_O, app_nil_r, firstn_all2, skipn_exact by lia.
  pose proof (run_complete g aad c e d1 Hg ltac:(fold ptr; lia) B1 ltac:(fold ptr; lia)) as H1.
  cbv zeta in H1. fold ptr in H1. destruct (mix_bytes _ _ d1) as [kb out]. destruct H1 as [Eo H1].
  rewrite L1 in H1. set (g2 := set_count_ctr _ _) in *.
  rewrite Ctr.crypt_at_app, cipher_of_app, <- Eo by apply stream_length.
  replace (Z.of_nat ptr + Z.of_nat clen <? 16) with (ptr + clen <? 16)%nat
    by (destruct (Nat.ltb_spec (ptr + clen) 16), (Z.ltb_spec (Z.of_nat ptr + Z.of_nat clen) 16); lia).
  destruct (Nat.ltb_spec (ptr + clen) 16) as [T|T].
  - rewrite length_app in Hc. assert (L2 : length d2 = O) by lia.
    destruct d2; [|discriminate].
    replace (cipher_of e _ []) with (@nil Z) by (now destruct e).
    change (crypt_at _ []) with (@nil Z). rewrite !app_nil_r. split; [reflexivity|exact H1].
  - assert (L2 : length (c ++ cipher_of e (length c) d1) = (16 * (length c / 16 + 1))%nat).
    { rewrite length_app, cipher_of_length. unfold ptr in *. dlia. }
    pose proof (run_blocks_inv _ aad _ _ e d2 H1 L2 B2) as H2.
    destruct (gcm_run_blocks _ e d2) as [g3 out']. destruct H2 as [Eo' H2].
    rewrite length_app, cipher_of_length in Eo', H2.
    rewrite Eo', app_assoc. split; [reflexivity|exact H2].
Qed.

(** * The tag *)

Lemma get_tag_spec g aad c : run_inv g aad c -> snd (br_gcm_get_tag g) = gcm_tag E iv aad c.
Proof.
  intros (Hb & Bc & Ea & Ec & q & full & tail & -> & Lf & Lt & Ey & Ej & Ebuf).
  assert (Bt : bytes_ok tail) by (apply Forall_app in Bc; tauto).
  unfold br_gcm_get_tag. rewrite Ec, (count_tail full tail q Lf Lt), Nat2Z.id.
  set (g1 := if _ : bool then _ else g).
  assert (Hb1 : base g1) by (unfold g1; now destruct (0 <? _)).
  assert (Ea1 : gc_count_aad g1 = u64 (Z.of_nat (length aad))) by (unfold g1; now destruct (0 <? _)).
  assert (Ec1 : gc_count_ctr g1 = u64 (Z.of_nat (length (full ++ tail)))) by (unfold g1; now destruct (0 <? _)).
  assert (Ey1 : gc_y g1 = be_enc 16 (ghash_from H (ghash_from H 0 aad) (full ++ tail))).
  { rewrite (ghash_from_app _ _ full tail q) by assumption. unfold g1.
    destruct (Z.ltb_spec 0 (Z.of_nat (length tail))) as [T|T].
    - rewrite Ebuf, firstn_app, Nat.sub_diag, firstn_O, app_nil_r, firstn_all by (intros ->; cbn in T; lia).
      now apply run_gh_y; auto using y_range.
    - destruct tail; [exact Ey|cbn in T; lia]. }
  rewrite Ea1, Ec1, !count_bits.
  set (lens := br_enc64be _ ++ br_enc64be _).
  assert (Bl : bytes_ok lens) by (apply Forall_app; split; apply br_enc64be_bytes).
  pose proof (run_gh_y g1 _ lens Hb1 Ey1 (y_range aad _) Bl) as Ey2.
  rewrite Ey2. change (gc_j0_2 (run_gh g1 lens)) with (gc_j0_2 g1).
  assert (Ej1 : gc_j0_2 g1 = c0) by apply Hb1. rewrite Ej1.
  rewrite run_ctr_crypt by (auto using base_gh, be_enc_ok; apply c0_range).
  cbn [snd]. unfold gcm_tag, GCTR, GHASH, len64. now rewrite !ghash_from_pad_app.
Qed.

Lemma gcm_tag_shape aad c : length (gcm_tag E iv aad c) = 16%nat /\ bytes_ok (gcm_tag E iv aad c).
Proof.
  unfold gcm_tag, GCTR. split.
  - rewrite Ctr.crypt_length by apply stream_length. apply length_be_enc.
  - apply crypt_ok, be_enc_ok.
Qed.

(** The comparison is an equality test on the first [n] bytes. *)
Lemma check_tag_spec g aad c tag n : run_inv g aad c -> (n <= 16)%nat ->
  (n <= length tag)%nat -> bytes_ok tag ->
  snd (br_gcm_check_tag_trunc g tag n)
  = (if list_eq_dec Z.eq_dec (firstn n tag) (firstn n (gcm_tag E iv aad c)) then 1 else 0).
Proof.
  intros Hg Hn Lt Bt. unfold br_gcm_check_tag_trunc.
  pose proof (get_tag_spec g aad c Hg) as Et. destruct (br_gcm_get_tag g) as [g' tmp].
  cbn [snd] in *. subst tmp. destruct (gcm_tag_shape aad c) as [L B].
  set (t := gcm_tag E iv aad c) in *.
  destruct (or_diff_zero n t tag 0) as [P Q]; try assumption; try lia.
  assert (R : in_range 8 (or_diff n t tag 0)) by (apply or_diff_range; auto with word).
  rewrite Ct.EQ0_spec by (unfold Ct.int32; unfold in_range in R; lia).
  destruct (list_eq_dec _ _ _) as [D|D].
  - now rewrite (proj2 Q (conj eq_refl (eq_sym D))).
  - rewrite (proj2 (Z.eqb_neq _ _)); [reflexivity|]. intros X. apply Q in X as [_ X].
    now apply D.
Qed.

(** * Any sequence of calls *)

Lemma inject_all g a aads : aad_inv g a -> Forall bytes_ok aads ->
  aad_inv (fold_left br_gcm_aad_inject aads g) (a ++ concat aads).
Proof.
  intros Hg Ha. revert g a Hg. induction Ha as [|d ds Hd _ IH]; intros g a Hg; cbn [fold_left concat].
  - now rewrite app_nil_r.
  - rewrite app_assoc. apply IH. now apply aad_inject_inv.
Qed.

Lemma GCTR_crypt_at x : GCTR E (inc32 (J0 E iv)) x = crypt_at 0 x.
Proof.
  destruct iv12_shape as [L B]. unfold GCTR, inc32. rewrite Ctr.crypt_at_0.
  rewrite firstn_app, skipn_app, L, Nat.sub_diag, firstn_O, app_nil_r, firstn_firstn, Nat.min_id.
  rewrite skipn_all2 by (now rewrite L). cbn [app skipn].
  rewrite <- (app_nil_r (br_enc32be _)), br_dec32be_enc by auto with word.
  apply Ctr.crypt_ext. apply wrap_wrap.
Qed.
End Correct.

(** Successive calls of [br_gcm_run]: the context and the processed chunks. *)
Fixpoint run_chunks {bc} (e : bool) (g : br_gcm_context bc) (ds : list (list Z))
  : br_gcm_context bc * list (list Z) :=
  match ds with
  | [] => (g, [])
  | d :: ds' =>
      let '(g, out) := br_gcm_run g e d in
      let '(g, outs) := run_chunks e g ds' in
      (g, out :: outs)
  end.

Section Stream.
Context {bc : Type} (cls : br_block_ctr_class bc) {CI : CtrImpl cls}
  (gh : list Z -> list Z -> list Z -> list Z) {GI : GhashImpl gh}
  (bctx : bc) (E : list Z -> list Z) (HE : keyed cls bctx E)
  (iv : list Z) (Hiv : bytes_ok iv).

Lemma run_chunks_inv e ds : Forall bytes_ok ds -> forall g aad c,
  run_inv cls gh bctx E iv g aad c ->
  let '(g', outs) := run_chunks e g ds in
  concat outs = Ctr.crypt_at E (firstn 12 (J0 E iv)) (br_dec32be (skipn 12 (J0 E iv)) + 1) (length c) (concat ds) /\
  run_inv cls gh bctx E iv g' aad (c ++ cipher_of E iv e (length c) (concat ds)).
Proof.
  intros H. induction H as [|d ds Hd Hds IH]; intros g aad c Hg; cbn [run_chunks concat].
  - change (cipher_of E iv e (length c) []) with (if e then @nil Z else @nil Z).
    replace (if e then _ else _) with (@nil Z) by (now destruct e). now rewrite app_nil_r.
  - pose proof (gcm_run_inv cls gh bctx E HE iv Hiv g aad c e d Hg Hd) as H1.
    destruct (br_gcm_run g e d) as [g1 out]. destruct H1 as [Eo H1].
    specialize (IH g1 aad _ H1). destruct (run_chunks e g1 ds) as [g2 outs].
    destruct IH as [Eos H2]. cbn [concat].
    assert (Hs := stream_length cls bctx E HE iv Hiv).
    rewrite length_app, (cipher_of_length cls bctx E HE iv Hiv) in Eos, H2.
    rewrite Ctr.crypt_at_app, Eo, Eos by exact Hs.
    rewrite (cipher_of_app cls bctx E HE iv Hiv), app_assoc. now split.
Qed.

(** The one-shot functions, from a fresh context: any chunks of additional data, then any
    chunks of message, in either direction. *)
Definition gcm_process (g0 : br_gcm_context bc) (e : bool) (aads ds : list (list Z))
  : br_gcm_context bc * list (list Z) :=
  run_chunks e
    (br_gcm_flip (fold_left br_gcm_aad_inject aads (br_gcm_reset (br_gcm_init g0 cls bctx gh) iv))) ds.

Lemma gcm_process_spec g0 e aads ds :
  length (gc_buf g0) = 16%nat -> bytes_ok (gc_buf g0) ->
  Forall bytes_ok aads -> Forall bytes_ok ds ->
  let '(g, outs) := gcm_process g0 e aads ds in
  let out := GCTR E (inc32 (J0 E iv)) (concat ds) in
  concat outs = out /\
  run_inv cls gh bctx E iv g (concat aads) (if e then out else concat ds).
Proof.
  intros L B Ha Hd. unfold gcm_process.
  pose proof (init_ready cls gh bctx E HE g0 L B) as H0.
  pose proof (reset_inv cls gh bctx E HE iv Hiv _ H0) as H1.
  pose proof (inject_all cls gh bctx E HE iv _ _ aads H1 Ha) as H2.
  pose proof (flip_inv cls gh bctx E HE iv _ _ H2) as H3.
  pose proof (run_chunks_inv e ds Hd _ _ _ H3) as H4.
  destruct (run_chunks e _ ds) as [g outs]. cbv zeta. cbn [app length] in H4.
  rewrite (GCTR_crypt_at E iv Hiv). exact H4.
Qed.
End Stream.

(** The incremental GCM computes SP 800-38D for every CTR and GHASH implementation: after
    init and reset with any nonce, additional data in any chunks, flip, and the message in any
    chunks, the processed chunks concatenate to GCTR of the whole message; the tag is the
    standard's tag of the additional data and the ciphertext (the output when encrypting, the
    input when decrypting); and checking an expected tag, truncated to [n] bytes, returns 1
    exactly when those bytes agree, and 0 otherwise. *)
Theorem gcm_is_sp800_38d {bc : Type} (cls : br_block_ctr_class bc) {CI : CtrImpl cls}
  (gh : list Z -> list Z -> list Z -> list Z) {GI : GhashImpl gh}
  (bctx : bc) (E : list Z -> list Z) (g0 : br_gcm_context bc) (e : bool)
  (iv tag : list Z) (n : nat) (aads ds : list (list Z))
  (HE : keyed cls bctx E) (Hiv : bytes_ok iv)
  (Lbuf : length (gc_buf g0) = 16%nat) (Hbuf : bytes_ok (gc_buf g0))
  (Ha : Forall bytes_ok aads) (Hd : Forall bytes_ok ds)
  (Hn : (n <= 16)%nat) (Ltag : (n <= length tag)%nat) (Htag : bytes_ok tag) :
  let '(g, outs) := run_chunks e
    (br_gcm_flip (fold_left br_gcm_aad_inject aads (br_gcm_reset (br_gcm_init g0 cls bctx gh) iv))) ds in
  let c := if e then concat outs else concat ds in
  concat outs = GCTR E (inc32 (J0 E iv)) (concat ds) /\
  snd (br_gcm_get_tag g) = gcm_tag E iv (concat aads) c /\
  snd (br_gcm_get_tag_trunc g n) = firstn n (gcm_tag E iv (concat aads) c) /\
  snd (br_gcm_check_tag_trunc g tag n)
    = (if list_eq_dec Z.eq_dec (firstn n tag) (firstn n (gcm_tag E iv (concat aads) c)) then 1 else 0).
Proof.
  pose proof (gcm_process_spec cls gh bctx E HE iv Hiv g0 e aads ds Lbuf Hbuf Ha Hd) as H.
  unfold gcm_process in H. destruct (run_chunks e _ ds) as [g outs]. destruct H as [Eo Hg].
  cbv zeta. rewrite <- Eo in Hg. split; [exact Eo|].
  pose proof (get_tag_spec cls gh bctx E HE iv Hiv g _ _ Hg) as Et.
  split; [exact Et|]. split; [|now apply (check_tag_spec cls gh bctx E HE iv Hiv)].
  unfold br_gcm_get_tag_trunc. destruct (br_gcm_get_tag g) as [g' t]. cbn [snd] in *. now rewrite Et.
Qed.

(** AES-256 with the pclmul GHASH, set up by the code's own initialisation. *)
Lemma aes256_keyed c key : length (AesCtr.skni c) = 240%nat -> length key = 32%nat -> bytes_ok key ->
  keyed AesCtr.br_aes_x86ni_ctr_vtable
    (AesCtr.br_aes_x86ni_ctr_init c key 32) (Fips197.Cipher key).
Proof.
  intros Lc L B. exists key. split; [reflexivity|].
  change 32 with (Z.of_nat 32). rewrite <- L.
  apply AesCtr.ctr_init_keyed with (nk := 8%nat); try reflexivity; try assumption.
  cbn. tauto.
Qed.

(** Uninitialised storage for a context. *)
Definition blank_gcm {bc} (cls : br_block_ctr_class bc) (bctx : bc)
  (gh : list Z -> list Z -> list Z -> list Z) : br_gcm_context bc :=
  {| gc_class := cls; gc_bctx := bctx; gc_gh := gh; gc_h := repeat 0 16; gc_j0_1 := repeat 0 12;
     gc_buf := repeat 0 16; gc_y := repeat 0 16; gc_j0_2 := 0; gc_jc := 0;
     gc_count_aad := 0; gc_count_ctr := 0 |}.

(** Test case 16 of the GCM proposal (256-bit key, 96-bit nonce). *)
Definition tc16_key : list Z :=
  [0xfe; 0xff; 0xe9; 0x92; 0x86; 0x65; 0x73; 0x1c; 0x6d; 0x6a; 0x8f; 0x94;
   0x67; 0x30; 0x83; 0x08; 0xfe; 0xff; 0xe9; 0x92; 0x86; 0x65; 0x73; 0x1c;
   0x6d; 0x6a; 0x8f; 0x94; 0x67; 0x30; 0x83; 0x08].
Definition tc16_iv : list Z :=
  [0xca; 0xfe; 0xba; 0xbe; 0xfa; 0xce; 0xdb; 0xad; 0xde; 0xca; 0xf8; 0x88].
Definition tc16_aad : list Z :=
  [0xfe; 0xed; 0xfa; 0xce; 0xde; 0xad; 0xbe; 0xef; 0xfe; 0xed; 0xfa; 0xce;
   0xde; 0xad; 0xbe; 0xef; 0xab; 0xad; 0xda; 0xd2].
Definition tc16_plain : list Z :=
  [0xd9; 0x31; 0x32; 0x25; 0xf8; 0x84; 0x06; 0xe5; 0xa5; 0x59; 0x09; 0xc5;
   0xaf; 0xf5; 0x26; 0x9a; 0x86; 0xa7; 0xa9; 0x53; 0x15; 0x34; 0xf7; 0xda;
   0x2e; 0x4c; 0x30; 0x3d; 0x8a; 0x31; 0x8a; 0x72; 0x1c; 0x3c; 0x0c; 0x95;
   0x95; 0x68; 0x09; 0x53; 0x2f; 0xcf; 0x0e; 0x24; 0x49; 0xa6; 0xb5; 0x25;
   0xb1; 0x6a; 0xed; 0xf5; 0xaa; 0x0d; 0xe6; 0x57; 0xba; 0x63; 0x7b; 0x39].
Definition tc16_cipher : list Z :=
  [0x52; 0x2d; 0xc1; 0xf0; 0x99; 0x56; 0x7d; 0x07; 0xf4; 0x7f; 0x37; 0xa3;
   0x2a; 0x84; 0x42; 0x7d; 0x64; 0x3a; 0x8c; 0xdc; 0xbf; 0xe5; 0xc0; 0xc9;
   0x75; 0x98; 0xa2; 0xbd; 0x25; 0x55; 0xd1; 0xaa; 0x8c; 0xb0; 0x8e; 0x48;
   0x59; 0x0d; 0xbb; 0x3d; 0xa7; 0xb0; 0x8b; 0x10; 0x56; 0x82; 0x88; 0x38;
   0xc5; 0xf6; 0x1e; 0x63; 0x93; 0xba; 0x7a; 0x0a; 0xbc; 0xc9; 0xf6; 0x62].
Definition tc16_tag : list Z :=
  [0x76; 0xfc; 0x6e; 0xce; 0x0f; 0x4e; 0x17; 0x68; 0xcd; 0xdf; 0x88; 0x53;
   0xbb; 0x2d; 0x55; 0x1b].

Abbreviation tc16_ctx := (AesCtr.br_aes_x86ni_ctr_init AesCtr.blank_keys tc16_key 32).

Lemma gcm_is_sp800_38d_witness :
  concat (snd (run_chunks true
    (br_gcm_flip (fold_left br_gcm_aad_inject [firstn 13 tc16_aad; skipn 13 tc16_aad]
      (br_gcm_reset (br_gcm_init (blank_gcm AesCtr.br_aes_x86ni_ctr_vtable tc16_ctx Ghash.br_ghash_pclmul)
         AesCtr.br_aes_x86ni_ctr_vtable tc16_ctx Ghash.br_ghash_pclmul) tc16_iv)))
    [firstn 5 tc16_plain; skipn 5 tc16_plain]))
  = GCTR (Fips197.Cipher tc16_key) (inc32 (J0 (Fips197.Cipher tc16_key) tc16_iv)) tc16_plain.
Proof.
  pose proof (gcm_is_sp800_38d AesCtr.br_aes_x86ni_ctr_vtable Ghash.br_ghash_pclmul tc16_ctx
    (Fips197.Cipher tc16_key)
    (blank_gcm AesCtr.br_aes_x86ni_ctr_vtable tc16_ctx Ghash.br_ghash_pclmul) true
    tc16_iv tc16_tag 16 [firstn 13 tc16_aad; skipn 13 tc16_aad]
    [firstn 5 tc16_plain; skipn 5 tc16_plain]
    (aes256_keyed AesCtr.blank_keys tc16_key eq_refl eq_refl (words_ok_forallb 8 tc16_key eq_refl))
    (words_ok_forallb 8 tc16_iv eq_refl) eq_refl (words_ok_forallb 8 (repeat 0 16) eq_refl)
    ltac:(apply Forall_words_forallb; reflexivity)
    ltac:(apply Forall_words_forallb; reflexivity)
    ltac:(lia) ltac:(cbn; lia) (words_ok_forallb 8 tc16_tag eq_refl)) as H.
  destruct (run_chunks true _ _) as [g outs]. apply H.
Defined.

(** Encryption and decryption are inverse: decrypting, with the same key, nonce and
    additional data but any other chunking, the ciphertext produced by encryption restores
    the plaintext, and checking the produced tag succeeds. *)
Theorem gcm_roundtrip {bc : Type} (cls : br_block_ctr_class bc) {CI : CtrImpl cls}
  (gh : list Z -> list Z -> list Z -> list Z) {GI : GhashImpl gh}
  (bctx : bc) (E : list Z -> list Z) (g0 g0' : br_gcm_context bc)
  (iv : list Z) (aads aads' ds cs : list (list Z))
  (HE : keyed cls bctx E) (Hiv : bytes_ok iv)
  (Lbuf : length (gc_buf g0) = 16%nat) (Hbuf : bytes_ok (gc_buf g0))
  (Lbuf' : length (gc_buf g0') = 16%nat) (Hbuf' : bytes_ok (gc_buf g0'))
  (Ha : Forall bytes_ok aads) (Ha' : Forall bytes_ok aads') (Hd : Forall bytes_ok ds)
  (Hc : Forall bytes_ok cs) (Eaad : concat aads' = concat aads)
  (Ec : concat cs = concat (snd (gcm_process cls gh bctx iv g0 true aads ds))) :
  let tag := snd (br_gcm_get_tag (fst (gcm_process cls gh bctx iv g0 true aads ds))) in
  let '(g', outs') := gcm_process cls gh bctx iv g0' false aads' cs in
  concat outs' = concat ds /\ snd (br_gcm_check_tag g' tag) = 1.
Proof.
  pose proof (gcm_process_spec cls gh bctx E HE iv Hiv g0 true aads ds Lbuf Hbuf Ha Hd) as H1.
  pose proof (gcm_process_spec cls gh bctx E HE iv Hiv g0' false aads' cs Lbuf' Hbuf' Ha' Hc) as H2.
  destruct (gcm_process cls gh bctx iv g0 true aads ds) as [g outs].
  destruct (gcm_process cls gh bctx iv g0' false aads' cs) as [g' outs'].
  cbv zeta in *. cbn [fst snd] in *. destruct H1 as [E1 R1], H2 as [E2 R2].
  rewrite (get_tag_spec cls gh bctx E HE iv Hiv g _ _ R1).
  split.
  - rewrite E2, Ec, E1. rewrite !(GCTR_crypt_at E iv Hiv).
    apply Ctr.crypt_at_involutive. exact (stream_length cls bctx E HE iv Hiv).
  - destruct (gcm_tag_shape cls bctx E HE iv Hiv (concat aads) (GCTR E (inc32 (J0 E iv)) (concat ds))) as [L B].
    unfold br_gcm_check_tag. rewrite (check_tag_spec cls gh bctx E HE iv Hiv g' _ _ _ 16 R2) by (assumption || lia).
    rewrite Ec, E1, Eaad. destruct (list_eq_dec _ _ _); congruence.
Qed.

Lemma gcm_roundtrip_witness :
  let g0 := blank_gcm AesCtr.br_aes_x86ni_ctr_vtable tc16_ctx Ghash.br_ghash_pclmul in
  let '(g', outs') := gcm_process AesCtr.br_aes_x86ni_ctr_vtable Ghash.br_ghash_pclmul tc16_ctx tc16_iv
    g0 false [tc16_aad] [tc16_cipher] in
  concat outs' = tc16_plain /\ snd (br_gcm_check_tag g' tc16_tag) = 1.
Proof.
  pose (g0 := blank_gcm AesCtr.br_aes_x86ni_ctr_vtable tc16_ctx Ghash.br_ghash_pclmul).
  assert (Et : snd (br_gcm_get_tag (fst (gcm_process AesCtr.br_aes_x86ni_ctr_vtable Ghash.br_ghash_pclmul
    tc16_ctx tc16_iv g0 true [tc16_aad] [firstn 40 tc16_plain; skipn 40 tc16_plain]))) = tc16_tag)
    by (vm_compute; reflexivity).
  cbv zeta. fold g0. rewrite <- Et.
  apply (gcm_roundtrip AesCtr.br_aes_x86ni_ctr_vtable Ghash.br_ghash_pclmul tc16_ctx
    (Fips197.Cipher tc16_key) g0 g0 tc16_iv [tc16_aad] [tc16_aad]
    [firstn 40 tc16_plain; skipn 40 tc16_plain] [tc16_cipher]); try reflexivity;
    try (apply Forall_words_forallb; reflexivity);
    try (apply words_ok_forallb; reflexivity).
  exact (aes256_keyed AesCtr.blank_keys tc16_key eq_refl eq_refl (words_ok_forallb 8 tc16_key eq_refl)).
Defined.

End Gcm.
