(* ===== verification/Curve25519.v ===== *)
(** The Curve25519 function of src/enclave/c_src/curve25519-donna-c64.c: arithmetic modulo
    2^255 - 19 on five 51-bit limbs with 64- and 128-bit machine integers, the Montgomery
    ladder and the inversion, against the ladder of RFC 7748. *)
From S2P Require Import Prelude.
From Stdlib Require Import ZArith List Lia Bool Morphisms.

(** * RFC 7748 *)
Module Rfc7748.

Definition p : Z := 2 ^ 255 - 19.
Definition a24 : Z := 121665.

Fixpoint decodeLittleEndian (b : list Z) : Z :=
  match b with [] => 0 | x :: b' => x + 256 * decodeLittleEndian b' end.

Fixpoint encodeLittleEndian (n : nat) (x : Z) : list Z :=
  match n with O => [] | S n' => x mod 256 :: encodeLittleEndian n' (x / 256) end.

(** The most significant bit of a u-coordinate is ignored. *)
Definition decodeUCoordinate (u : list Z) : Z := decodeLittleEndian u mod 2 ^ 255.

(** The scalar with its three low bits cleared, bit 255 cleared and bit 254 set. *)
Definition decodeScalar25519 (k : list Z) : Z :=
  2 ^ 254 + (decodeLittleEndian k / 8 * 8) mod 2 ^ 254.

Definition cswap {A} (swap : bool) (a b : A) : A * A := if swap then (b, a) else (a, b).

Record ladder_state := { sx2 : Z; sz2 : Z; sx3 : Z; sz3 : Z; swapped : bool }.

(** One iteration of the loop of section 5, for the bit [kt] of the scalar. *)
Definition ladder_step (x1 : Z) (s : ladder_state) (kt : bool) : ladder_state :=
  let swap := xorb (swapped s) kt in
  let '(x2, x3) := cswap swap (sx2 s) (sx3 s) in
  let '(z2, z3) := cswap swap (sz2 s) (sz3 s) in
  let A := (x2 + z2) mod p in
  let AA := (A * A) mod p in
  let B := (x2 - z2) mod p in
  let BB := (B * B) mod p in
  let E := (AA - BB) mod p in
  let C := (x3 + z3) mod p in
  let D := (x3 - z3) mod p in
  let DA := (D * A) mod p in
  let CB := (C * B) mod p in
  {| sx3 := ((DA + CB) * (DA + CB)) mod p;
     sz3 := (x1 * ((DA - CB) * (DA - CB))) mod p;
     sx2 := (AA * BB) mod p;
     sz2 := (E * (AA + a24 * E)) mod p;
     swapped := kt |}.

(** The bits of [k], most significant of the [n] low ones first. *)
Fixpoint msb_first (n : nat) (k : Z) : list bool :=
  match n with O => [] | S n' => Z.testbit k (Z.of_nat n') :: msb_first n' k end.

Definition ladder (bits : nat) (k u : Z) : Z :=
  let s := fold_left (ladder_step u) (msb_first bits k)
             {| sx2 := 1; sz2 := 0; sx3 := u; sz3 := 1; swapped := false |} in
  let '(x2, _) := cswap (swapped s) (sx2 s) (sx3 s) in
  let '(z2, _) := cswap (swapped s) (sz2 s) (sz3 s) in
  (x2 * z2 ^ (p - 2)) mod p.

End Rfc7748.

Module Curve25519.

(** * The code *)

(** [felem]: five [limb]s. *)
Record felem := F { l0 : Z; l1 : Z; l2 : Z; l3 : Z; l4 : Z }.

Definition mask51 : Z := 0x7ffffffffffff.

Definition fsum (output in_ : felem) : felem :=
  F (u64 (l0 output + l0 in_)) (u64 (l1 output + l1 in_)) (u64 (l2 output + l2 in_))
    (u64 (l3 output + l3 in_)) (u64 (l4 output + l4 in_)).

Definition fdifference_backwards (out in_ : felem) : felem :=
  let two54m152 := u64 ((1 << 54) - 152) in
  let two54m8 := u64 ((1 << 54) - 8) in
  F (u64 (l0 in_ + two54m152 - l0 out)) (u64 (l1 in_ + two54m8 - l1 out))
    (u64 (l2 in_ + two54m8 - l2 out)) (u64 (l3 in_ + two54m8 - l3 out))
    (u64 (l4 in_ + two54m8 - l4 out)).

Definition fscalar_product (in_ : felem) (scalar : Z) : felem :=
  let a := u128 (l0 in_ * scalar) in
  let o0 := u64 a .& mask51 in
  let a := u128 (l1 in_ * scalar + u64 (a >> 51)) in
  let o1 := u64 a .& mask51 in
  let a := u128 (l2 in_ * scalar + u64 (a >> 51)) in
  let o2 := u64 a .& mask51 in
  let a := u128 (l3 in_ * scalar + u64 (a >> 51)) in
  let o3 := u64 a .& mask51 in
  let a := u128 (l4 in_ * scalar + u64 (a >> 51)) in
  let o4 := u64 a .& mask51 in
  F (u64 (o0 + u128 ((a >> 51) * 19))) o1 o2 o3 o4.

(** The carry chain that ends [fmul] and each squaring. *)
Definition carry (t0 t1 t2 t3 t4 : Z) : felem :=
  let r0 := u64 t0 .& mask51 in let c := u64 (t0 >> 51) in
  let t1 := u128 (t1 + c) in let r1 := u64 t1 .& mask51 in let c := u64 (t1 >> 51) in
  let t2 := u128 (t2 + c) in let r2 := u64 t2 .& mask51 in let c := u64 (t2 >> 51) in
  let t3 := u128 (t3 + c) in let r3 := u64 t3 .& mask51 in let c := u64 (t3 >> 51) in
  let t4 := u128 (t4 + c) in let r4 := u64 t4 .& mask51 in let c := u64 (t4 >> 51) in
  let r0 := u64 (r0 + u64 (c * 19)) in let c := r0 >> 51 in let r0 := r0 .& mask51 in
  let r1 := u64 (r1 + c) in let c := r1 >> 51 in let r1 := r1 .& mask51 in
  let r2 := u64 (r2 + c) in
  F r0 r1 r2 r3 r4.

Definition fmul (in2 in_ : felem) : felem :=
  let r0 := l0 in_ in let r1 := l1 in_ in let r2 := l2 in_ in let r3 := l3 in_ in let r4 := l4 in_ in
  let s0 := l0 in2 in let s1 := l1 in2 in let s2 := l2 in2 in let s3 := l3 in2 in let s4 := l4 in2 in
  let t0 := u128 (r0 * s0) in
  let t1 := u128 (r0 * s1 + r1 * s0) in
  let t2 := u128 (r0 * s2 + r2 * s0 + r1 * s1) in
  let t3 := u128 (r0 * s3 + r3 * s0 + r1 * s2 + r2 * s1) in
  let t4 := u128 (r0 * s4 + r4 * s0 + r3 * s1 + r1 * s3 + r2 * s2) in
  let r4 := u64 (r4 * 19) in
  let r1 := u64 (r1 * 19) in
  let r2 := u64 (r2 * 19) in
  let r3 := u64 (r3 * 19) in
  let t0 := u128 (t0 + (r4 * s1 + r1 * s4 + r2 * s3 + r3 * s2)) in
  let t1 := u128 (t1 + (r4 * s2 + r2 * s4 + r3 * s3)) in
  let t2 := u128 (t2 + (r4 * s3 + r3 * s4)) in
  let t3 := u128 (t3 + r4 * s4) in
  carry t0 t1 t2 t3 t4.

(** The body of the loop of [fsquare_times]. *)
Definition fsquare_body (in_ : felem) : felem :=
  let r0 := l0 in_ in let r1 := l1 in_ in let r2 := l2 in_ in let r3 := l3 in_ in let r4 := l4 in_ in
  let d0 := u64 (r0 * 2) in
  let d1 := u64 (r1 * 2) in
  let d2 := u64 (u64 (r2 * 2) * 19) in
  let d419 := u64 (r4 * 19) in
  let d4 := u64 (d419 * 2) in
  let t0 := u128 (r0 * r0 + d4 * r1 + d2 * r3) in
  let t1 := u128 (d0 * r1 + d4 * r2 + r3 * u64 (r3 * 19)) in
  let t2 := u128 (d0 * r2 + r1 * r1 + d4 * r3) in
  let t3 := u128 (d0 * r3 + d1 * r2 + r4 * d419) in
  let t4 := u128 (d0 * r4 + d1 * r3 + r2 * r2) in
  carry t0 t1 t2 t3 t4.

(** [do ... while (--count)], for a count of [S n]. *)
Fixpoint fsquare_loop (n : nat) (r : felem) : felem :=
  match n with O => fsquare_body r | S n' => fsquare_loop n' (fsquare_body r) end.

Definition fsquare_times (in_ : felem) (count : nat) : felem := fsquare_loop (count - 1) in_.

Definition load_limb (in_ : list Z) : Z :=
  nth 0 in_ 0 .| (nth 1 in_ 0 << 8) .| (nth 2 in_ 0 << 16) .| (nth 3 in_ 0 << 24) .|
  (nth 4 in_ 0 << 32) .| (nth 5 in_ 0 << 40) .| (nth 6 in_ 0 << 48) .| (nth 7 in_ 0 << 56).

Definition store_limb (in_ : Z) : list Z :=
  [in_ .& 0xff; (in_ >> 8) .& 0xff; (in_ >> 16) .& 0xff; (in_ >> 24) .& 0xff;
   (in_ >> 32) .& 0xff; (in_ >> 40) .& 0xff; (in_ >> 48) .& 0xff; (in_ >> 56) .& 0xff].

Definition fexpand (in_ : list Z) : felem :=
  F (load_limb in_ .& mask51)
    ((load_limb (skipn 6 in_) >> 3) .& mask51)
    ((load_limb (skipn 12 in_) >> 6) .& mask51)
    ((load_limb (skipn 19 in_) >> 1) .& mask51)
    ((load_limb (skipn 24 in_) >> 12) .& mask51).

(** The four statements that propagate the carries of limbs 0 to 3 of [fcontract]. *)
Definition ripple (t : felem) : felem :=
  let t1 := u128 (l1 t + (l0 t >> 51)) in let t0 := l0 t .& mask51 in
  let t2 := u128 (l2 t + (t1 >> 51)) in let t1 := t1 .& mask51 in
  let t3 := u128 (l3 t + (t2 >> 51)) in let t2 := t2 .& mask51 in
  let t4 := u128 (l4 t + (t3 >> 51)) in let t3 := t3 .& mask51 in
  F t0 t1 t2 t3 t4.

(** ... followed by [t[0] += 19 * (t[4] >> 51); t[4] &= 0x7ffffffffffff]. *)
Definition ripple_wrap (t : felem) : felem :=
  let t := ripple t in
  F (u128 (l0 t + u128 (19 * (l4 t >> 51)))) (l1 t) (l2 t) (l3 t) (l4 t .& mask51).

Definition fcontract (input : felem) : list Z :=
  let t := ripple_wrap input in
  let t := ripple_wrap t in
  let t := F (u128 (l0 t + 19)) (l1 t) (l2 t) (l3 t) (l4 t) in
  let t := ripple_wrap t in
  let t := F (u128 (l0 t + (0x8000000000000 - 19))) (u128 (l1 t + (0x8000000000000 - 1)))
             (u128 (l2 t + (0x8000000000000 - 1))) (u128 (l3 t + (0x8000000000000 - 1)))
             (u128 (l4 t + (0x8000000000000 - 1))) in
  let t := ripple t in
  let t4 := l4 t .& mask51 in
  store_limb (u64 (l0 t .| u128 (l1 t << 51))) ++
  store_limb (u64 ((l1 t >> 13) .| u128 (l2 t << 38))) ++
  store_limb (u64 ((l2 t >> 26) .| u128 (l3 t << 25))) ++
  store_limb (u64 ((l3 t >> 39) .| u128 (t4 << 12))).

(** [fmonty]: the four outputs x2, z2, x3, z3. *)
Definition fmonty (x z xprime zprime qmqp : felem) : felem * felem * felem * felem :=
  let origx := x in
  let x := fsum x z in
  let z := fdifference_backwards z origx in
  let origxprime := xprime in
  let xprime := fsum xprime zprime in
  let zprime := fdifference_backwards zprime origxprime in
  let xxprime := fmul xprime z in
  let zzprime := fmul x zprime in
  let origxprime := xxprime in
  let xxprime := fsum xxprime zzprime in
  let zzprime := fdifference_backwards zzprime origxprime in
  let x3 := fsquare_times xxprime 1 in
  let zzzprime := fsquare_times zzprime 1 in
  let z3 := fmul zzzprime qmqp in
  let xx := fsquare_times x 1 in
  let zz := fsquare_times z 1 in
  let x2 := fmul xx zz in
  let zz := fdifference_backwards zz xx in
  let zzz := fscalar_product zz 121665 in
  let zzz := fsum zzz xx in
  let z2 := fmul zz zzz in
  (x2, z2, x3, z3).

Definition swap_limb (swap a b : Z) : Z * Z :=
  let x := swap .& (a .^ b) in (a .^ x, b .^ x).

Definition swap_conditional (a b : felem) (iswap : Z) : felem * felem :=
  let swap := u64 (- iswap) in
  let '(a0, b0) := swap_limb swap (l0 a) (l0 b) in
  let '(a1, b1) := swap_limb swap (l1 a) (l1 b) in
  let '(a2, b2) := swap_limb swap (l2 a) (l2 b) in
  let '(a3, b3) := swap_limb swap (l3 a) (l3 b) in
  let '(a4, b4) := swap_limb swap (l4 a) (l4 b) in
  (F a0 a1 a2 a3 a4, F b0 b1 b2 b3 b4).

(** What [nqx, nqz, nqpqx, nqpqz] point to. *)
Definition ladder_regs : Type := felem * felem * felem * felem.

(** One iteration of the inner loop of [cmult]: the exchanges of pointers at its end make the
    outputs of [fmonty] the registers of the next one. *)
Definition cmult_bit (q : felem) (s : ladder_regs * Z) : ladder_regs * Z :=
  let '((nqx, nqz, nqpqx, nqpqz), byte) := s in
  let bit := byte >> 7 in
  let '(nqx, nqpqx) := swap_conditional nqx nqpqx bit in
  let '(nqz, nqpqz) := swap_conditional nqz nqpqz bit in
  let '(nqx2, nqz2, nqpqx2, nqpqz2) := fmonty nqx nqz nqpqx nqpqz q in
  let '(nqx2, nqpqx2) := swap_conditional nqx2 nqpqx2 bit in
  let '(nqz2, nqpqz2) := swap_conditional nqz2 nqpqz2 bit in
  ((nqx2, nqz2, nqpqx2, nqpqz2), u8 (byte << 1)).

Definition cmult_byte (q : felem) (r : ladder_regs) (byte : Z) : ladder_regs :=
  fst (Nat.iter 8 (cmult_bit q) (r, byte)).

Definition cmult (n : list Z) (q : felem) : felem * felem :=
  let '(nqx, nqz, _, _) :=
    fold_left (cmult_byte q) (map (fun i => nth (31 - i) n 0) (seq 0 32))
      (F 1 0 0 0 0, F 0 0 0 0 0, q, F 1 0 0 0 0) in
  (nqx, nqz).

Definition crecip (z : felem) : felem :=
  let a := fsquare_times z 1 in
  let t0 := fsquare_times a 2 in
  let b := fmul t0 z in
  let a := fmul b a in
  let t0 := fsquare_times a 1 in
  let b := fmul t0 b in
  let t0 := fsquare_times b 5 in
  let b := fmul t0 b in
  let t0 := fsquare_times b 10 in
  let c := fmul t0 b in
  let t0 := fsquare_times c 20 in
  let t0 := fmul t0 c in
  let t0 := fsquare_times t0 10 in
  let b := fmul t0 b in
  let t0 := fsquare_times b 50 in
  let c := fmul t0 b in
  let t0 := fsquare_times c 100 in
  let t0 := fmul t0 c in
  let t0 := fsquare_times t0 50 in
  let t0 := fmul t0 b in
  let t0 := fsquare_times t0 5 in
  fmul t0 a.

(** The 32 bytes of a scalar after clamping. *)
Definition clamp (e : list Z) : list Z :=
  let e := splice e 0 [nth 0 e 0 .& 248] in
  let e := splice e 31 [nth 31 e 0 .& 127] in
  splice e 31 [nth 31 e 0 .| 64].

Definition curve25519_donna (secret basepoint : list Z) : list Z :=
  let e := clamp (firstn 32 secret) in
  let bp := fexpand basepoint in
  let '(x, z) := cmult e bp in
  let zmone := crecip z in
  let z := fmul x zmone in
  fcontract z.

(** * Limb arithmetic *)

Import Rfc7748.

Definition val (f : felem) : Z :=
  l0 f + 2 ^ 51 * l1 f + 2 ^ 102 * l2 f + 2 ^ 153 * l3 f + 2 ^ 204 * l4 f.

Definition bounded (B : Z) (f : felem) : Prop :=
  0 <= l0 f <= B /\ 0 <= l1 f <= B /\ 0 <= l2 f <= B /\ 0 <= l3 f <= B /\ 0 <= l4 f <= B.

(** Limbs of products, and limbs that may be multiplied: a difference of two products is
    below the second bound, which is less than the 2^55 of the comments. *)
Definition R51 : Z := 2 ^ 51.
Definition D55 : Z := 9 * 2 ^ 51.

Lemma bounded_weaken B B' f : B <= B' -> bounded B f -> bounded B' f.
Proof. unfold bounded. lia. Qed.

Lemma mask_mod x : x .& mask51 = x mod 2 ^ 51.
Proof. change mask51 with (Z.ones 51). now apply Z.land_ones. Qed.

Lemma mask_u64 x : u64 x .& mask51 = x mod 2 ^ 51.
Proof.
  rewrite mask_mod. unfold wrap. symmetry. change (2 ^ 64) with (2 ^ 51 * 2 ^ 13).
  rewrite Z.rem_mul_r, (Z.mul_comm (2 ^ 51)), Z.mod_add, Z.mod_mod by lia. reflexivity.
Qed.

Lemma shr51 x : x >> 51 = x / 2 ^ 51.
Proof. now apply Z.shiftr_div_pow2. Qed.

Lemma wrap_id w x : 0 <= x < 2 ^ w -> wrap w x = x.
Proof. apply wrap_small. Qed.

(** Name the quotient and the remainder of [x] by 2^51. *)
Ltac split51 x q m :=
  let Q := fresh "Q" in let M := fresh "M" in
  assert (Q := Z.div_mod x (2 ^ 51) ltac:(lia)); assert (M := Z.mod_pos_bound x (2 ^ 51) ltac:(lia));
  set (q := x / 2 ^ 51) in *; set (m := x mod 2 ^ 51) in *; clearbody q m.

(** The carry chain reduces to limbs of at most 2^51 and keeps the value modulo p: the carry
    out of the last limb, worth 2^255, is added back as 19. *)
Lemma carry_spec t0 t1 t2 t3 t4 (T := 77 * D55 * D55) :
  0 <= t0 <= T -> 0 <= t1 <= T -> 0 <= t2 <= T -> 0 <= t3 <= T -> 0 <= t4 <= 5 * D55 * D55 ->
  bounded R51 (carry t0 t1 t2 t3 t4) /\
  exists c, t0 + 2 ^ 51 * t1 + 2 ^ 102 * t2 + 2 ^ 153 * t3 + 2 ^ 204 * t4
            = val (carry t0 t1 t2 t3 t4) + p * c.
Proof.
  intros H0 H1 H2 H3 H4. unfold T, D55 in *. unfold carry. cbv zeta. rewrite !mask_u64, !shr51.
  split51 t0 q0 m0.
  rewrite (wrap_id 64 q0), (wrap_id 128 (t1 + q0)) by lia.
  split51 (t1 + q0) q1 m1.
  rewrite (wrap_id 64 q1), (wrap_id 128 (t2 + q1)) by lia.
  split51 (t2 + q1) q2 m2.
  rewrite (wrap_id 64 q2), (wrap_id 128 (t3 + q2)) by lia.
  split51 (t3 + q2) q3 m3.
  rewrite (wrap_id 64 q3), (wrap_id 128 (t4 + q3)) by lia.
  split51 (t4 + q3) q4 m4.
  rewrite (wrap_id 64 q4), (wrap_id 64 (q4 * 19)), (wrap_id 64 (m0 + q4 * 19)) by lia.
  split51 (m0 + q4 * 19) q5 m5.
  rewrite (wrap_id 64 (m1 + q5)) by lia.
  split51 (m1 + q5) q6 m6.
  rewrite (wrap_id 64 (m2 + q6)) by lia.
  split; [unfold bounded, R51; cbn [l0 l1 l2 l3 l4]; lia|].
  exists q4. unfold val, p. cbn [l0 l1 l2 l3 l4]. lia.
Qed.

(** ** Congruence modulo p *)

Record eqm (a b : Z) : Prop := eqm_intro { eqm_mod : a mod p = b mod p }.
Local Infix "==" := eqm (at level 70).

#[global] Instance eqm_equiv : Equivalence eqm.
Proof.
  split; [intros a|intros a b []|intros a b c [] []]; split; congruence.
Qed.

#[global] Instance add_eqm : Proper (eqm ==> eqm ==> eqm) Z.add.
Proof. intros a a' [Ha] b b' [Hb]. split. now rewrite Zplus_mod, Ha, Hb, <- Zplus_mod. Qed.

#[global] Instance mul_eqm : Proper (eqm ==> eqm ==> eqm) Z.mul.
Proof. intros a a' [Ha] b b' [Hb]. split. now rewrite Zmult_mod, Ha, Hb, <- Zmult_mod. Qed.

#[global] Instance sub_eqm : Proper (eqm ==> eqm ==> eqm) Z.sub.
Proof. intros a a' [Ha] b b' [Hb]. split. now rewrite Zminus_mod, Ha, Hb, <- Zminus_mod. Qed.

Lemma mod_eqm a : a mod p == a.
Proof. split. apply Z.mod_mod. discriminate. Qed.

Lemma eqm_shift a b c : a = b + p * c -> b == a.
Proof. intros ->. split. now rewrite (Z.mul_comm p), Z_mod_plus_full. Qed.

(** Multiplication before the carries: sums of products of limbs, with 2^255 = 19. *)
Definition sums (f g : felem) : felem :=
  let '(F s0 s1 s2 s3 s4, F r0 r1 r2 r3 r4) := (f, g) in
  F (r0 * s0 + 19 * (r4 * s1 + r1 * s4 + r2 * s3 + r3 * s2))
    (r0 * s1 + r1 * s0 + 19 * (r4 * s2 + r2 * s4 + r3 * s3))
    (r0 * s2 + r2 * s0 + r1 * s1 + 19 * (r4 * s3 + r3 * s4))
    (r0 * s3 + r3 * s0 + r1 * s2 + r2 * s1 + 19 * (r4 * s4))
    (r0 * s4 + r4 * s0 + r3 * s1 + r1 * s3 + r2 * s2).

Lemma sums_val f g : val (sums f g) == val f * val g.
Proof.
  destruct f as [s0 s1 s2 s3 s4], g as [r0 r1 r2 r3 r4].
  apply eqm_shift with (c := r1 * s4 + r2 * s3 + r3 * s2 + r4 * s1
    + 2 ^ 51 * (r2 * s4 + r3 * s3 + r4 * s2) + 2 ^ 102 * (r3 * s4 + r4 * s3) + 2 ^ 153 * (r4 * s4)).
  unfold val, sums, p. cbn [l0 l1 l2 l3 l4]. ring.
Qed.

(** The product of two limbs below the bound. *)
Lemma product_bound a b : 0 <= a <= D55 -> 0 <= b <= D55 -> 0 <= a * b <= D55 * D55.
Proof. intros Ha Hb. split; [apply Z.mul_nonneg_nonneg|apply Z.mul_le_mono_nonneg]; lia. Qed.

Lemma sums_bound f g : bounded D55 f -> bounded D55 g ->
  let t := sums f g in let T := 77 * D55 * D55 in
  0 <= l0 t <= T /\ 0 <= l1 t <= T /\ 0 <= l2 t <= T /\ 0 <= l3 t <= T /\ 0 <= l4 t <= 5 * D55 * D55.
Proof.
  destruct f as [s0 s1 s2 s3 s4], g as [r0 r1 r2 r3 r4]. unfold bounded. cbn [l0 l1 l2 l3 l4].
  intros (S0 & S1 & S2 & S3 & S4) (R0 & R1 & R2 & R3 & R4). cbv zeta. unfold sums. cbn [l0 l1 l2 l3 l4].
  pose proof (product_bound r0 s0 R0 S0); pose proof (product_bound r0 s1 R0 S1);
  pose proof (product_bound r0 s2 R0 S2); pose proof (product_bound r0 s3 R0 S3);
  pose proof (product_bound r0 s4 R0 S4); pose proof (product_bound r1 s0 R1 S0);
  pose proof (product_bound r1 s1 R1 S1); pose proof (product_bound r1 s2 R1 S2);
  pose proof (product_bound r1 s3 R1 S3); pose proof (product_bound r1 s4 R1 S4);
  pose proof (product_bound r2 s0 R2 S0); pose proof (product_bound r2 s1 R2 S1);
  pose proof (product_bound r2 s2 R2 S2); pose proof (product_bound r2 s3 R2 S3);
  pose proof (product_bound r2 s4 R2 S4); pose proof (product_bound r3 s0 R3 S0);
  pose proof (product_bound r3 s1 R3 S1); pose proof (product_bound r3 s2 R3 S2);
  pose proof (product_bound r3 s3 R3 S3); pose proof (product_bound r3 s4 R3 S4);
  pose proof (product_bound r4 s0 R4 S0); pose proof (product_bound r4 s1 R4 S1);
  pose proof (product_bound r4 s2 R4 S2); pose proof (product_bound r4 s3 R4 S3);
  pose proof (product_bound r4 s4 R4 S4).
  clear S0 S1 S2 S3 S4 R0 R1 R2 R3 R4.
  set (T := D55 * D55) in *. replace (77 * D55 * D55) with (77 * T) by (unfold T; ring).
  replace (5 * D55 * D55) with (5 * T) by (unfold T; ring). clearbody T.
  repeat match goal with H : 0 <= ?a * ?b <= T |- _ => revert H; generalize (a * b) end.
  intros. repeat split; lia.
Qed.

Lemma carry_sums f g : bounded D55 f -> bounded D55 g ->
  let t := sums f g in
  bounded R51 (carry (l0 t) (l1 t) (l2 t) (l3 t) (l4 t)) /\
  val (carry (l0 t) (l1 t) (l2 t) (l3 t) (l4 t)) == val f * val g.
Proof.
  intros Hf Hg. cbv zeta. destruct (sums_bound f g Hf Hg) as (B0 & B1 & B2 & B3 & B4).
  destruct (carry_spec _ _ _ _ _ B0 B1 B2 B3 B4) as [B [c E]]. split; [exact B|].
  rewrite <- sums_val. exact (eqm_shift _ _ _ E).
Qed.

(** No 64- or 128-bit operation before the carries overflows. *)
Lemma fmul_sums f g : bounded D55 f -> bounded D55 g ->
  fmul f g = (let t := sums f g in carry (l0 t) (l1 t) (l2 t) (l3 t) (l4 t)).
Proof.
  intros Hf Hg. destruct (sums_bound f g Hf Hg) as (B0 & B1 & B2 & B3 & B4). cbv zeta.
  destruct f as [s0 s1 s2 s3 s4], g as [r0 r1 r2 r3 r4]. destruct Hg as (R0 & R1 & R2 & R3 & R4).
  unfold fmul. cbv zeta. cbn [l0 l1 l2 l3 l4 sums] in *. unfold D55 in *.
  rewrite !(wrap_id 64) by lia. rewrite !wrap_add_l.
  f_equal; (rewrite <- wrap_id with (w := 128); [f_equal; ring|lia]).
Qed.

Lemma fsquare_sums f : bounded D55 f ->
  fsquare_body f = (let t := sums f f in carry (l0 t) (l1 t) (l2 t) (l3 t) (l4 t)).
Proof.
  intros Hf. destruct (sums_bound f f Hf Hf) as (B0 & B1 & B2 & B3 & B4). cbv zeta.
  destruct f as [r0 r1 r2 r3 r4]. destruct Hf as (R0 & R1 & R2 & R3 & R4).
  unfold fsquare_body. cbv zeta. cbn [l0 l1 l2 l3 l4 sums] in *. unfold D55 in *.
  rewrite (wrap_id 64 (r0 * 2)), (wrap_id 64 (r1 * 2)), (wrap_id 64 (r2 * 2)), (wrap_id 64 (r3 * 19)), (wrap_id 64 (r4 * 19)) by lia.
  rewrite (wrap_id 64 (r2 * 2 * 19)), (wrap_id 64 (r4 * 19 * 2)) by lia.
  f_equal; (rewrite <- wrap_id with (w := 128); [f_equal; ring|lia]).
Qed.

Lemma fmul_spec f g : bounded D55 f -> bounded D55 g ->
  bounded R51 (fmul f g) /\ val (fmul f g) == val f * val g.
Proof. intros Hf Hg. rewrite fmul_sums by assumption. now apply carry_sums. Qed.

Lemma fsquare_spec f : bounded D55 f ->
  bounded R51 (fsquare_body f) /\ val (fsquare_body f) == val f * val f.
Proof. intros Hf. rewrite fsquare_sums by assumption. now apply carry_sums. Qed.

Lemma R51_D55 f : bounded R51 f -> bounded D55 f.
Proof. apply bounded_weaken. discriminate. Qed.

Lemma fsum_spec B C f g : bounded B f -> bounded C g -> B + C < 2 ^ 64 ->
  bounded (B + C) (fsum f g) /\ val (fsum f g) = val f + val g.
Proof.
  destruct f as [s0 s1 s2 s3 s4], g as [r0 r1 r2 r3 r4]. unfold bounded, fsum, val. cbn [l0 l1 l2 l3 l4].
  intros. rewrite !(wrap_id 64) by lia. lia.
Qed.

(** [fdifference_backwards]: 8 p is added limb by limb, so that nothing underflows. *)
Lemma fdifference_spec out in_ : bounded R51 out -> bounded R51 in_ ->
  bounded D55 (fdifference_backwards out in_) /\
  val (fdifference_backwards out in_) == val in_ - val out.
Proof.
  destruct out as [s0 s1 s2 s3 s4], in_ as [r0 r1 r2 r3 r4].
  unfold bounded, fdifference_backwards, D55, R51. cbn [l0 l1 l2 l3 l4]. cbv zeta.
  change (u64 ((1 << 54) - 152)) with (2 ^ 54 - 152). change (u64 ((1 << 54) - 8)) with (2 ^ 54 - 8).
  intros. rewrite !(wrap_id 64) by lia. split; [lia|].
  apply eqm_shift with (c := - 8). unfold val, p. cbn [l0 l1 l2 l3 l4]. lia.
Qed.

Lemma fscalar_spec f s : bounded D55 f -> 0 <= s < 2 ^ 20 ->
  bounded (2 ^ 52) (fscalar_product f s) /\ val (fscalar_product f s) == s * val f.
Proof.
  destruct f as [r0 r1 r2 r3 r4]. unfold bounded, D55. cbn [l0 l1 l2 l3 l4].
  intros (B0 & B1 & B2 & B3 & B4) Hs. unfold fscalar_product. cbn [l0 l1 l2 l3 l4]. cbv zeta.
  assert (S : forall r, 0 <= r <= 9 * 2 ^ 51 -> 0 <= r * s <= 9 * 2 ^ 71)
    by (intros; split; [apply Z.mul_nonneg_nonneg|change (9 * 2 ^ 71) with (9 * 2 ^ 51 * 2 ^ 20); apply Z.mul_le_mono_nonneg]; lia).
  apply S in B0, B1, B2, B3, B4. rewrite !mask_u64, !shr51.
  assert (V : s * val (F r0 r1 r2 r3 r4) = val (F (r0 * s) (r1 * s) (r2 * s) (r3 * s) (r4 * s)))
    by (unfold val; cbn [l0 l1 l2 l3 l4]; ring). rewrite V.
  revert B0 B1 B2 B3 B4. clear V. generalize (r0 * s), (r1 * s), (r2 * s), (r3 * s), (r4 * s).
  clear S. intros t0 t1 t2 t3 t4 B0 B1 B2 B3 B4.
  rewrite (wrap_id 128 t0) by lia. split51 t0 q0 m0.
  rewrite (wrap_id 64 q0), (wrap_id 128 (t1 + q0)) by lia. split51 (t1 + q0) q1 m1.
  rewrite (wrap_id 64 q1), (wrap_id 128 (t2 + q1)) by lia. split51 (t2 + q1) q2 m2.
  rewrite (wrap_id 64 q2), (wrap_id 128 (t3 + q2)) by lia. split51 (t3 + q2) q3 m3.
  rewrite (wrap_id 64 q3), (wrap_id 128 (t4 + q3)) by lia. split51 (t4 + q3) q4 m4.
  rewrite (wrap_id 128 (q4 * 19)), (wrap_id 64 (m0 + q4 * 19)) by lia.
  split; [lia|]. apply eqm_shift with (c := q4). unfold val, p. cbn [l0 l1 l2 l3 l4]. lia.
Qed.

(** Powers. *)
#[global] Instance pow_eqm : Proper (eqm ==> eq ==> eqm) Z.pow.
Proof.
  intros a b H n _ <-. destruct (Z.le_gt_cases 0 n) as [Hn|Hn].
  - pattern n. apply natlike_ind; [reflexivity| |assumption].
    intros m Hm IH. rewrite !Z.pow_succ_r, IH, H by assumption. reflexivity.
  - now rewrite !Z.pow_neg_r by assumption.
Qed.

Lemma fsquare_loop_spec n f : bounded D55 f ->
  bounded R51 (fsquare_loop n f) /\ val (fsquare_loop n f) == val f ^ 2 ^ Z.of_nat (S n).
Proof.
  revert f. induction n as [|n IH]; intros f Hf; cbn [fsquare_loop];
    destruct (fsquare_spec f Hf) as [B E].
  - split; [exact B|]. rewrite E. change (2 ^ Z.of_nat 1) with 2. now rewrite Z.pow_2_r.
  - destruct (IH _ (R51_D55 _ B)) as [B' E']. split; [exact B'|].
    rewrite E', E, <- Z.pow_2_r, <- Z.pow_mul_r by lia.
    replace (Z.of_nat (S (S n))) with (Z.succ (Z.of_nat (S n))) by lia.
    rewrite Z.pow_succ_r by lia. reflexivity.
Qed.

Lemma fsquare_times_spec count f : (1 <= count)%nat -> bounded D55 f ->
  bounded R51 (fsquare_times f count) /\ val (fsquare_times f count) == val f ^ 2 ^ Z.of_nat count.
Proof.
  intros Hc Hf. pose proof (fsquare_loop_spec (count - 1) f Hf) as H.
  replace (S (count - 1)) with count in H by lia. exact H.
Qed.

(** * The ladder *)

(** [f] holds [x] modulo p, in limbs of at most 2^51. *)
Definition rep (f : felem) (x : Z) : Prop := bounded R51 f /\ val f == x.

(** The field operations of one iteration, after the conditional swaps. *)
Definition dbladd (x1 x2 z2 x3 z3 : Z) : Z * Z * Z * Z :=
  let AA := (x2 + z2) * (x2 + z2) in
  let BB := (x2 - z2) * (x2 - z2) in
  let E := AA - BB in
  let DA := (x3 - z3) * (x2 + z2) in
  let CB := (x3 + z3) * (x2 - z2) in
  (AA * BB, E * (AA + a24 * E), (DA + CB) * (DA + CB), x1 * ((DA - CB) * (DA - CB))).

Lemma fmonty_spec x z xp zp q X Z_ XP ZP Q :
  rep x X -> rep z Z_ -> rep xp XP -> rep zp ZP -> rep q Q ->
  let '(x2, z2, x3, z3) := fmonty x z xp zp q in
  let '(X2, Z2, X3, Z3) := dbladd Q X Z_ XP ZP in
  rep x2 X2 /\ rep z2 Z2 /\ rep x3 X3 /\ rep z3 Z3.
Proof.
  intros [Bx Ex] [Bz Ez] [Bxp Exp] [Bzp Ezp] [Bq Eq]. unfold fmonty, dbladd. cbv zeta.
  assert (W : R51 + R51 <= D55) by discriminate. assert (W64 : R51 + R51 < 2 ^ 64) by reflexivity.
  destruct (fsum_spec _ _ x z Bx Bz W64) as [Bs Es]. apply (bounded_weaken _ _ _ W) in Bs.
  destruct (fdifference_spec z x Bz Bx) as [Bd Ed].
  destruct (fsum_spec _ _ xp zp Bxp Bzp W64) as [Bsp Esp]. apply (bounded_weaken _ _ _ W) in Bsp.
  destruct (fdifference_spec zp xp Bzp Bxp) as [Bdp Edp].
  set (s := fsum x z) in *. set (d := fdifference_backwards z x) in *.
  set (sp := fsum xp zp) in *. set (dp := fdifference_backwards zp xp) in *. clearbody s d sp dp.
  destruct (fmul_spec sp d Bsp Bd) as [Bcb Ecb]. destruct (fmul_spec s dp Bs Bdp) as [Bda Eda].
  set (cb := fmul sp d) in *. set (da := fmul s dp) in *. clearbody cb da.
  destruct (fsum_spec _ _ cb da Bcb Bda W64) as [Bu Eu]. apply (bounded_weaken _ _ _ W) in Bu.
  destruct (fdifference_spec da cb Bda Bcb) as [Bv Ev].
  destruct (fsquare_spec _ Bu) as [B3 E3]. destruct (fsquare_spec _ Bv) as [Bw Ew].
  destruct (fmul_spec _ _ (R51_D55 _ Bw) (R51_D55 _ Bq)) as [B4 E4].
  destruct (fsquare_spec s Bs) as [Baa Eaa]. destruct (fsquare_spec d Bd) as [Bbb Ebb].
  destruct (fmul_spec _ _ (R51_D55 _ Baa) (R51_D55 _ Bbb)) as [B1 E1].
  change (fsquare_times s 1) with (fsquare_body s). change (fsquare_times d 1) with (fsquare_body d).
  set (aa := fsquare_body s) in *. set (bb := fsquare_body d) in *. clearbody aa bb.
  destruct (fdifference_spec bb aa Bbb Baa) as [Be Ee].
  set (e := fdifference_backwards bb aa) in *. clearbody e.
  destruct (fscalar_spec e 121665 Be ltac:(lia)) as [Bt Et].
  destruct (fsum_spec _ _ (fscalar_product e 121665) aa Bt Baa ltac:(reflexivity)) as [Bf Ef].
  apply (bounded_weaken _ D55) in Bf; [|discriminate].
  destruct (fmul_spec _ _ Be Bf) as [B2 E2].
  refine (conj (conj B1 _) (conj (conj B2 _) (conj (conj B3 _) (conj B4 _)))).
  - rewrite E1, Eaa, Ebb, Es, Ed, Ex, Ez. reflexivity.
  - rewrite E2, Ef, Et, Ee, Eaa, Ebb, Es, Ed, Ex, Ez. unfold a24. apply eqm_shift with (c := 0). ring.
  - change (val (fsquare_body (fsum cb da)) == ((XP - ZP) * (X + Z_) + (XP + ZP) * (X - Z_)) * ((XP - ZP) * (X + Z_) + (XP + ZP) * (X - Z_))).
    rewrite E3, Eu, Ecb, Eda, Es, Ed, Esp, Edp, Ex, Ez, Exp, Ezp. apply eqm_shift with (c := 0). ring.
  - change (val (fmul (fsquare_body (fdifference_backwards da cb)) q) == Q * (((XP - ZP) * (X + Z_) - (XP + ZP) * (X - Z_)) * ((XP - ZP) * (X + Z_) - (XP + ZP) * (X - Z_)))).
    rewrite E4, Ew, Ev, Ecb, Eda, Es, Ed, Esp, Edp, Ex, Ez, Exp, Ezp, Eq. apply eqm_shift with (c := 0). ring.
Qed.

(** ** The conditional swap *)

Lemma swap_limb_spec (b : bool) x y : in_range 64 x -> in_range 64 y ->
  swap_limb (u64 (- Z.b2z b)) x y = cswap b x y.
Proof.
  intros Hx Hy. unfold swap_limb, cswap. destruct b.
  - change (u64 (- Z.b2z true)) with (Z.ones 64).
    assert (E : Z.ones 64 .& (x .^ y) = x .^ y)
      by (rewrite Z.land_comm, Z.land_ones, Z.mod_small by (lia || (apply lxor_range; (lia || assumption))); reflexivity).
    cbv zeta. rewrite E. f_equal.
    + now rewrite <- Z.lxor_assoc, Z.lxor_nilpotent, Z.lxor_0_l.
    + now rewrite (Z.lxor_comm x y), <- Z.lxor_assoc, Z.lxor_nilpotent, Z.lxor_0_l.
  - change (u64 (- Z.b2z false)) with 0. cbv zeta. now rewrite Z.land_0_l, !Z.lxor_0_r.
Qed.

Lemma swap_spec (b : bool) f g : bounded R51 f -> bounded R51 g ->
  swap_conditional f g (Z.b2z b) = cswap b f g.
Proof.
  assert (W : forall x, 0 <= x <= R51 -> in_range 64 x) by (unfold in_range, R51; lia).
  destruct f as [a0 a1 a2 a3 a4], g as [b0 b1 b2 b3 b4].
  intros (A0 & A1 & A2 & A3 & A4) (B0 & B1 & B2 & B3 & B4). cbn [l0 l1 l2 l3 l4] in *.
  unfold swap_conditional. cbv zeta. cbn [l0 l1 l2 l3 l4].
  rewrite !swap_limb_spec by auto. now destruct b.
Qed.

(** The registers hold the state of the ladder of RFC 7748 with its pending swap performed. *)
Definition regs_rep (r : ladder_regs) (s : ladder_state) : Prop :=
  let '(nqx, nqz, nqpqx, nqpqz) := r in
  rep nqx (fst (cswap (swapped s) (sx2 s) (sx3 s))) /\
  rep nqz (fst (cswap (swapped s) (sz2 s) (sz3 s))) /\
  rep nqpqx (snd (cswap (swapped s) (sx2 s) (sx3 s))) /\
  rep nqpqz (snd (cswap (swapped s) (sz2 s) (sz3 s))).

Lemma ladder_step_dbladd x1 s kt :
  let x := cswap (xorb (swapped s) kt) (sx2 s) (sx3 s) in
  let z := cswap (xorb (swapped s) kt) (sz2 s) (sz3 s) in
  let '(X2, Z2, X3, Z3) := dbladd x1 (fst x) (fst z) (snd x) (snd z) in
  let s' := ladder_step x1 s kt in
  X2 == sx2 s' /\ Z2 == sz2 s' /\ X3 == sx3 s' /\ Z3 == sz3 s'.
Proof.
  cbv zeta. unfold ladder_step, dbladd.
  destruct (cswap (xorb (swapped s) kt) (sx2 s) (sx3 s)) as [x2 x3].
  destruct (cswap (xorb (swapped s) kt) (sz2 s) (sz3 s)) as [z2 z3].
  cbv zeta. cbn [fst snd sx2 sz2 sx3 sz3].
  refine (conj _ (conj _ (conj _ _))); symmetry; repeat rewrite mod_eqm; reflexivity.
Qed.

Lemma rep_cswap b f g x y : rep f x -> rep g y ->
  rep (fst (cswap b f g)) (fst (cswap b x y)) /\ rep (snd (cswap b f g)) (snd (cswap b x y)).
Proof. now destruct b. Qed.

Lemma rep_eqm f x y : rep f x -> x == y -> rep f y.
Proof. intros [B E] H. split; [exact B|]. now rewrite E. Qed.

Lemma cswap_twice {A} b c (x y : A) :
  cswap c (fst (cswap b x y)) (snd (cswap b x y)) = cswap (xorb b c) x y.
Proof. now destruct b, c. Qed.

Lemma swapped_step x1 s kt : swapped (ladder_step x1 s kt) = kt.
Proof. unfold ladder_step. now destruct (cswap _ _ _), (cswap _ _ _). Qed.

Lemma cmult_bit_spec q Q r s byte : rep q Q -> regs_rep r s -> in_range 8 byte ->
  regs_rep (fst (cmult_bit q (r, byte))) (ladder_step Q s (Z.testbit byte 7)) /\
  snd (cmult_bit q (r, byte)) = u8 (byte << 1).
Proof.
  destruct r as [[[nqx nqz] npx] npz]. intros Hq (H1 & H2 & H3 & H4) Hb. unfold cmult_bit.
  replace (byte >> 7) with (Z.b2z (Z.testbit byte 7))
    by (rewrite (shiftr_top 8), (testbit_top 8) by (lia || assumption); now destruct (_ <=? _)).
  set (kt := Z.testbit byte 7). clearbody kt.
  rewrite swap_spec by (apply H1 || apply H3). rewrite swap_spec by (apply H2 || apply H4).
  destruct (rep_cswap kt _ _ _ _ H1 H3) as [X1 X3]. destruct (rep_cswap kt _ _ _ _ H2 H4) as [Z1 Z3].
  rewrite cswap_twice in X1, X3, Z1, Z3.
  destruct (cswap kt nqx npx) as [x xp]. destruct (cswap kt nqz npz) as [z zp]. cbn [fst snd] in X1, X3, Z1, Z3.
  pose proof (fmonty_spec x z xp zp q _ _ _ _ _ X1 Z1 X3 Z3 Hq) as H.
  pose proof (ladder_step_dbladd Q s kt) as L. cbv zeta in L.
  destruct (fmonty x z xp zp q) as [[[x2 z2] x3] z3].
  destruct (dbladd _ _ _ _ _) as [[[X2 Z2] X3'] Z3'].
  destruct H as (R1 & R2 & R3 & R4), L as (L1 & L2 & L3 & L4).
  apply rep_eqm with (2 := L1) in R1. apply rep_eqm with (2 := L2) in R2.
  apply rep_eqm with (2 := L3) in R3. apply rep_eqm with (2 := L4) in R4.
  rewrite swap_spec by (apply R1 || apply R3). rewrite swap_spec by (apply R2 || apply R4).
  destruct (rep_cswap kt _ _ _ _ R1 R3) as [A1 A3]. destruct (rep_cswap kt _ _ _ _ R2 R4) as [C1 C3].
  destruct (cswap kt x2 x3) as [x2' x3']. destruct (cswap kt z2 z3) as [z2' z3'].
  split; [|reflexivity].
  cbn [fst]. unfold regs_rep. rewrite swapped_step. exact (conj A1 (conj C1 (conj A3 C3))).
Qed.

Lemma u8_shl_bit b i : in_range 8 b -> 0 <= i < 8 ->
  Z.testbit (u8 (b << 1)) i = (0 <? i) && Z.testbit b (i - 1).
Proof.
  intros Hb Hi. rewrite testbit_wrap, testbit_shiftl by lia.
  destruct (Z.ltb_spec i 8), (Z.ltb_spec i 0), (Z.ltb_spec 0 i); try lia; [reflexivity|].
  replace i with 0 by lia. now rewrite Z.testbit_neg_r by lia.
Qed.

(** [n] iterations consume the [n] top bits of the byte. *)
Lemma cmult_bits q Q n : rep q Q -> forall r s byte, regs_rep r s -> in_range 8 byte -> (n <= 8)%nat ->
  regs_rep (fst (Nat.iter n (cmult_bit q) (r, byte)))
    (fold_left (ladder_step Q) (map (fun j => Z.testbit byte (7 - Z.of_nat j)) (seq 0 n)) s) /\
  snd (Nat.iter n (cmult_bit q) (r, byte)) = u8 (byte << Z.of_nat n).
Proof.
  intros Hq. induction n as [|n IH]; intros r s byte Hr Hb Hn.
  - cbn [Nat.iter nat_rect seq map fold_left fst snd Z.of_nat]. split; [exact Hr|].
    now rewrite Z.shiftl_0_r, wrap_small.
  - rewrite seq_S, map_app, fold_left_app. cbn [map fold_left Nat.add].
    change (Nat.iter (S n) (cmult_bit q) (r, byte)) with (cmult_bit q (Nat.iter n (cmult_bit q) (r, byte))).
    destruct (IH r s byte Hr Hb ltac:(lia)) as [IR IB].
    destruct (Nat.iter n (cmult_bit q) (r, byte)) as [r' byte']. cbn [fst snd] in IR, IB. subst byte'.
    destruct (cmult_bit_spec q Q r' _ (u8 (byte << Z.of_nat n)) Hq IR (wrap_range 8 _ ltac:(lia))) as [R E].
    replace (Z.testbit (u8 (byte << Z.of_nat n)) 7) with (Z.testbit byte (7 - Z.of_nat n)) in R
      by (rewrite testbit_wrap, testbit_shiftl by lia; reflexivity).
    split; [exact R|]. rewrite E. unfold wrap.
    rewrite !Z.shiftl_mul_pow2, Z.mul_mod_idemp_l by lia. f_equal.
    rewrite <- Z.mul_assoc, <- Z.pow_add_r by lia. do 2 f_equal. lia.
Qed.

Lemma msb_first_seq n k :
  msb_first n k = map (fun j => Z.testbit k (Z.of_nat n - 1 - Z.of_nat j)) (seq 0 n).
Proof.
  induction n as [|n IH]; [reflexivity|]. cbn [msb_first seq map]. f_equal; [f_equal; lia|].
  rewrite IH, <- seq_shift, map_map. apply map_ext. intros j. f_equal. lia.
Qed.

Lemma msb_first_app a b k : msb_first (a + b) k = msb_first a (k >> Z.of_nat b) ++ msb_first b k.
Proof.
  induction a as [|a IH]; [reflexivity|]. cbn [Nat.add msb_first app]. rewrite IH. f_equal.
  rewrite Z.shiftr_spec by lia. f_equal. lia.
Qed.

Lemma cmult_byte_spec q Q r s byte : rep q Q -> regs_rep r s -> in_range 8 byte ->
  regs_rep (cmult_byte q r byte) (fold_left (ladder_step Q) (msb_first 8 byte) s).
Proof.
  intros Hq Hr Hb. rewrite msb_first_seq. now apply (cmult_bits q Q 8 Hq).
Qed.

(** Bytes from the last one, bits from the top: the bits of the number, most significant
    first. *)
Lemma msb_first_ext n k k' : (forall i, 0 <= i < Z.of_nat n -> Z.testbit k i = Z.testbit k' i) ->
  msb_first n k = msb_first n k'.
Proof.
  induction n as [|n IH]; intros H; [reflexivity|]. cbn [msb_first].
  rewrite H, IH by (intros; apply H || idtac; lia). reflexivity.
Qed.

Lemma msb_first_bytes e : bytes_ok e ->
  msb_first (8 * length e) (decodeLittleEndian e) = flat_map (msb_first 8) (rev e).
Proof.
  induction 1 as [|x e Hx _ IH]; [reflexivity|]. cbn [decodeLittleEndian length rev].
  rewrite flat_map_app, <- IH. cbn [flat_map]. rewrite app_nil_r.
  replace (8 * S (length e))%nat with (8 * length e + 8)%nat by lia. rewrite msb_first_app. unfold in_range in Hx.
  f_equal.
  - f_equal. rewrite Z.shiftr_div_pow2 by lia. change (2 ^ Z.of_nat 8) with 256. dlia.
  - apply msb_first_ext. intros i Hi.
    rewrite <- (Z.mod_pow2_bits_low (x + _) 8) by lia. change (2 ^ 8) with 256.
    replace ((x + 256 * decodeLittleEndian e) mod 256) with x by dlia. reflexivity.
Qed.

Lemma fold_bytes q Q n : rep q Q -> bytes_ok n -> forall r s, regs_rep r s ->
  regs_rep (fold_left (cmult_byte q) n r) (fold_left (ladder_step Q) (flat_map (msb_first 8) n) s).
Proof.
  intros Hq. induction 1 as [|b n Hb _ IH]; intros r s Hr; cbn [fold_left flat_map]; [exact Hr|].
  rewrite fold_left_app. apply IH. now apply cmult_byte_spec.
Qed.

Lemma bytes_from_top n : length n = 32%nat -> map (fun i => nth (31 - i) n 0) (seq 0 32) = rev n.
Proof.
  intros L. apply nth_ext with (d := 0) (d' := 0); [now rewrite length_map, length_seq, length_rev|].
  intros i Hi. rewrite length_map, length_seq in Hi.
  rewrite (nth_map_lt _ _ _ 0%nat), seq_nth, rev_nth by (rewrite ?length_seq; lia). f_equal. lia.
Qed.

Lemma rep_small x : 0 <= x <= R51 -> rep (F x 0 0 0 0) x.
Proof.
  intros Hx. split; [unfold bounded; cbn [l0 l1 l2 l3 l4]; unfold R51 in *; lia|].
  unfold val. cbn [l0 l1 l2 l3 l4]. now replace (x + _ + _ + _ + _) with x by lia.
Qed.

(** The projective result of the ladder. *)
Lemma cmult_spec n q Q : length n = 32%nat -> bytes_ok n -> rep q Q ->
  let s := fold_left (ladder_step Q) (msb_first 256 (decodeLittleEndian n))
             {| sx2 := 1; sz2 := 0; sx3 := Q; sz3 := 1; swapped := false |} in
  rep (fst (cmult n q)) (fst (cswap (swapped s) (sx2 s) (sx3 s))) /\
  rep (snd (cmult n q)) (fst (cswap (swapped s) (sz2 s) (sz3 s))).
Proof.
  intros L B Hq. cbv zeta. unfold cmult. rewrite bytes_from_top by exact L.
  change 256%nat with (8 * 32)%nat. rewrite <- L, msb_first_bytes by exact B.
  assert (H0 : regs_rep (F 1 0 0 0 0, F 0 0 0 0 0, q, F 1 0 0 0 0)
    {| sx2 := 1; sz2 := 0; sx3 := Q; sz3 := 1; swapped := false |}).
  { cbn. repeat split; try (apply rep_small; unfold R51; lia); apply Hq. }
  pose proof (fold_bytes q Q (rev n) Hq ltac:(now apply Forall_rev) _ _ H0) as H.
  destruct (fold_left (cmult_byte q) (rev n) _) as [[[x z] xp] zp].
  destruct H as (H1 & H2 & _). now split.
Qed.

(** * Inversion *)

(** [f] holds the power [e] of [z]. *)
Definition pw (z : Z) (f : felem) (e : Z) : Prop := bounded D55 f /\ val f == z ^ e /\ 0 <= e.

Lemma pw_mul z f g a b : pw z f a -> pw z g b -> pw z (fmul f g) (a + b).
Proof.
  intros (Bf & Ef & Ha) (Bg & Eg & Hb). destruct (fmul_spec f g Bf Bg) as [B E].
  split; [now apply R51_D55|]. split; [|lia]. now rewrite E, Ef, Eg, Z.pow_add_r.
Qed.

Lemma pw_sq z f a n : (1 <= n)%nat -> pw z f a -> pw z (fsquare_times f n) (a * 2 ^ Z.of_nat n).
Proof.
  intros Hn (Bf & Ef & Ha). destruct (fsquare_times_spec n f Hn Bf) as [B E].
  split; [now apply R51_D55|]. split; [|lia]. now rewrite E, Ef, Z.pow_mul_r by lia.
Qed.

Lemma pw_cast z f a b : pw z f a -> a = b -> pw z f b.
Proof. now intros H <-. Qed.

(** The chain of squarings and multiplications is the power 2^255 - 21 = p - 2. *)
Lemma crecip_spec z : bounded D55 z -> bounded R51 (crecip z) /\ val (crecip z) == val z ^ (p - 2).
Proof.
  intros Bz. unfold crecip. cbv zeta.
  assert (H1 : pw (val z) z 1) by (split; [exact Bz|split; [now rewrite Z.pow_1_r|lia]]).
  assert (A2 := pw_sq _ _ _ 1 ltac:(lia) H1). set (a2 := fsquare_times z 1) in *. clearbody a2.
  assert (A9 := pw_mul _ _ _ _ _ (pw_sq _ _ _ 2 ltac:(lia) A2) H1). set (b9 := fmul _ z) in *. clearbody b9.
  assert (A11 := pw_mul _ _ _ _ _ A9 A2). set (a11 := fmul b9 a2) in *. clearbody a11.
  assert (A31 := pw_mul _ _ _ _ _ (pw_sq _ _ _ 1 ltac:(lia) A11) A9). set (b31 := fmul _ b9) in *. clearbody b31.
  assert (T10 := pw_mul _ _ _ _ _ (pw_sq _ _ _ 5 ltac:(lia) A31) A31). set (b10 := fmul _ b31) in *. clearbody b10.
  assert (T20 := pw_mul _ _ _ _ _ (pw_sq _ _ _ 10 ltac:(lia) T10) T10). set (c20 := fmul _ b10) in *. clearbody c20.
  assert (T40 := pw_mul _ _ _ _ _ (pw_sq _ _ _ 20 ltac:(lia) T20) T20). set (t40 := fmul _ c20) in *. clearbody t40.
  assert (T50 := pw_mul _ _ _ _ _ (pw_sq _ _ _ 10 ltac:(lia) T40) T10). set (b50 := fmul _ b10) in *. clearbody b50.
  assert (T100 := pw_mul _ _ _ _ _ (pw_sq _ _ _ 50 ltac:(lia) T50) T50). set (c100 := fmul _ b50) in *. clearbody c100.
  assert (T200 := pw_mul _ _ _ _ _ (pw_sq _ _ _ 100 ltac:(lia) T100) T100). set (t200 := fmul _ c100) in *. clearbody t200.
  assert (T250 := pw_mul _ _ _ _ _ (pw_sq _ _ _ 50 ltac:(lia) T200) T50). set (t250 := fmul _ b50) in *. clearbody t250.
  assert (T255 := pw_sq _ _ _ 5 ltac:(lia) T250). set (t255 := fsquare_times t250 5) in *. clearbody t255.
  destruct (pw_cast _ _ _ (p - 2) (pw_mul _ _ _ _ _ T255 A11) eq_refl) as (_ & E & _).
  split; [apply fmul_spec; [apply T255|apply A11]|exact E].
Qed.

(** * Bytes *)

Lemma shl_add a b n : 0 <= n -> 0 <= a < 2 ^ n -> a .| (b << n) = a + 2 ^ n * b.
Proof.
  intros Hn Ha. assert (L : a .& (b << n) = 0).
  { apply Z.bits_inj'. intros i Hi. rewrite Z.land_spec, Z.bits_0.
    destruct (Z.lt_ge_cases i n) as [H|H].
    - now rewrite Z.shiftl_spec_low, andb_false_r.
    - rewrite (testbit_above n a); [reflexivity|assumption|lia]. }
  rewrite <- Z.lxor_lor, <- Z.add_nocarry_lxor, Z.shiftl_mul_pow2 by assumption. lia.
Qed.

Lemma decode_skip k l : bytes_ok l -> decodeLittleEndian (skipn k l) = decodeLittleEndian l / 2 ^ (8 * Z.of_nat k).
Proof.
  intros B. revert k. induction B as [|x l Hx B IH]; intros [|k].
  - now rewrite Z.div_1_r.
  - cbn [skipn decodeLittleEndian]. now rewrite Z.div_0_l by lia.
  - now rewrite Z.div_1_r.
  - cbn [skipn decodeLittleEndian]. rewrite IH. replace (8 * Z.of_nat (S k)) with (8 + 8 * Z.of_nat k) by lia.
    rewrite Z.pow_add_r, <- Z.div_div by lia. unfold in_range in Hx. f_equal. change (2 ^ 8) with 256 in *. dlia.
Qed.

Lemma load_limb_spec l : (8 <= length l)%nat -> bytes_ok l -> load_limb l = decodeLittleEndian l mod 2 ^ 64.
Proof.
  intros L B. do 8 (destruct l as [|? l]; [cbn in L; lia|]; apply Forall_cons_iff in B; destruct B as [? B]).
  unfold load_limb, in_range in *. cbn [nth decodeLittleEndian].
  rewrite (shl_add _ _ 8), (shl_add _ _ 16), (shl_add _ _ 24), (shl_add _ _ 32) by lia.
  rewrite (shl_add _ _ 40), (shl_add _ _ 48), (shl_add _ _ 56) by lia.
  set (r := decodeLittleEndian l). clearbody r. clear B L. change (2 ^ 8) with 256 in *.
  apply (Z.mod_unique_pos _ _ r); lia.
Qed.

(** Limbs of a number, and the bits [fexpand] selects for each. *)
Definition limbs (N : Z) : felem :=
  F (N mod 2 ^ 51) (N / 2 ^ 51 mod 2 ^ 51) (N / 2 ^ 102 mod 2 ^ 51) (N / 2 ^ 153 mod 2 ^ 51) (N / 2 ^ 204 mod 2 ^ 51).

Lemma limbs_spec N : bounded (2 ^ 51 - 1) (limbs N) /\ N = val (limbs N) + 2 ^ 255 * (N / 2 ^ 255).
Proof.
  unfold limbs, bounded, val. cbn [l0 l1 l2 l3 l4].
  change (2 ^ 102) with (2 ^ 51 * 2 ^ 51). change (2 ^ 153) with (2 ^ 51 * 2 ^ 51 * 2 ^ 51).
  change (2 ^ 204) with (2 ^ 51 * 2 ^ 51 * 2 ^ 51 * 2 ^ 51).
  change (2 ^ 255) with (2 ^ 51 * 2 ^ 51 * 2 ^ 51 * 2 ^ 51 * 2 ^ 51).
  rewrite <- !Z.div_div by lia.
  split51 N q0 m0. split51 q0 q1 m1. split51 q1 q2 m2. split51 q2 q3 m3. split51 q3 q4 m4. lia.
Qed.

Lemma limbs_mod N : val (limbs N) = N mod 2 ^ 255.
Proof.
  destruct (limbs_spec N) as [(B0 & B1 & B2 & B3 & B4) E].
  apply (Z.mod_unique_pos _ _ (N / 2 ^ 255)); [|lia]. unfold val. lia.
Qed.

Lemma limb_window N k j : 0 <= k -> 0 <= j -> j + 51 <= 64 ->
  ((N / 2 ^ k) mod 2 ^ 64 / 2 ^ j) mod 2 ^ 51 = N / 2 ^ (k + j) mod 2 ^ 51.
Proof.
  intros Hk Hj H. apply Z.bits_inj'. intros i Hi.
  destruct (Z.lt_ge_cases i 51) as [Hl|Hh]; [|now rewrite !Z.mod_pow2_bits_high by lia].
  rewrite !Z.mod_pow2_bits_low, Z.div_pow2_bits, Z.mod_pow2_bits_low, !Z.div_pow2_bits by lia.
  f_equal. lia.
Qed.

(** [fexpand] reads the u-coordinate, ignoring the top bit. *)
Lemma fexpand_spec l : length l = 32%nat -> bytes_ok l -> rep (fexpand l) (decodeUCoordinate l).
Proof.
  intros L B. assert (E : fexpand l = limbs (decodeLittleEndian l)).
  { unfold fexpand, limbs.
    rewrite !load_limb_spec, !decode_skip by (rewrite ?length_skipn, ?L; (cbn; lia) || (try apply Forall_skipn); assumption).
    rewrite !mask_mod, !Z.shiftr_div_pow2 by lia. set (N := decodeLittleEndian l). clearbody N.
    cbn [Z.of_nat Z.mul Pos.of_succ_nat Pos.succ Pos.mul]. rewrite !limb_window by lia. f_equal.
    pose proof (limb_window N 0 0) as H. rewrite !Z.div_1_r in H. apply H; lia. }
  rewrite E. unfold decodeUCoordinate. rewrite <- limbs_mod. destruct (limbs_spec (decodeLittleEndian l)) as [Bd _].
  split; [|reflexivity].
  apply (bounded_weaken (2 ^ 51 - 1)); [discriminate|exact Bd].
Qed.

(** ** [fcontract] *)

(** Limbs that are the digits of their value. *)
Definition canonical (t : felem) : Prop := bounded (2 ^ 51 - 1) t.

Lemma canonical_range t : canonical t -> 0 <= val t < 2 ^ 255.
Proof. unfold canonical, bounded, val. lia. Qed.

(** A ripple of carries gives the digits of the value; what exceeds 2^255 stays in the last
    limb, or comes back to the first one as 19. *)
Lemma ripple_spec t : bounded (2 ^ 100) t ->
  exists d c, canonical d /\ 0 <= c < 2 ^ 60 /\ val t = val d + 2 ^ 255 * c /\
    ripple t = F (l0 d) (l1 d) (l2 d) (l3 d) (l4 d + 2 ^ 51 * c).
Proof.
  destruct t as [t0 t1 t2 t3 t4]. intros (B0 & B1 & B2 & B3 & B4). cbn [l0 l1 l2 l3 l4] in *.
  unfold ripple. cbn [l0 l1 l2 l3 l4]. cbv zeta. rewrite !mask_mod, !shr51.
  split51 t0 q0 m0. rewrite (wrap_id 128 (t1 + q0)) by lia.
  split51 (t1 + q0) q1 m1. rewrite (wrap_id 128 (t2 + q1)) by lia.
  split51 (t2 + q1) q2 m2. rewrite (wrap_id 128 (t3 + q2)) by lia.
  split51 (t3 + q2) q3 m3. rewrite (wrap_id 128 (t4 + q3)) by lia.
  pose proof (Z.div_mod (t4 + q3) (2 ^ 51) ltac:(lia)). pose proof (Z.mod_pos_bound (t4 + q3) (2 ^ 51) ltac:(lia)).
  exists (F m0 m1 m2 m3 ((t4 + q3) mod 2 ^ 51)), ((t4 + q3) / 2 ^ 51).
  unfold canonical, bounded, val. cbn [l0 l1 l2 l3 l4].
  set (q4 := (t4 + q3) / 2 ^ 51) in *. set (m4 := (t4 + q3) mod 2 ^ 51) in *. clearbody q4 m4.
  repeat split; try lia. f_equal; lia.
Qed.

Lemma ripple_wrap_spec t : bounded (2 ^ 100) t ->
  exists d c, canonical d /\ 0 <= c < 2 ^ 60 /\ val t = val d + 2 ^ 255 * c /\
    ripple_wrap t = F (l0 d + 19 * c) (l1 d) (l2 d) (l3 d) (l4 d).
Proof.
  intros B. destruct (ripple_spec t B) as (d & c & Hd & Hc & E & Er). exists d, c.
  split; [exact Hd|]. split; [exact Hc|]. split; [exact E|].
  unfold ripple_wrap. cbv zeta. rewrite Er. cbn [l0 l1 l2 l3 l4]. rewrite mask_mod, shr51.
  destruct Hd as (B0 & B1 & B2 & B3 & B4).
  replace ((l4 d + 2 ^ 51 * c) / 2 ^ 51) with c by (apply (Z.div_unique_pos _ _ _ (l4 d)); lia).
  replace ((l4 d + 2 ^ 51 * c) mod 2 ^ 51) with (l4 d) by (apply (Z.mod_unique_pos _ _ c); lia).
  now rewrite (wrap_id 128 (19 * c)), (wrap_id 128 (l0 d + 19 * c)) by lia.
Qed.

(** The three passes with wrap-around compute the value modulo p, offset by 19. *)
Lemma reduce_spec f : bounded R51 f ->
  let t := ripple_wrap (ripple_wrap f) in
  exists d, canonical d /\ val d = val f mod p + 19 /\
    ripple_wrap (F (u128 (l0 t + 19)) (l1 t) (l2 t) (l3 t) (l4 t)) = d.
Proof.
  intros Bf. assert (Vf : 0 <= val f <= 2 ^ 255 + 2 ^ 205) by (unfold bounded, R51, val in *; lia).
  destruct (ripple_wrap_spec f) as (a & ca & Ha & Hca & Ea & ->); [apply (bounded_weaken R51); [discriminate|exact Bf]|].
  pose proof (canonical_range a Ha) as Va. clear Bf. assert (Hc0 : 0 <= ca <= 1) by lia.
  destruct (ripple_wrap_spec (F (l0 a + 19 * ca) (l1 a) (l2 a) (l3 a) (l4 a))) as (b & cb & Hb & Hcb & Eb & ->);
    [unfold canonical, bounded in *; cbn [l0 l1 l2 l3 l4]; lia|].
  pose proof (canonical_range b Hb) as Vb. cbn [l0 l1 l2 l3 l4]. cbv zeta.
  assert (Eb' : val a + 19 * ca = val b + 2 ^ 255 * cb) by (rewrite <- Eb; unfold val; cbn [l0 l1 l2 l3 l4]; ring).
  clear Eb. assert (Hc1 : cb = 0 \/ cb = 1 /\ val b < 19) by lia.
  assert (B2 : canonical (F (l0 b + 19 * cb) (l1 b) (l2 b) (l3 b) (l4 b)))
    by (unfold canonical, bounded, val in *; cbn [l0 l1 l2 l3 l4]; lia).
  set (g := F (l0 b + 19 * cb) (l1 b) (l2 b) (l3 b) (l4 b)) in *.
  assert (Vg : val g = val b + 19 * cb) by (unfold g, val; cbn [l0 l1 l2 l3 l4]; ring).
  change (l0 b + 19 * cb) with (l0 g). change (l1 b) with (l1 g). change (l2 b) with (l2 g).
  change (l3 b) with (l3 g). change (l4 b) with (l4 g).
  pose proof (canonical_range g B2) as Rg. clearbody g.
  rewrite (wrap_id 128) by (unfold canonical, bounded in B2; lia).
  destruct (ripple_wrap_spec (F (l0 g + 19) (l1 g) (l2 g) (l3 g) (l4 g))) as (d & c & Hd & Hc & Ed & ->);
    [unfold canonical, bounded in *; cbn [l0 l1 l2 l3 l4]; lia|].
  assert (Ed' : val g + 19 = val d + 2 ^ 255 * c) by (rewrite <- Ed; unfold val; cbn [l0 l1 l2 l3 l4]; ring).
  pose proof (canonical_range d Hd) as Vd. clear Ed.
  assert (Hc2 : c = 0 \/ c = 1 /\ val d < 19) by lia.
  exists (F (l0 d + 19 * c) (l1 d) (l2 d) (l3 d) (l4 d)).
  split; [unfold canonical, bounded, val in *; cbn [l0 l1 l2 l3 l4]; lia|].
  split; [|reflexivity].
  replace (val (F _ _ _ _ _)) with (val d + 19 * c) by (unfold val; cbn [l0 l1 l2 l3 l4]; ring).
  assert (M : val f mod p = val g - p * c); [|unfold p in *; lia].
  symmetry. apply (Z.mod_unique_pos _ _ (ca + cb + c)); unfold p; lia.
Qed.

Lemma encode_app a b x :
  encodeLittleEndian (a + b) x = encodeLittleEndian a x ++ encodeLittleEndian b (x / 2 ^ (8 * Z.of_nat a)).
Proof.
  revert x. induction a as [|a IH]; intros x.
  - now rewrite Z.div_1_r.
  - cbn [Nat.add encodeLittleEndian app]. rewrite IH. do 2 f_equal.
    replace (8 * Z.of_nat (S a)) with (8 + 8 * Z.of_nat a) by lia.
    rewrite Z.pow_add_r, Z.div_div by lia. reflexivity.
Qed.

Lemma encode_ext n x y : x mod 2 ^ (8 * Z.of_nat n) = y mod 2 ^ (8 * Z.of_nat n) ->
  encodeLittleEndian n x = encodeLittleEndian n y.
Proof.
  revert x y. induction n as [|n IH]; intros x y H; [reflexivity|]. cbn [encodeLittleEndian].
  replace (8 * Z.of_nat (S n)) with (8 + 8 * Z.of_nat n) in H by lia.
  rewrite Z.pow_add_r, !Z.rem_mul_r in H by lia. change (2 ^ 8) with 256 in H.
  pose proof (Z.mod_pos_bound x 256). pose proof (Z.mod_pos_bound y 256).
  f_equal; [|apply IH]; lia.
Qed.

Lemma store_limb_spec x : store_limb x = encodeLittleEndian 8 x.
Proof.
  unfold store_limb. cbn [encodeLittleEndian]. change 0xff with (Z.ones 8).
  rewrite !Z.land_ones, !Z.shiftr_div_pow2, !Z.div_div by lia. reflexivity.
Qed.

(** Four words of 64 bits. *)
Lemma words_encode V w0 w1 w2 w3 :
  w0 mod 2 ^ 64 = V mod 2 ^ 64 -> w1 mod 2 ^ 64 = V / 2 ^ 64 mod 2 ^ 64 ->
  w2 mod 2 ^ 64 = V / 2 ^ 128 mod 2 ^ 64 -> w3 mod 2 ^ 64 = V / 2 ^ 192 mod 2 ^ 64 ->
  encodeLittleEndian 8 w0 ++ encodeLittleEndian 8 w1 ++ encodeLittleEndian 8 w2 ++ encodeLittleEndian 8 w3
  = encodeLittleEndian 32 V.
Proof.
  intros H0 H1 H2 H3. change 32%nat with (8 + (8 + (8 + 8)))%nat. rewrite !encode_app, !Z.div_div by lia.
  f_equal; [now apply encode_ext|]. f_equal; [now apply encode_ext|]. f_equal; now apply encode_ext.
Qed.

Lemma packed_words d : canonical d ->
  store_limb (u64 (l0 d .| u128 (l1 d << 51))) ++
  store_limb (u64 ((l1 d >> 13) .| u128 (l2 d << 38))) ++
  store_limb (u64 ((l2 d >> 26) .| u128 (l3 d << 25))) ++
  store_limb (u64 ((l3 d >> 39) .| u128 (l4 d << 12))) = encodeLittleEndian 32 (val d).
Proof.
  destruct d as [d0 d1 d2 d3 d4]. intros (B0 & B1 & B2 & B3 & B4). cbn [l0 l1 l2 l3 l4] in *.
  rewrite !store_limb_spec, !Z.shiftr_div_pow2 by lia.
  rewrite !(wrap_id 128) by (rewrite Z.shiftl_mul_pow2 by lia; lia).
  pose proof (Z.div_mod d1 (2 ^ 13) ltac:(lia)). pose proof (Z.mod_pos_bound d1 (2 ^ 13) ltac:(lia)).
  pose proof (Z.div_mod d2 (2 ^ 26) ltac:(lia)). pose proof (Z.mod_pos_bound d2 (2 ^ 26) ltac:(lia)).
  pose proof (Z.div_mod d3 (2 ^ 39) ltac:(lia)). pose proof (Z.mod_pos_bound d3 (2 ^ 39) ltac:(lia)).
  set (h1 := d1 / 2 ^ 13) in *. set (r1 := d1 mod 2 ^ 13) in *. set (h2 := d2 / 2 ^ 26) in *.
  set (r2 := d2 mod 2 ^ 26) in *. set (h3 := d3 / 2 ^ 39) in *. set (r3 := d3 mod 2 ^ 39) in *.
  clearbody h1 r1 h2 r2 h3 r3. rewrite !shl_add by lia.
  unfold val. cbn [l0 l1 l2 l3 l4].
  set (T2 := h3 + 2 ^ 12 * d4). set (T1 := h2 + 2 ^ 25 * r3 + 2 ^ 64 * T2). set (T0 := h1 + 2 ^ 38 * r2 + 2 ^ 64 * T1).
  assert (EV : d0 + 2 ^ 51 * d1 + 2 ^ 102 * d2 + 2 ^ 153 * d3 + 2 ^ 204 * d4 = d0 + 2 ^ 51 * r1 + 2 ^ 64 * T0)
    by (unfold T0, T1, T2; lia). rewrite EV.
  assert (D0 : (d0 + 2 ^ 51 * r1 + 2 ^ 64 * T0) / 2 ^ 64 = T0) by (symmetry; apply (Z.div_unique_pos _ _ _ (d0 + 2 ^ 51 * r1)); lia).
  assert (D1 : T0 / 2 ^ 64 = T1) by (symmetry; apply (Z.div_unique_pos _ _ _ (h1 + 2 ^ 38 * r2)); unfold T0; lia).
  assert (D2 : T1 / 2 ^ 64 = T2) by (symmetry; apply (Z.div_unique_pos _ _ _ (h2 + 2 ^ 25 * r3)); unfold T1; lia).
  change (2 ^ 128) with (2 ^ 64 * 2 ^ 64).
  apply words_encode; change (2 ^ 192) with (2 ^ 64 * 2 ^ 64 * 2 ^ 64); change (2 ^ 128) with (2 ^ 64 * 2 ^ 64);
    rewrite <- ?Z.div_div, ?D0, ?D1, ?D2 by lia; unfold wrap; rewrite Z.mod_mod by lia.
  - replace (d0 + 2 ^ 51 * d1) with (d0 + 2 ^ 51 * r1 + h1 * 2 ^ 64) by lia. now rewrite (Z.mul_comm (2 ^ 64) T0), !Z_mod_plus_full.
  - unfold T0. replace (h1 + 2 ^ 38 * d2) with (h1 + 2 ^ 38 * r2 + h2 * 2 ^ 64) by lia. now rewrite (Z.mul_comm (2 ^ 64) T1), !Z_mod_plus_full.
  - unfold T1. replace (h2 + 2 ^ 25 * d3) with (h2 + 2 ^ 25 * r3 + h3 * 2 ^ 64) by lia. now rewrite (Z.mul_comm (2 ^ 64) T2), !Z_mod_plus_full.
  - reflexivity.
Qed.

Lemma fcontract_spec f : bounded R51 f -> fcontract f = encodeLittleEndian 32 (val f mod p).
Proof.
  intros Bf. unfold fcontract. cbv zeta. destruct (reduce_spec f Bf) as (g & Hg & Vg & Eg). cbv zeta in Eg. rewrite Eg.
  pose proof (Z.mod_pos_bound (val f) p ltac:(reflexivity)) as Rp.
  assert (Hg' := Hg). destruct Hg' as (B0 & B1 & B2 & B3 & B4).
  rewrite !(wrap_id 128 (_ + (0x8000000000000 - _))) by lia.
  match goal with |- context [ripple ?x] => set (t := x) end.
  destruct (ripple_spec t) as (d & c & Hd & Hc & Ed & Er);
    [unfold t, bounded; cbn [l0 l1 l2 l3 l4]; lia|].
  assert (Vt : val t = val g + (2 ^ 255 - 19)) by (unfold t, val; cbn [l0 l1 l2 l3 l4]; lia).
  rewrite Er. cbn [l0 l1 l2 l3 l4]. pose proof (canonical_range d Hd) as Rd.
  rewrite mask_mod. replace ((l4 d + 2 ^ 51 * c) mod 2 ^ 51) with (l4 d)
    by (apply (Z.mod_unique_pos _ _ c); destruct Hd as (_ & _ & _ & _ & ?); lia).
  rewrite (packed_words d Hd). f_equal. unfold p in *. lia.
Qed.

(** ** Clamping *)

Lemma decode_app a b : decodeLittleEndian (a ++ b)
  = decodeLittleEndian a + 2 ^ (8 * Z.of_nat (length a)) * decodeLittleEndian b.
Proof.
  induction a as [|x a IH]; [change (decodeLittleEndian b = 0 + 1 * decodeLittleEndian b); lia|].
  cbn [app decodeLittleEndian length]. rewrite IH.
  replace (8 * Z.of_nat (S (length a))) with (8 + 8 * Z.of_nat (length a)) by lia.
  rewrite Z.pow_add_r by lia. change (2 ^ 8) with 256. ring.
Qed.

Lemma decode_range l : bytes_ok l -> 0 <= decodeLittleEndian l < 2 ^ (8 * Z.of_nat (length l)).
Proof.
  induction 1 as [|x l Hx _ IH]; [cbn; lia|]. cbn [decodeLittleEndian length].
  replace (8 * Z.of_nat (S (length l))) with (8 + 8 * Z.of_nat (length l)) by lia.
  rewrite Z.pow_add_r by lia. unfold in_range in Hx. change (2 ^ 8) with 256 in *. lia.
Qed.

Lemma clamp_parts x mid y : length mid = 30%nat ->
  clamp (x :: mid ++ [y]) = (x .& 248) :: mid ++ [(y .& 127) .| 64].
Proof.
  intros L. do 30 (destruct mid as [|? mid]; [discriminate|]). destruct mid; [|discriminate]. reflexivity.
Qed.

Lemma byte_ends x y : in_range 8 x -> in_range 8 y ->
  x .& 248 = x / 8 * 8 /\ (y .& 127) .| 64 = 64 + y mod 64.
Proof.
  intros Hx Hy.
  assert (G : forallb (fun z => (Z.land z 248 =? z / 8 * 8) && (Z.lor (Z.land z 127) 64 =? 64 + z mod 64))
    (map Z.of_nat (seq 0 256)) = true) by (vm_compute; reflexivity).
  assert (I : forall z, in_range 8 z -> In z (map Z.of_nat (seq 0 256))).
  { intros z Hz. unfold in_range in Hz. apply in_map_iff. exists (Z.to_nat z). rewrite in_seq. lia. }
  rewrite forallb_forall in G. split.
  - apply I, G, andb_true_iff, proj1, Z.eqb_eq in Hx. exact Hx.
  - apply I, G, andb_true_iff, proj2, Z.eqb_eq in Hy. exact Hy.
Qed.

Lemma clamp_spec e : length e = 32%nat -> bytes_ok e ->
  length (clamp e) = 32%nat /\ bytes_ok (clamp e) /\ decodeLittleEndian (clamp e) = decodeScalar25519 e.
Proof.
  intros L B. destruct e as [|x e]; [discriminate|].
  destruct (exists_last (l := e)) as (mid & y & ->); [intros ->; discriminate|].
  assert (Lm : length mid = 30%nat) by (cbn in L; rewrite length_app in L; cbn in L; lia).
  apply Forall_cons_iff in B. destruct B as [Hx B]. apply Forall_app in B. destruct B as [Bm By].
  apply Forall_cons_iff in By. destruct By as [Hy _]. destruct (byte_ends x y Hx Hy) as [Ex Ey].
  rewrite clamp_parts by exact Lm. pose proof (decode_range mid Bm) as Rm. rewrite Lm in Rm. unfold in_range in Hx, Hy.
  split; [cbn; rewrite length_app, Lm; reflexivity|]. split.
  - apply Forall_cons; [rewrite Ex; unfold in_range; dlia|]. apply Forall_app. split; [exact Bm|].
    apply Forall_cons; [rewrite Ey; unfold in_range; dlia|constructor].
  - unfold decodeScalar25519. cbn [decodeLittleEndian]. rewrite !decode_app, Lm. cbn [decodeLittleEndian].
    rewrite Ex, Ey. set (M := decodeLittleEndian mid) in *. clearbody M.
    change (2 ^ (8 * Z.of_nat 30)) with (2 ^ 240) in *.
    replace ((x + 256 * (M + 2 ^ 240 * (y + 256 * 0))) / 8) with (x / 8 + 32 * M + 2 ^ 245 * y) by dlia.
    rewrite <- (Z.mod_unique_pos _ (2 ^ 254) (y / 64) (x / 8 * 8 + 256 * M + 2 ^ 248 * (y mod 64))); [lia| |]; dlia.
Qed.

Lemma donna_ladder (secret basepoint : list Z)
  (Ls : length secret = 32%nat) (Bs : bytes_ok secret)
  (Lb : length basepoint = 32%nat) (Bb : bytes_ok basepoint) :
  curve25519_donna secret basepoint
  = encodeLittleEndian 32 (ladder 256 (decodeScalar25519 secret) (decodeUCoordinate basepoint)).
Proof.
  unfold curve25519_donna. cbv zeta. rewrite firstn_all2 by lia.
  destruct (clamp_spec secret Ls Bs) as (Lc & Bc & Ec).
  pose proof (cmult_spec (clamp secret) _ _ Lc Bc (fexpand_spec basepoint Lb Bb)) as H. cbv zeta in H. rewrite Ec in H.
  unfold ladder. set (s := fold_left _ _ _) in *. clearbody s.
  destruct (cmult (clamp secret) (fexpand basepoint)) as [x z]. cbn [fst snd] in H. destruct H as [[Bx Ex] [Bz Ez]].
  destruct (crecip_spec z (R51_D55 _ Bz)) as [Br Er].
  destruct (fmul_spec x (crecip z) (R51_D55 _ Bx) (R51_D55 _ Br)) as [Bm Em].
  rewrite fcontract_spec by exact Bm. f_equal.
  destruct (cswap (swapped s) (sx2 s) (sx3 s)) as [x2 x3]. destruct (cswap (swapped s) (sz2 s) (sz3 s)) as [z2 z3].
  cbn [fst] in *. apply eqm_mod. now rewrite Em, Er, Ex, Ez.
Qed.

(** C25. The Curve25519 function is the Montgomery ladder of RFC 7748: for every 32-byte scalar
    and u-coordinate, the result is the little-endian encoding, reduced modulo 2^255 - 19, of
    the ladder on the clamped scalar and the u-coordinate with its top bit ignored. The ladder
    runs over 256 bits, the first of which clamping makes 0. In particular no limb
    computation overflows and the result is canonical. *)
Theorem curve25519_is_ladder (secret basepoint : list Z)
  (Ls : length secret = 32%nat) (Bs : bytes_ok secret)
  (Lb : length basepoint = 32%nat) (Bb : bytes_ok basepoint) :
  curve25519_donna secret basepoint
  = encodeLittleEndian 32 (ladder 256 (decodeScalar25519 secret) (decodeUCoordinate basepoint)).
Proof. now apply donna_ladder. Qed.

Lemma curve25519_is_ladder_witness :
  curve25519_donna (repeat 7 32) (9 :: repeat 0 31)
  = encodeLittleEndian 32 (ladder 256 (decodeScalar25519 (repeat 7 32)) (decodeUCoordinate (9 :: repeat 0 31))).
Proof.
  apply curve25519_is_ladder; try reflexivity; apply words_ok_forallb; reflexivity.
Defined.

Lemma encode_shape n x : length (encodeLittleEndian n x) = n /\ bytes_ok (encodeLittleEndian n x).
Proof.
  revert x. induction n as [|n IH]; intros x; cbn [encodeLittleEndian length]; [split; [reflexivity|constructor]|].
  destruct (IH (x / 256)) as [L B]. split; [congruence|]. constructor; [unfold in_range; dlia|exact B].
Qed.

Lemma curve25519_shape secret basepoint :
  length secret = 32%nat -> bytes_ok secret -> length basepoint = 32%nat -> bytes_ok basepoint ->
  length (curve25519_donna secret basepoint) = 32%nat /\ bytes_ok (curve25519_donna secret basepoint).
Proof. intros Ls Bs Lb Bb. rewrite donna_ladder by assumption. apply encode_shape. Qed.

(** C29. Bounds of the field multiplication: for limbs of at most 9 * 2^51, which covers every
    call in the file, the product is right modulo p and its limbs are at most 2^51. The 2^55
    that the comment before [fmul] allows is too much: with all limbs 2^55 - 1 the carry
    out of the first limb no longer fits 64 bits and the result is wrong. *)
Theorem fmul_bounds :
  (forall f g, bounded (9 * 2 ^ 51) f -> bounded (9 * 2 ^ 51) g ->
     bounded (2 ^ 51) (fmul f g) /\ val (fmul f g) mod p = (val f * val g) mod p) /\
  (forall f n, bounded (9 * 2 ^ 51) f -> (1 <= n)%nat ->
     bounded (2 ^ 51) (fsquare_times f n) /\
     val (fsquare_times f n) mod p = (val f ^ 2 ^ Z.of_nat n) mod p) /\
  (exists f, bounded (2 ^ 55 - 1) f /\ val (fmul f f) mod p <> (val f * val f) mod p).
Proof.
  split; [|split].
  - intros f g Hf Hg. destruct (fmul_spec f g Hf Hg) as [B [E]]. now split.
  - intros f n Hf Hn. destruct (fsquare_times_spec n f Hn Hf) as [B [E]]. now split.
  - exists (F (2 ^ 55 - 1) (2 ^ 55 - 1) (2 ^ 55 - 1) (2 ^ 55 - 1) (2 ^ 55 - 1)).
    split; [unfold bounded; cbn [l0 l1 l2 l3 l4]; lia|vm_compute; discriminate].
Qed.

End Curve25519.
