(* ===== verification/SgxsdCrypto.v ===== *)
(** The cryptographic helpers of src/enclave/c_src/sgxsd-enclave.c: one-shot AES-256-GCM over
    the BearSSL contexts, SHA-256 and HMAC over buffer lists, and the HKDF rounds; with the
    interface [Aead] they offer to the request protocol and RFC 5869 as the specification of
    the key derivation. *)
From S2P Require Import Prelude Codec MerkleDamgard HashClass Sha2 Hmac Fips197 BlockClass.
From S2P Require Import AesCtr Sp800_38d Ghash Gcm.
From Stdlib Require Import ZArith List Lia Bool.
Import Codec Sp38d.

(** * RFC 5869 *)
Module Rfc5869.
Section Spec.
(** The keyed hash. *)
Context (hmac : list Z -> list Z -> list Z).

Definition extract (salt ikm : list Z) : list Z := hmac salt ikm.

(** The output block [T(i)] for an empty [info]. *)
Fixpoint T (prk : list Z) (i : nat) : list Z :=
  match i with
  | O => []
  | S j => hmac prk (T prk j ++ [Z.of_nat i])
  end.
End Spec.
End Rfc5869.

(** * Authenticated encryption as the protocol uses it *)

(** [seal key iv aad p] is the ciphertext and the tag, [open_ key iv aad c t] the plaintext
    when the tag is the right one. *)
Class Aead (seal : list Z -> list Z -> list Z -> list Z -> list Z * list Z)
  (open_ : list Z -> list Z -> list Z -> list Z -> list Z -> option (list Z)) := {
  aead_key : list Z -> Prop;
  seal_length key iv aad p : aead_key key -> bytes_ok iv ->
    length (fst (seal key iv aad p)) = length p;
  seal_bytes key iv aad p : aead_key key -> bytes_ok iv -> bytes_ok p ->
    bytes_ok (fst (seal key iv aad p));
  seal_tag key iv aad p : aead_key key -> bytes_ok iv ->
    length (snd (seal key iv aad p)) = 16%nat /\ bytes_ok (snd (seal key iv aad p));
  open_seal key iv aad p : aead_key key -> bytes_ok iv ->
    open_ key iv aad (fst (seal key iv aad p)) (snd (seal key iv aad p)) = Some p;
  open_sound key iv aad c t p : aead_key key -> bytes_ok iv ->
    open_ key iv aad c t = Some p -> seal key iv aad p = (c, t);
  open_bytes key iv aad c t p : aead_key key -> bytes_ok iv -> bytes_ok c ->
    open_ key iv aad c t = Some p -> bytes_ok p }.

Module SgxsdCrypto.

(** * The code *)

(** The [sgx_status_t] values the code names; [SGX_ERROR_OTHER] stands for the enumerators
    that only the SDK or the callbacks produce. *)
Inductive sgx_status_t :=
| SGX_SUCCESS
| SGX_ERROR_UNEXPECTED
| SGX_ERROR_INVALID_PARAMETER
| SGX_ERROR_OUT_OF_MEMORY
| SGX_ERROR_INVALID_STATE
| SGX_ERROR_MAC_MISMATCH
| SGXSD_ERROR_PENDING_REQUEST_NOT_FOUND
| SGX_ERROR_OTHER (code : Z).

Definition success (s : sgx_status_t) : bool := match s with SGX_SUCCESS => true | _ => false end.

(** A pointer to bytes is [None] when NULL; a function result is [None] where the C code
    would dereference NULL or leave the bounds of the object pointed to. *)
Definition is_null {A} (p : option A) : bool := match p with None => true | Some _ => false end.

(** Reading [n] bytes, and writing the bytes [l] at the start of an object. *)
Definition load (p : option (list Z)) (n : Z) : option (list Z) :=
  let? b := p in if (0 <=? n) && (n <=? Z.of_nat (length b)) then Some (firstn (Z.to_nat n) b) else None.

Definition store (p : option (list Z)) (l : list Z) : option (option (list Z)) :=
  let? b := p in if (length l <=? length b)%nat then Some (Some (splice b 0 l)) else None.

(** The bytes a pointer and a size denote when the pointer may be NULL for size 0. *)
Definition view (p : option (list Z)) (n : Z) : option (list Z) :=
  if n =? 0 then Some [] else load p n.

(** What the uninitialised contexts of the crypto routines hold on entry. *)
Record stack := {
  stk_aes : AesCtr.br_aes_x86ni_ctr_keys;
  stk_gcm : Gcm.br_gcm_context AesCtr.br_aes_x86ni_ctr_keys;
  stk_sha : Sha2.br_sha224_context }.

Section Code.
Context (stk : stack).

(** [sgxsd_aes_gcm_run]: the status, the destination and the tag afterwards. The contexts and
    the stack it wipes before returning are its own locals. *)
Definition sgxsd_aes_gcm_run (encrypt : bool) (p_key p_src : option (list Z)) (src_len : Z)
  (p_dst p_iv p_aad : option (list Z)) (aad_len : Z) (p_mac : option (list Z))
  : option (sgx_status_t * option (list Z) * option (list Z)) :=
  if is_null p_key || ((is_null p_src || is_null p_dst) && negb (src_len =? 0)) ||
     is_null p_iv || (is_null p_aad && negb (aad_len =? 0)) || is_null p_mac
  then Some (SGX_ERROR_INVALID_PARAMETER, p_dst, p_mac)
  else
    let? key := load p_key 32 in
    let? iv := load p_iv 12 in
    let aes_ctx := AesCtr.br_aes_x86ni_ctr_init (stk_aes stk) key 32 in
    let c := Gcm.br_gcm_init (stk_gcm stk) AesCtr.br_aes_x86ni_ctr_vtable aes_ctx Ghash.br_ghash_pclmul in
    let c := Gcm.br_gcm_reset c iv in
    let? c := (if negb (aad_len =? 0)
          then let? aad := load p_aad aad_len in Some (Gcm.br_gcm_aad_inject c aad)
          else Some c) in
    let c := Gcm.br_gcm_flip c in
    let? (c, p_dst) := (if negb (src_len =? 0)
                    then let? src := load p_src src_len in
                         let? p_dst := store p_dst src in
                         let? data := load p_dst src_len in
                         let '(c, out) := Gcm.br_gcm_run c encrypt data in
                         let? p_dst := store p_dst out in
                         Some (c, p_dst)
                    else Some (c, p_dst)) in
    let? (tag_res, p_mac) := (if encrypt
                          then let? p_mac := store p_mac (snd (Gcm.br_gcm_get_tag c)) in Some (true, p_mac)
                          else let? mac := load p_mac 16 in
                               Some (negb (snd (Gcm.br_gcm_check_tag c mac) =? 0), p_mac)) in
    if tag_res then Some (SGX_SUCCESS, p_dst, p_mac)
    else
      let? p_dst := (if negb (is_null p_dst) then store p_dst (repeat 0 (Z.to_nat src_len)) else Some p_dst) in
      Some (SGX_ERROR_MAC_MISMATCH, p_dst, p_mac).

Definition sgxsd_aes_gcm_encrypt := sgxsd_aes_gcm_run true.
Definition sgxsd_aes_gcm_decrypt := sgxsd_aes_gcm_run false.

(** A [sgxsd_sha256_buf_t] is the bytes its pointer and size denote. *)
Definition sgxsd_sha256_buf_t : Type := list Z.

Definition sgxsd_enclave_sha256 (buf_count : nat) (bufs : list sgxsd_sha256_buf_t) : list Z :=
  Sha2.br_sha256_out
    (fold_left Sha2.br_sha256_update (firstn buf_count bufs) (Sha2.br_sha256_init (stk_sha stk))).

(** The loop xoring the key into a pad. *)
Fixpoint key_pad_loop (pad key : list Z) : list Z :=
  match pad, key with
  | p :: pad, k :: key => (p .^ k) :: key_pad_loop pad key
  | _, _ => pad
  end.

(** The hash is written last, after the buffers are read, so [p_hash] may alias one of them. *)
Definition sgxsd_enclave_hmac_sha256 (buf_count : nat) (bufs : list sgxsd_sha256_buf_t) : list Z :=
  let i_key_pad := repeat 0x36 64 in
  let o_key_pad := repeat 0x5c 64 in
  let key_buf := nth 0 bufs [] in
  let key_buf := if (64 <? length key_buf)%nat then sgxsd_enclave_sha256 1 [key_buf] else key_buf in
  let i_key_pad := key_pad_loop i_key_pad key_buf in
  let o_key_pad := key_pad_loop o_key_pad key_buf in
  let p_hash := sgxsd_enclave_sha256 buf_count (i_key_pad :: tl bufs) in
  sgxsd_enclave_sha256 2 [o_key_pad; p_hash].

Record sgxsd_ra_hkdf_buf_t := { t_n : list Z; hkdf_n : Z }.

Definition sgxsd_enclave_ra_hkdf_round (prk : list Z) (buf : sgxsd_ra_hkdf_buf_t) : sgxsd_ra_hkdf_buf_t :=
  let n := u8 (hkdf_n buf + 1) in
  let hmac_data_buf := if n =? 1 then [n] else t_n buf ++ [n] in
  {| t_n := sgxsd_enclave_hmac_sha256 2 [prk; hmac_data_buf]; hkdf_n := n |}.

End Code.

(** * The specification *)

Definition sha256 (m : list Z) : list Z := Sha2.Fips.sha2 Sha2.br_sha256_IV 8 m.
Definition hmac_sha256 : list Z -> list Z -> list Z := Rfc2104.hmac sha256 64.
Definition hkdf_T : list Z -> nat -> list Z := Rfc5869.T hmac_sha256.

(** AES-256-GCM. *)
Definition aes_gcm_seal (key iv aad p : list Z) : list Z * list Z := GCM_AE (Fips197.Cipher key) iv aad p.
Definition aes_gcm_open (key iv aad c t : list Z) : option (list Z) := GCM_AD (Fips197.Cipher key) iv aad c t.

(** The scratch contexts have the sizes of their types. *)
Definition stack_ok (stk : stack) : Prop :=
  length (AesCtr.skni (stk_aes stk)) = 240%nat /\
  length (Gcm.gc_buf (stk_gcm stk)) = 16%nat /\ bytes_ok (Gcm.gc_buf (stk_gcm stk)) /\
  length (Sha2.buf (stk_sha stk)) = 64%nat.

(** ** Hashing and key derivation *)

Section Hashing.
Context (stk : stack) (Hstk : stack_ok stk).

Lemma sha256_spec n bufs : sgxsd_enclave_sha256 stk n bufs = sha256 (concat (firstn n bufs)).
Proof.
  destruct Hstk as (_ & _ & _ & L).
  exact (stream_digest Sha2.br_sha256_vtable (stk_sha stk) (firstn n bufs) L).
Qed.

Lemma sha256_shape m : length (sha256 m) = 32%nat /\ bytes_ok (sha256 m).
Proof.
  split; [apply Sha2.sha2_length|]. exact (digest_bytes (dig := Sha2.br_sha256_vtable) m).
Qed.

Lemma key_pad_spec b n key : (length key <= n)%nat ->
  key_pad_loop (repeat b n) key = map (fun x => x .^ b) (key ++ repeat 0 (n - length key)).
Proof.
  revert n. induction key as [|k key IH]; intros n Hn.
  - rewrite Nat.sub_0_r. cbn [app]. rewrite map_repeat, Z.lxor_0_l. now destruct n.
  - destruct n as [|n]; cbn [length] in Hn; [lia|]. cbn [repeat key_pad_loop app map length].
    rewrite IH, Z.lxor_comm by lia. reflexivity.
Qed.

Lemma hmac_spec n key bufs :
  sgxsd_enclave_hmac_sha256 stk (S n) (key :: bufs) = hmac_sha256 key (concat (firstn n bufs)).
Proof.
  unfold sgxsd_enclave_hmac_sha256, hmac_sha256, Rfc2104.hmac, Rfc2104.pad_key, Rfc2104.block_key.
  cbv zeta. cbn [nth tl]. set (k := if (64 <? length key)%nat then sha256 key else key).
  assert (E : (if (64 <? length key)%nat then sgxsd_enclave_sha256 stk 1 [key] else key) = k).
  { unfold k. destruct (64 <? length key)%nat; [|reflexivity].
    rewrite sha256_spec. cbn [firstn concat]. now rewrite app_nil_r. }
  rewrite E, !sha256_spec, !key_pad_spec.
  - cbn [firstn concat]. now rewrite app_nil_r.
  - unfold k. destruct (Nat.ltb_spec 64 (length key)); [rewrite (proj1 (sha256_shape key)); lia|lia].
  - unfold k. destruct (Nat.ltb_spec 64 (length key)); [rewrite (proj1 (sha256_shape key)); lia|lia].
Qed.

Lemma hmac_shape key m : length (hmac_sha256 key m) = 32%nat /\ bytes_ok (hmac_sha256 key m).
Proof. apply sha256_shape. Qed.

Lemma hkdf_round_spec prk k t : (k < 255)%nat -> (k <> 0%nat -> t = hkdf_T prk k) ->
  sgxsd_enclave_ra_hkdf_round stk prk {| t_n := t; hkdf_n := Z.of_nat k |}
  = {| t_n := hkdf_T prk (S k); hkdf_n := Z.of_nat (S k) |}.
Proof.
  intros Hk Ht. unfold sgxsd_enclave_ra_hkdf_round. cbn [t_n hkdf_n].
  rewrite wrap_small by (unfold in_range; lia). replace (Z.of_nat k + 1) with (Z.of_nat (S k)) by lia.
  rewrite hmac_spec. cbn [firstn concat]. rewrite app_nil_r. f_equal.
  unfold hkdf_T. cbn [Rfc5869.T]. fold (hkdf_T prk k).
  destruct (Z.eqb_spec (Z.of_nat (S k)) 1) as [E|E].
  - assert (k = 0%nat) as -> by lia. reflexivity.
  - rewrite Ht by lia. reflexivity.
Qed.

Lemma hkdf_T_shape prk i : length (hkdf_T prk (S i)) = 32%nat /\ bytes_ok (hkdf_T prk (S i)).
Proof. apply hmac_shape. Qed.

End Hashing.

(** The enclave's own SHA-256 and HMAC over a list of buffers hash the concatenation of
    the first [n] buffers, and compute the RFC 2104 HMAC-SHA-256 of the buffers after the
    first keyed by the first, for keys of any length. *)
Theorem enclave_hmac_is_rfc2104 (stk : stack) (n : nat) (key : list Z) (bufs : list (list Z))
  (Hstk : stack_ok stk) :
  sgxsd_enclave_sha256 stk n bufs = Sha2.Fips.sha2 Sha2.br_sha256_IV 8 (concat (firstn n bufs)) /\
  sgxsd_enclave_hmac_sha256 stk (S n) (key :: bufs)
  = Rfc2104.hmac (Sha2.Fips.sha2 Sha2.br_sha256_IV 8) 64 key (concat (firstn n bufs)).
Proof. split; [now apply sha256_spec|now apply hmac_spec]. Qed.

(** Key derivation is HKDF-Expand of RFC 5869 with an empty info: starting from counter
    0, and whatever [t_n] holds, the [k]-th round leaves T(k) of the pseudo-random key, for
    every k the one-byte counter can number. *)
Theorem hkdf_is_rfc5869 (stk : stack) (prk junk : list Z) (k : nat)
  (Hstk : stack_ok stk) (Hk : (1 <= k <= 255)%nat) :
  Nat.iter k (sgxsd_enclave_ra_hkdf_round stk prk) {| t_n := junk; hkdf_n := 0 |}
  = {| t_n := hkdf_T prk k; hkdf_n := Z.of_nat k |}.
Proof.
  destruct k as [|k]; [lia|]. induction k as [|k IH].
  - apply (hkdf_round_spec stk Hstk prk 0); [lia|congruence].
  - cbn [Nat.iter nat_rect] in *. rewrite IH by lia. now apply hkdf_round_spec.
Qed.

(** ** Authenticated encryption *)

Section Oneshot.
Context (stk : stack) (Hstk : stack_ok stk) (key : list Z) (Lk : length key = 32%nat) (Bk : bytes_ok key)
  (iv : list Z) (Biv : bytes_ok iv).

Abbreviation ctx := (AesCtr.br_aes_x86ni_ctr_init (stk_aes stk) key 32).
Abbreviation process := (Gcm.gcm_process AesCtr.br_aes_x86ni_ctr_vtable Ghash.br_ghash_pclmul ctx iv (stk_gcm stk)).

Lemma ctx_keyed : keyed AesCtr.br_aes_x86ni_ctr_vtable ctx (Fips197.Cipher key).
Proof. apply Gcm.aes256_keyed; [apply Hstk|assumption..]. Qed.

(** Additional data and message in at most one chunk each. *)
Definition chunk (l : list Z) : list (list Z) := match l with [] => [] | _ => [l] end.

Lemma concat_chunk l : concat (chunk l) = l.
Proof. destruct l as [|x l]; [reflexivity|]. cbn [chunk concat]. apply app_nil_r. Qed.

Lemma chunk_ok l : bytes_ok l -> Forall bytes_ok (chunk l).
Proof. intros B. destruct l as [|x l]; constructor; [assumption|constructor]. Qed.

Lemma process_seal aad p : bytes_ok aad -> bytes_ok p ->
  let '(g, outs) := process true (chunk aad) (chunk p) in
  (concat outs, snd (Gcm.br_gcm_get_tag g)) = aes_gcm_seal key iv aad p.
Proof.
  intros Ba Bp. destruct Hstk as (La & Lb & Bb & _).
  pose proof (Gcm.gcm_process_spec AesCtr.br_aes_x86ni_ctr_vtable Ghash.br_ghash_pclmul ctx
    (Fips197.Cipher key) ctx_keyed iv Biv (stk_gcm stk) true (chunk aad) (chunk p) Lb Bb
    (chunk_ok _ Ba) (chunk_ok _ Bp)) as H.
  destruct (process true (chunk aad) (chunk p)) as [g outs]. cbv zeta in H. rewrite !concat_chunk in H.
  destruct H as [Eo Hg]. rewrite Eo.
  rewrite (Gcm.get_tag_spec _ Ghash.br_ghash_pclmul ctx _ ctx_keyed iv Biv g _ _ Hg). reflexivity.
Qed.

Lemma process_open aad c t : bytes_ok aad -> bytes_ok c -> length t = 16%nat -> bytes_ok t ->
  let '(g, outs) := process false (chunk aad) (chunk c) in
  aes_gcm_open key iv aad c t
  = (if negb (snd (Gcm.br_gcm_check_tag g t) =? 0) then Some (concat outs) else None).
Proof.
  intros Ba Bc Lt Bt. destruct Hstk as (La & Lb & Bb & _).
  pose proof (Gcm.gcm_process_spec AesCtr.br_aes_x86ni_ctr_vtable Ghash.br_ghash_pclmul ctx
    (Fips197.Cipher key) ctx_keyed iv Biv (stk_gcm stk) false (chunk aad) (chunk c) Lb Bb
    (chunk_ok _ Ba) (chunk_ok _ Bc)) as H.
  destruct (process false (chunk aad) (chunk c)) as [g outs]. cbv zeta in H. rewrite !concat_chunk in H.
  destruct H as [Eo Hg]. rewrite Eo. unfold Gcm.br_gcm_check_tag.
  rewrite (Gcm.check_tag_spec _ Ghash.br_ghash_pclmul ctx _ ctx_keyed iv Biv g _ _ t 16 Hg) by (assumption || lia).
  unfold aes_gcm_open, GCM_AD.
  rewrite !firstn_all2 by (rewrite ?(proj1 (Gcm.gcm_tag_shape _ ctx _ ctx_keyed iv Biv aad c)); lia).
  now destruct (list_eq_dec _ _ _).
Qed.

Lemma GCTR_inv p : GCTR (Fips197.Cipher key) (inc32 (J0 (Fips197.Cipher key) iv))
  (GCTR (Fips197.Cipher key) (inc32 (J0 (Fips197.Cipher key) iv)) p) = p.
Proof.
  rewrite !(Gcm.GCTR_crypt_at _ iv Biv). apply Ctr.crypt_at_involutive.
  exact (Gcm.stream_length _ ctx _ ctx_keyed iv Biv).
Qed.

Lemma GCTR_shape p : length (GCTR (Fips197.Cipher key) (inc32 (J0 (Fips197.Cipher key) iv)) p) = length p /\
  (bytes_ok p -> bytes_ok (GCTR (Fips197.Cipher key) (inc32 (J0 (Fips197.Cipher key) iv)) p)).
Proof.
  rewrite !(Gcm.GCTR_crypt_at _ iv Biv), Ctr.crypt_at_0. split.
  - apply Ctr.crypt_length. exact (Gcm.stream_length _ ctx _ ctx_keyed iv Biv).
  - apply (Gcm.crypt_ok _ ctx _ ctx_keyed iv Biv).
Qed.

End Oneshot.

(** A stack of zeroed contexts. *)
Definition blank_stack : stack :=
  {| stk_aes := AesCtr.blank_keys;
     stk_gcm := Gcm.blank_gcm AesCtr.br_aes_x86ni_ctr_vtable AesCtr.blank_keys Ghash.br_ghash_pclmul;
     stk_sha := Sha2.blank_context |}.

Lemma blank_stack_ok : stack_ok blank_stack.
Proof. repeat split. apply words_ok_forallb. reflexivity. Qed.

Lemma enclave_hmac_is_rfc2104_witness :
  sgxsd_enclave_hmac_sha256 blank_stack 3 [repeat 0xAA 131; [1; 2]; [3]]
  = Rfc2104.hmac (Sha2.Fips.sha2 Sha2.br_sha256_IV 8) 64 (repeat 0xAA 131) [1; 2; 3].
Proof. exact (proj2 (enclave_hmac_is_rfc2104 blank_stack 2 (repeat 0xAA 131) [[1; 2]; [3]] blank_stack_ok)). Defined.

(** Test case 1 of RFC 4231. *)
Example hmac_rfc4231 :
  sgxsd_enclave_hmac_sha256 blank_stack 2 [repeat 0x0b 20; [0x48; 0x69; 0x20; 0x54; 0x68; 0x65; 0x72; 0x65]]
  = br_range_enc32be [0xb0344c61; 0xd8db3853; 0x5ca8afce; 0xaf0bf12b;
                      0x881dc200; 0xc9833da7; 0x26e9376c; 0x2e32cff7] 8.
Proof. vm_compute. reflexivity. Qed.

Lemma hkdf_is_rfc5869_witness :
  Nat.iter 2 (sgxsd_enclave_ra_hkdf_round blank_stack (repeat 7 32)) {| t_n := repeat 0xCC 32; hkdf_n := 0 |}
  = {| t_n := hkdf_T (repeat 7 32) 2; hkdf_n := 2 |}.
Proof.
  exact (hkdf_is_rfc5869 blank_stack (repeat 7 32) (repeat 0xCC 32) 2 blank_stack_ok
    (conj (le_S _ _ (le_n 1)) (proj1 (Nat.leb_le 2 255) eq_refl))).
Defined.

(** AES-256-GCM implements the interface. *)
#[global] Instance aes_gcm_aead : Aead aes_gcm_seal aes_gcm_open.
Proof.
  refine {| aead_key := fun key => length key = 32%nat /\ bytes_ok key |};
    intros key iv aad p; [| | | |intros t q|intros t q]; intros [Lk Bk] Biv.
  - apply (GCTR_shape _ blank_stack_ok key Lk Bk iv Biv).
  - apply (GCTR_shape _ blank_stack_ok key Lk Bk iv Biv).
  - exact (Gcm.gcm_tag_shape _ _ _ (ctx_keyed _ blank_stack_ok key Lk Bk) iv Biv _ _).
  - unfold aes_gcm_open, aes_gcm_seal, GCM_AD, GCM_AE. cbv zeta. cbn [fst snd].
    rewrite (GCTR_inv _ blank_stack_ok key Lk Bk iv Biv). now destruct (list_eq_dec _ _ _).
  - unfold aes_gcm_open, aes_gcm_seal, GCM_AD, GCM_AE. cbv zeta.
    destruct (list_eq_dec _ _ _) as [E|E]; [|discriminate]. intros H.
    assert (Eq : GCTR (Fips197.Cipher key) (inc32 (J0 (Fips197.Cipher key) iv)) p = q) by congruence.
    rewrite <- Eq, (GCTR_inv _ blank_stack_ok key Lk Bk iv Biv), <- E. reflexivity.
  - unfold aes_gcm_open, GCM_AD. intros Bp. destruct (list_eq_dec _ _ _); [|discriminate]. intros [= <-].
    now apply (GCTR_shape _ blank_stack_ok key Lk Bk iv Biv).
Defined.

(** ** Memory accesses *)

(** The object pointed to after writing [l] at its start. *)
Definition write (p : option (list Z)) (l : list Z) : option (list Z) := option_map (fun b => splice b 0 l) p.

Lemma load_inv p n l : load p n = Some l ->
  exists b, p = Some b /\ l = firstn (Z.to_nat n) b /\ length l = Z.to_nat n /\ 0 <= n /\
    (Z.to_nat n <= length b)%nat.
Proof.
  unfold load. destruct p as [b|]; [|discriminate].
  destruct (Z.leb_spec 0 n), (Z.leb_spec n (Z.of_nat (length b))); try discriminate.
  intros [= <-]. exists b. rewrite length_firstn. repeat split; lia.
Qed.

Lemma load_Some b n : 0 <= n <= Z.of_nat (length b) -> load (Some b) n = Some (firstn (Z.to_nat n) b).
Proof.
  intros Hn. unfold load. destruct (Z.leb_spec 0 n), (Z.leb_spec n (Z.of_nat (length b))); reflexivity || lia.
Qed.

Lemma load_all b n : n = Z.of_nat (length b) -> load (Some b) n = Some b.
Proof. intros ->. rewrite load_Some by lia. now rewrite Nat2Z.id, firstn_all. Qed.

Lemma splice_all {A} (b l : list A) : length b = length l -> splice b 0 l = l.
Proof. intros L. unfold splice. rewrite skipn_all2 by lia. apply app_nil_r. Qed.

Section Access.
Context (p : option (list Z)) (n : Z) (old : list Z) (Hp : load p n = Some old).

Lemma load_not_null : is_null p = false.
Proof. destruct (load_inv _ _ _ Hp) as (b & -> & _). reflexivity. Qed.

Lemma store_ok l : length l = Z.to_nat n -> store p l = Some (write p l).
Proof.
  intros L. destruct (load_inv _ _ _ Hp) as (b & -> & _ & _ & _ & Hn). unfold store, write. cbn [option_map].
  destruct (Nat.leb_spec (length l) (length b)); [reflexivity|lia].
Qed.

Lemma load_write l : length l = Z.to_nat n -> load (write p l) n = Some l.
Proof.
  intros L. destruct (load_inv _ _ _ Hp) as (b & -> & _ & _ & H0 & Hn). unfold write. cbn [option_map].
  rewrite load_Some by (rewrite length_splice; lia). rewrite <- L.
  f_equal. apply (firstn_splice b 0 l). lia.
Qed.
End Access.

Lemma write_write p l l' : length l = length l' -> write (write p l) l' = write p l'.
Proof.
  intros L. destruct p as [b|]; [|reflexivity]. unfold write, splice. cbn [option_map firstn app].
  rewrite !Nat.add_0_l, skipn_app, skipn_all2, L, Nat.sub_diag by lia. reflexivity.
Qed.

Lemma write_nil p : write p [] = p.
Proof. now destruct p. Qed.

Lemma view_inv p n l : view p n = Some l ->
  length l = Z.to_nat n /\ (n = 0 /\ l = [] \/ n <> 0 /\ load p n = Some l /\ l <> []).
Proof.
  unfold view. destruct (Z.eqb_spec n 0) as [->|Hn].
  - intros [= <-]. auto.
  - intros H. destruct (load_inv _ _ _ H) as (b & _ & _ & L & H0 & _). split; [exact L|]. right.
    repeat split; [assumption..|]. intros ->. cbn in L. lia.
Qed.

Lemma view_null p n l : view p n = Some l -> is_null p && negb (n =? 0) = false.
Proof.
  intros H. destruct (view_inv _ _ _ H) as (_ & [[-> _]|(_ & Hl & _)]); [apply andb_false_r|].
  now rewrite (load_not_null _ _ _ Hl).
Qed.

(** ** The one-shot interface *)

Lemma process_length stk key iv e aad d : stack_ok stk -> length key = 32%nat -> bytes_ok key -> bytes_ok iv ->
  bytes_ok aad -> bytes_ok d ->
  length (concat (snd (Gcm.gcm_process AesCtr.br_aes_x86ni_ctr_vtable Ghash.br_ghash_pclmul
    (AesCtr.br_aes_x86ni_ctr_init (stk_aes stk) key 32) iv (stk_gcm stk) e (chunk aad) (chunk d)))) = length d.
Proof.
  intros Hs Lk Bk Biv Ba Bd. assert (K := ctx_keyed stk Hs key Lk Bk). destruct Hs as (La & Lb & Bb & _).
  pose proof (Gcm.gcm_process_spec AesCtr.br_aes_x86ni_ctr_vtable Ghash.br_ghash_pclmul
    (AesCtr.br_aes_x86ni_ctr_init (stk_aes stk) key 32)
    (Fips197.Cipher key) K iv Biv (stk_gcm stk) e (chunk aad) (chunk d) Lb Bb
    (chunk_ok _ Ba) (chunk_ok _ Bd)) as H.
  destruct (Gcm.gcm_process _ _ _ iv (stk_gcm stk) e (chunk aad) (chunk d)) as [g outs].
  cbv zeta in H. cbn [snd]. rewrite (proj1 H), concat_chunk.
  apply (GCTR_shape _ blank_stack_ok key Lk Bk iv Biv).
Qed.

(** The operands of one call: the pointers are valid for the sizes passed and the bytes they
    denote are [key], [iv], [aad] and [src]. *)
Record operands (p_key p_src : option (list Z)) (src_len : Z) (p_dst p_iv p_aad : option (list Z))
  (aad_len : Z) (p_mac : option (list Z)) (key iv aad src : list Z) : Prop := {
  op_key : load p_key 32 = Some key;
  op_key_ok : bytes_ok key;
  op_iv : load p_iv 12 = Some iv;
  op_iv_ok : bytes_ok iv;
  op_aad : view p_aad aad_len = Some aad;
  op_aad_ok : bytes_ok aad;
  op_src : view p_src src_len = Some src;
  op_src_ok : bytes_ok src;
  op_dst : exists old, view p_dst src_len = Some old;
  op_mac : exists old, load p_mac 16 = Some old }.

Section Run.
Context (stk : stack) (Hstk : stack_ok stk) (e : bool) (p_key p_src : option (list Z)) (src_len : Z)
  (p_dst p_iv p_aad : option (list Z)) (aad_len : Z) (p_mac : option (list Z)) (key iv aad src : list Z)
  (Hop : operands p_key p_src src_len p_dst p_iv p_aad aad_len p_mac key iv aad src).

Lemma guards_pass :
  is_null p_key || ((is_null p_src || is_null p_dst) && negb (src_len =? 0)) ||
  is_null p_iv || (is_null p_aad && negb (aad_len =? 0)) || is_null p_mac = false.
Proof.
  destruct Hop as [Hk _ Hiv _ Haad _ Hsrc _ [od Hdst] [om Hmac]].
  rewrite (load_not_null _ _ _ Hk), (load_not_null _ _ _ Hiv), (load_not_null _ _ _ Hmac).
  rewrite (view_null _ _ _ Haad), andb_orb_distrib_l, (view_null _ _ _ Hsrc), (view_null _ _ _ Hdst).
  reflexivity.
Qed.

Abbreviation process := (Gcm.gcm_process AesCtr.br_aes_x86ni_ctr_vtable Ghash.br_ghash_pclmul
  (AesCtr.br_aes_x86ni_ctr_init (stk_aes stk) key 32) iv (stk_gcm stk)).

Abbreviation gctx := (Gcm.br_gcm_context AesCtr.br_aes_x86ni_ctr_keys).

Lemma run_message (c : gctx) (k : gctx -> option (list Z) -> option (sgx_status_t * option (list Z) * option (list Z))) :
  length (concat (snd (Gcm.run_chunks e c (chunk src)))) = length src ->
  (let? (c, p_dst) := (if negb (src_len =? 0)
                    then let? src := load p_src src_len in
                         let? p_dst := store p_dst src in
                         let? data := load p_dst src_len in
                         let '(c, out) := Gcm.br_gcm_run c e data in
                         let? p_dst := store p_dst out in
                         Some (c, p_dst)
                    else Some (c, p_dst)) in k c p_dst)
  = k (fst (Gcm.run_chunks e c (chunk src))) (write p_dst (concat (snd (Gcm.run_chunks e c (chunk src))))).
Proof.
  destruct Hop as [_ _ _ _ _ _ Hsrc _ [od Hdst] _]. intros L.
  destruct (view_inv _ _ _ Hsrc) as (Ls & [[-> ->]|(Hn & Hl & Hne)]).
  - cbn [Z.eqb negb chunk Gcm.run_chunks concat fst snd]. now rewrite write_nil.
  - destruct (Z.eqb_spec src_len 0); [contradiction|]. cbn [negb].
    destruct (view_inv _ _ _ Hdst) as (Ld & [[? _]|(_ & Hd & _)]); [contradiction|].
    assert (Ec : chunk src = [src]) by (now destruct src). rewrite Ec in *. cbn [Gcm.run_chunks] in *.
    rewrite Hl, (store_ok _ _ _ Hd), (load_write _ _ _ Hd) by exact Ls.
    destruct (Gcm.br_gcm_run c e src) as [c' out]. cbn [fst snd concat] in *. rewrite app_nil_r in *.
    rewrite (store_ok _ _ _ (load_write _ _ _ Hd _ Ls)), write_write by lia. reflexivity.
Qed.

Lemma inject_aad (c : gctx) (k : gctx -> option (sgx_status_t * option (list Z) * option (list Z))) :
  (let? c := (if negb (aad_len =? 0)
              then let? aad := load p_aad aad_len in Some (Gcm.br_gcm_aad_inject c aad)
              else Some c) in k c)
  = k (fold_left Gcm.br_gcm_aad_inject (chunk aad) c).
Proof.
  destruct Hop as [_ _ _ _ Haad _ _ _ _ _].
  destruct (view_inv _ _ _ Haad) as (Ls & [[-> ->]|(Hn & Hl & Hne)]); [reflexivity|].
  destruct (Z.eqb_spec aad_len 0); [contradiction|]. cbn [negb]. rewrite Hl.
  now destruct aad.
Qed.

(** The whole function, in terms of the incremental run from a fresh context. *)
Lemma run_process : length (concat (snd (process e (chunk aad) (chunk src)))) = length src ->
  (e = true -> length (snd (Gcm.br_gcm_get_tag (fst (process e (chunk aad) (chunk src))))) = 16%nat) ->
  sgxsd_aes_gcm_run stk e p_key p_src src_len p_dst p_iv p_aad aad_len p_mac
  = (let '(g, outs) := process e (chunk aad) (chunk src) in
     if e then Some (SGX_SUCCESS, write p_dst (concat outs), write p_mac (snd (Gcm.br_gcm_get_tag g)))
     else let? mac := load p_mac 16 in
       if negb (snd (Gcm.br_gcm_check_tag g mac) =? 0)
       then Some (SGX_SUCCESS, write p_dst (concat outs), p_mac)
       else Some (SGX_ERROR_MAC_MISMATCH, write p_dst (repeat 0 (Z.to_nat src_len)), p_mac)).
Proof.
  intros L Lt. unfold sgxsd_aes_gcm_run. rewrite guards_pass, (op_key _ _ _ _ _ _ _ _ _ _ _ _ Hop), (op_iv _ _ _ _ _ _ _ _ _ _ _ _ Hop).
  cbv zeta. rewrite inject_aad. unfold Gcm.gcm_process in *.
  rewrite run_message by exact L.
  destruct (Gcm.run_chunks e _ (chunk src)) as [g outs]. cbn [fst snd] in *.
  destruct Hop as [_ _ _ _ _ _ Hsrc _ [od Hdst] [om Hmac]].
  destruct e.
  - rewrite (store_ok _ _ _ Hmac) by (now apply Lt). reflexivity.
  - rewrite Hmac. destruct (negb _); [reflexivity|].
    assert (Ez : length (repeat 0 (Z.to_nat src_len)) = Z.to_nat src_len) by apply repeat_length.
    destruct (view_inv _ _ _ Hdst) as (Ld & [[-> _]|(_ & Hd & _)]).
    + destruct (view_inv _ _ _ Hsrc) as (Ls & _). rewrite Ls in L.
      destruct (concat outs) as [|? ?]; [|discriminate]. now destruct p_dst.
    + rewrite (store_ok _ _ _ (load_write _ _ _ Hd (concat outs) ltac:(rewrite L; apply (view_inv _ _ _ Hsrc)))) by exact Ez.
      rewrite write_write by (rewrite Ez, L; apply (view_inv _ _ _ Hsrc)).
      destruct (load_inv _ _ _ Hd) as (b & -> & _). reflexivity.
Qed.

End Run.

Lemma encrypt_spec stk p_key p_src src_len p_dst p_iv p_aad aad_len p_mac key iv aad src :
  stack_ok stk -> operands p_key p_src src_len p_dst p_iv p_aad aad_len p_mac key iv aad src ->
  sgxsd_aes_gcm_encrypt stk p_key p_src src_len p_dst p_iv p_aad aad_len p_mac
  = Some (SGX_SUCCESS, write p_dst (fst (aes_gcm_seal key iv aad src)),
          write p_mac (snd (aes_gcm_seal key iv aad src))).
Proof.
  intros Hs Hop. destruct (load_inv _ _ _ (op_key _ _ _ _ _ _ _ _ _ _ _ _ Hop)) as (_ & _ & _ & Lk & _).
  assert (Hop' := Hop). destruct Hop' as [_ Bk _ Biv _ Ba _ Bs _ _].
  pose proof (process_seal stk Hs key Lk Bk iv Biv aad src Ba Bs) as H.
  pose proof (process_length stk key iv true aad src Hs Lk Bk Biv Ba Bs) as L.
  unfold sgxsd_aes_gcm_encrypt.
  rewrite (run_process stk true _ _ _ _ _ _ _ _ _ _ _ _ Hop L).
  - destruct (Gcm.gcm_process _ _ _ iv _ true _ _) as [g outs]. rewrite <- H. reflexivity.
  - intros _. destruct (Gcm.gcm_process _ _ _ iv _ true _ _) as [g outs]. cbn [fst].
    change (length (snd (concat outs, snd (Gcm.br_gcm_get_tag g))) = 16%nat). rewrite H.
    apply (seal_tag (Aead := aes_gcm_aead)); [now split|assumption].
Qed.

Lemma decrypt_spec stk p_key p_src src_len p_dst p_iv p_aad aad_len p_mac key iv aad src tag :
  stack_ok stk -> operands p_key p_src src_len p_dst p_iv p_aad aad_len p_mac key iv aad src ->
  load p_mac 16 = Some tag -> bytes_ok tag ->
  sgxsd_aes_gcm_decrypt stk p_key p_src src_len p_dst p_iv p_aad aad_len p_mac
  = Some (match aes_gcm_open key iv aad src tag with
          | Some p => (SGX_SUCCESS, write p_dst p, p_mac)
          | None => (SGX_ERROR_MAC_MISMATCH, write p_dst (repeat 0 (Z.to_nat src_len)), p_mac)
          end).
Proof.
  intros Hs Hop Hm Bt. destruct (load_inv _ _ _ (op_key _ _ _ _ _ _ _ _ _ _ _ _ Hop)) as (_ & _ & _ & Lk & _).
  destruct (load_inv _ _ _ Hm) as (_ & _ & _ & Lt & _).
  assert (Hop' := Hop). destruct Hop' as [_ Bk _ Biv _ Ba _ Bs _ _].
  pose proof (process_open stk Hs key Lk Bk iv Biv aad src tag Ba Bs Lt Bt) as H.
  pose proof (process_length stk key iv false aad src Hs Lk Bk Biv Ba Bs) as L.
  unfold sgxsd_aes_gcm_decrypt.
  rewrite (run_process stk false _ _ _ _ _ _ _ _ _ _ _ _ Hop L) by discriminate.
  destruct (Gcm.gcm_process _ _ _ iv _ false _ _) as [g outs]. rewrite Hm, H.
  now destruct (negb _).
Qed.

(** C23. One-shot AES-256-GCM: when the operands are valid, encryption succeeds, writes the
    SP 800-38D ciphertext over the start of the destination and the 16-byte tag; decryption
    writes the plaintext and succeeds exactly when the tag is the right one, and otherwise
    reports a MAC mismatch with the destination zeroed. A NULL key, nonce or tag, or a NULL
    source, destination or additional data with a nonzero size, is an invalid parameter and
    changes nothing. The results do not depend on what the uninitialised contexts held. *)
Theorem aes_gcm_oneshot (stk : stack) (p_key p_src : option (list Z)) (src_len : Z)
  (p_dst p_iv p_aad : option (list Z)) (aad_len : Z) (p_mac : option (list Z)) (key iv aad src tag : list Z)
  (Hstk : stack_ok stk)
  (Hop : operands p_key p_src src_len p_dst p_iv p_aad aad_len p_mac key iv aad src)
  (Hmac : load p_mac 16 = Some tag) (Btag : bytes_ok tag) :
  sgxsd_aes_gcm_encrypt stk p_key p_src src_len p_dst p_iv p_aad aad_len p_mac
  = Some (SGX_SUCCESS, write p_dst (fst (GCM_AE (Fips197.Cipher key) iv aad src)),
          write p_mac (snd (GCM_AE (Fips197.Cipher key) iv aad src))) /\
  sgxsd_aes_gcm_decrypt stk p_key p_src src_len p_dst p_iv p_aad aad_len p_mac
  = Some (match GCM_AD (Fips197.Cipher key) iv aad src tag with
          | Some p => (SGX_SUCCESS, write p_dst p, p_mac)
          | None => (SGX_ERROR_MAC_MISMATCH, write p_dst (repeat 0 (Z.to_nat src_len)), p_mac)
          end) /\
  forall encrypt p_key' p_src' p_dst' p_iv' p_aad' p_mac',
    (p_key' = None \/ p_iv' = None \/ p_mac' = None \/
     src_len <> 0 /\ (p_src' = None \/ p_dst' = None) \/ aad_len <> 0 /\ p_aad' = None) ->
    sgxsd_aes_gcm_run stk encrypt p_key' p_src' src_len p_dst' p_iv' p_aad' aad_len p_mac'
    = Some (SGX_ERROR_INVALID_PARAMETER, p_dst', p_mac').
Proof.
  split; [now apply encrypt_spec|]. split; [now apply decrypt_spec|].
  intros e k s d i a m Hnull. unfold sgxsd_aes_gcm_run.
  destruct (_ || _) eqn:G; [reflexivity|]. exfalso. rewrite !orb_false_iff in G.
  destruct G as ((((Gk & Gs) & Gi) & Ga) & Gm).
  destruct Hnull as [->|[->|[->|[[Hn [->| ->]]|[Hn ->]]]]]; try discriminate;
    rewrite (proj2 (Z.eqb_neq _ _) Hn) in *; cbn in *; try discriminate.
  now destruct (is_null s).
Qed.

Lemma aes_gcm_oneshot_witness :
  sgxsd_aes_gcm_decrypt blank_stack (Some Gcm.tc16_key) (Some Gcm.tc16_cipher) 60 (Some (repeat 0xEE 64))
    (Some Gcm.tc16_iv) (Some Gcm.tc16_aad) 20 (Some Gcm.tc16_tag)
  = Some (SGX_SUCCESS, Some (Gcm.tc16_plain ++ repeat 0xEE 4), Some Gcm.tc16_tag).
Proof.
  rewrite (proj1 (proj2 (aes_gcm_oneshot blank_stack (Some Gcm.tc16_key) (Some Gcm.tc16_cipher) 60
    (Some (repeat 0xEE 64)) (Some Gcm.tc16_iv) (Some Gcm.tc16_aad) 20 (Some Gcm.tc16_tag)
    Gcm.tc16_key Gcm.tc16_iv Gcm.tc16_aad Gcm.tc16_cipher Gcm.tc16_tag blank_stack_ok
    ltac:(constructor; try (eexists; reflexivity); try reflexivity; apply words_ok_forallb; reflexivity)
    eq_refl (words_ok_forallb 8 Gcm.tc16_tag eq_refl)))).
  vm_compute. reflexivity.
Defined.

End SgxsdCrypto.
