(* ===== verification/Threads.v ===== *)
(** Programs that run concurrently on a shared state: indivisible actions, spin locks, their
    sequential execution and their interleavings, with a rely/guarantee rule for safety and a
    bracketing rule for absence of deadlock. The entry points of Sgxsd.v are such programs. *)
From S2P Require Import Prelude.
From Stdlib Require Import Arith List Bool Lia Relations.

Module Threads.

(** What a state must offer for the locks named by [L]. *)
Class LockState (St L : Type) := {
  lock_free : L -> St -> bool;
  lock_set : L -> bool -> St -> St;
  lock_eq_dec (l l' : L) : {l = l'} + {l <> l'};
  lock_free_release l st : lock_free l (lock_set l false st) = true;
  lock_free_other l l' b st : l <> l' -> lock_free l (lock_set l' b st) = lock_free l st }.

Section Programs.
Context {St L : Type} {LS : LockState St L}.

(** An action returns nothing where the C code has no defined behaviour. *)
Inductive prog (A : Type) : Type :=
| Ret (a : A)
| Act {B : Type} (f : St -> option (B * St)) (k : B -> prog A)
| Lock (l : L) (k : prog A)
| Unlock (l : L) (k : prog A).
Arguments Ret {A}.
Arguments Act {A B}.
Arguments Lock {A}.
Arguments Unlock {A}.

Fixpoint bind {A B} (p : prog A) (k : A -> prog B) : prog B :=
  match p with
  | Ret a => k a
  | Act f k' => Act f (fun x => bind (k' x) k)
  | Lock l p' => Lock l (bind p' k)
  | Unlock l p' => Unlock l (bind p' k)
  end.

Definition act {B} (f : St -> option (B * St)) : prog B := Act f Ret.
Definition lock (l : L) : prog unit := Lock l (Ret tt).
Definition unlock (l : L) : prog unit := Unlock l (Ret tt).
Definition get {B} (f : St -> B) : prog B := act (fun st => Some (f st, st)).
Definition modify (f : St -> St) : prog unit := act (fun st => Some (tt, f st)).
(** The value of a partial computation that does not touch the state. *)
Definition lift {B} (o : option B) : prog B := act (fun st => let? b := o in Some (b, st)).

(** ** Sequential execution *)

Inductive outcome (A : Type) :=
| Done (a : A) (st : St)
| Undefined
| Blocked.
Arguments Done {A}.
Arguments Undefined {A}.
Arguments Blocked {A}.

Fixpoint run {A} (p : prog A) (st : St) : outcome A :=
  match p with
  | Ret a => Done a st
  | Act f k => match f st with Some (b, st') => run (k b) st' | None => Undefined end
  | Lock l p' => if lock_free l st then run p' (lock_set l true st) else Blocked
  | Unlock l p' => run p' (lock_set l false st)
  end.

Lemma run_bind {A B} (p : prog A) (k : A -> prog B) st :
  run (bind p k) st = match run p st with
                      | Done a st' => run (k a) st'
                      | Undefined => Undefined
                      | Blocked => Blocked
                      end.
Proof.
  revert st. induction p as [a|C f k' IH|l p IH|l p IH]; intros st; cbn [bind run].
  - reflexivity.
  - destruct (f st) as [[b st']|]; [apply IH|reflexivity].
  - destruct (lock_free l st); [apply IH|reflexivity].
  - apply IH.
Qed.

(** A part of the state that a program leaves alone. *)
Fixpoint preserves {A B} (f : St -> B) (p : prog A) : Prop :=
  match p with
  | Ret _ => True
  | Act g k => (forall st b st', g st = Some (b, st') -> f st' = f st) /\ forall b, preserves f (k b)
  | Lock l p' | Unlock l p' => (forall b st, f (lock_set l b st) = f st) /\ preserves f p'
  end.

Lemma preserves_bind {A B C} (f : St -> C) (p : prog A) (k : A -> prog B) :
  preserves f p -> (forall a, preserves f (k a)) -> preserves f (bind p k).
Proof. intros Hp Hk. induction p; cbn [preserves bind] in *; [apply Hk|split; [apply Hp|]..]; firstorder. Qed.

Lemma run_preserves {A B} (f : St -> B) (p : prog A) st a st' : preserves f p -> run p st = Done a st' -> f st' = f st.
Proof.
  revert st. induction p as [x|C g k IH|l p IH|l p IH]; intros st; cbn [preserves run].
  - now intros _ [= _ <-].
  - intros [Hg Hk]. destruct (g st) as [[b st1]|] eqn:E; [|discriminate]. intros H. rewrite (IH b st1 (Hk b) H). exact (Hg _ _ _ E).
  - intros [Hl Hp]. destruct (lock_free l st); [|discriminate]. intros H. rewrite (IH _ Hp H). apply Hl.
  - intros [Hl Hp] H. rewrite (IH _ Hp H). apply Hl.
Qed.

(** ** Interleavings *)

Inductive stepped (A : Type) :=
| Moves (p : prog A) (st : St)
| Finished (a : A)
| Waits
| Wrong.
Arguments Moves {A}.
Arguments Finished {A}.
Arguments Waits {A}.
Arguments Wrong {A}.

(** The next step of one thread; a thread that finds a lock taken spins. *)
Definition step {A} (p : prog A) (st : St) : stepped A :=
  match p with
  | Ret a => Finished a
  | Act f k => match f st with Some (b, st') => Moves (k b) st' | None => Wrong end
  | Lock l p' => if lock_free l st then Moves p' (lock_set l true st) else Waits
  | Unlock l p' => Moves p' (lock_set l false st)
  end.

Definition pool (A : Type) : Type := list (prog A).

(** One thread of the pool moves. *)
Inductive pool_step {A} : pool A * St -> pool A * St -> Prop :=
| pool_step_intro t1 p t2 st p' st' :
    step p st = Moves p' st' -> pool_step (t1 ++ p :: t2, st) (t1 ++ p' :: t2, st').

Definition reachable {A} : pool A * St -> pool A * St -> Prop := clos_refl_trans_1n _ pool_step.

(** The threads numbered by a schedule move in turn. *)
Fixpoint run_schedule {A} (sched : list nat) (c : pool A * St) : option (pool A * St) :=
  match sched with
  | [] => Some c
  | i :: sched' =>
      let? p := nth_error (fst c) i in
      match step p (snd c) with
      | Moves p' st' => run_schedule sched' (firstn i (fst c) ++ p' :: skipn (S i) (fst c), st')
      | _ => None
      end
  end.

Lemma schedule_reachable {A} sched (c c' : pool A * St) :
  run_schedule sched c = Some c' -> reachable c c'.
Proof.
  revert c. induction sched as [|i sched IH]; intros [ts st] H; cbn [run_schedule fst snd] in H.
  - injection H as <-. apply rt1n_refl.
  - destruct (nth_error ts i) as [p|] eqn:E; [|discriminate].
    destruct (step p st) as [p' st'| | |] eqn:Es; try discriminate.
    eapply Relation_Operators.rt1n_trans; [|exact (IH _ H)]. clear H IH. apply nth_error_split in E. destruct E as (t1 & t2 & -> & <-).
    rewrite firstn_app, firstn_all, Nat.sub_diag, firstn_O, app_nil_r.
    replace (skipn (S (length t1)) (t1 ++ p :: t2)) with t2
      by (rewrite skipn_app, skipn_all2, Nat.sub_succ_l, Nat.sub_diag by lia; reflexivity).
    now constructor.
Qed.

(** ** Safety by rely and guarantee *)

Section Safety.
(** An invariant of the shared state; a lock that protects a part of it; how the state may
    evolve when any thread moves, and when a thread that does not hold the lock moves. *)
Context (inv : St -> Prop) (token : L) (evolves evolves_unheld : St -> St -> Prop).

Class Rely : Prop := {
  evolves_refl st : evolves st st;
  evolves_trans a b c : evolves a b -> evolves b c -> evolves a c;
  unheld_refl st : evolves_unheld st st;
  unheld_trans a b c : evolves_unheld a b -> evolves_unheld b c -> evolves_unheld a c;
  unheld_evolves a b : evolves_unheld a b -> evolves a b;
  lock_inv l b st : inv st -> inv (lock_set l b st);
  lock_unheld l b st : evolves_unheld st (lock_set l b st);
  token_taken st : lock_free token (lock_set token true st) = false }.
Context {RY : Rely}.

(** What a thread relies on the others for, and what it guarantees them, according to whether
    it holds the lock. *)
Definition rely (h : bool) : St -> St -> Prop := if h then evolves_unheld else evolves.
Definition guar (h : bool) : St -> St -> Prop := if h then evolves else evolves_unheld.

Definition after_lock (l : L) (b h : bool) : bool := if lock_eq_dec l token then b else h.

(** [p], last scheduled in the state [st0], has defined behaviour whatever the other threads
    do meanwhile, keeps the invariant and the guarantee, and returns values that satisfy [Q]. *)
Fixpoint safe {A} (Q : bool -> A -> St -> Prop) (h : bool) (p : prog A) (st0 : St) : Prop :=
  match p with
  | Ret a => forall st, rely h st0 st -> inv st -> Q h a st
  | Act f k => forall st, rely h st0 st -> inv st ->
      match f st with
      | Some (b, st') => inv st' /\ guar h st st' /\ lock_free token st' = lock_free token st /\ safe Q h (k b) st'
      | None => False
      end
  | Lock l p' => forall st, rely h st0 st -> inv st -> safe Q (after_lock l true h) p' (lock_set l true st)
  | Unlock l p' => forall st, rely h st0 st -> inv st ->
      (l = token -> h = true) /\ safe Q (after_lock l false h) p' (lock_set l false st)
  end.

Lemma rely_refl h st : rely h st st.
Proof. destruct h; [apply unheld_refl|apply evolves_refl]. Qed.

Lemma rely_trans h a b c : rely h a b -> rely h b c -> rely h a c.
Proof. destruct h; [apply unheld_trans|apply evolves_trans]. Qed.

Lemma safe_rely {A} Q h (p : prog A) st st' : safe Q h p st -> rely h st st' -> safe Q h p st'.
Proof.
  intros H Hev. destruct p; cbn [safe] in *; intros s Hs Hi; apply H; trivial; now apply rely_trans with st'.
Qed.

Lemma safe_impl {A} (Q Q' : bool -> A -> St -> Prop) h p st :
  (forall h a st, inv st -> Q h a st -> Q' h a st) -> safe Q h p st -> safe Q' h p st.
Proof.
  intros HQ. revert h st. induction p as [a|C f k IH|l p IH|l p IH]; intros h st0; cbn [safe]; intros H.
  - auto.
  - intros st Hev Hi. specialize (H st Hev Hi). destruct (f st) as [[b st']|]; [|contradiction].
    destruct H as (H1 & H2 & H3 & H4). auto.
  - auto.
  - intros st Hev Hi. destruct (H st Hev Hi). auto.
Qed.

Lemma safe_bind {A B} (Q : bool -> A -> St -> Prop) (R : bool -> B -> St -> Prop) h p k st :
  safe Q h p st -> (forall h a st, inv st -> Q h a st -> safe R h (k a) st) -> safe R h (bind p k) st.
Proof.
  intros Hp Hk. revert h st Hp. induction p as [a|C f k' IH|l p IH|l p IH]; intros h st0 H; cbn [bind].
  - cbn [safe] in H.
    assert (G : forall st, rely h st0 st -> inv st -> safe R h (k a) st) by auto. clear H Hk.
    destruct (k a); cbn [safe] in *; intros st Hev Hi; apply (G st Hev Hi st (rely_refl h st) Hi).
  - cbn [safe] in *. intros st Hev Hi. specialize (H st Hev Hi).
    destruct (f st) as [[b st']|]; [|contradiction]. destruct H as (H1 & H2 & H3 & H4). auto.
  - cbn [safe] in *. auto.
  - cbn [safe] in *. intros st Hev Hi. destruct (H st Hev Hi). auto.
Qed.

Lemma safe_act {B} (Q : bool -> B -> St -> Prop) h f st0 :
  (forall st, rely h st0 st -> inv st -> exists b st', f st = Some (b, st') /\ inv st' /\ guar h st st' /\
     lock_free token st' = lock_free token st /\ forall st'', rely h st' st'' -> inv st'' -> Q h b st'') ->
  safe Q h (act f) st0.
Proof.
  intros H st Hev Hi. destruct (H st Hev Hi) as (b & st' & -> & H1 & H2 & H3 & H4). auto.
Qed.

Lemma guar_refl h st : guar h st st.
Proof. destruct h; [apply evolves_refl|apply unheld_refl]. Qed.

Lemma safe_get {B} (Q : bool -> B -> St -> Prop) h f st0 :
  (forall st, rely h st0 st -> inv st -> forall st', rely h st st' -> inv st' -> Q h (f st) st') ->
  safe Q h (get f) st0.
Proof.
  intros H. apply safe_act. intros st Hev Hi. exists (f st), st.
  split; [reflexivity|]. split; [assumption|]. split; [apply guar_refl|]. auto.
Qed.

Lemma safe_ret {A} (Q : bool -> A -> St -> Prop) h a st0 :
  (forall st, rely h st0 st -> inv st -> Q h a st) -> safe Q h (Ret a) st0.
Proof. trivial. Qed.

Lemma guar_evolves h st st' : guar h st st' -> evolves st st'.
Proof. destruct h; cbn; [trivial|apply unheld_evolves]. Qed.

(** A fact that no move of any thread changes holds on. *)
Lemma safe_frame {A} (G : St -> Prop) (Q : bool -> A -> St -> Prop) p : (forall st st', evolves st st' -> G st -> G st') ->
  forall h st, safe Q h p st -> G st -> safe (fun h a st => Q h a st /\ G st) h p st.
Proof.
  intros HG. assert (Hrely : forall h st st', rely h st st' -> G st -> G st').
  { intros [|] st st' Hr; apply HG; [now apply unheld_evolves|exact Hr]. }
  induction p as [a|C f k IH|l p IH|l p IH]; intros h st0 H H0; cbn [safe] in *; intros st Hev Hi; pose proof (Hrely _ _ _ Hev H0) as H1.
  - auto.
  - specialize (H st Hev Hi). destruct (f st) as [[b st']|]; [|contradiction]. destruct H as (I1 & I2 & I3 & I4).
    pose proof (HG _ _ (guar_evolves h _ _ I2) H1). auto.
  - apply IH; [auto|]. exact (HG _ _ (unheld_evolves _ _ (lock_unheld l true st)) H1).
  - destruct (H st Hev Hi) as [I1 I2]. split; [exact I1|]. apply IH; [exact I2|]. exact (HG _ _ (unheld_evolves _ _ (lock_unheld l false st)) H1).
Qed.

(** A thread that is safe is not undefined; its next step keeps the invariant, the guarantee
    and its own safety, and moves the lock as its flag says. *)
Lemma safe_step {A} (Q : bool -> A -> St -> Prop) h p st : safe Q h p st -> inv st -> (h = true -> lock_free token st = false) ->
  match step p st with
  | Moves p' st' => exists h', inv st' /\ guar (h && h') st st' /\ safe Q h' p' st' /\
      (h' = h /\ lock_free token st' = lock_free token st \/
       h' = negb h /\ lock_free token st' = h /\ (h = false -> lock_free token st = true))
  | Finished a => Q h a st
  | Waits => True
  | Wrong => False
  end.
Proof.
  intros Hp Hi Hh. pose proof (rely_refl h st) as Hr. destruct p as [a|C f k|l p|l p]; cbn [step safe] in *.
  - auto.
  - specialize (Hp st Hr Hi). destruct (f st) as [[b st']|]; [|contradiction].
    destruct Hp as (H1 & H2 & H3 & H4). exists h. rewrite andb_diag. auto 7.
  - destruct (lock_free l st) eqn:E; [|trivial]. exists (after_lock l true h). unfold after_lock.
    specialize (Hp st Hr Hi). unfold after_lock in Hp. split; [now apply lock_inv|].
    split; [destruct (_ && _); [apply unheld_evolves|]; apply lock_unheld|]. split; [exact Hp|].
    destruct (lock_eq_dec l token) as [->|Hn].
    + right. rewrite token_taken. destruct h; [rewrite Hh in E by reflexivity; discriminate|]. auto.
    + left. rewrite lock_free_other by auto. auto.
  - exists (after_lock l false h). unfold after_lock.
    specialize (Hp st Hr Hi). unfold after_lock in Hp. destruct Hp as [Ht Hp]. split; [now apply lock_inv|].
    split; [destruct (_ && _); [apply unheld_evolves|]; apply lock_unheld|]. split; [exact Hp|].
    destruct (lock_eq_dec l token) as [->|Hn].
    + right. rewrite Ht, lock_free_release by reflexivity. repeat split. discriminate.
    + left. rewrite lock_free_other by auto. auto.
Qed.

(** Every thread is safe, and at most one holds the lock. *)
Definition pool_ok {A} (Q : bool -> A -> St -> Prop) (c : pool A * St) : Prop :=
  inv (snd c) /\
  ((lock_free token (snd c) = true /\ Forall (fun p => safe Q false p (snd c)) (fst c)) \/
   (lock_free token (snd c) = false /\ exists t1 p t2, fst c = t1 ++ p :: t2 /\ safe Q true p (snd c) /\
      Forall (fun p => safe Q false p (snd c)) (t1 ++ t2))).

Lemma others_safe {A} (Q : bool -> A -> St -> Prop) h st st' ts : guar h st st' ->
  Forall (fun p => safe Q false p st) ts -> Forall (fun p => safe Q false p st') ts.
Proof.
  intros Hg. apply Forall_impl. intros p Hp. apply safe_rely with st; [exact Hp|].
  exact (guar_evolves h _ _ Hg).
Qed.

Lemma app_elt {A} (t1 t2 u1 u2 : list A) p q : t1 ++ p :: t2 = u1 ++ q :: u2 ->
  (t1 = u1 /\ p = q /\ t2 = u2) \/
  (exists m, t1 = u1 ++ q :: m /\ u2 = m ++ p :: t2) \/
  (exists m, u1 = t1 ++ p :: m /\ t2 = m ++ q :: u2).
Proof.
  revert u1. induction t1 as [|x t1 IH]; intros [|y u1] H; cbn in H; injection H as H1 H2; subst.
  - auto.
  - right. right. now exists u1.
  - right. left. now exists t1.
  - destruct (IH _ H2) as [(-> & -> & ->)|[(m & -> & ->)|(m & -> & ->)]];
      [now left|right; left; now exists m|right; right; now exists m].
Qed.

Lemma pool_step_ok {A} (Q : bool -> A -> St -> Prop) c c' : pool_ok Q c -> pool_step c c' -> pool_ok Q c'.
Proof.
  intros [Hi H] Hs. destruct Hs as [t1 p t2 st p' st' Hs]. cbn [fst snd] in *.
  destruct H as [[Hf Hall]|(Hf & u1 & q & u2 & Eq & Hq & Hall)].
  - apply Forall_elt in Hall as Hp. apply Forall_app in Hall. destruct Hall as [H1 H2].
    apply Forall_inv_tail in H2. pose proof (safe_step Q false p st Hp Hi ltac:(discriminate)) as H. rewrite Hs in H.
    destruct H as (h' & Hi' & Hg & Hp' & Hl). split; [exact Hi'|].
    pose proof (others_safe Q _ st st' t1 Hg H1) as G1. pose proof (others_safe Q _ st st' t2 Hg H2) as G2.
    destruct Hl as [[-> El]|(-> & El & _)]; [left|right]; cbn [fst snd]; rewrite El.
    + split; [exact Hf|]. apply Forall_app. auto.
    + split; [reflexivity|]. exists t1, p', t2. repeat split; [exact Hp'|]. apply Forall_app. auto.
  - apply Forall_app in Hall. destruct Hall as [H1 H2].
    destruct (app_elt _ _ _ _ _ _ Eq) as [(-> & -> & ->)|Hc].
    + pose proof (safe_step Q true q st Hq Hi ltac:(trivial)) as H. rewrite Hs in H.
      destruct H as (h' & Hi' & Hg & Hp' & Hl). split; [exact Hi'|].
      pose proof (others_safe Q _ st st' u1 Hg H1) as G1. pose proof (others_safe Q _ st st' u2 Hg H2) as G2.
      destruct Hl as [[-> El]|(-> & El & _)]; [right|left]; cbn [fst snd]; rewrite El.
      * split; [exact Hf|]. exists u1, p', u2. repeat split; [exact Hp'|]. apply Forall_app. auto.
      * split; [reflexivity|]. apply Forall_app. auto.
    + assert (Hp : safe Q false p st).
      { destruct Hc as [(m & -> & ->)|(m & -> & ->)]; [apply Forall_elt in H2|apply Forall_elt in H1]; assumption. }
      pose proof (safe_step Q false p st Hp Hi ltac:(discriminate)) as H. rewrite Hs in H.
      destruct H as (h' & Hi' & Hg & Hp' & Hl). split; [exact Hi'|]. right.
      destruct Hl as [[-> El]|(_ & _ & El)]; [|rewrite El in Hf by reflexivity; discriminate].
      cbn [fst snd]. rewrite El. split; [exact Hf|].
      pose proof (others_safe Q _ st st' u1 Hg H1) as G1. pose proof (others_safe Q _ st st' u2 Hg H2) as G2.
      pose proof (safe_rely Q true q st st' Hq Hg) as Gq.
      destruct Hc as [(m & -> & ->)|(m & -> & ->)].
      * exists u1, q, (m ++ p' :: t2). rewrite <- app_assoc. repeat split; [exact Gq|].
        apply Forall_app. split; [exact G1|]. apply Forall_app in G2. destruct G2 as [G2 G3].
        apply Forall_app. split; [exact G2|]. apply Forall_inv_tail in G3. auto.
      * exists (t1 ++ p' :: m), q, u2. rewrite <- app_assoc. repeat split; [exact Gq|].
        apply Forall_app in G1. destruct G1 as [G1 G3]. apply Forall_inv_tail in G3.
        rewrite <- app_assoc. apply Forall_app. split; [exact G1|]. constructor; [exact Hp'|]. apply Forall_app. auto.
Qed.

(** In every interleaving the invariant holds and no thread is about to do something
    undefined; a thread that has finished returned what it must. *)
Lemma pool_reachable_ok {A} (Q : bool -> A -> St -> Prop) c c' : pool_ok Q c -> reachable c c' -> pool_ok Q c'.
Proof. intros Hc H. induction H as [|c c1 c2 Hs _ IH]; eauto using pool_step_ok. Qed.

Lemma member_safe {A} (Q : bool -> A -> St -> Prop) ts st p :
  (lock_free token st = true /\ Forall (fun p => safe Q false p st) ts) \/
  (lock_free token st = false /\ exists t1 p t2, ts = t1 ++ p :: t2 /\ safe Q true p st /\
     Forall (fun p => safe Q false p st) (t1 ++ t2)) -> In p ts ->
  exists h, safe Q h p st /\ (h = true -> lock_free token st = false).
Proof.
  intros [[Hf Hall]|(Hf & u1 & q & u2 & -> & Hq & Hall)] Hin; rewrite Forall_forall in Hall.
  - exists false. split; [auto|discriminate].
  - apply in_app_or in Hin. destruct Hin as [Hin|[<-|Hin]]; [|eauto|];
      exists false; (split; [apply Hall, in_or_app; auto|discriminate]).
Qed.

(** Every step is one that any thread may make. *)
Lemma pool_step_evolves {A} (Q : bool -> A -> St -> Prop) c c' : pool_ok Q c -> pool_step c c' -> evolves (snd c) (snd c').
Proof.
  intros [Hi H] Hs. destruct Hs as [t1 p t2 st p' st' Hs]. cbn [fst snd] in *.
  assert (exists h, safe Q h p st /\ (h = true -> lock_free token st = false)) as (h & Hp & Hh).
  { apply (member_safe Q (t1 ++ p :: t2)); [exact H|]. apply in_elt. }
  pose proof (safe_step Q h p st Hp Hi Hh) as G. rewrite Hs in G. destruct G as (h' & _ & Hg & _).
  exact (guar_evolves _ _ _ Hg).
Qed.

Lemma pool_reachable_evolves {A} (Q : bool -> A -> St -> Prop) c c' : pool_ok Q c -> reachable c c' -> evolves (snd c) (snd c').
Proof.
  intros Hc H. induction H as [|c c1 c2 Hs _ IH]; [apply evolves_refl|].
  eapply evolves_trans; [exact (pool_step_evolves Q c c1 Hc Hs)|apply IH, (pool_step_ok Q c c1 Hc Hs)].
Qed.

Lemma pool_ok_thread {A} (Q : bool -> A -> St -> Prop) ts st p : pool_ok Q (ts, st) -> In p ts ->
  match step p st with Wrong => False | Finished a => exists h, Q h a st | _ => True end.
Proof.
  intros [Hi H] Hin. destruct (member_safe Q ts st p H Hin) as (h & Hp & Hh).
  pose proof (safe_step Q h p st Hp Hi Hh) as G. destruct (step p st); eauto.
Qed.

(** Alone, a safe program is never undefined. *)
Lemma safe_run {A} (Q : bool -> A -> St -> Prop) h p st0 st : safe Q h p st0 -> rely h st0 st -> inv st ->
  match run p st with
  | Done a st' => inv st' /\ exists h', Q h' a st'
  | Undefined => False
  | Blocked => True
  end.
Proof.
  revert h st0 st. induction p as [a|C f k IH|l p IH|l p IH]; intros h st0 st; cbn [safe run]; intros H Hev Hi.
  - eauto.
  - specialize (H st Hev Hi). destruct (f st) as [[b st']|]; [|contradiction]. destruct H as (H1 & H2 & H3 & H4).
    exact (IH b h st' st' H4 (rely_refl h st') H1).
  - destruct (lock_free l st); [|trivial].
    exact (IH _ _ _ (H st Hev Hi) (rely_refl _ _) (lock_inv l true st Hi)).
  - exact (IH _ _ _ (proj2 (H st Hev Hi)) (rely_refl _ _) (lock_inv l false st Hi)).
Qed.

End Safety.

(** ** Absence of deadlock *)

Section Progress.
(** Locks are taken in the order of their rank. *)
Context (rank : L -> nat).

(** An action may release locks, never take one. *)
Definition keeps_free (st st' : St) : Prop := forall l, lock_free l st = true -> lock_free l st' = true.

Definition above (l : L) (held : list L) : Prop := Forall (fun l' => rank l' < rank l) held.

(** Locks are taken and released like brackets, starting with [held] and ending with [held']. *)
Fixpoint balanced {A} (held held' : list L) (p : prog A) : Prop :=
  match p with
  | Ret _ => held = held'
  | Act f k => (forall st b st', f st = Some (b, st') -> keeps_free st st') /\ forall b, balanced held held' (k b)
  | Lock l p' => above l held /\ balanced (l :: held) held' p'
  | Unlock l p' => match held with l' :: h => l = l' /\ balanced h held' p' | [] => False end
  end.

Lemma balanced_bind {A B} h1 h2 h3 (p : prog A) (k : A -> prog B) :
  balanced h1 h2 p -> (forall a, balanced h2 h3 (k a)) -> balanced h1 h3 (bind p k).
Proof.
  intros Hp Hk. revert h1 Hp. induction p as [a|C f k' IH|l p IH|l p IH]; intros h1; cbn [balanced bind].
  - now intros ->.
  - intros [Hf H]. split; [exact Hf|]. auto.
  - intros [Hl H]. auto.
  - destruct h1 as [|l' h]; [contradiction|]. intros (-> & H). auto.
Qed.

(** What each thread holds; a lock that is taken is held by one of them. *)
Definition pool_balanced {A} (c : pool A * St) : Prop :=
  exists helds, Forall2 (fun held p => balanced held [] p) helds (fst c) /\
    forall l, lock_free l (snd c) = false -> Exists (In l) helds.

(** A step of a thread and of what it holds: locks it does not hold in the end are not taken
    because of it. *)
Lemma balanced_step {A} held (p p' : prog A) st st' : balanced held [] p -> step p st = Moves p' st' ->
  exists held', balanced held' [] p' /\
    forall l, lock_free l st' = false -> In l held' \/ (lock_free l st = false /\ ~ In l held).
Proof.
  destruct p as [a|B f k|l p|l p]; cbn [step balanced]; intros Hb Hs.
  - discriminate.
  - destruct Hb as [Hf Hb]. destruct (f st) as [[b st1]|] eqn:E; [|discriminate]. injection Hs as <- <-.
    exists held. split; [apply Hb|]. intros l Hl.
    assert (lock_free l st = false) as Hl0.
    { destruct (lock_free l st) eqn:E0; [|reflexivity]. now rewrite (Hf _ _ _ E l E0) in Hl. }
    destruct (in_dec lock_eq_dec l held); auto.
  - destruct Hb as [Ha Hb]. destruct (lock_free l st) eqn:E; [|discriminate]. injection Hs as <- <-.
    exists (l :: held). split; [exact Hb|]. intros l1 Hl1. destruct (lock_eq_dec l1 l) as [->|Hn]; [left; now left|].
    rewrite lock_free_other in Hl1 by exact Hn. destruct (in_dec lock_eq_dec l1 held); [left; now right|auto].
  - destruct held as [|l' h]; [contradiction|]. destruct Hb as [-> Hb]. injection Hs as <- <-.
    exists h. split; [exact Hb|]. intros l1 Hl1. destruct (lock_eq_dec l1 l') as [->|Hn];
      [now rewrite lock_free_release in Hl1|]. rewrite lock_free_other in Hl1 by exact Hn.
    destruct (in_dec lock_eq_dec l1 h); [auto|]. right. split; [exact Hl1|]. intros [->|X]; auto.
Qed.

Lemma pool_balanced_step {A} (c c' : pool A * St) : pool_balanced c -> pool_step c c' -> pool_balanced c'.
Proof.
  intros (helds & Hb & Hh) Hs. destruct Hs as [t1 p t2 st p' st' Hs]. cbn [fst snd] in *.
  apply Forall2_app_inv_r in Hb. destruct Hb as (h1 & hs2 & H1 & H2 & ->).
  inversion H2 as [|held p0 h2 t0 Hp Ht]; subst.
  destruct (balanced_step held p p' st st' Hp Hs) as (held' & Hp' & Hl).
  exists (h1 ++ held' :: h2). cbn [fst snd]. split; [apply Forall2_app; [exact H1|now constructor]|].
  intros l Hf. apply Exists_app. destruct (Hl l Hf) as [Hin|[Hf0 Hn]]; [right; now left|].
  specialize (Hh l Hf0). apply Exists_app in Hh. destruct Hh as [Hh|Hh]; [now left|right].
  inversion Hh as [? ? X|? ? X]; subst; [contradiction|now right].
Qed.

Lemma pool_balanced_reachable {A} (c c' : pool A * St) : pool_balanced c -> reachable c c' -> pool_balanced c'.
Proof. intros Hc H. induction H as [|c c1 c2 Hs _ IH]; eauto using pool_balanced_step. Qed.

(** A thread that waits, waits for a lock above all those it holds. *)
Lemma waits_above {A} held (p : prog A) st : balanced held [] p -> step p st = Waits ->
  exists l, lock_free l st = false /\ above l held.
Proof.
  destruct p as [a|B f k|l p|l p]; cbn [step balanced]; intros Hb Hs; try discriminate.
  - destruct (f st) as [[? ?]|]; discriminate.
  - exists l. destruct (lock_free l st); [discriminate|]. now split.
Qed.

Definition finished {A} (p : prog A) : bool := match p with Ret _ => true | _ => false end.
Definition moves {A} (st : St) (p : prog A) : bool := match step p st with Moves _ _ => true | _ => false end.

(** Where no thread can move and none is undefined, a lock that is taken is held by a thread
    that waits for one of higher rank. *)
Lemma no_stuck_lock {A} (ts : pool A) st :
  pool_balanced (ts, st) -> Forall (fun p => step p st <> Wrong) ts -> forallb (fun p => negb (moves st p)) ts = true ->
  (exists n, forall l, rank l <= n) -> forall l, lock_free l st = true.
Proof.
  intros (helds & Hb & Hh) Hw Hm [n Hn] l. cbn [fst snd] in *. destruct (lock_free l st) eqn:E; [reflexivity|exfalso].
  remember (n - rank l) as d eqn:Ed. revert l E Ed. induction d as [d IH] using lt_wf_ind. intros l E ->.
  pose proof (Hh l E) as Hx. apply Exists_exists in Hx. destruct Hx as (held & Hin & Hl).
  assert (exists p, In p ts /\ balanced held [] p) as (p & Hp & Hbal).
  { clear -Hb Hin. induction Hb as [|h p hs ps H _ IHb]; [contradiction|]. destruct Hin as [<-|Hin]; [exists p; split; [now left|exact H]|].
    destruct (IHb Hin) as (q & Hq & Hq'). exists q. split; [now right|exact Hq']. }
  rewrite Forall_forall in Hw. rewrite forallb_forall in Hm. specialize (Hw p Hp). specialize (Hm p Hp). unfold moves in Hm.
  destruct (step p st) eqn:Es; try discriminate; [|destruct (waits_above held p st Hbal Es) as (l' & Hl' & Ha)|contradiction].
  - destruct p; cbn [step balanced] in *; try discriminate; [subst; contradiction|destruct (f st) as [[? ?]|]; discriminate|destruct (lock_free _ _); discriminate].
  - unfold above in Ha. rewrite Forall_forall in Ha. specialize (Ha l Hl). pose proof (Hn l').
    apply (IH (n - rank l')) with l'; [lia|exact Hl'|reflexivity].
Qed.

(** Then every thread has finished. *)
Lemma stuck_finished {A} (ts : pool A) st :
  pool_balanced (ts, st) -> Forall (fun p => step p st <> Wrong) ts -> forallb (fun p => negb (moves st p)) ts = true ->
  (exists n, forall l, rank l <= n) -> forallb finished ts = true /\ forall l, lock_free l st = true.
Proof.
  intros Hb Hw Hm Hn. pose proof (no_stuck_lock ts st Hb Hw Hm Hn) as Hfree. split; [|exact Hfree].
  rewrite forallb_forall in *. rewrite Forall_forall in Hw. intros p Hp. specialize (Hw p Hp). specialize (Hm p Hp).
  unfold moves in Hm. destruct p as [a|B f k|l p|l p]; cbn [step finished] in *; [reflexivity|..].
  - destruct (f st) as [[? ?]|]; [discriminate|contradiction].
  - rewrite Hfree in Hm. discriminate.
  - discriminate.
Qed.

End Progress.

(** ** Termination *)

(** What remains of a thread after a step. *)
Inductive remains {A} : prog A -> prog A -> Prop :=
| remains_act {B} f (k : B -> prog A) b : remains (k b) (Act f k)
| remains_lock l p : remains p (Lock l p)
| remains_unlock l p : remains p (Unlock l p).

Lemma remains_acc {A} (p : prog A) : Acc remains p.
Proof.
  induction p as [a|B f k IH|l p IH|l p IH]; constructor; intros q Hq; [inversion Hq| |inversion Hq; now subst..].
  remember (Act f k) as r eqn:Er. destruct Hq as [B' f' k' b| |]; [|discriminate..].
  change (match Act f k with Act f k => forall b, Acc remains (k b) | _ => True end) in IH. rewrite <- Er in IH. apply IH.
Qed.

Lemma step_remains {A} (p p' : prog A) st st' : step p st = Moves p' st' -> remains p' p.
Proof.
  destruct p as [a|B f k|l p|l p]; cbn [step]; intros H; [discriminate|..].
  - destruct (f st) as [[b st1]|]; [|discriminate]. injection H as <- _. apply remains_act.
  - destruct (lock_free l st); [|discriminate]. injection H as <- _. constructor.
  - injection H as <- _. constructor.
Qed.

(** One thread of a pool has made a step. *)
Inductive pool_remains {A} : pool A -> pool A -> Prop :=
| remains_here p p' ts : remains p' p -> pool_remains (p' :: ts) (p :: ts)
| remains_there p ts ts' : pool_remains ts' ts -> pool_remains (p :: ts') (p :: ts).

Lemma pool_remains_acc {A} (ts : pool A) : Acc pool_remains ts.
Proof.
  induction ts as [|p ts IH]; [constructor; intros y Hy; inversion Hy|].
  revert ts IH. induction (remains_acc p) as [p _ IHp]. intros ts Hts. induction Hts as [ts Hts IHts].
  constructor. intros y Hy. inversion Hy; subst; [apply IHp; [assumption|now constructor]|now apply IHts].
Qed.

(** No interleaving goes on for ever. *)
Lemma pool_terminates {A} (c : pool A * St) : Acc (fun c' c => pool_step c c') c.
Proof.
  destruct c as [ts st]. revert st. induction (pool_remains_acc ts) as [ts _ IH]. intros st. constructor.
  intros [ts' st'] Hs. apply IH. inversion Hs as [t1 p t2 s p' s' E]; subst. apply step_remains in E.
  clear -E. induction t1; cbn; now constructor.
Qed.

Lemma moves_step {A} (ts : pool A) st : forallb (fun p => negb (moves st p)) ts = false ->
  exists c', pool_step (ts, st) c'.
Proof.
  intros H. assert (existsb (moves st) ts = true) as E.
  { revert H. induction ts as [|p ts IH]; [discriminate|]. cbn [forallb existsb]. destruct (moves st p); [reflexivity|exact IH]. }
  apply existsb_exists in E. destruct E as (p & Hp & Hm). apply in_split in Hp. destruct Hp as (t1 & t2 & ->).
  unfold moves in Hm. destruct (step p st) eqn:E; try discriminate. eexists. exact (pool_step_intro t1 p t2 st _ _ E).
Qed.

End Programs.
Arguments prog : clear implicits.
Arguments Ret {St L A}.
Arguments Act {St L A B}.
Arguments Lock {St L A}.
Arguments Unlock {St L A}.
Arguments outcome : clear implicits.
Arguments Done {St A}.
Arguments Undefined {St A}.
Arguments Blocked {St A}.
Arguments stepped : clear implicits.
Arguments Moves {St L A}.
Arguments Finished {St L A}.
Arguments Waits {St L A}.
Arguments Wrong {St L A}.

End Threads.

Notation "'let*' x := p 'in' k" := (Threads.bind p (fun x => k))
  (at level 10, x pattern, p at level 100, k at level 200) : cword_scope.
Notation "p ;; k" := (Threads.bind p (fun _ => k)) (at level 100, k at level 200, right associativity) : cword_scope.
