(* ===== verification/Sgxsd.v ===== *)
(** The request protocol of src/enclave/c_src/sgxsd-enclave.c: the enclave's global variables,
    every entry point as a program over them, and the two things it is linked with: the SGX
    SDK and the untrusted side ([platform]), and the callbacks of the server ([server]). *)
From S2P Require Import Prelude Codec Curve25519 Sp800_38d SgxsdCrypto Threads.
From Stdlib Require Import ZArith List Lia Bool.
Import Codec SgxsdCrypto Threads.

Module Sgxsd.

(** * Data *)

Definition SGXSD_AES_GCM_IV_SIZE : Z := 12.
Definition SGXSD_AES_GCM_MAC_SIZE : Z := 16.
Definition SGXSD_AES_GCM_KEY_SIZE : Z := 32.
Definition SGXSD_CURVE25519_KEY_SIZE : Z := 32.
Definition SGXSD_SHA256_HASH_SIZE : Z := 32.
Definition SGXSD_ENCLAVE_MAX_SERVERS : Z := 256.

(** [n] zero bytes. *)
Definition zeros (n : Z) : list Z := repeat 0 (Z.to_nat n).

Record sgxsd_pending_request_t := { id_val : Z; hkdf_prk : list Z }.
Definition zero_pending_request : sgxsd_pending_request_t :=
  {| id_val := 0; hkdf_prk := zeros SGXSD_SHA256_HASH_SIZE |}.

Record sgxsd_curve25519_key_pair_t := { privkey : list Z; pubkey : list Z }.

Record sgxsd_pending_request_id_t := { pid_data : list Z; pid_iv : list Z; pid_mac : list Z }.

(** The bytes of the structure, which has no padding. *)
Definition pid_bytes (p : sgxsd_pending_request_id_t) : list Z := pid_data p ++ pid_iv p ++ pid_mac p.

Record sgxsd_request_negotiation_response_t := {
  server_static_pubkey : list Z;
  server_ephemeral_pubkey : list Z;
  enc_pid_data : list Z;
  enc_pid_iv : list Z;
  enc_pid_mac : list Z }.

Record sgxsd_msg_header_t := { mh_iv : list Z; mh_mac : list Z; mh_pending_request_id : sgxsd_pending_request_id_t }.

Record sgxsd_msg_buf_t := { mb_data : option (list Z); mb_size : Z }.

Record sgxsd_msg_from_t := { from_valid : bool; from_tag : Z; from_server_key : list Z }.
Definition zero_from : sgxsd_msg_from_t :=
  {| from_valid := false; from_tag := 0; from_server_key := zeros SGXSD_AES_GCM_KEY_SIZE |}.

(** The locks: four of the globals and one per server descriptor. *)
Inductive lock_id := NodeInitLock | ReadRandLock | DhKeypairLock | PendingRequestsLock | ServerLock (h : nat).

(** [true] while taken. *)
Record global_locks := { node_init_lock : bool; read_rand_lock : bool; dh_keypair_lock : bool; pending_requests_lock : bool }.

Section Model.

(** The state of the outside world, what [p_state] points to, and the argument types. *)
Context {W S TargetInfo InitArgs CallArgs TermArgs : Type}.

Record sgxsd_server_state_desc_t := { valid : bool; desc_lock : bool; p_state : option S }.
Definition zero_desc : sgxsd_server_state_desc_t := {| valid := false; desc_lock := false; p_state := None |}.

(** The static variables, and the world. *)
Record enclave := {
  g_node_initialized : bool;
  g_read_rand_state : list Z;
  g_dh_keypair : sgxsd_curve25519_key_pair_t;
  g_new_dh_keypair : sgxsd_curve25519_key_pair_t;
  g_pending_requests : option (list sgxsd_pending_request_t);
  g_pending_requests_table_order : Z;
  g_last_pending_request_id_val : Z;
  g_pending_request_id_key : list Z;
  g_server_states : list sgxsd_server_state_desc_t;
  g_locks : global_locks;
  world : W }.

Definition set_node_initialized (v : bool) (s : enclave) : enclave :=
  let '(Build_enclave _ a b c d e f g h i j) := s in Build_enclave v a b c d e f g h i j.
Definition set_read_rand_state (v : list Z) (s : enclave) : enclave :=
  let '(Build_enclave a _ b c d e f g h i j) := s in Build_enclave a v b c d e f g h i j.
Definition set_dh_keypair (v : sgxsd_curve25519_key_pair_t) (s : enclave) : enclave :=
  let '(Build_enclave a b _ c d e f g h i j) := s in Build_enclave a b v c d e f g h i j.
Definition set_new_dh_keypair (v : sgxsd_curve25519_key_pair_t) (s : enclave) : enclave :=
  let '(Build_enclave a b c _ d e f g h i j) := s in Build_enclave a b c v d e f g h i j.
Definition set_pending_requests (v : option (list sgxsd_pending_request_t)) (s : enclave) : enclave :=
  let '(Build_enclave a b c d _ e f g h i j) := s in Build_enclave a b c d v e f g h i j.
Definition set_table_order (v : Z) (s : enclave) : enclave :=
  let '(Build_enclave a b c d e _ f g h i j) := s in Build_enclave a b c d e v f g h i j.
Definition set_last_id (v : Z) (s : enclave) : enclave :=
  let '(Build_enclave a b c d e f _ g h i j) := s in Build_enclave a b c d e f v g h i j.
Definition set_id_key (v : list Z) (s : enclave) : enclave :=
  let '(Build_enclave a b c d e f g _ h i j) := s in Build_enclave a b c d e f g v h i j.
Definition set_server_states (v : list sgxsd_server_state_desc_t) (s : enclave) : enclave :=
  let '(Build_enclave a b c d e f g h _ i j) := s in Build_enclave a b c d e f g h v i j.
Definition set_locks (v : global_locks) (s : enclave) : enclave :=
  let '(Build_enclave a b c d e f g h i _ j) := s in Build_enclave a b c d e f g h i v j.
Definition set_world (v : W) (s : enclave) : enclave :=
  let '(Build_enclave a b c d e f g h i j _) := s in Build_enclave a b c d e f g h i j v.

(** ** Locks *)

Definition get_global_lock (l : lock_id) (g : global_locks) : bool :=
  match l with
  | NodeInitLock => node_init_lock g
  | ReadRandLock => read_rand_lock g
  | DhKeypairLock => dh_keypair_lock g
  | PendingRequestsLock => pending_requests_lock g
  | ServerLock _ => false
  end.

Definition set_global_lock (l : lock_id) (v : bool) (g : global_locks) : global_locks :=
  match l, g with
  | NodeInitLock, Build_global_locks _ b c d => Build_global_locks v b c d
  | ReadRandLock, Build_global_locks a _ c d => Build_global_locks a v c d
  | DhKeypairLock, Build_global_locks a b _ d => Build_global_locks a b v d
  | PendingRequestsLock, Build_global_locks a b c _ => Build_global_locks a b c v
  | ServerLock _, _ => g
  end.

Definition set_desc_lock (v : bool) (d : sgxsd_server_state_desc_t) : sgxsd_server_state_desc_t :=
  {| valid := valid d; desc_lock := v; p_state := p_state d |}.

Definition enclave_lock_free (l : lock_id) (st : enclave) : bool :=
  match l with
  | ServerLock h => match nth_error (g_server_states st) h with Some d => negb (desc_lock d) | None => true end
  | _ => negb (get_global_lock l (g_locks st))
  end.

Definition enclave_lock_set (l : lock_id) (v : bool) (st : enclave) : enclave :=
  match l with
  | ServerLock h =>
      match nth_error (g_server_states st) h with
      | Some d => set_server_states (assign (g_server_states st) h (set_desc_lock v d)) st
      | None => st
      end
  | _ => set_locks (set_global_lock l v (g_locks st)) st
  end.

#[global] Instance enclave_locks : LockState enclave lock_id.
Proof.
  refine {| lock_free := enclave_lock_free; lock_set := enclave_lock_set |}.
  - decide equality. apply Nat.eq_dec.
  - intros [| | | |h] []; cbn; try (destruct g_locks0; reflexivity).
    destruct (nth_error g_server_states0 h) as [d|] eqn:E; cbn; [|now rewrite E].
    rewrite nth_error_assign, Nat.eqb_refl. now destruct (_ <? _)%nat eqn:L; [|rewrite E; apply Nat.ltb_ge, nth_error_None in L; congruence].
  - intros l l' b [] Hn. destruct l as [| | | |h], l' as [| | | |h']; try contradiction; cbn;
      try (destruct g_locks0; reflexivity); try (destruct (nth_error g_server_states0 h'); reflexivity).
    destruct (nth_error g_server_states0 h') as [d|] eqn:E; [|reflexivity]. cbn. rewrite nth_error_assign.
    destruct (Nat.eqb_spec h' h) as [->|]; [contradiction|reflexivity].
Defined.

(** * What the enclave is linked with *)

(** The SGX SDK, the C library and the untrusted side. [sgx_read_rand] returns the bytes its
    buffer holds afterwards, [sgx_create_report] those of the report, [calloc] whether it
    returned memory, [sgxsd_ocall_reply] the status of the call and the value returned. *)
Record platform := {
  sgx_read_rand : Z -> W -> sgx_status_t * list Z * W;
  sgx_is_outside_enclave : Z -> Z -> Z;
  sgx_create_report : TargetInfo -> list Z -> list Z -> W -> sgx_status_t * list Z * W;
  calloc : Z -> Z -> W -> bool * W;
  sgxsd_ocall_reply : option sgxsd_msg_header_t -> option (list Z) -> Z -> Z -> W -> sgx_status_t * sgx_status_t * W }.

(** What a callback of the server may do: compute, act on the world, draw random bytes and
    reply, or run into undefined behaviour. The continuations receive the statuses and what the pointers passed point to
    afterwards. *)
Inductive server_prog (A : Type) : Type :=
| SRet (a : A)
| SUndefined
| SExt {B : Type} (f : W -> B * W) (k : B -> server_prog A)
| SReadRand (x : list Z) (k : sgx_status_t -> list Z -> server_prog A)
| SReply (buf : sgxsd_msg_buf_t) (from : option sgxsd_msg_from_t)
    (k : sgx_status_t -> option (list Z) -> option sgxsd_msg_from_t -> server_prog A)
| SNoReply (from : option sgxsd_msg_from_t) (k : sgx_status_t -> option sgxsd_msg_from_t -> server_prog A).

(** The callbacks of sgxsd-enclave.h. They return the status, and what the buffers and
    [*pp_state] hold afterwards; initialisation, what it stores in [*pp_state] if it does. *)
Record server := {
  sgxsd_enclave_server_init : option InitArgs -> server_prog (sgx_status_t * option (option S));
  sgxsd_enclave_server_handle_call : option CallArgs -> sgxsd_msg_buf_t -> sgxsd_msg_from_t -> option S ->
    server_prog (sgx_status_t * option (list Z) * option S);
  sgxsd_enclave_server_terminate : option TermArgs -> option S -> server_prog sgx_status_t;
  sgxsd_enclave_create_ratelimit_fingerprint : list Z -> option CallArgs -> sgxsd_msg_buf_t -> sgxsd_msg_from_t ->
    option (list Z) -> Z -> server_prog (sgx_status_t * option (list Z) * option (list Z)) }.

(** * The code *)

Abbreviation P A := (prog enclave lock_id A) (only parsing).

Section Code.
(** [stk]: what the uninitialised contexts of the crypto routines hold. *)
Context (plat : platform) (serv : server) (stk : stack).

Definition call_read_rand (n : Z) : P (sgx_status_t * list Z) :=
  act (fun st => let '(res, bytes, w) := sgx_read_rand plat n (world st) in Some ((res, bytes), set_world w st)).

Definition sgxsd_spin_lock (l : lock_id) : P unit := lock l.
Definition sgxsd_spin_unlock (l : lock_id) : P unit := unlock l.

(** The status and [p_privkey->x]. *)
Definition sgxsd_enclave_read_rand (x : list Z) : P (sgx_status_t * list Z) :=
  let* (read_rand_res, x) := call_read_rand SGXSD_CURVE25519_KEY_SIZE in
  if negb (success read_rand_res) then Ret (read_rand_res, x)
  else
    sgxsd_spin_lock ReadRandLock ;;
    let* state := get g_read_rand_state in
    let hkdf_prk := sgxsd_enclave_hmac_sha256 stk 2 [state; x] in
    let hkdf_buf := {| t_n := zeros SGXSD_SHA256_HASH_SIZE; hkdf_n := 0 |} in
    let hkdf_buf := sgxsd_enclave_ra_hkdf_round stk hkdf_prk hkdf_buf in
    modify (set_read_rand_state (t_n hkdf_buf)) ;;
    let hkdf_buf := sgxsd_enclave_ra_hkdf_round stk hkdf_prk hkdf_buf in
    let x := t_n hkdf_buf in
    sgxsd_spin_unlock ReadRandLock ;;
    Ret (SGX_SUCCESS, x).

Definition BASEPOINT : list Z := 9 :: repeat 0 31.

Definition sgxsd_enclave_generate_curve25519_keypair (kp : sgxsd_curve25519_key_pair_t)
  : P (sgx_status_t * sgxsd_curve25519_key_pair_t) :=
  let* (gen_privkey_res, x) := sgxsd_enclave_read_rand (privkey kp) in
  if negb (success gen_privkey_res) then Ret (gen_privkey_res, {| privkey := x; pubkey := pubkey kp |})
  else
    let x := Curve25519.clamp x in
    Ret (SGX_SUCCESS, {| privkey := x; pubkey := Curve25519.curve25519_donna x BASEPOINT |}).

(** The keypair globals are generated in place, before the node counts as initialised. *)
Definition generate_into (sel : enclave -> sgxsd_curve25519_key_pair_t)
  (upd : sgxsd_curve25519_key_pair_t -> enclave -> enclave) : P sgx_status_t :=
  let* kp := get sel in
  let* (res, kp) := sgxsd_enclave_generate_curve25519_keypair kp in
  modify (upd kp) ;;
  Ret res.

(** [p_args] is its only field, [pending_requests_table_order]. *)
Definition sgxsd_enclave_node_init_locked (p_args : option Z) : P sgx_status_t :=
  let* initialized := get g_node_initialized in
  if initialized : bool then Ret SGX_ERROR_INVALID_STATE
  else if negb (1 =? sgx_is_outside_enclave plat 0 0) then Ret SGX_ERROR_UNEXPECTED
  else if negb (1 =? sgx_is_outside_enclave plat (2 ^ 64 - 1) 0) then Ret SGX_ERROR_UNEXPECTED
  else match p_args with
  | None => Ret SGX_ERROR_INVALID_PARAMETER
  | Some pending_requests_table_order =>
    if 8 * 8 - 1 <? pending_requests_table_order then Ret SGX_ERROR_INVALID_PARAMETER
    else
      let* dh_keypair_rand_res := generate_into g_dh_keypair set_dh_keypair in
      if negb (success dh_keypair_rand_res) then Ret dh_keypair_rand_res
      else
        let* new_dh_keypair_rand_res := generate_into g_new_dh_keypair set_new_dh_keypair in
        if negb (success new_dh_keypair_rand_res) then Ret new_dh_keypair_rand_res
        else
          let* (pending_request_id_key_res, key) := call_read_rand SGXSD_AES_GCM_KEY_SIZE in
          modify (set_id_key key) ;;
          if negb (success pending_request_id_key_res) then Ret pending_request_id_key_res
          else
            modify (set_table_order pending_requests_table_order) ;;
            let* p := act (fun st =>
              let count := u64 (1 << g_pending_requests_table_order st) in
              let '(ok, w) := calloc plat count 40 (world st) in
              let p := if ok : bool then Some (repeat zero_pending_request (Z.to_nat count)) else None in
              Some (p, set_world w st)) in
            modify (set_pending_requests p) ;;
            if is_null p then Ret SGX_ERROR_OUT_OF_MEMORY
            else
              modify (set_node_initialized true) ;;
              Ret SGX_SUCCESS
  end.

Definition sgxsd_enclave_node_init (p_args : option Z) : P sgx_status_t :=
  sgxsd_spin_lock NodeInitLock ;;
  let* res := sgxsd_enclave_node_init_locked p_args in
  sgxsd_spin_unlock NodeInitLock ;;
  Ret res.

(** The status, [*p_report], and what the local [new_dh_keypair] holds on return. *)
Definition sgxsd_enclave_get_next_report (new_dh_keypair : sgxsd_curve25519_key_pair_t)
  (qe_target_info : TargetInfo) (p_report : option (list Z))
  : P (sgx_status_t * option (list Z) * sgxsd_curve25519_key_pair_t) :=
  let* initialized := get g_node_initialized in
  if negb initialized then Ret (SGX_ERROR_INVALID_STATE, p_report, new_dh_keypair)
  else match p_report with
  | None => Ret (SGX_ERROR_INVALID_PARAMETER, p_report, new_dh_keypair)
  | Some report =>
    let* (generate_keypair_res, new_dh_keypair) := sgxsd_enclave_generate_curve25519_keypair new_dh_keypair in
    if negb (success generate_keypair_res) then Ret (generate_keypair_res, p_report, new_dh_keypair)
    else
      let report_data := splice (zeros 64) 0 (pubkey new_dh_keypair) in
      let* (create_report_res, report) := act (fun st =>
        let '(res, r, w) := sgx_create_report plat qe_target_info report_data report (world st) in
        Some ((res, r), set_world w st)) in
      if negb (success create_report_res) then Ret (create_report_res, Some report, new_dh_keypair)
      else
        sgxsd_spin_lock DhKeypairLock ;;
        modify (set_new_dh_keypair new_dh_keypair) ;;
        sgxsd_spin_unlock DhKeypairLock ;;
        Ret (SGX_SUCCESS, Some report,
             {| privkey := zeros SGXSD_CURVE25519_KEY_SIZE; pubkey := zeros SGXSD_CURVE25519_KEY_SIZE |})
  end.

Definition sgxsd_enclave_set_current_quote : P sgx_status_t :=
  let* initialized := get g_node_initialized in
  if negb initialized then Ret SGX_ERROR_INVALID_STATE
  else
    sgxsd_spin_lock DhKeypairLock ;;
    modify (fun st => set_dh_keypair (g_new_dh_keypair st) st) ;;
    sgxsd_spin_unlock DhKeypairLock ;;
    Ret SGX_SUCCESS.

(** ** Pending requests *)

(** [&g_sgxsd_enclave_pending_requests[id & mask]]: the index, when it is in the table. *)
Definition entry_index (order id : Z) : nat :=
  let mask := u64 (u64 (1 << order) - 1) in Z.to_nat (id .& mask).

Definition load_entry (order id : Z) (st : enclave) : option sgxsd_pending_request_t :=
  let? table := g_pending_requests st in nth_error table (entry_index order id).

Definition store_entry (order id : Z) (e : sgxsd_pending_request_t) (st : enclave) : option enclave :=
  let? table := g_pending_requests st in
  if (entry_index order id <? length table)%nat
  then Some (set_pending_requests (Some (assign table (entry_index order id) e)) st) else None.

(** The status and [*p_pending_request_id]. *)
Definition sgxsd_enclave_add_pending_request (pid : sgxsd_pending_request_id_t) (prk : list Z)
  : P (sgx_status_t * sgxsd_pending_request_id_t) :=
  let* order := get g_pending_requests_table_order in
  sgxsd_spin_lock PendingRequestsLock ;;
  let* pending_request_id_val := act (fun st =>
    let id := u64 (g_last_pending_request_id_val st + 1) in
    let? st := store_entry order id {| id_val := id; hkdf_prk := prk |} (set_last_id id st) in
    Some (id, st)) in
  sgxsd_spin_unlock PendingRequestsLock ;;
  let* (iv_rand_res, iv) := call_read_rand SGXSD_AES_GCM_IV_SIZE in
  let pid := {| pid_data := pid_data pid; pid_iv := iv; pid_mac := pid_mac pid |} in
  if negb (success iv_rand_res) then Ret (iv_rand_res, pid)
  else
    let* key := get g_pending_request_id_key in
    let* (encrypt_res, data, mac) := lift
      (sgxsd_aes_gcm_encrypt stk (Some key) (Some (br_enc64le pending_request_id_val)) 8
         (Some (pid_data pid)) (Some (pid_iv pid)) None 0 (Some (pid_mac pid))) in
    let* data := lift data in
    let* mac := lift mac in
    let pid := {| pid_data := data; pid_iv := pid_iv pid; pid_mac := mac |} in
    if negb (success encrypt_res) then Ret (SGX_ERROR_UNEXPECTED, pid)
    else Ret (SGX_SUCCESS, pid).

(** The decryption of the id that [get] and [remove] begin with. *)
Definition decrypt_id (pid : sgxsd_pending_request_id_t) : P (sgx_status_t * Z) :=
  let* key := get g_pending_request_id_key in
  let* (decrypt_res, data, _) := lift
    (sgxsd_aes_gcm_decrypt stk (Some key) (Some (pid_data pid)) 8 (Some (br_enc64le 0))
       (Some (pid_iv pid)) None 0 (Some (pid_mac pid))) in
  let* data := lift data in
  Ret (decrypt_res, br_dec64le data).

(** The status and [*p_pending_request]. *)
Definition sgxsd_enclave_get_pending_request (pid : sgxsd_pending_request_id_t)
  (pending_request : sgxsd_pending_request_t) : P (sgx_status_t * sgxsd_pending_request_t) :=
  let* (decrypt_res, id) := decrypt_id pid in
  if negb (success decrypt_res) then Ret (decrypt_res, pending_request)
  else
    sgxsd_spin_lock PendingRequestsLock ;;
    let* res := act (fun st =>
      let? e := load_entry (g_pending_requests_table_order st) id st in
      if id_val e =? id then Some ((SGX_SUCCESS, e), st)
      else Some ((SGXSD_ERROR_PENDING_REQUEST_NOT_FOUND, pending_request), st)) in
    sgxsd_spin_unlock PendingRequestsLock ;;
    Ret res.

Definition sgxsd_enclave_remove_pending_request (pid : sgxsd_pending_request_id_t)
  (pending_request : sgxsd_pending_request_t) : P (sgx_status_t * sgxsd_pending_request_t) :=
  let* (decrypt_res, id) := decrypt_id pid in
  if negb (success decrypt_res) then Ret (decrypt_res, pending_request)
  else
    sgxsd_spin_lock PendingRequestsLock ;;
    let* res := act (fun st =>
      let order := g_pending_requests_table_order st in
      let? e := load_entry order id st in
      if id_val e =? id then
        let? st := store_entry order id zero_pending_request st in Some ((SGX_SUCCESS, e), st)
      else Some ((SGXSD_ERROR_PENDING_REQUEST_NOT_FOUND, pending_request), st)) in
    sgxsd_spin_unlock PendingRequestsLock ;;
    Ret res.

(** ** Negotiation *)

(** [*p_client_key] and [*p_server_key] afterwards. *)
Definition sgxsd_enclave_derive_request_keys (prk : list Z) (p_client_key p_server_key : option (list Z))
  : option (list Z) * option (list Z) :=
  let hkdf_buf := {| t_n := zeros SGXSD_SHA256_HASH_SIZE; hkdf_n := 0 |} in
  let hkdf_buf := sgxsd_enclave_ra_hkdf_round stk prk hkdf_buf in
  let p_client_key := option_map (fun _ => t_n hkdf_buf) p_client_key in
  let hkdf_buf := sgxsd_enclave_ra_hkdf_round stk prk hkdf_buf in
  let p_server_key := option_map (fun _ => t_n hkdf_buf) p_server_key in
  (p_client_key, p_server_key).

(** The locals of [sgxsd_enclave_negotiate_request] that hold secrets. *)
Record negotiate_frame := {
  nf_ephemeral_keypair : sgxsd_curve25519_key_pair_t;
  nf_static_keypair : sgxsd_curve25519_key_pair_t;
  nf_ephemeral_dh_key : list Z;
  nf_static_dh_key : list Z;
  nf_hkdf_salt : list Z;
  nf_hkdf_prk : list Z;
  nf_server_aes_gcm_key : list Z;
  nf_pending_request_id : sgxsd_pending_request_id_t }.

Definition wipe_privkey (kp : sgxsd_curve25519_key_pair_t) : sgxsd_curve25519_key_pair_t :=
  {| privkey := zeros SGXSD_CURVE25519_KEY_SIZE; pubkey := pubkey kp |}.

(** The pseudo-random key of a request: HKDF-Extract with the hash of the three public keys as
    the salt and the two shared secrets as the keying material. *)
Definition request_prk (client_pubkey ephemeral_pubkey static_pubkey ephemeral_dh static_dh : list Z)
  : list Z * list Z :=
  let hkdf_salt := sgxsd_enclave_sha256 stk 3 [client_pubkey; ephemeral_pubkey; static_pubkey] in
  (hkdf_salt, sgxsd_enclave_hmac_sha256 stk 3 [hkdf_salt; ephemeral_dh; static_dh]).

(** The status, [*p_response] and the locals on return; [p_request] is its only field. *)
Definition sgxsd_enclave_negotiate_request (fr : negotiate_frame) (p_request : option (list Z))
  (p_response : option sgxsd_request_negotiation_response_t)
  : P (sgx_status_t * option sgxsd_request_negotiation_response_t * negotiate_frame) :=
  let* initialized := get g_node_initialized in
  if negb initialized then Ret (SGX_ERROR_INVALID_STATE, p_response, fr)
  else match p_request, p_response with
  | None, _ => Ret (SGX_ERROR_INVALID_PARAMETER, p_response, fr)
  | _, None => Ret (SGX_ERROR_INVALID_PARAMETER, p_response, fr)
  | Some client_pubkey, Some response =>
    let* (generate_keypair_res, ephemeral) := sgxsd_enclave_generate_curve25519_keypair (nf_ephemeral_keypair fr) in
    if negb (success generate_keypair_res) then
      Ret (generate_keypair_res, p_response,
           {| nf_ephemeral_keypair := ephemeral; nf_static_keypair := nf_static_keypair fr;
              nf_ephemeral_dh_key := nf_ephemeral_dh_key fr; nf_static_dh_key := nf_static_dh_key fr;
              nf_hkdf_salt := nf_hkdf_salt fr; nf_hkdf_prk := nf_hkdf_prk fr;
              nf_server_aes_gcm_key := nf_server_aes_gcm_key fr;
              nf_pending_request_id := nf_pending_request_id fr |})
    else
      sgxsd_spin_lock DhKeypairLock ;;
      let* static := get g_dh_keypair in
      sgxsd_spin_unlock DhKeypairLock ;;
      let ephemeral_dh_key := Curve25519.curve25519_donna (privkey ephemeral) client_pubkey in
      let ephemeral := wipe_privkey ephemeral in
      let static_dh_key := Curve25519.curve25519_donna (privkey static) client_pubkey in
      let static := wipe_privkey static in
      let '(hkdf_salt, prk) := request_prk client_pubkey (pubkey ephemeral) (pubkey static) ephemeral_dh_key static_dh_key in
      let ephemeral_dh_key := zeros 32 in
      let static_dh_key := zeros 32 in
      let hkdf_salt := zeros 32 in
      let iv := zeros SGXSD_AES_GCM_IV_SIZE in
      let response := {| server_static_pubkey := server_static_pubkey response;
        server_ephemeral_pubkey := server_ephemeral_pubkey response; enc_pid_data := enc_pid_data response;
        enc_pid_iv := iv; enc_pid_mac := enc_pid_mac response |} in
      let* server_aes_gcm_key := lift (snd (sgxsd_enclave_derive_request_keys prk None (Some (nf_server_aes_gcm_key fr)))) in
      let* (add_pending_request_res, pid) := sgxsd_enclave_add_pending_request (nf_pending_request_id fr) prk in
      let frame prk key pid := {| nf_ephemeral_keypair := ephemeral; nf_static_keypair := static;
        nf_ephemeral_dh_key := ephemeral_dh_key; nf_static_dh_key := static_dh_key; nf_hkdf_salt := hkdf_salt;
        nf_hkdf_prk := prk; nf_server_aes_gcm_key := key; nf_pending_request_id := pid |} in
      if negb (success add_pending_request_res) then
        Ret (add_pending_request_res, Some response, frame prk (zeros SGXSD_AES_GCM_KEY_SIZE) pid)
      else
        let prk := zeros SGXSD_SHA256_HASH_SIZE in
        let* (encrypt_res, data, mac) := lift
          (sgxsd_aes_gcm_encrypt stk (Some server_aes_gcm_key) (Some (pid_bytes pid)) 36
             (Some (enc_pid_data response)) (Some (enc_pid_iv response)) None 0 (Some (enc_pid_mac response))) in
        let* data := lift data in
        let* mac := lift mac in
        let server_aes_gcm_key := zeros SGXSD_AES_GCM_KEY_SIZE in
        let response := {| server_static_pubkey := server_static_pubkey response;
          server_ephemeral_pubkey := server_ephemeral_pubkey response; enc_pid_data := data;
          enc_pid_iv := enc_pid_iv response; enc_pid_mac := mac |} in
        if negb (success encrypt_res) then
          Ret (SGX_ERROR_UNEXPECTED, Some response, frame prk server_aes_gcm_key pid)
        else
          Ret (SGX_SUCCESS, Some {| server_static_pubkey := pubkey static; server_ephemeral_pubkey := pubkey ephemeral;
                 enc_pid_data := enc_pid_data response; enc_pid_iv := enc_pid_iv response;
                 enc_pid_mac := enc_pid_mac response |}, frame prk server_aes_gcm_key pid)
  end.

(** ** Replies *)

Definition call_ocall_reply (hdr : option sgxsd_msg_header_t) (data : option (list Z)) (size tag : Z) : P sgx_status_t :=
  act (fun st =>
    let '(reply_ocall_res, reply_res, w) := sgxsd_ocall_reply plat hdr data size tag (world st) in
    Some (if success reply_ocall_res then reply_res else reply_ocall_res, set_world w st)).

(** The status and the bytes of the buffer; [hdr] is what the local [reply_header] holds on
    entry. *)
Definition sgxsd_enclave_server_reply_noerase (hdr : sgxsd_msg_header_t) (reply_buf : sgxsd_msg_buf_t)
  (p_from : option sgxsd_msg_from_t) : P (sgx_status_t * option (list Z)) :=
  match p_from with
  | None => Ret (SGX_ERROR_INVALID_PARAMETER, mb_data reply_buf)
  | Some from =>
    if negb (from_valid from) then Ret (SGX_ERROR_INVALID_STATE, mb_data reply_buf)
    else if is_null (mb_data reply_buf) && negb (mb_size reply_buf =? 0)
    then Ret (SGX_ERROR_INVALID_PARAMETER, mb_data reply_buf)
    else
      let* (iv_rand_res, iv) := call_read_rand SGXSD_AES_GCM_IV_SIZE in
      if negb (success iv_rand_res) then Ret (iv_rand_res, mb_data reply_buf)
      else
        let iv := splice iv 0 [nth 0 iv 0 .| 1] in
        let* (encrypt_res, data, mac) := lift
          (sgxsd_aes_gcm_encrypt stk (Some (from_server_key from)) (mb_data reply_buf) (mb_size reply_buf)
             (mb_data reply_buf) (Some iv) None 0 (Some (mh_mac hdr))) in
        let* mac := lift mac in
        if negb (success encrypt_res) then Ret (SGX_ERROR_UNEXPECTED, data)
        else
          let reply_header := {| mh_iv := iv; mh_mac := mac; mh_pending_request_id := mh_pending_request_id hdr |} in
          let* res := call_ocall_reply (Some reply_header) data (mb_size reply_buf) (from_tag from) in
          Ret (res, data)
  end.

(** The status, the bytes of the buffer and [*p_from]. *)
Definition sgxsd_enclave_server_reply (hdr : sgxsd_msg_header_t) (reply_buf : sgxsd_msg_buf_t)
  (p_from : option sgxsd_msg_from_t) : P (sgx_status_t * option (list Z) * option sgxsd_msg_from_t) :=
  let* (res, data) := sgxsd_enclave_server_reply_noerase hdr reply_buf p_from in
  let* data := (if is_null data then Ret data else lift (store data (zeros (mb_size reply_buf)))) in
  Ret (res, data, option_map (fun _ => zero_from) p_from).

Definition sgxsd_enclave_server_noreply (p_from : option sgxsd_msg_from_t)
  : P (sgx_status_t * option sgxsd_msg_from_t) :=
  match p_from with
  | None => Ret (SGX_ERROR_INVALID_PARAMETER, p_from)
  | Some from =>
    if negb (from_valid from) then Ret (SGX_ERROR_INVALID_STATE, p_from)
    else
      let* res := call_ocall_reply None None 0 (from_tag from) in
      Ret (res, Some zero_from)
  end.

(** A callback, with the functions of this file it calls. *)
Fixpoint interp (hdr : sgxsd_msg_header_t) {A : Type} (p : server_prog A) : P A :=
  match p with
  | SRet _ a => Ret a
  | SUndefined _ => act (fun _ => None)
  | SExt _ f k => let* b := act (fun st => let '(b, w) := f (world st) in Some (b, set_world w st)) in interp hdr (k b)
  | SReadRand _ x k => let* (res, x) := sgxsd_enclave_read_rand x in interp hdr (k res x)
  | SReply _ buf from k => let* (res, data, from) := sgxsd_enclave_server_reply hdr buf from in interp hdr (k res data from)
  | SNoReply _ from k => let* (res, from) := sgxsd_enclave_server_noreply from in interp hdr (k res from)
  end.

(** ** Servers *)

Definition load_desc (h : nat) : P sgxsd_server_state_desc_t :=
  act (fun st => let? d := nth_error (g_server_states st) h in Some (d, st)).

Definition store_desc (h : nat) (upd : sgxsd_server_state_desc_t -> sgxsd_server_state_desc_t) : P unit :=
  act (fun st => let? d := nth_error (g_server_states st) h in
                 Some (tt, set_server_states (assign (g_server_states st) h (upd d)) st)).

Definition set_p_state (p : option S) (d : sgxsd_server_state_desc_t) : sgxsd_server_state_desc_t :=
  {| valid := valid d; desc_lock := desc_lock d; p_state := p |}.
Definition set_valid (v : bool) (d : sgxsd_server_state_desc_t) : sgxsd_server_state_desc_t :=
  {| valid := v; desc_lock := desc_lock d; p_state := p_state d |}.

Definition sgxsd_enclave_server_start_locked (hdr : sgxsd_msg_header_t) (p_args : option InitArgs) (h : nat)
  : P sgx_status_t :=
  let* d := load_desc h in
  if valid d then Ret SGX_ERROR_INVALID_STATE
  else
    let* (init_res, stored) := interp hdr (sgxsd_enclave_server_init serv p_args) in
    match stored with Some state => store_desc h (set_p_state state) | None => Ret tt end ;;
    if success init_res then store_desc h (set_valid true) ;; Ret SGX_SUCCESS
    else Ret init_res.

Definition sgxsd_enclave_server_stop_locked (hdr : sgxsd_msg_header_t) (p_args : option TermArgs) (h : nat)
  : P sgx_status_t :=
  let* d := load_desc h in
  if negb (valid d) then Ret SGX_ERROR_INVALID_STATE
  else
    store_desc h (fun _ => zero_desc) ;;
    interp hdr (sgxsd_enclave_server_terminate serv p_args (p_state d)).

(** The locals of the two functions that decrypt a message. *)
Record call_frame := { cf_pending_request : sgxsd_pending_request_t; cf_client_key : list Z; cf_msg_from : sgxsd_msg_from_t }.

(** What both do with the pending request they obtained, up to the decrypted message: the
    status, the buffer and [msg_from]. *)
Definition decrypt_message (prk : list Z) (client_key : list Z) (header : sgxsd_msg_header_t) (data : list Z)
  (size tag : Z) : P (sgx_status_t * option (list Z) * sgxsd_msg_from_t) :=
  let '(ck, sk) := sgxsd_enclave_derive_request_keys prk (Some client_key) (Some (zeros SGXSD_AES_GCM_KEY_SIZE)) in
  let* client_key := lift ck in
  let* server_key := lift sk in
  let msg_from := {| from_valid := true; from_tag := tag; from_server_key := server_key |} in
  let* (res, data, _) := lift
    (sgxsd_aes_gcm_decrypt stk (Some client_key) (Some data) (u32 size) (Some data) (Some (mh_iv header))
       (Some (pid_bytes (mh_pending_request_id header))) 36 (Some (mh_mac header))) in
  Ret (res, data, msg_from).

(** What is left in the locals once a message has been decrypted. *)
Definition wiped_frame : call_frame :=
  {| cf_pending_request := zero_pending_request; cf_client_key := zeros SGXSD_AES_GCM_KEY_SIZE; cf_msg_from := zero_from |}.

(** The status, the message buffer and the locals on return. *)
Definition sgxsd_enclave_server_call_locked (hdr : sgxsd_msg_header_t) (fr : call_frame) (p_args : option CallArgs)
  (p_msg_header : option sgxsd_msg_header_t) (msg_data : option (list Z)) (msg_data_size msg_tag : Z) (h : nat)
  : P (sgx_status_t * option (list Z) * call_frame) :=
  let* d := load_desc h in
  if negb (valid d) then Ret (SGX_ERROR_INVALID_STATE, msg_data, fr)
  else match p_msg_header with
  | None => Ret (SGX_ERROR_INVALID_PARAMETER, msg_data, fr)
  | Some header =>
    match msg_data with
    | None => Ret (SGX_ERROR_INVALID_PARAMETER, msg_data, fr)
    | Some data =>
      if msg_data_size =? 0 then Ret (SGX_ERROR_INVALID_PARAMETER, msg_data, fr)
      else
        let* (remove_res, pending_request) :=
          sgxsd_enclave_remove_pending_request (mh_pending_request_id header) (cf_pending_request fr) in
        if negb (success remove_res) then
          Ret (remove_res, msg_data, {| cf_pending_request := pending_request; cf_client_key := cf_client_key fr;
                                        cf_msg_from := cf_msg_from fr |})
        else
          let* (decrypt_res, data, msg_from) :=
            decrypt_message (hkdf_prk pending_request) (cf_client_key fr) header data msg_data_size msg_tag in
          if negb (success decrypt_res) then
            match decrypt_res with
            | SGX_ERROR_INVALID_PARAMETER => Ret (SGX_ERROR_UNEXPECTED, data, wiped_frame)
            | _ => Ret (decrypt_res, data, wiped_frame)
            end
          else
            let* d := load_desc h in
            let* (server_call_res, data, state) := interp hdr
              (sgxsd_enclave_server_handle_call serv p_args {| mb_data := data; mb_size := u32 msg_data_size |} msg_from (p_state d)) in
            store_desc h (set_p_state state) ;;
            let* data := lift (store data (zeros (u32 msg_data_size))) in
            Ret (server_call_res, data, wiped_frame)
    end
  end.

Definition sgxsd_enclave_ratelimit_fingerprint_locked (hdr : sgxsd_msg_header_t) (fr : call_frame)
  (fingerprint_key : list Z) (call_args : option CallArgs) (p_msg_header : option sgxsd_msg_header_t)
  (msg_data : option (list Z)) (msg_data_size msg_tag : Z) (h : nat) (fingerprint : option (list Z)) (fingerprint_size : Z)
  : P (sgx_status_t * option (list Z) * option (list Z) * call_frame) :=
  let* d := load_desc h in
  if negb (valid d) then Ret (SGX_ERROR_INVALID_STATE, msg_data, fingerprint, fr)
  else match p_msg_header with
  | None => Ret (SGX_ERROR_INVALID_PARAMETER, msg_data, fingerprint, fr)
  | Some header =>
    match msg_data with
    | None => Ret (SGX_ERROR_INVALID_PARAMETER, msg_data, fingerprint, fr)
    | Some data =>
      if msg_data_size =? 0 then Ret (SGX_ERROR_INVALID_PARAMETER, msg_data, fingerprint, fr)
      else
        let* (get_res, pending_request) :=
          sgxsd_enclave_get_pending_request (mh_pending_request_id header) (cf_pending_request fr) in
        if negb (success get_res) then
          Ret (get_res, msg_data, fingerprint, {| cf_pending_request := pending_request; cf_client_key := cf_client_key fr;
                                                  cf_msg_from := cf_msg_from fr |})
        else
          let* (decrypt_res, data, msg_from) :=
            decrypt_message (hkdf_prk pending_request) (cf_client_key fr) header data msg_data_size msg_tag in
          if negb (success decrypt_res) then
            match decrypt_res with
            | SGX_ERROR_INVALID_PARAMETER => Ret (SGX_ERROR_UNEXPECTED, data, fingerprint, wiped_frame)
            | _ => Ret (decrypt_res, data, fingerprint, wiped_frame)
            end
          else
            let* (res, data, fingerprint) := interp hdr
              (sgxsd_enclave_create_ratelimit_fingerprint serv fingerprint_key call_args
                 {| mb_data := data; mb_size := u32 msg_data_size |} msg_from fingerprint fingerprint_size) in
            let* data := lift (store data (zeros (u32 msg_data_size))) in
            Ret (res, data, fingerprint, wiped_frame)
    end
  end.

(** The entry points on a server: the checks, and the body under the descriptor's lock. *)
Definition with_server {A} (fail : sgx_status_t -> A) (state_handle : Z) (body : nat -> P A) : P A :=
  let* initialized := get g_node_initialized in
  if negb initialized then Ret (fail SGX_ERROR_INVALID_STATE)
  else if SGXSD_ENCLAVE_MAX_SERVERS <=? state_handle then Ret (fail SGX_ERROR_INVALID_PARAMETER)
  else
    let h := Z.to_nat state_handle in
    sgxsd_spin_lock (ServerLock h) ;;
    let* res := body h in
    sgxsd_spin_unlock (ServerLock h) ;;
    Ret res.

Definition sgxsd_enclave_server_start (hdr : sgxsd_msg_header_t) (p_args : option InitArgs) (state_handle : Z) : P sgx_status_t :=
  with_server (fun s => s) state_handle (sgxsd_enclave_server_start_locked hdr p_args).

Definition sgxsd_enclave_server_stop (hdr : sgxsd_msg_header_t) (p_args : option TermArgs) (state_handle : Z) : P sgx_status_t :=
  with_server (fun s => s) state_handle (sgxsd_enclave_server_stop_locked hdr p_args).

Definition sgxsd_enclave_server_call (hdr : sgxsd_msg_header_t) (fr : call_frame) (p_args : option CallArgs)
  (p_msg_header : option sgxsd_msg_header_t) (msg_data : option (list Z)) (msg_data_size msg_tag state_handle : Z)
  : P (sgx_status_t * option (list Z) * call_frame) :=
  with_server (fun s => (s, msg_data, fr)) state_handle
    (sgxsd_enclave_server_call_locked hdr fr p_args p_msg_header msg_data msg_data_size msg_tag).

Definition sgxsd_enclave_ratelimit_fingerprint (hdr : sgxsd_msg_header_t) (fr : call_frame) (fingerprint_key : list Z)
  (call_args : option CallArgs) (p_msg_header : option sgxsd_msg_header_t) (msg_data : option (list Z))
  (msg_data_size msg_tag state_handle : Z) (fingerprint : option (list Z)) (fingerprint_size : Z)
  : P (sgx_status_t * option (list Z) * option (list Z) * call_frame) :=
  with_server (fun s => (s, msg_data, fingerprint, fr)) state_handle
    (fun h => sgxsd_enclave_ratelimit_fingerprint_locked hdr fr fingerprint_key call_args p_msg_header msg_data
                msg_data_size msg_tag h fingerprint fingerprint_size).

End Code.
End Model.
End Sgxsd.
