(* ===== verification/SgxsdSafety.v ===== *)
(** Safety of the enclave under concurrency: in every interleaving of entry points the sizes of
    the global variables and the pending request table keep their invariant, and no access
    leaves an object or goes through a NULL pointer. *)
From S2P Require Import Prelude Codec Curve25519 SgxsdCrypto Threads Sgxsd.
From Stdlib Require Import ZArith List Lia Bool.
Import Codec SgxsdCrypto Threads Sgxsd.

Module SgxsdSafety.

#[local] Opaque Curve25519.curve25519_donna Curve25519.clamp sgxsd_enclave_sha256 sgxsd_enclave_hmac_sha256
  sgxsd_aes_gcm_run aes_gcm_seal aes_gcm_open hkdf_T hmac_sha256.

(** * The invariant *)

(** [n] bytes; 32 bytes for keys and hashes. *)
Definition blob (n : nat) (l : list Z) : Prop := length l = n /\ bytes_ok l.
Abbreviation key_ok := (blob 32).

Definition kp_ok (kp : sgxsd_curve25519_key_pair_t) : Prop := key_ok (privkey kp) /\ key_ok (pubkey kp).
Definition entry_ok (e : sgxsd_pending_request_t) : Prop := in_range 64 (id_val e) /\ key_ok (hkdf_prk e).
Definition pid_ok (p : sgxsd_pending_request_id_t) : Prop := blob 8 (pid_data p) /\ blob 12 (pid_iv p) /\ blob 16 (pid_mac p).
Definition header_ok (h : sgxsd_msg_header_t) : Prop :=
  blob 12 (mh_iv h) /\ blob 16 (mh_mac h) /\ pid_ok (mh_pending_request_id h).
Definition response_ok (r : sgxsd_request_negotiation_response_t) : Prop :=
  key_ok (server_static_pubkey r) /\ key_ok (server_ephemeral_pubkey r) /\
  blob 36 (enc_pid_data r) /\ blob 12 (enc_pid_iv r) /\ blob 16 (enc_pid_mac r).
Definition from_ok (f : sgxsd_msg_from_t) : Prop := key_ok (from_server_key f).

(** A buffer of at least [size] bytes, or NULL. *)
Definition region (size : Z) (data : option (list Z)) : Prop :=
  match data with Some d => size <= Z.of_nat (length d) /\ bytes_ok d | None => True end.
Definition buf_ok (b : sgxsd_msg_buf_t) : Prop := 0 <= mb_size b < 2 ^ 32 /\ region (mb_size b) (mb_data b).

(** A property of an optional object. *)
Definition if_some {A} (P : A -> Prop) (o : option A) : Prop := match o with Some a => P a | None => True end.

Lemma zeros_blob n : 0 <= n -> blob (Z.to_nat n) (zeros n).
Proof.
  intros Hn. split; [apply repeat_length|]. apply Forall_repeat. unfold in_range. lia.
Qed.

Lemma zeros_key : key_ok (zeros 32).
Proof. now apply (zeros_blob 32). Qed.

(** What the callbacks of a server require of the pointer to its state. *)
Class ServerState (S : Type) := { state_ok : option S -> Prop }.

(** What they require of their arguments. *)
Class ServerArgs (InitArgs CallArgs TermArgs : Type) := {
  init_args_ok : option InitArgs -> Prop;
  call_args_ok : option CallArgs -> Prop;
  terminate_args_ok : option TermArgs -> Prop;
  fingerprint_args_ok : list Z -> option CallArgs -> option (list Z) -> Z -> Prop }.

Section Invariant.
Context {W S TargetInfo InitArgs CallArgs TermArgs : Type} {SS : ServerState S} {SA : ServerArgs InitArgs CallArgs TermArgs}.
Abbreviation enclave := (@enclave W S).

Record enclave_inv (st : enclave) : Prop := {
  inv_rand : key_ok (g_read_rand_state st);
  inv_dh : kp_ok (g_dh_keypair st);
  inv_new_dh : kp_ok (g_new_dh_keypair st);
  inv_key : key_ok (g_pending_request_id_key st);
  inv_last : in_range 64 (g_last_pending_request_id_val st);
  inv_servers : length (g_server_states st) = 256%nat;
  inv_states : Forall (fun d => valid d = true -> state_ok (p_state d)) (g_server_states st);
  inv_entries : if_some (Forall entry_ok) (g_pending_requests st);
  inv_table : g_node_initialized st = true ->
    0 <= g_pending_requests_table_order st <= 63 /\
    exists t, g_pending_requests st = Some t /\ Z.of_nat (length t) = 2 ^ g_pending_requests_table_order st }.

(** The number of entries of the table. *)
Definition table_size (st : enclave) : option nat := option_map (@length _) (g_pending_requests st).

(** A state that the callbacks can work with stays one. *)
Definition state_kept (d d' : @sgxsd_server_state_desc_t S) : Prop := state_ok (p_state d) -> state_ok (p_state d').
Definition states_kept (st st' : enclave) : Prop := Forall2 state_kept (g_server_states st) (g_server_states st').

(** Initialisation happens once and what it sets then stays. *)
Definition evolves (st st' : enclave) : Prop :=
  (g_node_initialized st = true ->
   g_node_initialized st' = true /\ g_pending_requests_table_order st' = g_pending_requests_table_order st /\
   g_pending_request_id_key st' = g_pending_request_id_key st /\ table_size st' = table_size st) /\
  states_kept st st'.

(** Only the holder of the initialisation lock changes these at all. *)
Definition evolves_unheld (st st' : enclave) : Prop :=
  g_node_initialized st' = g_node_initialized st /\ g_pending_requests_table_order st' = g_pending_requests_table_order st /\
  g_pending_request_id_key st' = g_pending_request_id_key st /\ table_size st' = table_size st /\ states_kept st st'.

Lemma kept_refl l : Forall2 state_kept l l.
Proof. induction l; constructor; [now intros H|assumption]. Qed.

Lemma kept_trans l1 : forall l2 l3, Forall2 state_kept l1 l2 -> Forall2 state_kept l2 l3 -> Forall2 state_kept l1 l3.
Proof.
  induction l1 as [|d l1 IH]; intros l2 l3 H1 H2; inversion H1; subst; inversion H2; subst; constructor; [|now apply (IH l')].
  intros H. auto.
Qed.

(** An assignment to a descriptor. *)
Lemma kept_assign l h d d' : nth_error l h = Some d -> state_kept d d' -> Forall2 state_kept l (assign l h d').
Proof.
  revert h. induction l as [|x l IH]; intros [|h] E Hk; cbn in *; try discriminate.
  - injection E as ->. constructor; [exact Hk|apply kept_refl].
  - constructor; [now intros H|now apply IH].
Qed.

#[export] Instance enclave_rely : Rely enclave_inv NodeInitLock evolves evolves_unheld.
Proof.
  split; unfold evolves, evolves_unheld, states_kept.
  - intros st. split; [auto|apply kept_refl].
  - intros a b c [Hab Kab] [Hbc Kbc]. split; [|now apply (kept_trans _ (g_server_states b))]. intros Ha.
    destruct (Hab Ha) as (Hb & E1 & E2 & E3). destruct (Hbc Hb) as (Hc & F1 & F2 & F3). repeat split; congruence.
  - intros st. repeat split. apply kept_refl.
  - intros a b c (E0 & E1 & E2 & E3 & K1) (F0 & F1 & F2 & F3 & K2). repeat split; try congruence. now apply (kept_trans _ (g_server_states b)).
  - intros a b (E0 & E1 & E2 & E3 & K). split; [|exact K]. intros Ha. repeat split; congruence.
  - intros l b [] []; destruct l as [| | | |h]; try (split; assumption). cbn in *.
    destruct (nth_error _ h) as [d|] eqn:E; [|split; assumption].
    split; cbn; try assumption; [now rewrite length_assign|]. apply Forall_assign; [assumption|].
    exact (proj1 (Forall_forall _ _) inv_states0 d (nth_error_In _ _ E)).
  - intros l b []. destruct l as [| | | |h]; cbn; [repeat split; apply kept_refl..|].
    destruct (nth_error _ h) as [d|] eqn:E; repeat split; [|apply kept_refl]. apply (kept_assign _ h d); [exact E|now intros H].
  - now intros [? ? ? ? ? ? ? ? ? [] ?].
Qed.

(** * Reasoning rules *)

Abbreviation Safe := (safe enclave_inv NodeInitLock evolves evolves_unheld).
Abbreviation P A := (prog enclave lock_id A).

(** A fact about the state that the moves of other threads, and moves of this one outside the
    initialisation, keep. *)
Class Stable (h : bool) (F : enclave -> Prop) : Prop := {
  stable_unheld st st' : evolves_unheld st st' -> F st -> F st';
  stable_rely st st' : rely evolves evolves_unheld h st st' -> F st -> F st' }.

(** [p] is safe where [F] holds, keeps [F] and returns values in [Q]. *)
Definition ok {A} (h : bool) (F : enclave -> Prop) (Q : A -> Prop) (p : P A) : Prop :=
  forall st, F st -> Safe (fun h' a st => h' = h /\ F st /\ Q a) h p st.

Section Rules.
Context (h : bool) (F : enclave -> Prop) {SF : Stable h F}.

Lemma ok_ret {A} (Q : A -> Prop) a : Q a -> ok h F Q (Ret a).
Proof. intros Hq st HF st' Hr Hi. split; [reflexivity|]. split; [exact (stable_rely _ _ Hr HF)|exact Hq]. Qed.

Lemma ok_bind {A B} (Q : A -> Prop) (R : B -> Prop) p k :
  ok h F Q p -> (forall a, Q a -> ok h F R (k a)) -> ok h F R (bind p k).
Proof.
  intros Hp Hk st HF. apply (safe_bind enclave_inv NodeInitLock evolves evolves_unheld (fun h' a st => h' = h /\ F st /\ Q a)); [apply Hp, HF|].
  intros h' a st' Hi (-> & HF' & Hq). now apply Hk.
Qed.

Lemma ok_impl {A} (Q Q' : A -> Prop) p : ok h F Q p -> (forall a, Q a -> Q' a) -> ok h F Q' p.
Proof.
  intros Hp HQ st HF. eapply safe_impl; [|apply Hp, HF]. cbn beta. intros h' a st' _ (-> & HF' & Hq). auto.
Qed.

(** An action that leaves alone what initialisation sets. *)
Lemma ok_act {B} (Q : B -> Prop) (f : enclave -> option (B * enclave)) :
  (forall st, enclave_inv st -> F st -> exists b st', f st = Some (b, st') /\ enclave_inv st' /\
     evolves_unheld st st' /\ lock_free NodeInitLock st' = lock_free NodeInitLock st /\ Q b) ->
  ok h F Q (act f).
Proof.
  intros H st0 HF. apply safe_act. intros st Hr Hi. apply (stable_rely _ _ Hr) in HF.
  destruct (H st Hi HF) as (b & st' & E & Hi' & Hev & Hl & Hq). exists b, st'.
  split; [exact E|]. split; [exact Hi'|].
  split; [destruct h; cbn; [exact (unheld_evolves enclave_inv NodeInitLock evolves evolves_unheld _ _ Hev)|exact Hev]|].
  split; [exact Hl|]. intros st'' Hr' _. split; [reflexivity|].
  split; [|exact Hq]. exact (stable_rely _ _ Hr' (stable_unheld (h := h) _ _ Hev HF)).
Qed.

Lemma stay {B} (st : enclave) (b : B) (R : Prop) : enclave_inv st -> R ->
  Some (b, st) = Some (b, st) /\ enclave_inv st /\ evolves_unheld st st /\
  lock_free NodeInitLock st = lock_free NodeInitLock st /\ R.
Proof. intros Hi Hq. split; [reflexivity|]. split; [exact Hi|]. repeat split; [apply kept_refl|exact Hq]. Qed.

Lemma ok_get {B} (Q : B -> Prop) (f : enclave -> B) :
  (forall st, enclave_inv st -> F st -> Q (f st)) -> ok h F Q (get f).
Proof.
  intros H. apply ok_act. intros st Hi HF. exists (f st), st. apply stay; auto.
Qed.

Lemma ok_modify (f : enclave -> enclave) :
  (forall st, enclave_inv st -> F st -> enclave_inv (f st) /\ evolves_unheld st (f st) /\
     lock_free NodeInitLock (f st) = lock_free NodeInitLock st) ->
  ok h F (fun _ => True) (modify f).
Proof.
  intros H. apply ok_act. intros st Hi HF. destruct (H st Hi HF) as (H1 & H2 & H3). exists tt, (f st). auto 6.
Qed.

Lemma ok_lift {B} (Q : B -> Prop) o : (exists b, o = Some b /\ Q b) -> ok h F Q (lift o).
Proof.
  intros (b & -> & Hq). apply ok_act. intros st Hi HF. exists b, st. now apply stay.
Qed.

Lemma ok_lock l : l <> NodeInitLock -> ok h F (fun _ => True) (lock l).
Proof.
  intros Hl st HF st' Hr Hi st'' Hr' Hi'. unfold after_lock in *.
  destruct (lock_eq_dec l NodeInitLock); [contradiction|]. split; [reflexivity|]. split; [|trivial].
  apply (stable_rely _ _ Hr'). apply (stable_unheld (h := h) st'); [exact (lock_unheld enclave_inv NodeInitLock evolves evolves_unheld l _ st')|].
  exact (stable_rely _ _ Hr HF).
Qed.

Lemma ok_unlock l : l <> NodeInitLock -> ok h F (fun _ => True) (unlock l).
Proof.
  intros Hl st HF st' Hr Hi. split; [now intros|]. intros st'' Hr' Hi'. unfold after_lock in *.
  destruct (lock_eq_dec l NodeInitLock); [contradiction|]. split; [reflexivity|]. split; [|trivial].
  apply (stable_rely _ _ Hr'). apply (stable_unheld (h := h) st'); [exact (lock_unheld enclave_inv NodeInitLock evolves evolves_unheld l _ st')|].
  exact (stable_rely _ _ Hr HF).
Qed.

(** Reading a variable and keeping what was read as a fact. *)
Lemma ok_get_fact {A B} (F' : B -> enclave -> Prop) (Q : A -> Prop) (f : enclave -> B) k :
  (forall st, enclave_inv st -> F st -> F' (f st) st) -> (forall b st, F' b st -> F st) ->
  (forall b, Stable h (F' b)) -> (forall b, ok h (F' b) Q (k b)) -> ok h F Q (bind (get f) k).
Proof.
  intros H1 H2 H3 H4 st0 HF.
  apply (safe_bind enclave_inv NodeInitLock evolves evolves_unheld (fun h' b st => h' = h /\ F' b st)).
  - apply (safe_get enclave_inv NodeInitLock evolves evolves_unheld). intros st Hr Hi st' Hr' _.
    split; [reflexivity|]. apply (stable_rely _ _ Hr'), H1; [exact Hi|]. exact (stable_rely _ _ Hr HF).
  - intros h' b st _ [-> Hb]. eapply safe_impl; [|apply H4, Hb]. cbn beta. intros h1 a st1 _ (-> & Hf & Hq). eauto.
Qed.

(** An action that establishes a fact. *)
Lemma ok_act_fact {A B} (F' : B -> enclave -> Prop) (Q : A -> Prop) (f : enclave -> option (B * enclave)) k :
  (forall st, enclave_inv st -> F st -> exists b st', f st = Some (b, st') /\ enclave_inv st' /\ evolves_unheld st st' /\
     lock_free NodeInitLock st' = lock_free NodeInitLock st /\ F' b st') ->
  (forall b st, F' b st -> F st) -> (forall b, Stable h (F' b)) -> (forall b, ok h (F' b) Q (k b)) -> ok h F Q (bind (act f) k).
Proof.
  intros H1 H2 H3 H4 st0 HF. apply (safe_bind enclave_inv NodeInitLock evolves evolves_unheld (fun h' b st => h' = h /\ F' b st)).
  - apply safe_act. intros st Hr Hi. apply (stable_rely _ _ Hr) in HF. destruct (H1 st Hi HF) as (b & st' & E & Hi' & Hev & Hl & Hb).
    exists b, st'. split; [exact E|]. split; [exact Hi'|].
    split; [destruct h; cbn; [exact (unheld_evolves enclave_inv NodeInitLock evolves evolves_unheld _ _ Hev)|exact Hev]|].
    split; [exact Hl|]. intros st'' Hr' _. split; [reflexivity|]. exact (stable_rely _ _ Hr' Hb).
  - intros h' b st _ [-> Hb]. eapply safe_impl; [|apply H4, Hb]. cbn beta. intros h1 a st1 _ (-> & Hf & Hq). eauto.
Qed.

(** A fact that no thread changes is kept. *)
Lemma ok_frame {A} (G : enclave -> Prop) (Q : A -> Prop) p : (forall st st', evolves st st' -> G st -> G st') ->
  ok h F Q p -> ok h (fun st => F st /\ G st) Q p.
Proof.
  intros HG Hp st [HF H]. eapply safe_impl; [|exact (safe_frame enclave_inv NodeInitLock evolves evolves_unheld G _ p HG h st (Hp st HF) H)].
  cbn beta. tauto.
Qed.

End Rules.

(** After initialisation, with the table order known. *)
Definition ready (st : enclave) : Prop := g_node_initialized st = true.
Definition ready_at (o : Z) (st : enclave) : Prop := g_node_initialized st = true /\ g_pending_requests_table_order st = o.
Definition anytime (st : enclave) : Prop := True.

#[export] Instance ready_stable : Stable false ready.
Proof.
  unfold ready. split; [intros st st' (-> & _); trivial|]. intros st st' [H _] E. now apply H.
Qed.

#[export] Instance ready_at_stable o : Stable false (ready_at o).
Proof.
  unfold ready_at. split; [intros st st' (-> & -> & _); trivial|].
  intros st st' [H _] [E <-]. destruct (H E) as (-> & -> & _). auto.
Qed.

#[export] Instance anytime_stable h : Stable h anytime.
Proof. now split. Qed.

(** * The entry points *)

(** The documented behaviour of [sgx_read_rand]: it fills the buffer it is given. *)
Definition platform_ok (plat : @platform W TargetInfo) : Prop :=
  forall n w, 0 <= n -> blob (Z.to_nat n) (snd (fst (sgx_read_rand plat n w))).

(** A callback passes valid buffers to the functions it calls, and its result is in [Q]. *)
Fixpoint prog_ok {A} (Q : A -> Prop) (p : @server_prog W A) : Prop :=
  match p with
  | SRet _ a => Q a
  | SUndefined _ => False
  | SExt _ f k => forall w, prog_ok Q (k (fst (f w)))
  | SReadRand _ x k => forall res x, key_ok x -> prog_ok Q (k res x)
  | SReply _ buf from k => buf_ok buf /\ if_some from_ok from /\
      forall res data from', region (mb_size buf) data -> is_null data = is_null (mb_data buf) ->
        from' = option_map (fun _ => zero_from) from -> prog_ok Q (k res data from')
  | SNoReply _ from k => if_some from_ok from /\ forall res from', if_some from_ok from' -> prog_ok Q (k res from')
  end.

(** Given arguments and a state they accept and a valid message buffer, the callbacks behave, and
    leave such a state and a buffer of that size; initialisation succeeds only with a state. *)
Record server_ok (serv : @server W S InitArgs CallArgs TermArgs) : Prop := {
  init_ok args : init_args_ok args -> prog_ok (fun '(res, stored) => if_some state_ok stored /\ (success res = true -> is_null stored = false))
    (sgxsd_enclave_server_init serv args);
  handle_call_ok args buf from p : call_args_ok args -> buf_ok buf -> is_null (mb_data buf) = false -> from_ok from -> state_ok p ->
    prog_ok (fun '(_, data, p') => region (mb_size buf) data /\ is_null data = false /\ state_ok p')
      (sgxsd_enclave_server_handle_call serv args buf from p);
  terminate_ok args p : terminate_args_ok args -> state_ok p -> prog_ok (fun _ => True) (sgxsd_enclave_server_terminate serv args p);
  fingerprint_ok key args buf from fp n : fingerprint_args_ok key args fp n -> buf_ok buf -> is_null (mb_data buf) = false -> from_ok from ->
    prog_ok (fun '(_, data, _) => region (mb_size buf) data /\ is_null data = false)
      (sgxsd_enclave_create_ratelimit_fingerprint serv key args buf from fp n) }.

Section EntryPoints.
Context (plat : @platform W TargetInfo) (Hplat : platform_ok plat)
  (serv : @server W S InitArgs CallArgs TermArgs) (Hserv : server_ok serv)
  (stk : stack) (Hstk : stack_ok stk).

(** Prove the invariant and the evolution after an assignment outside initialisation. *)
Ltac assigned st Hi :=
  destruct st; destruct Hi; (split; [split; cbn in *; try assumption|]); [..|split; [repeat split; try apply kept_refl|reflexivity]].

Ltac seq t := match goal with |- ok ?h ?F _ _ => eapply (ok_bind h F); [t|] end.
Ltac ret_ok := idtac; match goal with |- ok ?h ?F _ _ => apply (ok_ret h F) end.
Ltac lock_ok := idtac; match goal with |- ok ?h ?F _ _ => (apply (ok_lock h F) || apply (ok_unlock h F)); discriminate end.
Ltac locked := seq lock_ok; intros _ _.
Ltac assign_ok lem := match goal with |- ok ?h ?F _ _ => apply (ok_modify h F) end; intros; apply lem; trivial.

Lemma act_assign {B} (st st' : enclave) (b : B) (R : Prop) :
  (enclave_inv st' /\ evolves_unheld st st' /\ lock_free NodeInitLock st' = lock_free NodeInitLock st) -> R ->
  Some (b, st') = Some (b, st') /\ enclave_inv st' /\ evolves_unheld st st' /\
  lock_free NodeInitLock st' = lock_free NodeInitLock st /\ R.
Proof. tauto. Qed.

(** The assignments outside initialisation. *)
Abbreviation assignable st st' := (enclave_inv st' /\ evolves_unheld st st' /\
  lock_free NodeInitLock st' = lock_free NodeInitLock st) (only parsing).

Lemma set_world_ok st w : enclave_inv st -> assignable st (set_world w st).
Proof. intros Hi. assigned st Hi. Qed.

Lemma set_rand_ok st v : enclave_inv st -> key_ok v -> assignable st (set_read_rand_state v st).
Proof. intros Hi Hv. assigned st Hi. Qed.

Lemma set_dh_ok st v : enclave_inv st -> kp_ok v -> assignable st (set_dh_keypair v st).
Proof. intros Hi Hv. assigned st Hi. Qed.

Lemma set_new_dh_ok st v : enclave_inv st -> kp_ok v -> assignable st (set_new_dh_keypair v st).
Proof. intros Hi Hv. assigned st Hi. Qed.

Lemma set_last_ok st v : enclave_inv st -> in_range 64 v -> assignable st (set_last_id v st).
Proof. intros Hi Hv. assigned st Hi. Qed.

Lemma set_desc_ok st h d d' : enclave_inv st -> nth_error (g_server_states st) h = Some d -> state_kept d d' ->
  (valid d' = true -> state_ok (p_state d')) -> assignable st (set_server_states (assign (g_server_states st) h d') st).
Proof.
  intros Hi E Hk Hv. assigned st Hi; [now rewrite length_assign|now apply Forall_assign|]. now apply (kept_assign _ h d).
Qed.

Lemma hkdf_round_key prk buf : key_ok (t_n (sgxsd_enclave_ra_hkdf_round stk prk buf)).
Proof. cbn [t_n sgxsd_enclave_ra_hkdf_round]. rewrite (hmac_spec stk Hstk). apply hmac_shape. Qed.

Section Helpers.
Context (h : bool) (F : enclave -> Prop) {SF : Stable h F}.

Lemma read_rand_ok n : 0 <= n ->
  ok h F (fun r => blob (Z.to_nat n) (snd r)) (call_read_rand plat n).
Proof.
  intros Hn. apply (ok_act h F). intros st Hi HF. pose proof (Hplat n (world st) Hn) as Hb.
  destruct (sgx_read_rand plat n (world st)) as [[res bytes] w]. cbn [fst snd] in Hb.
  exists (res, bytes), (set_world w st). apply act_assign; [now apply set_world_ok|exact Hb].
Qed.

Lemma enclave_read_rand_ok x : ok h F (fun r => key_ok (snd r)) (sgxsd_enclave_read_rand plat stk x).
Proof.
  unfold sgxsd_enclave_read_rand. seq ltac:(apply (read_rand_ok 32); lia). intros [res x'] Hx.
  destruct (negb (success res)); [now ret_ok|]. locked.
  apply (ok_bind h F key_ok); [apply (ok_get h F); intros st Hi _; apply Hi|]. intros state Hs.
  seq ltac:(assign_ok set_rand_ok; apply hkdf_round_key). intros _ _. locked. ret_ok. apply hkdf_round_key.
Qed.

Lemma clamp_key x : key_ok x -> key_ok (Curve25519.clamp x).
Proof. intros [L B]. destruct (Curve25519.clamp_spec x L B) as (Lc & Bc & _). now split. Qed.

Lemma basepoint_key : key_ok BASEPOINT.
Proof. split; [reflexivity|]. apply words_ok_forallb. reflexivity. Qed.

Lemma donna_key x y : key_ok x -> key_ok y -> key_ok (Curve25519.curve25519_donna x y).
Proof. intros [Lx Bx] [Ly By]. now apply Curve25519.curve25519_shape. Qed.

Lemma generate_ok kp : kp_ok kp ->
  ok h F (fun r => kp_ok (snd r)) (sgxsd_enclave_generate_curve25519_keypair plat stk kp).
Proof.
  intros [Hpriv Hpub]. unfold sgxsd_enclave_generate_curve25519_keypair.
  seq ltac:(apply enclave_read_rand_ok). intros [res x] Hx.
  destruct (negb (success res)); ret_ok; [now split|].
  cbn [snd]. split; cbn [privkey pubkey]; [now apply clamp_key|]. apply donna_key; [now apply clamp_key|apply basepoint_key].
Qed.

Lemma ocall_reply_ok hdr data size tag : ok h F (fun _ => True) (call_ocall_reply plat hdr data size tag).
Proof.
  apply (ok_act h F). intros st Hi HF. destruct (sgxsd_ocall_reply plat hdr data size tag (world st)) as [[r1 r2] w].
  eexists _, _. apply act_assign; [now apply set_world_ok|trivial].
Qed.

(** Encryption of a buffer onto itself, which may be NULL when empty. *)
Lemma encrypt_region key data size iv mac : key_ok key -> 0 <= size < 2 ^ 32 -> region size data ->
  (is_null data = true -> size = 0) -> blob 12 iv -> blob 16 mac ->
  exists data' mac', sgxsd_aes_gcm_encrypt stk (Some key) data size data (Some iv) None 0 (Some mac)
    = Some (SGX_SUCCESS, data', Some mac') /\ region size data' /\ is_null data' = is_null data /\ blob 16 mac'.
Proof.
  intros [Lk Bk] Hs Hd Hn [Liv Biv] [Lm Bm].
  assert (exists src, view data size = Some src /\ bytes_ok src) as (src & Hv & Bs).
  { unfold view. destruct (Z.eqb_spec size 0) as [->|Hz]; [exists []; split; [reflexivity|constructor]|].
    destruct data as [d|]; [|exfalso; auto]. destruct Hd as [Ld Bd].
    rewrite load_Some by lia. eexists. split; [reflexivity|]. now apply Forall_firstn. }
  rewrite (encrypt_spec stk _ _ _ _ _ _ _ _ key iv [] src Hstk).
  2: { split; try assumption; try constructor; try (apply load_all; rewrite ?Lk, ?Liv, ?Lm; reflexivity).
       - now exists src.
       - exists mac. apply load_all. now rewrite Lm. }
  destruct (seal_tag (Aead := aes_gcm_aead) key iv [] src (conj Lk Bk) Biv) as [Lt Bt].
  pose proof (seal_length (Aead := aes_gcm_aead) key iv [] src (conj Lk Bk) Biv) as Lc.
  pose proof (seal_bytes (Aead := aes_gcm_aead) key iv [] src (conj Lk Bk) Biv Bs) as Bc.
  destruct (view_inv _ _ _ Hv) as [Lv _].
  eexists _, _. split; [reflexivity|]. split; [|split].
  - destruct data as [d|]; [|trivial]. destruct Hd as [Ld Bd]. cbn [write option_map region].
    rewrite length_splice by lia. split; [lia|]. now apply Forall_splice.
  - now destruct data.
  - rewrite splice_all by lia. now split.
Qed.

Lemma reply_noerase_ok hdr buf from : blob 16 (mh_mac hdr) -> buf_ok buf -> if_some from_ok from ->
  ok h F (fun r => region (mb_size buf) (snd r) /\ is_null (snd r) = is_null (mb_data buf))
    (sgxsd_enclave_server_reply_noerase plat stk hdr buf from).
Proof.
  intros Hm [Hs Hd] Hf. unfold sgxsd_enclave_server_reply_noerase.
  destruct from as [from|]; [|now ret_ok]. destruct (negb (from_valid from)); [now ret_ok|].
  destruct (is_null (mb_data buf) && negb (mb_size buf =? 0)) eqn:G; [now ret_ok|].
  seq ltac:(apply (read_rand_ok 12); lia). intros [res iv] Hiv. cbn [snd] in Hiv.
  destruct (negb (success res)); [now ret_ok|].
  edestruct (encrypt_region (from_server_key from) (mb_data buf) (mb_size buf)
    (splice iv 0 [nth 0 iv 0 .| 1]) (mh_mac hdr)) as (data' & mac' & E & Hd' & Hn' & Hm'); try eassumption.
  - intros Hn. rewrite Hn in G. destruct (Z.eqb_spec (mb_size buf) 0); [assumption|discriminate].
  - destruct Hiv as [L B]. split; [rewrite length_splice; cbn in *; lia|].
    apply Forall_splice; [exact B|]. constructor; [|constructor].
    destruct iv as [|b iv]; [discriminate|]. apply Forall_inv in B. apply lor_range; [lia|exact B|unfold in_range; lia].
  - apply (ok_bind h F (fun r => r = (SGX_SUCCESS, data', Some mac'))); [apply (ok_lift h F); eauto|].
    intros r ->. apply (ok_bind h F (fun m => m = mac')); [apply (ok_lift h F); eauto|]. intros m ->.
    cbn [success negb]. seq ltac:(apply ocall_reply_ok). intros r _. now ret_ok.
Qed.

Lemma reply_ok hdr buf from : blob 16 (mh_mac hdr) -> buf_ok buf -> if_some from_ok from ->
  ok h F (fun '(_, data, from') => region (mb_size buf) data /\ is_null data = is_null (mb_data buf) /\
            from' = option_map (fun _ => zero_from) from)
    (sgxsd_enclave_server_reply plat stk hdr buf from).
Proof.
  intros Hm Hb Hf. unfold sgxsd_enclave_server_reply.
  seq ltac:(now apply reply_noerase_ok). intros [res data] [Hd Hn]. cbn [snd] in *. destruct Hb as [Hs _].
  destruct data as [d|]; cbn [is_null].
  - destruct Hd as [Ld Bd].
    apply (ok_bind h F (fun o => o = Some (splice d 0 (zeros (mb_size buf))))).
    + apply (ok_lift h F). eexists. split; [|reflexivity]. unfold store, zeros. rewrite repeat_length.
      destruct (Nat.leb_spec (Z.to_nat (mb_size buf)) (length d)); [reflexivity|lia].
    + intros o ->. ret_ok. split; [|now split]. destruct (zeros_blob (mb_size buf)) as [Lz Bz]; [lia|].
      split; [rewrite length_splice; lia|now apply Forall_splice].
  - apply (ok_bind h F (fun o => o = None)); [now ret_ok|]. intros o ->. now ret_ok.
Qed.

Lemma zero_from_ok : from_ok zero_from.
Proof. apply zeros_key. Qed.

Lemma interp_ok {A} hdr (Q : A -> Prop) p : blob 16 (mh_mac hdr) -> prog_ok Q p -> ok h F Q (interp plat stk hdr p).
Proof.
  intros Hm. induction p as [a| |B f k IH|x k IH|buf from k IH|from k IH]; cbn [prog_ok interp].
  - intros Hq. now ret_ok.
  - intros [].
  - intros Hk. apply (ok_bind h F (fun b => exists w, b = fst (f w))); [|intros b [w ->]; auto].
    apply (ok_act h F). intros st Hi HF. destruct (f (world st)) as [b w] eqn:E. eexists _, _.
    apply act_assign; [now apply set_world_ok|]. exists (world st). now rewrite E.
  - intros Hk. seq ltac:(apply enclave_read_rand_ok). intros [res x'] Hx. auto.
  - intros (Hb & Hf & Hk). seq ltac:(now apply reply_ok). intros [[res data] from'] (Hd & Hn & Hfr). auto.
  - intros (Hf & Hk). unfold sgxsd_enclave_server_noreply.
    apply (ok_bind h F (fun r => if_some from_ok (snd r))); [|intros [res from'] Hfr; auto].
    destruct from as [from|]; [|now ret_ok]. destruct (negb (from_valid from)); [now ret_ok|].
    seq ltac:(apply ocall_reply_ok). intros r _. ret_ok. apply zero_from_ok.
Qed.

End Helpers.
(** ** Pending requests *)

Lemma entry_index_lt order id : 0 <= order <= 63 -> 0 <= id -> Z.of_nat (entry_index order id) < 2 ^ order.
Proof.
  intros Ho Hid. unfold entry_index. rewrite Z.shiftl_mul_pow2, Z.mul_1_l by lia.
  assert (0 < 2 ^ order < 2 ^ 64) by (split; [apply Z.pow_pos_nonneg; lia|apply Z.pow_lt_mono_r; lia]).
  rewrite (wrap_small 64 (2 ^ order)), (wrap_small 64 (2 ^ order - 1)) by (unfold in_range; lia).
  replace (2 ^ order - 1) with (Z.ones order) by (rewrite Z.ones_equiv; lia).
  rewrite Z.land_ones by lia. pose proof (Z.mod_pos_bound id (2 ^ order)). lia.
Qed.

Lemma entry_in_table st o id : enclave_inv st -> ready_at o st -> 0 <= id ->
  exists t, g_pending_requests st = Some t /\ Forall entry_ok t /\ (entry_index o id < length t)%nat.
Proof.
  intros Hi [E <-] Hid. destruct (inv_table st Hi E) as (Ho & t & Et & L). exists t.
  pose proof (inv_entries st Hi) as He. rewrite Et in He. split; [exact Et|]. split; [exact He|].
  pose proof (entry_index_lt _ id Ho Hid). lia.
Qed.

Lemma set_entry_ok st o id e : enclave_inv st -> ready_at o st -> 0 <= id -> entry_ok e ->
  exists st', store_entry o id e st = Some st' /\ assignable st st'.
Proof.
  intros Hi Hr Hid He. destruct (entry_in_table st o id Hi Hr Hid) as (t & Et & Ht & Hlt).
  unfold store_entry. rewrite Et, (proj2 (Nat.ltb_lt _ _) Hlt). eexists. split; [reflexivity|].
  generalize (entry_index o id). intros i. destruct st; destruct Hi. cbn in Et. subst.
  split; [split; cbn in *; try assumption|split; [|reflexivity]].
  - now apply Forall_assign.
  - intros E. destruct (inv_table0 E) as (Ho & t' & [= <-] & L). split; [exact Ho|].
    eexists. split; [reflexivity|]. now rewrite length_assign.
  - split; [reflexivity|]. split; [reflexivity|]. split; [reflexivity|]. split; [cbn; f_equal; apply length_assign|apply kept_refl].
Qed.

(** Encryption of [n] bytes into [n] bytes. *)
Lemma encrypt_blob key n src dst iv mac : key_ok key -> blob n src -> blob n dst -> blob 12 iv -> blob 16 mac ->
  exists c t, sgxsd_aes_gcm_encrypt stk (Some key) (Some src) (Z.of_nat n) (Some dst) (Some iv) None 0 (Some mac)
    = Some (SGX_SUCCESS, Some c, Some t) /\ (c, t) = aes_gcm_seal key iv [] src /\ blob n c /\ blob 16 t.
Proof.
  intros [Lk Bk] [Ls Bs] [Ld Bd] [Liv Biv] [Lm Bm].
  rewrite (encrypt_spec stk _ _ _ _ _ _ _ _ key iv [] src Hstk).
  2: { split; try assumption; try constructor; try (apply load_all; rewrite ?Lk, ?Liv, ?Lm; reflexivity).
       - unfold view. destruct (Z.eqb_spec (Z.of_nat n) 0); [destruct src; [reflexivity|cbn in Ls; lia]|].
         apply load_all. now rewrite Ls.
       - exists dst. unfold view. destruct (Z.eqb_spec (Z.of_nat n) 0); [destruct dst; [reflexivity|cbn in Ld; lia]|].
         apply load_all. now rewrite Ld.
       - exists mac. apply load_all. now rewrite Lm. }
  destruct (seal_tag (Aead := aes_gcm_aead) key iv [] src (conj Lk Bk) Biv) as [Lt Bt].
  pose proof (seal_length (Aead := aes_gcm_aead) key iv [] src (conj Lk Bk) Biv) as Lc.
  pose proof (seal_bytes (Aead := aes_gcm_aead) key iv [] src (conj Lk Bk) Biv Bs) as Bc.
  exists (fst (aes_gcm_seal key iv [] src)), (snd (aes_gcm_seal key iv [] src)).
  split; [unfold write; cbn [option_map]; rewrite !splice_all by congruence; reflexivity|].
  split; [now destruct (aes_gcm_seal key iv [] src)|]. split; split; congruence || assumption.
Qed.

Lemma enc64le_blob x : blob 8 (br_enc64le x).
Proof.
  split; [reflexivity|]. unfold br_enc64le, br_enc32le. cbn [app].
  repeat (apply Forall_cons; [now apply wrap_range|]). constructor.
Qed.

Lemma add_pending_ok pid prk : pid_ok pid -> key_ok prk ->
  ok false ready (fun r => pid_ok (snd r)) (sgxsd_enclave_add_pending_request plat stk pid prk).
Proof.
  intros (Hd & Hiv & Hmac) Hprk. unfold sgxsd_enclave_add_pending_request.
  apply (ok_get_fact false ready ready_at); [now unfold ready, ready_at|now unfold ready, ready_at|exact _|].
  intros o. locked.
  apply (ok_bind false (ready_at o) (fun _ => True)).
  { apply (ok_act false (ready_at o)). intros st Hi Hr. set (id := u64 (g_last_pending_request_id_val st + 1)).
    assert (Hid : in_range 64 id) by (now apply wrap_range). clearbody id.
    destruct (set_last_ok st id Hi Hid) as (Hi1 & Hev1 & Hl1).
    assert (Hr1 : ready_at o (set_last_id id st)) by (exact (stable_unheld (h := false) _ _ Hev1 Hr)).
    destruct (set_entry_ok (set_last_id id st) o id {| id_val := id; hkdf_prk := prk |} Hi1 Hr1 (proj1 Hid) (conj Hid Hprk))
      as (st' & -> & Hi2 & Hev2 & Hl2).
    exists id, st'. apply act_assign; [|trivial]. split; [exact Hi2|].
    split; [exact (unheld_trans enclave_inv NodeInitLock evolves evolves_unheld _ _ _ Hev1 Hev2)|congruence]. }
  intros id _. locked. seq ltac:(apply (read_rand_ok false (ready_at o) 12); lia). intros [res iv] Hiv'. cbn [snd] in Hiv'.
  destruct (negb (success res)); [ret_ok; now split|]. cbn [pid_data pid_iv pid_mac].
  apply (ok_bind false (ready_at o) key_ok); [apply (ok_get false (ready_at o)); intros st Hi _; apply Hi|]. intros key Hk.
  destruct (encrypt_blob key 8 (br_enc64le id) (pid_data pid) iv (pid_mac pid) Hk (enc64le_blob id) Hd Hiv' Hmac)
    as (c & t & E & _ & Hc & Ht).
  apply (ok_bind false (ready_at o) (fun r => r = (SGX_SUCCESS, Some c, Some t))); [apply (ok_lift false (ready_at o)); eauto|].
  intros r ->. apply (ok_bind false (ready_at o) (fun x => x = c)); [apply (ok_lift false (ready_at o)); eauto|]. intros x ->.
  apply (ok_bind false (ready_at o) (fun x => x = t)); [apply (ok_lift false (ready_at o)); eauto|]. intros x ->.
  cbn [success negb]. ret_ok. now split.
Qed.

(** Decryption in place of the first [size] bytes of a buffer. *)
Lemma decrypt_region key data size dst iv aad na tag : key_ok key -> 0 <= size -> region size (Some data) ->
  region size (Some dst) -> blob 12 iv -> blob na aad -> blob 16 tag ->
  exists res data', sgxsd_aes_gcm_decrypt stk (Some key) (Some data) size (Some dst) (Some iv)
      (if (na =? 0)%nat then None else Some aad) (Z.of_nat na) (Some tag)
    = Some (res, Some data', Some tag) /\
  match aes_gcm_open key iv aad (firstn (Z.to_nat size) data) tag with
  | Some p => res = SGX_SUCCESS /\ data' = splice dst 0 p
  | None => res = SGX_ERROR_MAC_MISMATCH /\ data' = splice dst 0 (zeros size)
  end /\ length data' = length dst /\ bytes_ok data'.
Proof.
  intros [Lk Bk] Hs [Ld Bd] [Ldst Bdst] [Liv Biv] [La Ba] [Lt Bt].
  assert (Hv : forall b, size <= Z.of_nat (length b) -> view (Some b) size = Some (firstn (Z.to_nat size) b)).
  { intros b Hb. unfold view. destruct (Z.eqb_spec size 0) as [->|]; [reflexivity|]. apply load_Some. lia. }
  assert (Bsrc : bytes_ok (firstn (Z.to_nat size) data)) by (now apply Forall_firstn).
  rewrite (decrypt_spec stk _ _ _ _ _ _ _ _ key iv aad (firstn (Z.to_nat size) data) tag Hstk).
  2: { split; try assumption; try (apply load_all; rewrite ?Lk, ?Liv, ?Lt; reflexivity).
       - unfold view. destruct (Nat.eqb_spec na 0) as [->|Hna]; [destruct aad; [reflexivity|discriminate]|].
         destruct (Z.eqb_spec (Z.of_nat na) 0); [lia|]. apply load_all. now rewrite La.
       - now apply Hv.
       - eexists. now apply Hv.
       - exists tag. apply load_all. now rewrite Lt. }
  2: { apply load_all. now rewrite Lt. }
  2: { exact Bt. }
  destruct (aes_gcm_open key iv aad (firstn (Z.to_nat size) data) tag) as [p|] eqn:E; eexists _, _;
    (split; [reflexivity|]); (split; [now split|]).
  - pose proof (open_sound (Aead := aes_gcm_aead) key iv aad _ tag p (conj Lk Bk) Biv E) as Es.
    pose proof (seal_length (Aead := aes_gcm_aead) key iv aad p (conj Lk Bk) Biv) as Lp. rewrite Es in Lp.
    cbn [fst] in Lp. rewrite length_firstn in Lp. split; [apply length_splice; lia|].
    apply Forall_splice; [exact Bdst|]. exact (open_bytes (Aead := aes_gcm_aead) key iv aad _ tag p (conj Lk Bk) Biv Bsrc E).
  - destruct (zeros_blob size Hs) as [Lz Bz]. split; [apply length_splice; unfold zeros in *; lia|].
    now apply Forall_splice.
Qed.

Lemma blob_region n l : blob n l -> region (Z.of_nat n) (Some l).
Proof. intros [L B]. split; [lia|exact B]. Qed.

Lemma dec64le_range l : bytes_ok l -> in_range 64 (br_dec64le l).
Proof.
  intros B. unfold br_dec64le. apply lor_range; [lia| |].
  - apply (range_weaken 32); [lia|]. now apply br_dec32le_range.
  - apply wrap_range. lia.
Qed.

Lemma decrypt_id_ok pid : pid_ok pid ->
  ok false ready (fun r => in_range 64 (snd r)) (decrypt_id stk pid).
Proof.
  intros (Hd & Hiv & Hmac). unfold decrypt_id.
  apply (ok_bind false ready key_ok); [apply (ok_get false ready); intros st Hi _; apply Hi|]. intros key Hk.
  destruct (decrypt_region key (pid_data pid) 8 (br_enc64le 0) (pid_iv pid) [] 0 (pid_mac pid)) as (res & data' & E & _ & L & B);
    [assumption|lia|now apply (blob_region 8)|apply (blob_region 8), enc64le_blob|assumption|split; [reflexivity|constructor]|assumption|].
  apply (ok_bind false ready (fun r => r = (res, Some data', Some (pid_mac pid)))); [apply (ok_lift false ready); eauto|].
  intros r ->. apply (ok_bind false ready (fun x => x = data')); [apply (ok_lift false ready); eauto|]. intros x ->.
  ret_ok. now apply dec64le_range.
Qed.

(** The entry found under the lock. *)
Lemma load_entry_ok st id : enclave_inv st -> ready st -> 0 <= id ->
  exists e, load_entry (g_pending_requests_table_order st) id st = Some e /\ entry_ok e.
Proof.
  intros Hi Hr Hid. destruct (entry_in_table st _ id Hi (conj Hr eq_refl) Hid) as (t & Et & Ht & Hlt).
  unfold load_entry. rewrite Et. destruct (nth_error t _) as [e|] eqn:E.
  - exists e. split; [reflexivity|]. rewrite Forall_forall in Ht. apply Ht. eapply nth_error_In; eassumption.
  - apply nth_error_None in E. lia.
Qed.

Lemma get_pending_ok pid req : pid_ok pid -> entry_ok req ->
  ok false ready (fun r => entry_ok (snd r)) (sgxsd_enclave_get_pending_request stk pid req).
Proof.
  intros Hp Hreq. unfold sgxsd_enclave_get_pending_request. seq ltac:(now apply decrypt_id_ok). intros [res id] Hid.
  destruct (negb (success res)); [now ret_ok|]. locked.
  apply (ok_bind false ready (fun r => entry_ok (snd r))); [|intros r Hr; locked; now ret_ok].
  apply (ok_act false ready). intros st Hi Hr. destruct (load_entry_ok st id Hi Hr (proj1 Hid)) as (e & -> & He).
  destruct (id_val e =? id); eexists _, st; now apply stay.
Qed.

Lemma zero_entry_ok : entry_ok zero_pending_request.
Proof. split; [unfold in_range; cbn; lia|apply zeros_key]. Qed.

Lemma remove_pending_ok pid req : pid_ok pid -> entry_ok req ->
  ok false ready (fun r => entry_ok (snd r)) (sgxsd_enclave_remove_pending_request stk pid req).
Proof.
  intros Hp Hreq. unfold sgxsd_enclave_remove_pending_request. seq ltac:(now apply decrypt_id_ok). intros [res id] Hid.
  destruct (negb (success res)); [now ret_ok|]. locked.
  apply (ok_bind false ready (fun r => entry_ok (snd r))); [|intros r Hr; locked; now ret_ok].
  apply (ok_act false ready). intros st Hi Hr. destruct (load_entry_ok st id Hi Hr (proj1 Hid)) as (e & -> & He).
  destruct (id_val e =? id).
  - destruct (set_entry_ok st _ id zero_pending_request Hi (conj Hr eq_refl) (proj1 Hid) zero_entry_ok) as (st' & -> & Ha).
    eexists _, st'. now apply act_assign.
  - eexists _, st. now apply stay.
Qed.

(** ** Messages *)

Lemma derived_keys prk p q :
  exists ck sk, sgxsd_enclave_derive_request_keys stk prk (Some p) (Some q) = (Some ck, Some sk) /\ key_ok ck /\ key_ok sk.
Proof. eexists _, _. split; [reflexivity|]. split; apply hkdf_round_key. Qed.

Lemma pid_bytes_blob p : pid_ok p -> blob 36 (pid_bytes p).
Proof.
  intros ([L1 B1] & [L2 B2] & [L3 B3]). unfold pid_bytes. split; [rewrite !length_app; lia|].
  repeat (apply Forall_app; split); assumption.
Qed.

Lemma decrypt_message_ok prk ck header data size tag : header_ok header -> region (u32 size) (Some data) ->
  ok false ready (fun '(_, d, from) => (exists d', d = Some d' /\ length d' = length data /\ bytes_ok d') /\ from_ok from)
    (decrypt_message stk prk ck header data size tag).
Proof.
  intros (Hiv & Hmac & Hpid) Hd. unfold decrypt_message.
  destruct (derived_keys prk ck (zeros SGXSD_AES_GCM_KEY_SIZE)) as (ck' & sk' & -> & Hck & Hsk).
  apply (ok_bind false ready (fun x => x = ck')); [apply (ok_lift false ready); eauto|]. intros x ->.
  apply (ok_bind false ready (fun x => x = sk')); [apply (ok_lift false ready); eauto|]. intros x ->.
  destruct (decrypt_region ck' data (u32 size) data (mh_iv header) (pid_bytes (mh_pending_request_id header)) 36 (mh_mac header))
    as (res & data' & E & _ & L & B); try assumption; [now apply wrap_range|now apply pid_bytes_blob|].
  apply (ok_bind false ready (fun r => r = (res, Some data', Some (mh_mac header)))); [apply (ok_lift false ready); eauto|].
  intros r ->. ret_ok. split; [eauto|exact Hsk].
Qed.

(** Server [h] has a state that the callbacks accept. *)
Definition has_state (h : nat) (st : enclave) : Prop := exists d, nth_error (g_server_states st) h = Some d /\ state_ok (p_state d).
Definition started (h : nat) (st : enclave) : Prop := ready st /\ has_state h st.

Lemma has_state_kept h st st' : evolves st st' -> has_state h st -> has_state h st'.
Proof.
  intros [_ Hk] (d & E & Hs). unfold states_kept in Hk. unfold has_state. revert h E. induction Hk as [|x y l l' Hxy Hk IH]; intros [|h] E; cbn in *; try discriminate.
  - injection E as ->. exists y. auto.
  - now apply IH.
Qed.

#[local] Instance started_stable h : Stable false (started h).
Proof.
  split; intros st st' Hev [Hr Hs].
  - split; [exact (stable_unheld (h := false) _ _ Hev Hr)|]. apply (has_state_kept h st); [|exact Hs].
    exact (unheld_evolves enclave_inv NodeInitLock evolves evolves_unheld _ _ Hev).
  - split; [exact (stable_rely (h := false) _ _ Hev Hr)|]. now apply (has_state_kept h st).
Qed.

Lemma when_started {A} h (Q : A -> Prop) (p : P A) : ok false ready Q p -> ok false (started h) Q p.
Proof. apply ok_frame. apply has_state_kept. Qed.

Lemma desc_of h st : (h < 256)%nat -> enclave_inv st -> exists d, nth_error (g_server_states st) h = Some d /\ (valid d = true -> state_ok (p_state d)).
Proof.
  intros Hh Hi. destruct (nth_error (g_server_states st) h) as [d|] eqn:E.
  - exists d. split; [reflexivity|]. exact (proj1 (Forall_forall _ _) (inv_states st Hi) d (nth_error_In _ _ E)).
  - apply nth_error_None in E. rewrite (inv_servers st Hi) in E. lia.
Qed.

(** The descriptor of a server is read: one that is valid has a state. *)
Lemma load_desc_then {A} h (Q : A -> Prop) k : (h < 256)%nat -> (forall d, valid d = false -> ok false ready Q (k d)) ->
  (forall d, valid d = true -> state_ok (p_state d) -> ok false (started h) Q (k d)) -> ok false ready Q (bind (load_desc h) k).
Proof.
  intros Hh H0 H1. apply (ok_act_fact false ready (fun d st => ready st /\ (valid d = true -> state_ok (p_state d) /\ has_state h st))).
  - intros st Hi Hr. destruct (desc_of h st Hh Hi) as (d & E & Hd). exists d, st. rewrite E. apply stay; [exact Hi|]. split; [exact Hr|].
    intros Hv. split; [|exists d]; auto.
  - tauto.
  - intros d. split; intros st st' Hev [Hr Hs]; (split; [|intros Hv; destruct (Hs Hv) as [Hd Hst]; split; [exact Hd|]]).
    + exact (stable_unheld (h := false) _ _ Hev Hr).
    + apply (has_state_kept h st); [|exact Hst]. exact (unheld_evolves enclave_inv NodeInitLock evolves evolves_unheld _ _ Hev).
    + exact (stable_rely (h := false) _ _ Hev Hr).
    + now apply (has_state_kept h st).
  - intros d st [Hr Hs]. destruct (valid d) eqn:Hv.
    + destruct (Hs eq_refl) as [Hd Hst]. eapply safe_impl; [|exact (H1 d Hv Hd st (conj Hr Hst))]. cbn beta.
      intros h' a st' _ (-> & [Hr' Hs'] & Hq). repeat split; auto.
    + eapply safe_impl; [|exact (H0 d Hv st Hr)]. cbn beta. intros h' a st' _ (-> & Hr' & Hq). repeat split; auto; discriminate.
Qed.

Lemma load_started_ok h : ok false (started h) (fun d => state_ok (p_state d)) (load_desc h).
Proof.
  apply (ok_act false (started h)). intros st Hi [_ (d & E & Hs)]. exists d, st. rewrite E. now apply stay.
Qed.

(** A new state is stored. *)
Lemma store_state_ok h state : state_ok state -> ok false (started h) (fun _ => True) (store_desc h (set_p_state state)).
Proof.
  intros Hs. apply (ok_act false (started h)). intros st Hi [_ (d & E & _)]. rewrite E. eexists _, _.
  apply act_assign; [|trivial]. apply (set_desc_ok st h d); [exact Hi|exact E|now intros _|now intros _].
Qed.

Lemma store_state_then {A} h state (Q : A -> Prop) k : (h < 256)%nat -> state_ok state -> ok false (started h) Q (k tt) ->
  ok false ready Q (bind (store_desc h (set_p_state state)) k).
Proof.
  intros Hh Hs Hk. apply (ok_act_fact false ready (fun _ => started h)).
  - intros st Hi Hr. destruct (desc_of h st Hh Hi) as (d & E & _). rewrite E. eexists _, _.
    assert (Ha := set_desc_ok st h d (set_p_state state d) Hi E (fun _ => Hs) (fun _ => Hs)). apply act_assign; [exact Ha|].
    split; [exact (stable_unheld (h := false) _ _ (proj1 (proj2 Ha)) Hr)|]. exists (set_p_state state d). split; [|exact Hs].
    destruct st. cbn in *. rewrite nth_error_assign, Nat.eqb_refl, (proj2 (Nat.ltb_lt _ _)); [reflexivity|].
    apply nth_error_Some. congruence.
  - now intros _ st [Hr _].
  - intros _. apply started_stable.
  - intros []. exact Hk.
Qed.

Lemma store_valid_ok h : ok false (started h) (fun _ => True) (store_desc h (set_valid true)).
Proof.
  apply (ok_act false (started h)). intros st Hi [_ (d & E & Hs)]. rewrite E. eexists _, _.
  apply act_assign; [|trivial]. apply (set_desc_ok st h d); [exact Hi|exact E|now intros _|now intros _].
Qed.

(** Clearing a descriptor is safe only with callbacks that accept NULL. *)
Lemma clear_desc_ok h : state_ok None -> ok false (started h) (fun _ => True) (store_desc h (fun _ => zero_desc)).
Proof.
  intros Hn. apply (ok_act false (started h)). intros st Hi [_ (d & E & _)]. rewrite E. eexists _, _.
  apply act_assign; [|trivial]. apply (set_desc_ok st h d); [exact Hi|exact E|now intros _|discriminate].
Qed.

Lemma erase_ok size data : 0 <= size -> region size data -> is_null data = false ->
  ok false ready (fun _ => True) (lift (store data (zeros size))).
Proof.
  intros Hs Hd Hn. destruct data as [d|]; [|discriminate]. destruct Hd as [Ld Bd]. apply (ok_lift false ready).
  unfold store. destruct (zeros_blob size Hs) as [Lz _]. rewrite (proj2 (Nat.leb_le _ _)) by lia. eauto.
Qed.

(** ** Servers *)

Lemma start_locked_ok hdr args h : init_args_ok args -> blob 16 (mh_mac hdr) -> (h < 256)%nat ->
  ok false ready (fun _ => True) (sgxsd_enclave_server_start_locked plat serv stk hdr args h).
Proof.
  intros Ha Hm Hh. unfold sgxsd_enclave_server_start_locked. apply load_desc_then; [exact Hh| |]; intros d Hv; rewrite Hv; [|intros _; now ret_ok].
  seq ltac:(apply interp_ok; [exact _|exact Hm|now apply (init_ok serv Hserv)]). intros [res [state|]] [Hs Hres].
  - apply store_state_then; [exact Hh|exact Hs|]. destruct (success res); [|now ret_ok].
    seq ltac:(apply store_valid_ok). intros _ _. now ret_ok.
  - destruct (success res); [now specialize (Hres eq_refl)|]. now repeat ret_ok.
Qed.

Lemma stop_locked_ok hdr args h : state_ok None -> terminate_args_ok args -> blob 16 (mh_mac hdr) -> (h < 256)%nat ->
  ok false ready (fun _ => True) (sgxsd_enclave_server_stop_locked plat serv stk hdr args h).
Proof.
  intros Hn Ha Hm Hh. unfold sgxsd_enclave_server_stop_locked. apply load_desc_then; [exact Hh| |]; intros d Hv; rewrite Hv; [now ret_ok|].
  intros Hs. cbn [negb]. seq ltac:(now apply clear_desc_ok). intros _ _.
  apply interp_ok; [exact _|exact Hm|now apply (terminate_ok serv Hserv)].
Qed.

(** The arguments of the two functions that receive a message. *)
Record message_ok (hdr : sgxsd_msg_header_t) (fr : call_frame) (header : option sgxsd_msg_header_t)
  (data : option (list Z)) (size : Z) : Prop := {
  msg_scratch : blob 16 (mh_mac hdr);
  msg_frame : entry_ok (cf_pending_request fr);
  msg_header : if_some header_ok header;
  msg_region : region (u32 size) data }.

Lemma decrypted_buf_ok d data size : region (u32 size) (Some data) -> length d = length data -> bytes_ok d ->
  buf_ok {| mb_data := Some d; mb_size := u32 size |}.
Proof. intros [L _] E B. split; [now apply wrap_range|]. cbn [mb_size mb_data region]. rewrite E. now split. Qed.

Lemma call_locked_ok hdr fr args header data size tag h : call_args_ok args -> message_ok hdr fr header data size -> (h < 256)%nat ->
  ok false ready (fun _ => True) (sgxsd_enclave_server_call_locked plat serv stk hdr fr args header data size tag h).
Proof.
  intros Ha [Hm Hfr Hh Hd] Hlt. unfold sgxsd_enclave_server_call_locked.
  apply load_desc_then; [exact Hlt| |]; intros d Hv; rewrite Hv; [now ret_ok|]. intros _. cbn [negb].
  destruct header as [header|]; [|now ret_ok]. destruct data as [data|]; [|now ret_ok]. destruct (size =? 0); [now ret_ok|].
  seq ltac:(apply when_started, remove_pending_ok; [apply Hh|exact Hfr]). intros [rres e] He.
  destruct (negb (success rres)); [now ret_ok|].
  seq ltac:(apply when_started, decrypt_message_ok; [exact Hh|exact Hd]). intros [[dres o] from] [(d' & -> & L & B) Hfrom].
  destruct (negb (success dres)); [destruct dres; now ret_ok|].
  seq ltac:(apply load_started_ok). intros d1 Hs.
  seq ltac:(apply interp_ok; [exact _|exact Hm|apply (handle_call_ok serv Hserv); [exact Ha|eapply decrypted_buf_ok; eassumption|reflexivity|exact Hfrom|exact Hs]]).
  intros [[cres o] state] (Ho & Hn & Hs'). seq ltac:(now apply store_state_ok). intros _ _.
  seq ltac:(apply when_started, erase_ok; [now apply wrap_range|exact Ho|exact Hn]). intros o' _. now ret_ok.
Qed.

Lemma ratelimit_locked_ok hdr fr key args header data size tag h fp n : fingerprint_args_ok key args fp n -> message_ok hdr fr header data size ->
  (h < 256)%nat -> ok false ready (fun _ => True)
    (sgxsd_enclave_ratelimit_fingerprint_locked plat serv stk hdr fr key args header data size tag h fp n).
Proof.
  intros Ha [Hm Hfr Hh Hd] Hlt. unfold sgxsd_enclave_ratelimit_fingerprint_locked.
  apply (ok_bind false ready (fun _ => True)).
  { apply (ok_act false ready). intros st Hi _. destruct (desc_of h st Hlt Hi) as (d & E & _). exists d, st. rewrite E. now apply stay. }
  intros d _. destruct (negb (valid d)); [now ret_ok|]. destruct header as [header|]; [|now ret_ok].
  destruct data as [data|]; [|now ret_ok]. destruct (size =? 0); [now ret_ok|].
  seq ltac:(apply get_pending_ok; [apply Hh|exact Hfr]). intros [rres e] He.
  destruct (negb (success rres)); [now ret_ok|].
  seq ltac:(apply decrypt_message_ok; [exact Hh|exact Hd]). intros [[dres o] from] [(d' & -> & L & B) Hfrom].
  destruct (negb (success dres)); [destruct dres; now ret_ok|].
  seq ltac:(apply interp_ok; [exact _|exact Hm|apply (fingerprint_ok serv Hserv); [exact Ha|eapply decrypted_buf_ok; eassumption|reflexivity|exact Hfrom]]).
  intros [[cres o] state] [Ho Hn].
  seq ltac:(apply erase_ok; [now apply wrap_range|exact Ho|exact Hn]). intros o' _. now ret_ok.
Qed.

(** ** Entry points *)

(** Every entry point but one first checks that the node is initialised. *)
Lemma when_initialized {A} (Q : A -> Prop) (a : A) (p : P A) : Q a -> ok false ready Q p ->
  ok false anytime Q (let* initialized := get g_node_initialized in if negb initialized then Ret a else p).
Proof.
  intros Hq Hp st0 _.
  apply (safe_bind enclave_inv NodeInitLock evolves evolves_unheld (fun h' b st => h' = false /\ (b = true -> ready st))).
  - apply (safe_get enclave_inv NodeInitLock evolves evolves_unheld). intros st _ _ st' Hr _. split; [reflexivity|].
    intros E. exact (stable_rely (h := false) (F := ready) _ _ Hr E).
  - intros h' [] st _ [-> Hr]; cbn [negb].
    + eapply safe_impl; [|apply Hp, Hr, eq_refl]. cbn beta. intros h1 x st1 _ (-> & _ & Hx). now repeat split.
    + apply safe_ret. now repeat split.
Qed.

Lemma with_server_ok {A} (fail : sgx_status_t -> A) handle body : 0 <= handle ->
  (forall h, (h < 256)%nat -> ok false ready (fun _ => True) (body h)) ->
  ok false anytime (fun _ => True) (with_server (W := W) (S := S) fail handle body).
Proof.
  intros H0 Hb. unfold with_server. apply when_initialized; [trivial|].
  destruct (SGXSD_ENCLAVE_MAX_SERVERS <=? handle) eqn:E; [now ret_ok|]. apply Z.leb_gt in E. unfold SGXSD_ENCLAVE_MAX_SERVERS in E.
  locked. seq ltac:(apply Hb; lia). intros r _. locked. now ret_ok.
Qed.

Lemma server_start_ok hdr args handle : init_args_ok args -> blob 16 (mh_mac hdr) -> 0 <= handle ->
  ok false anytime (fun _ => True) (sgxsd_enclave_server_start plat serv stk hdr args handle).
Proof. intros Ha Hm H0. apply with_server_ok; [exact H0|]. intros h Hh. now apply start_locked_ok. Qed.

Lemma server_stop_ok hdr args handle : state_ok None -> terminate_args_ok args -> blob 16 (mh_mac hdr) -> 0 <= handle ->
  ok false anytime (fun _ => True) (sgxsd_enclave_server_stop plat serv stk hdr args handle).
Proof. intros Hn Ha Hm H0. apply with_server_ok; [exact H0|]. intros h Hh. now apply stop_locked_ok. Qed.

Lemma server_call_ok hdr fr args header data size tag handle : call_args_ok args -> message_ok hdr fr header data size ->
  0 <= handle -> ok false anytime (fun _ => True) (sgxsd_enclave_server_call plat serv stk hdr fr args header data size tag handle).
Proof. intros Ha Hm H0. apply with_server_ok; [exact H0|]. intros h Hh. now apply call_locked_ok. Qed.

Lemma ratelimit_ok hdr fr key args header data size tag handle fp n : fingerprint_args_ok key args fp n ->
  message_ok hdr fr header data size -> 0 <= handle -> ok false anytime (fun _ => True)
    (sgxsd_enclave_ratelimit_fingerprint plat serv stk hdr fr key args header data size tag handle fp n).
Proof. intros Ha Hm H0. apply with_server_ok; [exact H0|]. intros h Hh. now apply ratelimit_locked_ok. Qed.

Lemma set_current_quote_ok : ok false anytime (fun _ => True) (sgxsd_enclave_set_current_quote (W := W) (S := S)).
Proof.
  unfold sgxsd_enclave_set_current_quote. apply when_initialized; [trivial|]. locked.
  seq ltac:(apply (ok_modify false ready); intros st Hi _; apply set_dh_ok; [exact Hi|apply Hi]). intros _ _. locked. now ret_ok.
Qed.

Lemma get_next_report_ok kp info report : kp_ok kp ->
  ok false anytime (fun _ => True) (sgxsd_enclave_get_next_report (S := S) plat stk kp info report).
Proof.
  intros Hkp. unfold sgxsd_enclave_get_next_report. apply when_initialized; [trivial|].
  destruct report as [report|]; [|now ret_ok]. seq ltac:(apply (generate_ok false ready); exact Hkp). intros [gres kp'] Hkp'.
  destruct (negb (success gres)); [now ret_ok|].
  apply (ok_bind false ready (fun _ => True)).
  { apply (ok_act false ready). intros st Hi _. destruct (sgx_create_report plat _ _ _ _) as [[r1 r2] w].
    eexists _, _. apply act_assign; [now apply set_world_ok|trivial]. }
  intros [cres r] _. destruct (negb (success cres)); [now ret_ok|]. locked.
  seq ltac:(assign_ok set_new_dh_ok). intros _ _. locked. now ret_ok.
Qed.

Record frame_ok (fr : negotiate_frame) : Prop := {
  fr_ephemeral : kp_ok (nf_ephemeral_keypair fr);
  fr_pid : pid_ok (nf_pending_request_id fr) }.

Lemma response_encrypted key pid r : key_ok key -> pid_ok pid -> response_ok r ->
  exists c t, sgxsd_aes_gcm_encrypt stk (Some key) (Some (pid_bytes pid)) 36 (Some (enc_pid_data r)) (Some (enc_pid_iv r))
      None 0 (Some (enc_pid_mac r)) = Some (SGX_SUCCESS, Some c, Some t) /\
    (c, t) = aes_gcm_seal key (enc_pid_iv r) [] (pid_bytes pid) /\ blob 36 c /\ blob 16 t.
Proof.
  intros Hk Hp (_ & _ & Hd & Hiv & Hm). apply (encrypt_blob key 36); try assumption. now apply pid_bytes_blob.
Qed.

Lemma negotiate_ok fr request response : frame_ok fr -> if_some key_ok request -> if_some response_ok response ->
  ok false anytime (fun _ => True) (sgxsd_enclave_negotiate_request (S := S) plat stk fr request response).
Proof.
  intros [He Hp] Hreq Hresp. unfold sgxsd_enclave_negotiate_request. apply when_initialized; [trivial|].
  destruct request as [client|]; [|now ret_ok]. destruct response as [response|]; [|now ret_ok].
  seq ltac:(apply (generate_ok false ready); exact He). intros [gres eph] Heph.
  destruct (negb (success gres)); [now ret_ok|]. locked.
  apply (ok_bind false ready kp_ok); [apply (ok_get false ready); intros st Hi _; apply Hi|]. intros static Hst. locked.
  unfold request_prk. cbv zeta.
  match goal with |- context [sgxsd_enclave_derive_request_keys _ ?k _ _] => set (prk := k) end.
  assert (Hprk : key_ok prk) by (unfold prk; rewrite (hmac_spec stk Hstk); apply hmac_shape). clearbody prk.
  cbn [snd sgxsd_enclave_derive_request_keys option_map].
  apply (ok_bind false ready key_ok); [apply (ok_lift false ready); eexists; split; [reflexivity|apply hkdf_round_key]|]. intros key Hk.
  seq ltac:(apply add_pending_ok; [exact Hp|exact Hprk]). intros [ares pid] Hpid.
  destruct (negb (success ares)); [now ret_ok|].
  match goal with |- context [lift (sgxsd_aes_gcm_encrypt _ _ _ _ (Some (enc_pid_data ?r)) _ _ _ _)] => set (resp := r) end.
  assert (Hr : response_ok resp).
  { destruct Hresp as (H1 & H2 & H3 & H4 & H5). refine (conj H1 (conj H2 (conj H3 (conj _ H5)))). now apply (zeros_blob 12). }
  destruct (response_encrypted key pid resp Hk Hpid Hr) as (c & t & E & _ & Hc & Ht). clearbody resp.
  apply (ok_bind false ready (fun r => r = (SGX_SUCCESS, Some c, Some t))); [apply (ok_lift false ready); eauto|].
  intros r ->. apply (ok_bind false ready (fun x => x = c)); [apply (ok_lift false ready); eauto|]. intros x ->.
  apply (ok_bind false ready (fun x => x = t)); [apply (ok_lift false ready); eauto|]. intros x ->.
  cbn [success negb]. now ret_ok.
Qed.

(** ** Initialisation *)

(** The facts that hold step by step while [sgxsd_enclave_node_init] has the lock: other
    threads leave alone what it has set so far. *)
Definition uninit (st : enclave) : Prop := g_node_initialized st = false.
Definition ordered (o : Z) (st : enclave) : Prop := uninit st /\ g_pending_requests_table_order st = o.
Definition allocated (o : Z) (n : nat) (st : enclave) : Prop := ordered o st /\ table_size st = Some n.

#[local] Instance uninit_stable : Stable true uninit.
Proof. unfold uninit. split; intros st st' (-> & _); trivial. Qed.
#[local] Instance ordered_stable o : Stable true (ordered o).
Proof. unfold ordered, uninit. split; intros st st' (-> & -> & _); trivial. Qed.
#[local] Instance allocated_stable o n : Stable true (allocated o n).
Proof. unfold allocated, ordered, uninit. split; intros st st' (-> & -> & _ & -> & _); trivial. Qed.
#[local] Instance ready_stable_held : Stable true ready.
Proof. unfold ready. split; intros st st' (-> & _); trivial. Qed.

(** An assignment by the holder of the lock before the node is initialised, which establishes
    the fact [G] for what follows. *)
Lemma held_modify {A} (F G : enclave -> Prop) {SF : Stable true F} {SG : Stable true G}
  (Q : bool -> A -> enclave -> Prop) f p st0 :
  (forall st, enclave_inv st -> F st -> uninit st /\ enclave_inv (f st) /\
     lock_free NodeInitLock (f st) = lock_free NodeInitLock st /\ g_server_states (f st) = g_server_states st /\ G (f st)) ->
  F st0 -> (forall st, G st -> Safe Q true p st) -> Safe Q true (modify f ;; p) st0.
Proof.
  intros Hf HF Hp st Hr Hi. apply (stable_rely _ _ Hr) in HF. destruct (Hf st Hi HF) as (Hu & Hi' & Hl & Es & HG).
  split; [exact Hi'|]. split; [split; [intros E; unfold uninit in Hu; congruence|unfold states_kept; rewrite Es; apply kept_refl]|]. split; [exact Hl|]. now apply Hp.
Qed.

Ltac init_assign st Hi Hu := destruct st; destruct Hi; cbn in *; unfold allocated, ordered, uninit in *; cbn in *;
  (split; [tauto|]); (split; [split; cbn in *; try assumption; try (intros; exfalso; intuition congruence)|split; [reflexivity|split; [reflexivity|]]]).

Lemma set_id_key_ok st v : key_ok v -> enclave_inv st -> uninit st ->
  uninit st /\ enclave_inv (set_id_key v st) /\ lock_free NodeInitLock (set_id_key v st) = lock_free NodeInitLock st /\
  g_server_states (set_id_key v st) = g_server_states st /\ uninit (set_id_key v st).
Proof. intros Hv Hi Hu. init_assign st Hi Hu. assumption. Qed.

Lemma set_table_order_ok st o : enclave_inv st -> uninit st ->
  uninit st /\ enclave_inv (set_table_order o st) /\
  lock_free NodeInitLock (set_table_order o st) = lock_free NodeInitLock st /\
  g_server_states (set_table_order o st) = g_server_states st /\ ordered o (set_table_order o st).
Proof. intros Hi Hu. init_assign st Hi Hu. now split. Qed.

Lemma set_table_ok st o n : enclave_inv st -> ordered o st ->
  let st' := set_pending_requests (Some (repeat zero_pending_request n)) st in
  uninit st /\ enclave_inv st' /\ lock_free NodeInitLock st' = lock_free NodeInitLock st /\
  g_server_states st' = g_server_states st /\ allocated o n st'.
Proof.
  intros Hi Hu. init_assign st Hi Hu; [apply Forall_repeat, zero_entry_ok|]. now rewrite repeat_length.
Qed.

Lemma set_no_table_ok st o : enclave_inv st -> ordered o st ->
  let st' := set_pending_requests None st in
  uninit st /\ enclave_inv st' /\ lock_free NodeInitLock st' = lock_free NodeInitLock st /\
  g_server_states st' = g_server_states st /\ uninit st'.
Proof. intros Hi Hu. init_assign st Hi Hu; [trivial|tauto]. Qed.

Lemma set_initialized_ok st o : 0 <= o <= 63 -> enclave_inv st -> allocated o (Z.to_nat (2 ^ o)) st ->
  let st' := set_node_initialized true st in
  uninit st /\ enclave_inv st' /\ lock_free NodeInitLock st' = lock_free NodeInitLock st /\
  g_server_states st' = g_server_states st /\ ready st'.
Proof.
  intros Ho Hi [[Hu Eo] Et]. split; [exact Hu|]. destruct st; destruct Hi. unfold table_size in Et. cbn in *. subst.
  split; [split; cbn in *; try assumption|now split]. intros _. split; [exact Ho|].
  destruct g_pending_requests0 as [t|]; [|discriminate]. injection Et as Et. exists t. split; [reflexivity|].
  rewrite Et, Z2Nat.id; [reflexivity|]. apply Z.pow_nonneg. lia.
Qed.

(** A part of the initialisation that keeps the fact [F]. *)
Lemma ok_then {A B} (F : enclave -> Prop) (Q : A -> Prop) (R : bool -> B -> enclave -> Prop) p k st0 :
  ok true F Q p -> F st0 -> (forall a, Q a -> forall st, F st -> Safe R true (k a) st) -> Safe R true (bind p k) st0.
Proof.
  intros Hp HF Hk. eapply (safe_bind enclave_inv NodeInitLock evolves evolves_unheld); [apply Hp, HF|].
  intros h a st _ (-> & HF' & Hq). now apply Hk.
Qed.

Lemma generate_into_ok sel upd :
  (forall st, enclave_inv st -> kp_ok (sel st)) -> (forall st v, enclave_inv st -> kp_ok v -> assignable st (upd v st)) ->
  ok true uninit (fun _ => True) (generate_into plat stk sel upd).
Proof.
  intros Hs Hu. unfold generate_into. apply (ok_bind true uninit kp_ok); [apply (ok_get true uninit); auto|]. intros kp Hkp.
  seq ltac:(apply (generate_ok true uninit); exact Hkp). intros [res kp'] Hkp'.
  seq ltac:(apply (ok_modify true uninit); intros; now apply Hu). intros _ _. now ret_ok.
Qed.

Abbreviation holding := (fun (h : bool) (_ : sgx_status_t) (_ : enclave) => h = true) (only parsing).

(** The end of the initialisation, once the keys are there. *)
Lemma node_init_table_ok o st0 : 0 <= o <= 63 -> uninit st0 ->
  Safe holding true
    (modify (set_table_order o) ;;
     let* p := act (fun st =>
       let count := u64 (1 << g_pending_requests_table_order st) in
       let '(ok, w) := calloc plat count 40 (world st) in
       let p := if ok : bool then Some (repeat zero_pending_request (Z.to_nat count)) else None in
       Some (p, set_world w st)) in
     modify (set_pending_requests p) ;;
     if is_null p then Ret SGX_ERROR_OUT_OF_MEMORY
     else modify (set_node_initialized true) ;; Ret SGX_SUCCESS) st0.
Proof.
  intros Ho Hu. apply (held_modify uninit (ordered o)); [intros; now apply set_table_order_ok|exact Hu|]. clear st0 Hu. intros st0 Ho0.
  apply (ok_then (ordered o) (fun p => p = Some (repeat zero_pending_request (Z.to_nat (2 ^ o))) \/ p = None)).
  - apply (ok_act true (ordered o)). intros st Hi [_ ->]. cbv zeta.
    rewrite Z.shiftl_mul_pow2, Z.mul_1_l, wrap_small; [|split; [apply Z.pow_nonneg; lia|apply Z.pow_lt_mono_r; lia]|lia].
    destruct (calloc plat (2 ^ o) 40 (world st)) as [b w].
    eexists _, _. apply act_assign; [now apply set_world_ok|]. destruct b; auto.
  - exact Ho0.
  - intros p [-> | ->] st Hst; cbn [is_null].
    + apply (held_modify (ordered o) (allocated o (Z.to_nat (2 ^ o)))); [intros; now apply set_table_ok|exact Hst|].
      intros st1 H1. apply (held_modify (allocated o (Z.to_nat (2 ^ o))) ready); [intros; now apply (set_initialized_ok _ o)|exact H1|].
      intros st2 _. apply safe_ret. reflexivity.
    + apply (held_modify (ordered o) uninit); [intros; now apply (set_no_table_ok _ o)|exact Hst|].
      intros st1 _. apply safe_ret. reflexivity.
Qed.

Lemma node_init_locked_ok args st0 : if_some (fun o => 0 <= o) args ->
  Safe holding true (sgxsd_enclave_node_init_locked plat stk args) st0.
Proof.
  intros Ha. unfold sgxsd_enclave_node_init_locked.
  apply (safe_bind enclave_inv NodeInitLock evolves evolves_unheld (fun h b st => h = true /\ (b = false -> uninit st))).
  { apply (safe_get enclave_inv NodeInitLock evolves evolves_unheld). intros st _ _ st' Hr _. split; [reflexivity|].
    intros E. exact (stable_rely (h := true) (F := uninit) _ _ Hr E). }
  intros h b st _ [-> Hu]. destruct b; [now apply safe_ret|]. specialize (Hu eq_refl).
  destruct (negb _); [now apply safe_ret|]. destruct (negb _); [now apply safe_ret|].
  destruct args as [o|]; [|now apply safe_ret]. destruct (8 * 8 - 1 <? o) eqn:Eo; [now apply safe_ret|]. apply Z.ltb_ge in Eo.
  apply (ok_then uninit (fun _ => True)); [|exact Hu|]; [apply generate_into_ok; [intros ? Hi; apply Hi|apply set_dh_ok]|].
  clear st Hu. intros r1 _ st Hu. destruct (negb _); [now apply safe_ret|].
  apply (ok_then uninit (fun _ => True)); [|exact Hu|]; [apply generate_into_ok; [intros ? Hi; apply Hi|apply set_new_dh_ok]|].
  clear st Hu. intros r2 _ st Hu. destruct (negb _); [now apply safe_ret|].
  apply (ok_then uninit (fun r => key_ok (snd r))); [apply (read_rand_ok true uninit 32); lia|exact Hu|].
  clear st Hu. intros [r3 key] Hk st Hu. cbn [snd] in Hk.
  apply (held_modify uninit uninit); [intros; now apply set_id_key_ok|exact Hu|].
  clear st Hu. intros st Hu. destruct (negb _); [now apply safe_ret|]. apply node_init_table_ok; [cbn in Ha; lia|exact Hu].
Qed.

Lemma node_init_ok args : if_some (fun o => 0 <= o) args ->
  ok false anytime (fun _ => True) (sgxsd_enclave_node_init plat stk args).
Proof.
  intros Ha st0 _. unfold sgxsd_enclave_node_init. cbn [bind sgxsd_spin_lock lock]. intros st _ _.
  unfold after_lock. destruct (lock_eq_dec NodeInitLock NodeInitLock) as [_|]; [|contradiction].
  apply (safe_bind enclave_inv NodeInitLock evolves evolves_unheld holding); [now apply node_init_locked_ok|].
  intros h res st1 _ ->. cbn [bind sgxsd_spin_unlock unlock]. intros st2 _ _. split; [trivial|].
  unfold after_lock. destruct (lock_eq_dec NodeInitLock NodeInitLock) as [_|]; [|contradiction]. now apply safe_ret.
Qed.

End EntryPoints.
End Invariant.
End SgxsdSafety.
