(* ===== verification/SgxsdSystem.v ===== *)
(** The enclave as a whole: any number of calls into it, interleaved on its threads, from the
    state it is loaded in. *)
From S2P Require Import Prelude Codec Curve25519 SgxsdCrypto Threads Sgxsd SgxsdSafety.
From Stdlib Require Import ZArith List Lia Bool Relations.
Import Codec SgxsdCrypto Threads Sgxsd SgxsdSafety.

Module SgxsdSystem.

#[local] Opaque Curve25519.curve25519_donna Curve25519.clamp sgxsd_enclave_sha256 sgxsd_enclave_hmac_sha256
  sgxsd_aes_gcm_run aes_gcm_seal aes_gcm_open hkdf_T hmac_sha256.

Section System.
Context {W S TargetInfo InitArgs CallArgs TermArgs : Type} {SS : ServerState S} {SA : ServerArgs InitArgs CallArgs TermArgs}.
Abbreviation enclave := (@enclave W S).
Abbreviation P A := (prog enclave lock_id A).

(** * Calls into the enclave *)

(** With their arguments, and what their uninitialised locals hold. *)
Inductive ecall : Type :=
| NodeInit (p_args : option Z)
| GetNextReport (new_dh_keypair : sgxsd_curve25519_key_pair_t) (qe_target_info : TargetInfo) (p_report : option (list Z))
| SetCurrentQuote
| NegotiateRequest (fr : negotiate_frame) (p_request : option (list Z)) (p_response : option sgxsd_request_negotiation_response_t)
| ServerStart (hdr : sgxsd_msg_header_t) (p_args : option InitArgs) (state_handle : Z)
| ServerCall (hdr : sgxsd_msg_header_t) (fr : call_frame) (p_args : option CallArgs) (p_msg_header : option sgxsd_msg_header_t)
    (msg_data : option (list Z)) (msg_data_size msg_tag state_handle : Z)
| ServerStop (hdr : sgxsd_msg_header_t) (p_args : option TermArgs) (state_handle : Z)
| RatelimitFingerprint (hdr : sgxsd_msg_header_t) (fr : call_frame) (fingerprint_key : list Z) (call_args : option CallArgs)
    (p_msg_header : option sgxsd_msg_header_t) (msg_data : option (list Z)) (msg_data_size msg_tag state_handle : Z)
    (fingerprint : option (list Z)) (fingerprint_size : Z).

Section Calls.
Context (plat : @platform W TargetInfo) (serv : @server W S InitArgs CallArgs TermArgs) (stk : stack).

(** The status a call returns. *)
Definition enter (c : ecall) : P sgx_status_t :=
  match c with
  | NodeInit args => sgxsd_enclave_node_init plat stk args
  | GetNextReport kp info report =>
      let* (res, _, _) := sgxsd_enclave_get_next_report plat stk kp info report in Ret res
  | SetCurrentQuote => sgxsd_enclave_set_current_quote
  | NegotiateRequest fr request response =>
      let* (res, _, _) := sgxsd_enclave_negotiate_request plat stk fr request response in Ret res
  | ServerStart hdr args h => sgxsd_enclave_server_start plat serv stk hdr args h
  | ServerCall hdr fr args header data size tag h =>
      let* (res, _, _) := sgxsd_enclave_server_call plat serv stk hdr fr args header data size tag h in Ret res
  | ServerStop hdr args h => sgxsd_enclave_server_stop plat serv stk hdr args h
  | RatelimitFingerprint hdr fr key args header data size tag h fp n =>
      let* (res, _, _, _) := sgxsd_enclave_ratelimit_fingerprint plat serv stk hdr fr key args header data size tag h fp n in
      Ret res
  end.

End Calls.

(** Pointers are NULL or point to objects of their type, buffers have the size given, integers
    are in the range of their type, and the server accepts its arguments. A server may be stopped
    where its callbacks accept a NULL state: stopping clears the lock that a thread in a call of
    that server holds. *)
Definition ecall_ok (c : ecall) : Prop :=
  match c with
  | NodeInit args => if_some (fun o => 0 <= o) args
  | GetNextReport kp info report => kp_ok kp
  | SetCurrentQuote => True
  | NegotiateRequest fr request response => frame_ok fr /\ if_some key_ok request /\ if_some response_ok response
  | ServerStart hdr args h => init_args_ok args /\ blob 16 (mh_mac hdr) /\ 0 <= h
  | ServerStop hdr args h => state_ok None /\ terminate_args_ok args /\ blob 16 (mh_mac hdr) /\ 0 <= h
  | ServerCall hdr fr args header data size tag h => call_args_ok args /\ message_ok hdr fr header data size /\ 0 <= h
  | RatelimitFingerprint hdr fr key args header data size tag h fp n =>
      fingerprint_args_ok key args fp n /\ message_ok hdr fr header data size /\ 0 <= h
  end.

(** The state of the enclave when it is loaded: all its static variables are zero. *)
Definition loaded (w : W) : enclave :=
  {| g_node_initialized := false;
     g_read_rand_state := zeros 32;
     g_dh_keypair := {| privkey := zeros 32; pubkey := zeros 32 |};
     g_new_dh_keypair := {| privkey := zeros 32; pubkey := zeros 32 |};
     g_pending_requests := None;
     g_pending_requests_table_order := 0;
     g_last_pending_request_id_val := 0;
     g_pending_request_id_key := zeros 32;
     g_server_states := repeat zero_desc (Z.to_nat SGXSD_ENCLAVE_MAX_SERVERS);
     g_locks := {| node_init_lock := false; read_rand_lock := false; dh_keypair_lock := false; pending_requests_lock := false |};
     world := w |}.

Lemma loaded_inv w : enclave_inv (loaded w).
Proof.
  pose proof zeros_key as Hz.
  split; cbn [loaded g_read_rand_state g_dh_keypair g_new_dh_keypair g_pending_request_id_key g_last_pending_request_id_val
    g_server_states g_pending_requests g_node_initialized]; [exact Hz|now split..|exact Hz| |apply repeat_length| |exact I|discriminate];
    [|now apply Forall_repeat].
  unfold in_range. lia.
Qed.

Lemma loaded_free w l : lock_free l (loaded w) = true.
Proof.
  destruct l as [| | | |h]; try reflexivity. cbn [lock_free enclave_locks enclave_lock_free loaded g_server_states].
  destruct (nth_error _ h) as [d|] eqn:E; [|reflexivity]. apply nth_error_In, repeat_spec in E. now subst.
Qed.

(** * Locks are taken in order *)

Definition rank (l : lock_id) : nat :=
  match l with NodeInitLock => 0 | ServerLock _ => 1 | _ => 2 end.

Lemma rank_bound : exists n, forall l, (rank l <= n)%nat.
Proof. exists 2%nat. intros []; cbn; lia. Qed.

Abbreviation neutral held p := (balanced rank held held p).
(** Locks under which the innermost ones may be taken. *)
Abbreviation outer held := (Forall (fun l => (rank l < 2)%nat) held).

Lemma neutral_bind {A B} held (p : P A) (k : A -> P B) : neutral held p -> (forall a, neutral held (k a)) ->
  neutral held (bind p k).
Proof. apply balanced_bind. Qed.

Lemma neutral_act {A} held (f : enclave -> option (A * enclave)) :
  (forall st b st', f st = Some (b, st') -> keeps_free st st') -> neutral held (act f).
Proof. intros H. split; [exact H|reflexivity]. Qed.

(** States with the same locks. *)
Lemma same_locks (st st' : enclave) : g_locks st' = g_locks st -> g_server_states st' = g_server_states st -> keeps_free st st'.
Proof. intros E1 E2 l. cbn [lock_free enclave_locks]. unfold enclave_lock_free. now rewrite E1, E2. Qed.

Lemma neutral_modify held (f : enclave -> enclave) :
  (forall st, g_locks (f st) = g_locks st /\ g_server_states (f st) = g_server_states st) -> neutral held (modify f).
Proof. intros H. apply neutral_act. intros st b st' [= _ <-]. apply same_locks; apply H. Qed.

Lemma neutral_get {A} held (f : enclave -> A) : neutral held (get f).
Proof. apply neutral_act. intros st b st' [= _ <-]. now apply same_locks. Qed.

Lemma neutral_lift {A} held (o : option A) : neutral held (lift (St := enclave) (L := lock_id) o).
Proof. apply neutral_act. intros st b st'. destruct o; [intros [= _ <-]|discriminate]. now apply same_locks. Qed.

Lemma balanced_lock {A} held l (p : P A) : above rank l held -> balanced rank (l :: held) held p -> neutral held (lock l ;; p).
Proof. now split. Qed.

Lemma balanced_unlock {A} held l (p : P A) : neutral held p -> balanced rank (l :: held) held (unlock l ;; p).
Proof. now split. Qed.

(** A descriptor is updated without taking its lock. *)
Lemma neutral_store_desc held h (upd : @sgxsd_server_state_desc_t S -> sgxsd_server_state_desc_t) :
  (forall d, desc_lock d = false -> desc_lock (upd d) = false) -> neutral held (store_desc (W := W) h upd).
Proof.
  intros H. apply neutral_act. intros st b st' E. destruct (nth_error (g_server_states st) h) as [d|] eqn:Eh; [|discriminate].
  injection E as _ <-. intros [| | | |h'] Hf; destruct st; try exact Hf. cbn in *. rewrite nth_error_assign.
  destruct (Nat.eqb_spec h h') as [<-|]; [|exact Hf]. rewrite Eh in *. destruct (h <? _)%nat; cbn [andb]; [|exact Hf].
  apply negb_true_iff in Hf. now rewrite H.
Qed.

Lemma neutral_load_desc held h : neutral held (load_desc (W := W) (S := S) h).
Proof.
  apply neutral_act. intros st b st' E. destruct (nth_error _ h); [|discriminate]. injection E as _ <-. now apply same_locks.
Qed.

Lemma store_entry_locks o id e (st st' : enclave) : store_entry o id e st = Some st' ->
  g_locks st' = g_locks st /\ g_server_states st' = g_server_states st.
Proof.
  unfold store_entry. destruct (g_pending_requests st) as [t|]; [|discriminate].
  destruct (_ <? _)%nat; [|discriminate]. intros [= <-]. now destruct st.
Qed.

Section Balanced.
Context (plat : @platform W TargetInfo) (serv : @server W S InitArgs CallArgs TermArgs) (stk : stack).

(** One step of the syntax of a program; calls are left to the lemmas given before. *)
Ltac bal_step := match goal with
  | |- balanced _ _ _ (Ret _) => reflexivity
  | |- balanced _ _ _ (bind (sgxsd_spin_lock _) _) => apply balanced_lock
  | |- balanced _ _ _ (bind (sgxsd_spin_unlock _) _) => apply balanced_unlock
  | |- balanced _ ?h _ (bind _ _) => apply (balanced_bind rank h h); [|intros ?]
  | |- balanced _ _ _ (get _) => apply neutral_get
  | |- balanced _ _ _ (lift _) => apply neutral_lift
  | |- balanced _ _ _ (load_desc _) => apply neutral_load_desc
  | |- balanced _ _ _ (store_desc _ _) => apply neutral_store_desc; now intros []
  | |- balanced _ _ _ (modify _) => apply neutral_modify; now intros []
  | |- balanced _ _ _ (match ?x with _ => _ end) => destruct x
  end.
Ltac bal := repeat (cbv beta zeta; bal_step); try assumption.

(** An action that changes the world only. *)
Lemma neutral_world {A} held (f : enclave -> A) (g : enclave -> W) :
  neutral held (act (fun st => Some (f st, set_world (g st) st))).
Proof. apply neutral_act. intros st b st' [= _ <-]. now destruct st. Qed.

Lemma call_read_rand_bal held n : neutral held (call_read_rand (S := S) plat n).
Proof.
  apply neutral_act. intros st b st' E. destruct (sgx_read_rand plat n (world st)) as [[? ?] ?]. injection E as _ <-.
  now destruct st.
Qed.

Lemma read_rand_bal held x : outer held -> neutral held (sgxsd_enclave_read_rand (S := S) plat stk x).
Proof.
  intros Ho. unfold sgxsd_enclave_read_rand. bal. apply call_read_rand_bal.
Qed.

Lemma generate_bal held kp : outer held -> neutral held (sgxsd_enclave_generate_curve25519_keypair (S := S) plat stk kp).
Proof. intros Ho. unfold sgxsd_enclave_generate_curve25519_keypair. bal. now apply read_rand_bal. Qed.

Lemma generate_into_bal held sel upd : outer held ->
  (forall v (st : enclave), g_locks (upd v st) = g_locks st /\ g_server_states (upd v st) = g_server_states st) ->
  neutral held (generate_into plat stk sel upd).
Proof. intros Ho Hu. unfold generate_into. bal. now apply generate_bal. Qed.

Lemma ocall_bal held hdr data size tag : neutral held (call_ocall_reply (S := S) plat hdr data size tag).
Proof.
  apply neutral_act. intros st b st' E. destruct (sgxsd_ocall_reply plat hdr data size tag (world st)) as [[? ?] ?].
  injection E as _ <-. now destruct st.
Qed.

Lemma noerase_bal held hdr buf from : neutral held (sgxsd_enclave_server_reply_noerase (S := S) plat stk hdr buf from).
Proof. unfold sgxsd_enclave_server_reply_noerase. bal; [apply call_read_rand_bal|apply ocall_bal]. Qed.

Lemma interp_bal {A} held hdr (p : server_prog A) : outer held -> neutral held (interp (S := S) plat stk hdr p).
Proof.
  intros Ho. induction p as [a| |B f k IH|x k IH|buf from k IH|from k IH]; cbn [interp]; bal; try apply IH.
  - apply neutral_act. discriminate.
  - apply neutral_act. intros st b st' E. destruct (f (world st)). injection E as _ <-. now destruct st.
  - now apply read_rand_bal.
  - unfold sgxsd_enclave_server_reply. bal. apply noerase_bal.
  - unfold sgxsd_enclave_server_noreply. bal. apply ocall_bal.
Qed.

Lemma add_pending_bal held pid prk : outer held -> neutral held (sgxsd_enclave_add_pending_request (S := S) plat stk pid prk).
Proof.
  intros Ho. unfold sgxsd_enclave_add_pending_request. bal; [|apply call_read_rand_bal].
  apply neutral_act. intros st b st' E. destruct (store_entry _ _ _ _) as [st1|] eqn:Es; [|discriminate]. injection E as _ <-.
  apply store_entry_locks in Es as [E1 E2]. apply same_locks; [rewrite E1|rewrite E2]; now destruct st.
Qed.

Lemma decrypt_id_bal held pid : neutral held (decrypt_id (W := W) (S := S) stk pid).
Proof. unfold decrypt_id. bal. Qed.

Lemma get_pending_bal held pid e : outer held -> neutral held (sgxsd_enclave_get_pending_request (W := W) (S := S) stk pid e).
Proof.
  intros Ho. unfold sgxsd_enclave_get_pending_request. bal; [apply decrypt_id_bal|].
  apply neutral_act. intros st b st' E. destruct (load_entry _ _ _) as [e'|]; [|discriminate].
  destruct (id_val e' =? _); injection E as _ <-; now apply same_locks.
Qed.

Lemma remove_pending_bal held pid e : outer held -> neutral held (sgxsd_enclave_remove_pending_request (W := W) (S := S) stk pid e).
Proof.
  intros Ho. unfold sgxsd_enclave_remove_pending_request. bal; [apply decrypt_id_bal|].
  apply neutral_act. intros st b st' E. destruct (load_entry _ _ _) as [e'|]; [|discriminate].
  destruct (id_val e' =? _); [|injection E as _ <-; now apply same_locks].
  destruct (store_entry _ _ _ _) as [st1|] eqn:Es; [|discriminate]. injection E as _ <-.
  apply store_entry_locks in Es as [E1 E2]. now apply same_locks.
Qed.

Lemma decrypt_message_bal held prk ck header data size tag :
  neutral held (decrypt_message (W := W) (S := S) stk prk ck header data size tag).
Proof. unfold decrypt_message. bal. Qed.

Lemma with_server_bal {A} (fail : sgx_status_t -> A) h body :
  (forall h, neutral [ServerLock h] (body h)) -> neutral [] (with_server (W := W) (S := S) fail h body).
Proof. intros Hb. unfold with_server. bal; [constructor|apply Hb]. Qed.

Lemma node_init_bal args : neutral [] (sgxsd_enclave_node_init (S := S) plat stk args).
Proof.
  unfold sgxsd_enclave_node_init. bal; [constructor|].
  assert (Ho : outer [NodeInitLock]) by (repeat constructor).
  unfold sgxsd_enclave_node_init_locked. bal.
  - apply generate_into_bal; [exact Ho|]. now intros v [].
  - apply generate_into_bal; [exact Ho|]. now intros v [].
  - apply call_read_rand_bal.
  - apply neutral_act. intros st b st' E. destruct (calloc plat _ _ _). injection E as _ <-. now destruct st.
Qed.

Lemma get_next_report_bal kp info report : neutral [] (sgxsd_enclave_get_next_report (S := S) plat stk kp info report).
Proof.
  unfold sgxsd_enclave_get_next_report. bal; try (now constructor); [apply generate_bal; constructor|].
  apply neutral_act. intros st b st' E. destruct (sgx_create_report plat _ _ _ _) as [[? ?] ?]. injection E as _ <-. now destruct st.
Qed.

Lemma set_current_quote_bal : neutral [] (sgxsd_enclave_set_current_quote (W := W) (S := S)).
Proof. unfold sgxsd_enclave_set_current_quote. bal. constructor. Qed.

Lemma negotiate_bal fr request response : neutral [] (sgxsd_enclave_negotiate_request (S := S) plat stk fr request response).
Proof.
  unfold sgxsd_enclave_negotiate_request, request_prk. bal; [apply generate_bal|..|apply add_pending_bal]; constructor.
Qed.

Lemma outer_server h : outer [ServerLock h].
Proof. repeat constructor. Qed.

Lemma server_start_bal hdr args h : neutral [] (sgxsd_enclave_server_start plat serv stk hdr args h).
Proof.
  apply with_server_bal. intros h'. unfold sgxsd_enclave_server_start_locked. bal. apply interp_bal, outer_server.
Qed.

Lemma server_stop_bal hdr args h : neutral [] (sgxsd_enclave_server_stop plat serv stk hdr args h).
Proof.
  apply with_server_bal. intros h'. unfold sgxsd_enclave_server_stop_locked. bal. apply interp_bal, outer_server.
Qed.

Lemma server_call_bal hdr fr args header data size tag h :
  neutral [] (sgxsd_enclave_server_call plat serv stk hdr fr args header data size tag h).
Proof.
  apply with_server_bal. intros h'. unfold sgxsd_enclave_server_call_locked. bal;
    [apply remove_pending_bal, outer_server|apply decrypt_message_bal|apply interp_bal, outer_server].
Qed.

Lemma ratelimit_bal hdr fr key args header data size tag h fp n :
  neutral [] (sgxsd_enclave_ratelimit_fingerprint plat serv stk hdr fr key args header data size tag h fp n).
Proof.
  apply with_server_bal. intros h'. unfold sgxsd_enclave_ratelimit_fingerprint_locked. bal;
    [apply get_pending_bal, outer_server|apply decrypt_message_bal|apply interp_bal, outer_server].
Qed.

Lemma enter_bal c : neutral [] (enter plat serv stk c).
Proof.
  destruct c; cbn [enter]; bal; auto using node_init_bal, get_next_report_bal, set_current_quote_bal, negotiate_bal, server_start_bal,
    server_stop_bal, server_call_bal, ratelimit_bal.
Qed.

End Balanced.

(** * Theorems *)

Section Theorems.
Context (plat : @platform W TargetInfo) (Hplat : platform_ok plat)
  (serv : @server W S InitArgs CallArgs TermArgs) (Hserv : server_ok serv)
  (stk : stack) (Hstk : stack_ok stk).

Lemma ok_status {A} (p : P A) (k : A -> P sgx_status_t) : ok false anytime (fun _ => True) p ->
  (forall a, exists res, k a = Ret res) -> ok false anytime (fun _ => True) (bind p k).
Proof.
  intros Hp Hk. apply (ok_bind false anytime (fun _ => True)); [exact Hp|]. intros a _. destruct (Hk a) as [res ->].
  now apply (ok_ret false anytime).
Qed.

Lemma enter_ok c : ecall_ok c -> ok false anytime (fun _ => True) (enter plat serv stk c).
Proof.
  destruct c; cbn [ecall_ok enter]; intros Hc.
  - now apply node_init_ok.
  - apply ok_status; [now apply get_next_report_ok|intros [[] ?]; eauto].
  - apply set_current_quote_ok.
  - apply ok_status; [now apply negotiate_ok|intros [[] ?]; eauto].
  - destruct Hc as (Ha & Hm & H0). now apply server_start_ok.
  - apply ok_status; [destruct Hc as (Ha & Hm & H0); now apply server_call_ok|intros [[] ?]; eauto].
  - destruct Hc as (Hn & Ha & Hm & H0). now apply server_stop_ok.
  - apply ok_status; [destruct Hc as (Ha & Hm & H0); now apply ratelimit_ok|intros [[[] ?] ?]; eauto].
Qed.

Abbreviation start calls w := (map (enter plat serv stk) calls, loaded w).
Abbreviation any := (fun (_ : bool) (_ : sgx_status_t) (_ : enclave) => True).

Lemma start_pool_ok calls w : Forall ecall_ok calls ->
  pool_ok enclave_inv NodeInitLock evolves evolves_unheld any (start calls w).
Proof.
  intros Hc. split; [apply loaded_inv|]. left. split; [apply loaded_free|]. cbn [fst snd]. apply Forall_map.
  eapply Forall_impl; [|exact Hc]. intros c Hok. eapply safe_impl; [|exact (enter_ok c Hok (loaded w) I)]. trivial.
Qed.

Lemma start_balanced calls w : pool_balanced rank (start calls w).
Proof.
  exists (map (fun _ => []) calls). cbn [fst snd]. split; [|intros l Hl; rewrite loaded_free in Hl; discriminate].
  induction calls; cbn [map]; constructor; [apply enter_bal|assumption].
Qed.

Lemma reachable_pool_ok calls w c : Forall ecall_ok calls -> reachable (start calls w) c ->
  enclave_inv (snd c) /\ Forall (fun p => step p (snd c) <> Wrong) (fst c).
Proof.
  intros Hc Hr. destruct c as [ts st].
  pose proof (pool_reachable_ok enclave_inv NodeInitLock evolves evolves_unheld any _ _ (start_pool_ok calls w Hc) Hr) as H.
  split; [apply H|]. apply Forall_forall. intros p Hp E.
  pose proof (pool_ok_thread enclave_inv NodeInitLock evolves evolves_unheld any ts st p H Hp) as G. cbn [snd] in E. now rewrite E in G.
Qed.

(** Memory safety under concurrency: from the state the enclave is loaded in, in every
    interleaving of any number of calls with valid arguments, the buffers, keys and tables of
    the global state keep their sizes, the pending request table has the size its order says,
    and no thread is ever about to follow a NULL pointer or to access an object outside its
    bounds. *)
Theorem enclave_memory_safe calls w ts st :
  Forall ecall_ok calls -> reachable (start calls w) (ts, st) ->
  enclave_inv st /\ Forall (fun p => step p st <> Wrong) ts.
Proof. intros Hc Hr. exact (reachable_pool_ok calls w (ts, st) Hc Hr). Qed.

(** Initialisation takes effect once: once a thread has seen the node initialised, the flag,
    the order and the size of the pending request table and the key of the request ids are the
    same ever after, in every interleaving. *)
Theorem enclave_initialised_once calls w ts1 st1 ts2 st2 :
  Forall ecall_ok calls -> reachable (start calls w) (ts1, st1) -> reachable (ts1, st1) (ts2, st2) ->
  g_node_initialized st1 = true ->
  g_node_initialized st2 = true /\ g_pending_requests_table_order st2 = g_pending_requests_table_order st1 /\
  g_pending_request_id_key st2 = g_pending_request_id_key st1 /\ table_size st2 = table_size st1.
Proof.
  intros Hc H1 H2.
  pose proof (pool_reachable_ok enclave_inv NodeInitLock evolves evolves_unheld any _ _ (start_pool_ok calls w Hc) H1) as G.
  exact (proj1 (pool_reachable_evolves enclave_inv NodeInitLock evolves evolves_unheld any _ _ G H2)).
Qed.


End Theorems.
End System.
End SgxsdSystem.
