(* ===== verification/SgxsdProtocol.v ===== *)
(** What each entry point of the enclave does when it runs alone: random numbers, the table of
    pending requests as a finite map, the key exchange, messages and replies. *)
From S2P Require Import Prelude Codec Curve25519 SgxsdCrypto Threads Sgxsd SgxsdSafety SgxsdSystem.
From Stdlib Require Import ZArith List Lia Bool.
Import Codec SgxsdCrypto Threads Sgxsd SgxsdSafety SgxsdSystem.

Module SgxsdProtocol.

#[local] Opaque Curve25519.curve25519_donna Curve25519.clamp sgxsd_enclave_sha256 sgxsd_enclave_hmac_sha256
  sgxsd_aes_gcm_run aes_gcm_seal aes_gcm_open hkdf_T hmac_sha256 sha256 sgxsd_enclave_ra_hkdf_round br_dec64le br_enc64le.

Section Protocol.
Context {W S TargetInfo InitArgs CallArgs TermArgs : Type} {SS : ServerState S} {SA : ServerArgs InitArgs CallArgs TermArgs}.
Abbreviation enclave := (@enclave W S).
Abbreviation P A := (prog enclave lock_id A).

(** * Running with all locks free *)

Definition free_locks : global_locks :=
  {| node_init_lock := false; read_rand_lock := false; dh_keypair_lock := false; pending_requests_lock := false |}.

(** No global lock is taken: the state between two steps of a thread that runs alone, perhaps
    under the lock of a server. *)
Definition quiet (st : enclave) : Prop := g_locks st = free_locks.

Lemma run_lift {A B} (o : option A) (k : A -> P B) st :
  run (bind (lift o) k) st = match o with Some a => run (k a) st | None => Undefined end.
Proof. rewrite run_bind. cbn [run lift act]. now destruct o. Qed.

Lemma run_get {A B} (f : enclave -> A) (k : A -> P B) st : run (bind (get f) k) st = run (k (f st)) st.
Proof. reflexivity. Qed.

Lemma run_modify {B} f (k : unit -> P B) st : run (bind (modify f) k) st = run (k tt) (f st).
Proof. reflexivity. Qed.

Lemma run_act {A B} f (k : A -> P B) st :
  run (bind (act f) k) st = match f st with Some (b, st') => run (k b) st' | None => Undefined end.
Proof. reflexivity. Qed.

Section Run.
Context (plat : @platform W TargetInfo) (Hplat : platform_ok plat)
  (serv : @server W S InitArgs CallArgs TermArgs)
  (stk : stack) (Hstk : stack_ok stk).

(** ** Random numbers *)

(** HKDF of the SDK's random bytes with the generator's state as the salt: the first block is
    the next state, the second one the output. *)
Definition draw (st : enclave) : sgx_status_t * list Z * enclave :=
  let '(res, bytes, w) := sgx_read_rand plat 32 (world st) in
  if success res then
    let prk := hmac_sha256 (g_read_rand_state st) bytes in
    (SGX_SUCCESS, hkdf_T prk 2, set_read_rand_state (hkdf_T prk 1) (set_world w st))
  else (res, bytes, set_world w st).

Lemma call_read_rand_run n (st : enclave) : run (call_read_rand plat n) st =
  (let '(res, bytes, w) := sgx_read_rand plat n (world st) in Done (res, bytes) (set_world w st)).
Proof. cbn [run call_read_rand act]. now destruct (sgx_read_rand plat n (world st)) as [[res bytes] w]. Qed.

Lemma round1 prk junk : sgxsd_enclave_ra_hkdf_round stk prk {| t_n := junk; hkdf_n := 0 |} = {| t_n := hkdf_T prk 1; hkdf_n := 1 |}.
Proof. apply (hkdf_round_spec stk Hstk prk 0); [lia|contradiction]. Qed.

Lemma round2 prk : sgxsd_enclave_ra_hkdf_round stk prk {| t_n := hkdf_T prk 1; hkdf_n := 1 |} = {| t_n := hkdf_T prk 2; hkdf_n := 2 |}.
Proof. now apply (hkdf_round_spec stk Hstk prk 1); [lia|]. Qed.

(** The generator's lock is free. *)
Definition can_draw (st : enclave) : Prop := read_rand_lock (g_locks st) = false.

Lemma quiet_draw st : quiet st -> can_draw st.
Proof. unfold quiet, can_draw. now intros ->. Qed.

Lemma read_rand_run x st : can_draw st ->
  run (sgxsd_enclave_read_rand plat stk x) st = (let '(res, x, st') := draw st in Done (res, x) st').
Proof.
  intros Hq. unfold sgxsd_enclave_read_rand, draw. rewrite run_bind, call_read_rand_run.
  destruct (sgx_read_rand plat 32 (world st)) as [[res bytes] w] eqn:E. change SGXSD_CURVE25519_KEY_SIZE with 32. rewrite E.
  destruct (success res) eqn:Es; cbn [negb]; [|reflexivity].
  destruct st. unfold can_draw in Hq. cbn in Hq. destruct g_locks0. cbn in Hq. subst. cbn. rewrite (hmac_spec stk Hstk). cbn [firstn concat].
  now rewrite app_nil_r, round1, round2.
Qed.

Lemma draw_locks st res x st' : draw st = (res, x, st') -> g_locks st' = g_locks st.
Proof.
  unfold draw. destruct (sgx_read_rand plat 32 (world st)) as [[r bytes] w].
  destruct (success r); intros [= _ _ <-]; now destruct st.
Qed.

Lemma draw_status st res x st' : draw st = (res, x, st') -> success res = true -> res = SGX_SUCCESS.
Proof. now destruct res. Qed.

(** A keypair from the bytes drawn. *)
Definition keypair_of (x : list Z) : sgxsd_curve25519_key_pair_t :=
  {| privkey := Curve25519.clamp x; pubkey := Curve25519.curve25519_donna (Curve25519.clamp x) BASEPOINT |}.

Lemma generate_run kp st : can_draw st ->
  run (sgxsd_enclave_generate_curve25519_keypair plat stk kp) st =
  (let '(res, x, st') := draw st in
   Done (res, if success res then keypair_of x else {| privkey := x; pubkey := pubkey kp |}) st').
Proof.
  intros Hq. unfold sgxsd_enclave_generate_curve25519_keypair. rewrite run_bind, read_rand_run by exact Hq.
  destruct (draw st) as [[res x] st'] eqn:E. destruct (success res) eqn:Es; cbn [negb run]; [|reflexivity].
  now rewrite (draw_status _ _ _ _ E Es).
Qed.

(** ** The table of pending requests *)

(** The key stored for an id. *)
Definition live (st : enclave) (id : Z) : option (list Z) :=
  let? e := load_entry (g_pending_requests_table_order st) id st in
  if id_val e =? id then Some (hkdf_prk e) else None.

(** The table with an entry replaced. *)
Definition set_slot (id : Z) (e : sgxsd_pending_request_t) (st : enclave) : enclave :=
  match g_pending_requests st with
  | Some t => set_pending_requests (Some (assign t (entry_index (g_pending_requests_table_order st) id) e)) st
  | None => st
  end.

(** The id an encrypted id stands for, if the enclave issued it. *)
Definition request_id (st : enclave) (pid : sgxsd_pending_request_id_t) : option Z :=
  option_map br_dec64le (aes_gcm_open (g_pending_request_id_key st) (pid_iv pid) [] (pid_data pid) (pid_mac pid)).

Definition next_id (st : enclave) : Z := u64 (g_last_pending_request_id_val st + 1).

Definition sealed_id (st : enclave) (id : Z) (iv : list Z) : sgxsd_pending_request_id_t :=
  let '(c, t) := aes_gcm_seal (g_pending_request_id_key st) iv [] (br_enc64le id) in
  {| pid_data := c; pid_iv := iv; pid_mac := t |}.

Lemma entry_index_mod order id : 0 <= order <= 63 -> entry_index order id = Z.to_nat (id mod 2 ^ order).
Proof.
  intros Ho. unfold entry_index. rewrite Z.shiftl_mul_pow2, Z.mul_1_l by lia.
  assert (0 < 2 ^ order < 2 ^ 64) by (split; [apply Z.pow_pos_nonneg; lia|apply Z.pow_lt_mono_r; lia]).
  rewrite (wrap_small 64 (2 ^ order)), (wrap_small 64 (2 ^ order - 1)) by (unfold in_range; lia).
  replace (2 ^ order - 1) with (Z.ones order) by (rewrite Z.ones_equiv; lia). now rewrite Z.land_ones by lia.
Qed.

Lemma store_slot st id e : enclave_inv st -> ready st -> 0 <= id ->
  store_entry (g_pending_requests_table_order st) id e st = Some (set_slot id e st).
Proof.
  intros Hi Hr Hid. destruct (entry_in_table st _ id Hi (conj Hr eq_refl) Hid) as (t & Et & _ & Hlt).
  unfold store_entry, set_slot. rewrite Et. now rewrite (proj2 (Nat.ltb_lt _ _) Hlt).
Qed.

(** What the table holds after a slot has been set. *)
Lemma live_set_slot st id e i : enclave_inv st -> ready st -> 0 <= id -> 0 <= i ->
  live (set_slot id e st) i =
  (if i mod 2 ^ g_pending_requests_table_order st =? id mod 2 ^ g_pending_requests_table_order st
   then if id_val e =? i then Some (hkdf_prk e) else None
   else live st i).
Proof.
  intros Hi Hr Hid H0. destruct (inv_table st Hi Hr) as (Ho & t & Et & Lt).
  pose proof (entry_index_lt _ id Ho Hid) as Hlt. pose proof (Z.pow_pos_nonneg 2 (g_pending_requests_table_order st)) as Hp.
  unfold live, set_slot, load_entry. rewrite Et. destruct st. cbn in *. subst. rewrite nth_error_assign, !entry_index_mod in * by lia.
  pose proof (Z.mod_pos_bound i (2 ^ g_pending_requests_table_order0)).
  pose proof (Z.mod_pos_bound id (2 ^ g_pending_requests_table_order0)).
  destruct (Z.eqb_spec (i mod 2 ^ g_pending_requests_table_order0) (id mod 2 ^ g_pending_requests_table_order0)) as [->|Hn].
  - now rewrite Nat.eqb_refl, (proj2 (Nat.ltb_lt _ _)) by lia.
  - destruct (Nat.eqb_spec (Z.to_nat (id mod 2 ^ g_pending_requests_table_order0)) (Z.to_nat (i mod 2 ^ g_pending_requests_table_order0))) as [E|_];
      [apply Z2Nat.inj in E; lia|reflexivity].
Qed.

Lemma open_sealed_id st id iv : key_ok (g_pending_request_id_key st) -> bytes_ok iv -> in_range 64 id ->
  request_id st (sealed_id st id iv) = Some id.
Proof.
  intros Hk Hiv Hid. unfold request_id, sealed_id.
  pose proof (open_seal (Aead := aes_gcm_aead) (g_pending_request_id_key st) iv [] (br_enc64le id) Hk Hiv) as H.
  destruct (aes_gcm_seal _ iv [] (br_enc64le id)) as [c t]. cbn [pid_data pid_iv pid_mac fst snd] in *. rewrite H. cbn [option_map].
  f_equal. pose proof (br_dec64le_enc id [] Hid) as E. now rewrite app_nil_r in E.
Qed.

(** A critical section of a thread that runs alone. *)
Lemma run_section {A B} (f : enclave -> option (A * enclave)) (k : A -> P B) l st : quiet st ->
  match l with ServerLock _ => False | _ => True end ->
  run (sgxsd_spin_lock l ;; let* x := act f in sgxsd_spin_unlock l ;; k x) st =
  match f (lock_set l true st) with
  | Some (a, st') => run (k a) (lock_set l false st')
  | None => Undefined
  end.
Proof.
  intros Hq Hl. assert (E : lock_free l st = true).
  { destruct l; try contradiction; cbn [lock_free enclave_locks enclave_lock_free]; now rewrite Hq. }
  cbn [bind sgxsd_spin_lock lock run]. rewrite E. cbn [act bind run].
  destruct (f (lock_set l true st)) as [[a st']|]; reflexivity.
Qed.

Lemma lock_ready l b (st : enclave) : ready st -> ready (lock_set l b st).
Proof. intros H. apply (stable_unheld (h := false) st); [|exact H]. apply (lock_unheld enclave_inv NodeInitLock evolves evolves_unheld). Qed.

Lemma lock_enclave_inv l b (st : enclave) : enclave_inv st -> enclave_inv (lock_set l b st).
Proof. apply (lock_inv enclave_inv NodeInitLock evolves evolves_unheld). Qed.

Definition numbered (id : Z) (prk : list Z) : sgxsd_pending_request_t := {| id_val := id; hkdf_prk := prk |}.

(** The state once a request has been added. *)
Definition added (prk : list Z) (st : enclave) : enclave := set_slot (next_id st) (numbered (next_id st) prk) (set_last_id (next_id st) st).

Lemma add_pending_run pid prk st : quiet st -> enclave_inv st -> ready st -> pid_ok pid -> key_ok prk ->
  run (sgxsd_enclave_add_pending_request plat stk pid prk) st =
  (let '(res, iv, w) := sgx_read_rand plat 12 (world st) in
   Done (if success res then (SGX_SUCCESS, sealed_id st (next_id st) iv)
         else (res, {| pid_data := pid_data pid; pid_iv := iv; pid_mac := pid_mac pid |})) (set_world w (added prk st))).
Proof.
  intros Hq Hi Hr (Hd & Hiv & Hm) Hk. unfold sgxsd_enclave_add_pending_request. rewrite run_get, run_section by trivial.
  assert (Hn : in_range 64 (next_id st)) by (now apply wrap_range).
  set (st1 := lock_set PendingRequestsLock true st).
  assert (Hi1 : enclave_inv (set_last_id (next_id st) st1)) by (apply set_last_ok; [now apply lock_enclave_inv|exact Hn]).
  assert (Hr1 : ready (set_last_id (next_id st) st1)) by (destruct st; exact Hr).
  pose proof (store_slot _ (next_id st) (numbered (next_id st) prk) Hi1 Hr1 (proj1 Hn)) as E.
  replace (g_pending_requests_table_order (set_last_id (next_id st) st1)) with (g_pending_requests_table_order st) in E by (now destruct st).
  replace (u64 (g_last_pending_request_id_val st1 + 1)) with (next_id st) by (now destruct st). fold (numbered (next_id st) prk). rewrite E.
  replace (lock_set PendingRequestsLock false _) with (added prk st)
    by (unfold added, set_slot; destruct st; unfold quiet in Hq; cbn in *; subst; now destruct g_pending_requests0).
  rewrite run_bind, call_read_rand_run. change SGXSD_AES_GCM_IV_SIZE with 12.
  replace (world (added prk st)) with (world st) by (unfold added, set_slot; destruct st; cbn; now destruct g_pending_requests0).
  pose proof (Hplat 12 (world st) ltac:(lia)) as Hiv'. destruct (sgx_read_rand plat 12 (world st)) as [[res iv] w]. cbn [fst snd] in Hiv'.
  destruct (success res); cbn [negb]; [|reflexivity]. cbn [pid_data pid_iv pid_mac]. rewrite run_get.
  replace (g_pending_request_id_key (set_world w (added prk st))) with (g_pending_request_id_key st)
    by (unfold added, set_slot; destruct st; cbn; now destruct g_pending_requests0).
  destruct (encrypt_blob stk Hstk (g_pending_request_id_key st) 8 (br_enc64le (next_id st)) (pid_data pid) iv (pid_mac pid)
    (inv_key st Hi) (enc64le_blob _) Hd Hiv' Hm) as (c & t & Ee & Es & _).
  change (Z.of_nat 8) with 8 in Ee. rewrite run_lift, Ee, !run_lift. cbn [success negb run]. unfold sealed_id. now rewrite <- Es.
Qed.

(** The id an encrypted id opens to; ids nobody was given are refused. *)
Lemma decrypt_id_run pid st : enclave_inv st -> pid_ok pid ->
  run (decrypt_id stk pid) st =
  Done (match request_id st pid with Some id => (SGX_SUCCESS, id) | None => (SGX_ERROR_MAC_MISMATCH, 0) end) st.
Proof.
  intros Hi (Hd & Hiv & Hm). unfold decrypt_id. rewrite run_get.
  destruct (decrypt_region stk Hstk (g_pending_request_id_key st) (pid_data pid) 8 (br_enc64le 0) (pid_iv pid) [] 0 (pid_mac pid))
    as (res & data' & E & Ho & L & _);
    [apply Hi|lia|now apply (blob_region 8)|apply (blob_region 8), enc64le_blob|assumption|split; [reflexivity|constructor]|assumption|].
  change (if (0 =? 0)%nat then None else Some []) with (@None (list Z)) in E. change (Z.of_nat 0) with 0 in E.
  rewrite run_lift, E, run_lift. unfold request_id. rewrite firstn_all2 in Ho by (destruct Hd as [-> _]; cbn; lia).
  destruct (aes_gcm_open _ _ _ _ _) as [p|] eqn:Eo; destruct Ho as [-> ->]; cbn [run option_map]; [|reflexivity].
  do 3 f_equal. apply splice_all. rewrite (proj1 (enc64le_blob 0)).
  pose proof (open_sound (Aead := aes_gcm_aead) _ _ _ _ _ p (inv_key st Hi) (proj2 Hiv) Eo) as Es.
  pose proof (seal_length (Aead := aes_gcm_aead) (g_pending_request_id_key st) (pid_iv pid) [] p (inv_key st Hi) (proj2 Hiv)) as Lp.
  rewrite Es in Lp. cbn [fst] in Lp. destruct Hd as [Ld _]. congruence.
Qed.

Lemma request_id_range st pid id : enclave_inv st -> pid_ok pid -> request_id st pid = Some id -> in_range 64 id.
Proof.
  intros Hi (Hd & Hiv & _). unfold request_id. destruct (aes_gcm_open _ _ _ _ _) as [p|] eqn:E; [|discriminate].
  intros [= <-]. apply dec64le_range. exact (open_bytes (Aead := aes_gcm_aead) _ _ _ _ _ p (inv_key st Hi) (proj2 Hiv) (proj2 Hd) E).
Qed.

(** The request an encrypted id stands for, or the reason there is none. *)
Definition find_request (st : enclave) (pid : sgxsd_pending_request_id_t) : sgxsd_pending_request_t + sgx_status_t :=
  match request_id st pid with
  | None => inr SGX_ERROR_MAC_MISMATCH
  | Some id => match live st id with Some prk => inl (numbered id prk) | None => inr SGXSD_ERROR_PENDING_REQUEST_NOT_FOUND end
  end.

Lemma find_request_cases st pid e : find_request st pid = inl e ->
  request_id st pid = Some (id_val e) /\ live st (id_val e) = Some (hkdf_prk e).
Proof.
  unfold find_request. destruct (request_id st pid) as [id|]; [|discriminate].
  destruct (live st id) as [prk|] eqn:E; [|discriminate]. intros [= <-]. now split.
Qed.

Lemma unlocked_same l (st : enclave) : quiet st -> match l with ServerLock _ => False | _ => True end ->
  lock_set l false (lock_set l true st) = st.
Proof. intros Hq Hl. destruct st. unfold quiet in Hq. cbn in Hq. subst. now destruct l. Qed.

Lemma loaded_entry st id : enclave_inv st -> ready st -> 0 <= id ->
  exists e, load_entry (g_pending_requests_table_order st) id st = Some e /\
    live st id = (if id_val e =? id then Some (hkdf_prk e) else None) /\ (id_val e = id -> e = numbered id (hkdf_prk e)).
Proof.
  intros Hi Hr Hid. destruct (load_entry_ok st id Hi Hr Hid) as (e & E & _). exists e. split; [exact E|].
  split; [unfold live; now rewrite E|]. destruct e. cbn. now intros ->.
Qed.

Lemma get_pending_run pid e0 st : quiet st -> enclave_inv st -> ready st -> pid_ok pid ->
  run (sgxsd_enclave_get_pending_request stk pid e0) st =
  Done (match find_request st pid with inl e => (SGX_SUCCESS, e) | inr res => (res, e0) end) st.
Proof.
  intros Hq Hi Hr Hp. unfold sgxsd_enclave_get_pending_request, find_request. rewrite run_bind, decrypt_id_run by assumption.
  destruct (request_id st pid) as [id|] eqn:E; cbn [success negb]; [|reflexivity].
  rewrite run_section by trivial. pose proof (request_id_range st pid id Hi Hp E) as Hid.
  set (st1 := lock_set PendingRequestsLock true st).
  destruct (loaded_entry st id Hi Hr (proj1 Hid)) as (e & El & Hl & He).
  replace (load_entry (g_pending_requests_table_order st1) id st1) with (Some e) by (rewrite <- El; now destruct st).
  rewrite Hl. destruct (Z.eqb_spec (id_val e) id) as [Ee|]; unfold st1; rewrite unlocked_same by trivial; cbn [run]; [|reflexivity].
  now rewrite (He Ee) at 1.
Qed.

Lemma remove_pending_run pid e0 st : quiet st -> enclave_inv st -> ready st -> pid_ok pid ->
  run (sgxsd_enclave_remove_pending_request stk pid e0) st =
  match find_request st pid with
  | inl e => Done (SGX_SUCCESS, e) (set_slot (id_val e) zero_pending_request st)
  | inr res => Done (res, e0) st
  end.
Proof.
  intros Hq Hi Hr Hp. unfold sgxsd_enclave_remove_pending_request, find_request. rewrite run_bind, decrypt_id_run by assumption.
  destruct (request_id st pid) as [id|] eqn:E; cbn [success negb]; [|reflexivity].
  rewrite run_section by trivial. pose proof (request_id_range st pid id Hi Hp E) as Hid.
  set (st1 := lock_set PendingRequestsLock true st). cbv zeta.
  destruct (loaded_entry st id Hi Hr (proj1 Hid)) as (e & El & Hl & He).
  replace (load_entry (g_pending_requests_table_order st1) id st1) with (Some e) by (rewrite <- El; now destruct st).
  rewrite Hl. destruct (Z.eqb_spec (id_val e) id) as [Ee|];
    [|unfold st1; rewrite unlocked_same by trivial; reflexivity].
  unfold st1. rewrite store_slot by (try apply lock_enclave_inv; try apply lock_ready; trivial; apply Hid). cbn [run numbered id_val].
  rewrite (He Ee) at 1. f_equal. unfold set_slot. destruct st. unfold quiet in Hq. cbn in *. subst. now destruct g_pending_requests0.
Qed.

(** The states these specifications speak of. *)
Record served (st : enclave) : Prop := { sv_quiet : quiet st; sv_inv : enclave_inv st; sv_ready : ready st }.

Lemma served_world st w : served st -> served (set_world w st).
Proof. intros [Hq Hi Hr]. split; [now destruct st|now apply set_world_ok|now destruct st]. Qed.

Lemma served_slot st id e : served st -> 0 <= id -> entry_ok e -> served (set_slot id e st).
Proof.
  intros [Hq Hi Hr] Hid He. destruct (set_entry_ok st _ id e Hi (conj Hr eq_refl) Hid He) as (st' & E & Hi' & Hev & _).
  rewrite store_slot in E by trivial. injection E as <-.
  split; [|exact Hi'|exact (stable_unheld (h := false) _ _ Hev Hr)]. unfold set_slot, quiet in *. destruct st. now destruct g_pending_requests0.
Qed.

Lemma served_last st id : served st -> in_range 64 id -> served (set_last_id id st).
Proof. intros [Hq Hi Hr] Hid. split; [now destruct st|now apply set_last_ok|now destruct st]. Qed.

Lemma served_added st prk : served st -> key_ok prk -> served (added prk st).
Proof.
  intros Hs Hk. assert (Hn : in_range 64 (next_id st)) by (now apply wrap_range).
  apply served_slot; [now apply served_last|apply Hn|now split].
Qed.

Lemma set_slot_frame id e st : g_pending_requests_table_order (set_slot id e st) = g_pending_requests_table_order st /\
  g_last_pending_request_id_val (set_slot id e st) = g_last_pending_request_id_val st /\
  g_pending_request_id_key (set_slot id e st) = g_pending_request_id_key st.
Proof. unfold set_slot. destruct st. now destruct g_pending_requests0. Qed.

Lemma live_set_world st w i : live (set_world w st) i = live st i.
Proof. now destruct st. Qed.

Lemma live_added st prk i : served st -> in_range 64 i ->
  live (added prk st) i =
  (if i =? next_id st then Some prk
   else if i mod 2 ^ g_pending_requests_table_order st =? next_id st mod 2 ^ g_pending_requests_table_order st then None
   else live st i).
Proof.
  intros Hs Hi. assert (Hn : in_range 64 (next_id st)) by (now apply wrap_range).
  destruct (served_last st (next_id st) Hs Hn) as [_ Hi' Hr'].
  unfold added. rewrite live_set_slot by (trivial; apply Hn || apply Hi).
  replace (g_pending_requests_table_order (set_last_id _ st)) with (g_pending_requests_table_order st) by (now destruct st).
  cbn [numbered id_val hkdf_prk]. rewrite (Z.eqb_sym (next_id st) i).
  destruct (Z.eqb_spec i (next_id st)) as [->|]; [now rewrite Z.eqb_refl|]. now destruct st.
Qed.

(** The pending request table is a ring of ids: adding a request succeeds when the random
    source does, gives back an encrypted id that opens to the next id, stores the key under it,
    and forgets exactly the older requests whose id has the same low bits. *)
Theorem add_pending_ring pid prk st (Hs : served st) (Hp : pid_ok pid) (Hk : key_ok prk) :
  exists res pid' st', run (sgxsd_enclave_add_pending_request plat stk pid prk) st = Done (res, pid') st' /\ served st' /\
    res = fst (fst (sgx_read_rand plat 12 (world st))) /\
    (res = SGX_SUCCESS -> request_id st' pid' = Some (next_id st)) /\
    forall i, in_range 64 i -> live st' i =
      (if i =? next_id st then Some prk
       else if i mod 2 ^ g_pending_requests_table_order st =? next_id st mod 2 ^ g_pending_requests_table_order st then None
       else live st i).
Proof.
  destruct Hs as [Hq Hi Hr] eqn:Es. rewrite add_pending_run by assumption.
  pose proof (Hplat 12 (world st) ltac:(lia)) as [_ Biv]. destruct (sgx_read_rand plat 12 (world st)) as [[res iv] w]. cbn [fst snd] in *.
  exists res, (snd (if success res then (SGX_SUCCESS, sealed_id st (next_id st) iv)
    else (res, {| pid_data := pid_data pid; pid_iv := iv; pid_mac := pid_mac pid |}))), (set_world w (added prk st)).
  split; [now destruct res|]. split; [now apply served_world, served_added|]. split; [reflexivity|]. split.
  - intros ->. cbn [success snd]. unfold request_id.
    replace (g_pending_request_id_key (set_world w (added prk st))) with (g_pending_request_id_key st)
      by (unfold added, set_slot; destruct st; cbn; now destruct g_pending_requests0).
    apply open_sealed_id; [apply Hi|exact Biv|now apply wrap_range].
  - intros i Hri. rewrite live_set_world. now apply live_added.
Qed.

(** Requests added one after the other. *)
Fixpoint add_all (requests : list (sgxsd_pending_request_id_t * list Z)) : P unit :=
  match requests with
  | [] => Ret tt
  | (pid, prk) :: requests' => let* _ := sgxsd_enclave_add_pending_request plat stk pid prk in add_all requests'
  end.

(** How many requests have been added since the id was given out. *)
Definition age (st : enclave) (id : Z) : Z := (g_last_pending_request_id_val st - id) mod 2 ^ 64.

Lemma age_range st id : 0 <= age st id < 2 ^ 64.
Proof. unfold age. pose proof (Z.mod_pos_bound (g_last_pending_request_id_val st - id) (2 ^ 64)). lia. Qed.

Lemma next_age st id : in_range 64 id -> age st id + 1 < 2 ^ 64 -> (next_id st - id) mod 2 ^ 64 = age st id + 1.
Proof.
  intros Hid Ha. pose proof (age_range st id). unfold next_id, age, wrap in *. rewrite Zminus_mod_idemp_l.
  replace (g_last_pending_request_id_val st + 1 - id) with (g_last_pending_request_id_val st - id + 1) by lia.
  rewrite <- Zplus_mod_idemp_l. apply Z.mod_small. lia.
Qed.

Lemma added_frame st prk : g_last_pending_request_id_val (added prk st) = next_id st /\
  g_pending_requests_table_order (added prk st) = g_pending_requests_table_order st.
Proof. unfold added, set_slot. destruct st. now destruct g_pending_requests0. Qed.

(** Adding a request makes the others one older; it takes the slot of those whose age becomes a
    multiple of the size of the table. *)
Lemma added_age st prk id : served st -> in_range 64 id -> age st id + 1 < 2 ^ 64 ->
  age (added prk st) id = age st id + 1 /\
  live (added prk st) id = (if (age st id + 1) mod 2 ^ g_pending_requests_table_order st =? 0 then None else live st id).
Proof.
  intros Hs Hid Ha. pose proof (next_age st id Hid Ha) as En. split.
  - unfold age at 1. now rewrite (proj1 (added_frame st prk)).
  - rewrite live_added by assumption. destruct (inv_table st (sv_inv st Hs) (sv_ready st Hs)) as (Ho & _).
    destruct (Z.eqb_spec id (next_id st)) as [->|_].
    { rewrite Z.sub_diag in En. pose proof (age_range st (next_id st)). cbn in En. lia. }
    rewrite <- En, Z.mod_mod_divide.
    + destruct (Z.eqb_spec (id mod 2 ^ g_pending_requests_table_order st) (next_id st mod 2 ^ g_pending_requests_table_order st)) as [E|Hn].
      * now rewrite (proj2 (Z.eqb_eq _ _) (proj1 (Z.cong_iff_0 _ _ _) (eq_sym E))).
      * rewrite (proj2 (Z.eqb_neq _ _)); [reflexivity|]. intros E. apply Hn. symmetry. now apply Z.cong_iff_0.
    + exists (2 ^ (64 - g_pending_requests_table_order st)). rewrite <- Z.pow_add_r by lia. f_equal. lia.
Qed.

Lemma div_succ d m : 0 < m -> (d + 1) / m = d / m + (if (d + 1) mod m =? 0 then 1 else 0).
Proof.
  intros Hm. pose proof (Z.div_mod (d + 1) m ltac:(lia)). pose proof (Z.mod_pos_bound (d + 1) m Hm).
  destruct (Z.eqb_spec ((d + 1) mod m) 0) as [E|E].
  - rewrite <- (Z.div_unique d m ((d + 1) / m - 1) (m - 1)); nia.
  - rewrite <- (Z.div_unique d m ((d + 1) / m) ((d + 1) mod m - 1)); nia.
Qed.

Abbreviation requests_ok := (Forall (fun r : sgxsd_pending_request_id_t * list Z => pid_ok (fst r) /\ key_ok (snd r))).

Lemma add_all_live requests st id : served st -> requests_ok requests -> in_range 64 id ->
  age st id + Z.of_nat (length requests) < 2 ^ 64 ->
  exists st', run (add_all requests) st = Done tt st' /\ served st' /\
    live st' id = (if (age st id + Z.of_nat (length requests)) / 2 ^ g_pending_requests_table_order st
                        =? age st id / 2 ^ g_pending_requests_table_order st then live st id else None).
Proof.
  intros Hs Hr Hid. revert st Hs. induction Hr as [|[pid prk] requests [Hp Hk] _ IH]; intros st Hs Ha; cbn [length] in *.
  - exists st. rewrite Z.add_0_r, Z.eqb_refl. auto.
  - destruct Hs as [Hq Hi Hrd] eqn:Es. clear Es. destruct (added_age st prk id Hs Hid ltac:(lia)) as [Ea El].
    cbn [add_all]. rewrite run_bind, add_pending_run by assumption. destruct (sgx_read_rand plat 12 (world st)) as [[res iv] w].
    destruct (IH (set_world w (added prk st))) as (st' & E & Hs' & Hl).
    + now apply served_world, served_added.
    + replace (age (set_world w (added prk st)) id) with (age (added prk st) id) by (now destruct (added prk st)). lia.
    + exists st'. split; [exact E|]. split; [exact Hs'|]. rewrite Hl, live_set_world, El.
      replace (age (set_world w (added prk st)) id) with (age st id + 1) by (rewrite <- Ea; now destruct (added prk st)).
      replace (g_pending_requests_table_order (set_world w (added prk st))) with (g_pending_requests_table_order st)
        by (rewrite <- (proj2 (added_frame st prk)); now destruct (added prk st)).
      destruct (inv_table st Hi Hrd) as (Ho & _). pose proof (Z.pow_pos_nonneg 2 (g_pending_requests_table_order st) ltac:(lia) ltac:(lia)) as Hm.
      set (m := 2 ^ g_pending_requests_table_order st) in *. pose proof (age_range st id).
      replace (age st id + 1 + Z.of_nat (length requests)) with (age st id + Z.of_nat (Datatypes.S (length requests))) by lia.
      assert ((age st id + 1) / m <= (age st id + Z.of_nat (Datatypes.S (length requests))) / m) by (apply Z.div_le_mono; lia).
      rewrite div_succ in * by exact Hm. destruct (_ mod m =? 0); [|now rewrite Z.add_0_r].
      set (x := (age st id + Z.of_nat (Datatypes.S (length requests))) / m) in *.
      rewrite (proj2 (Z.eqb_neq x (age st id / m))) by lia. now destruct (x =? age st id / m + 1).
Qed.

(** The table remembers as many requests as it has entries: the last request survives
    [n] further ones exactly when [n] is below 2^order, whatever the order, up to the 2^64 ids
    there are. *)
Theorem pending_table_capacity requests st (Hs : served st) (Hr : requests_ok requests)
  (Hn : Z.of_nat (length requests) < 2 ^ 64) :
  exists st', run (add_all requests) st = Done tt st' /\
    live st' (g_last_pending_request_id_val st) =
    (if Z.of_nat (length requests) <? 2 ^ g_pending_requests_table_order st
     then live st (g_last_pending_request_id_val st) else None).
Proof.
  assert (Ha : age st (g_last_pending_request_id_val st) = 0) by (unfold age; now rewrite Z.sub_diag).
  destruct (add_all_live requests st (g_last_pending_request_id_val st) Hs Hr (inv_last st (sv_inv st Hs))) as (st' & E & _ & Hl);
    [rewrite Ha; lia|]. exists st'. split; [exact E|]. rewrite Hl, Ha, Z.add_0_l.
  destruct (inv_table st (sv_inv st Hs) (sv_ready st Hs)) as (Ho & _).
  pose proof (Z.pow_pos_nonneg 2 (g_pending_requests_table_order st) ltac:(lia) ltac:(lia)) as Hm.
  rewrite Z.div_0_l by lia. destruct (Z.ltb_spec (Z.of_nat (length requests)) (2 ^ g_pending_requests_table_order st)) as [Hlt|Hge].
  - rewrite Z.div_small by lia. reflexivity.
  - rewrite (proj2 (Z.eqb_neq _ _)); [reflexivity|]. pose proof (Z.div_str_pos (Z.of_nat (length requests)) (2 ^ g_pending_requests_table_order st) ltac:(lia)). lia.
Qed.

Lemma removed_live st id i : served st -> in_range 64 id -> live st id <> None -> 0 < i ->
  live (set_slot id zero_pending_request st) i = (if i =? id then None else live st i).
Proof.
  intros [Hq Hi Hr] Hid Hl H0. rewrite live_set_slot by (trivial; lia || apply Hid). cbn [zero_pending_request id_val].
  rewrite (proj2 (Z.eqb_neq 0 i)) by lia.
  destruct (Z.eqb_spec (i mod 2 ^ g_pending_requests_table_order st) (id mod 2 ^ g_pending_requests_table_order st)) as [E|Hn].
  - destruct (Z.eqb_spec i id) as [->|Hne]; [reflexivity|]. destruct (inv_table st Hi Hr) as (Ho & _).
    unfold live, load_entry in *. rewrite !entry_index_mod, E in * by lia. destruct (g_pending_requests st) as [t|]; [|reflexivity].
    destruct (nth_error t _) as [e|]; [|reflexivity].
    destruct (Z.eqb_spec (id_val e) id) as [<-|]; [|contradiction]. rewrite (proj2 (Z.eqb_neq (id_val e) i)); [reflexivity|congruence].
  - destruct (Z.eqb_spec i id) as [->|]; [contradiction|reflexivity].
Qed.

Lemma request_id_frame st id e pid : request_id (set_slot id e st) pid = request_id st pid.
Proof. unfold request_id. now rewrite (proj2 (proj2 (set_slot_frame id e st))). Qed.

(** C17. A request is taken out of the table once: removing it returns what was stored and keeps
    every other request, removing it again is refused and changes nothing, while looking it up
    without removing it leaves the state as it is. *)
Theorem pending_request_single_use pid e0 e st (Hs : served st) (Hp : pid_ok pid) (Hf : find_request st pid = inl e)
  (Hz : id_val e <> 0) :
  run (sgxsd_enclave_get_pending_request stk pid e0) st = Done (SGX_SUCCESS, e) st /\
  exists st', run (sgxsd_enclave_remove_pending_request stk pid e0) st = Done (SGX_SUCCESS, e) st' /\ served st' /\
    run (sgxsd_enclave_remove_pending_request stk pid e0) st' = Done (SGXSD_ERROR_PENDING_REQUEST_NOT_FOUND, e0) st' /\
    forall i, 0 < i -> live st' i = (if i =? id_val e then None else live st i).
Proof.
  destruct (find_request_cases st pid e Hf) as [Eid El]. destruct Hs as [Hq Hi Hr] eqn:Es.
  pose proof (request_id_range st pid _ Hi Hp Eid) as Hid. split; [now rewrite get_pending_run, Hf|].
  exists (set_slot (id_val e) zero_pending_request st). rewrite remove_pending_run, Hf by assumption. split; [reflexivity|].
  assert (Hs' : served (set_slot (id_val e) zero_pending_request st)) by (apply served_slot; [exact Hs|apply Hid|apply zero_entry_ok]).
  assert (Hl : forall i, 0 < i -> live (set_slot (id_val e) zero_pending_request st) i = if i =? id_val e then None else live st i)
    by (intros i H0; apply removed_live; [exact Hs|exact Hid|rewrite El; discriminate|exact H0]).
  split; [exact Hs'|]. split; [|exact Hl].
  rewrite remove_pending_run by (trivial; apply Hs'). unfold find_request. rewrite request_id_frame, Eid, Hl, Z.eqb_refl; [reflexivity|].
  destruct Hid. lia.
Qed.

(** ** Messages *)

(** The two keys of a request. *)
Definition client_key (prk : list Z) : list Z := hkdf_T prk 1.
Definition server_key (prk : list Z) : list Z := hkdf_T prk 2.

Lemma derive_keys prk p q :
  sgxsd_enclave_derive_request_keys stk prk p q = (option_map (fun _ => client_key prk) p, option_map (fun _ => server_key prk) q).
Proof. unfold sgxsd_enclave_derive_request_keys. cbv zeta. now rewrite round1, round2. Qed.

(** The message that the client sent, and who it is from. *)
Definition open_message (prk : list Z) (header : sgxsd_msg_header_t) (data : list Z) (size : Z) : option (list Z) :=
  aes_gcm_open (client_key prk) (mh_iv header) (pid_bytes (mh_pending_request_id header)) (firstn (Z.to_nat (u32 size)) data) (mh_mac header).
Definition sender (prk : list Z) (tag : Z) : sgxsd_msg_from_t := {| from_valid := true; from_tag := tag; from_server_key := server_key prk |}.

Lemma decrypt_message_run prk ck header data size tag (st : enclave) : header_ok header -> region (u32 size) (Some data) ->
  run (decrypt_message stk prk ck header data size tag) st =
  Done (match open_message prk header data size with
        | Some msg => (SGX_SUCCESS, Some (splice data 0 msg), sender prk tag)
        | None => (SGX_ERROR_MAC_MISMATCH, Some (splice data 0 (zeros (u32 size))), sender prk tag)
        end) st.
Proof.
  intros (Hiv & Hmac & Hpid) Hd. unfold decrypt_message, open_message. rewrite derive_keys. cbn [option_map]. rewrite !run_lift.
  destruct (decrypt_region stk Hstk (client_key prk) data (u32 size) data (mh_iv header) (pid_bytes (mh_pending_request_id header)) 36 (mh_mac header))
    as (res & data' & E & Ho & _); try assumption; [apply hkdf_T_shape|now apply wrap_range|now apply pid_bytes_blob|].
  cbn [Nat.eqb] in E. change (Z.of_nat 36) with 36 in E. rewrite E.
  destruct (aes_gcm_open _ _ _ _ _) as [p|]; destruct Ho as [-> ->]; reflexivity.
Qed.

(** ** Servers *)

(** The descriptor of a server that no thread is using. *)
Definition idle (h : nat) (d : @sgxsd_server_state_desc_t S) (st : enclave) : Prop :=
  nth_error (g_server_states st) h = Some d /\ desc_lock d = false.

Definition locked (h : nat) (st : enclave) : enclave := lock_set (ServerLock h) true st.
Definition unlocked (h : nat) (st : enclave) : enclave := lock_set (ServerLock h) false st.

Lemma assign_assign {A} (l : list A) i x y : assign (assign l i x) i y = assign l i y.
Proof. revert i. induction l as [|z l IH]; intros [|i]; cbn; [reflexivity..|]. now rewrite IH. Qed.

Lemma assign_same {A} (l : list A) i x : nth_error l i = Some x -> assign l i x = l.
Proof. revert i. induction l as [|z l IH]; intros [|i] H; cbn in *; try congruence. now rewrite IH. Qed.

Lemma nth_error_assigned {A} (l : list A) i x y : nth_error l i = Some x -> nth_error (assign l i y) i = Some y.
Proof.
  intros H. rewrite nth_error_assign, Nat.eqb_refl, (proj2 (Nat.ltb_lt _ _)); [reflexivity|]. apply nth_error_Some. congruence.
Qed.

(** Releasing the lock a thread has taken restores the descriptor. *)
Lemma unlocked_locked h d st : idle h d st -> unlocked h (locked h st) = st.
Proof.
  intros [E L]. unfold unlocked, locked. destruct st. cbn in *. rewrite E. cbn.
  rewrite (nth_error_assigned _ _ _ _ E), assign_assign. cbn. rewrite assign_same; [reflexivity|].
  rewrite E. now destruct d as [v b p]; cbn in *; subst.
Qed.

Lemma unlocked_slot h d id e st : idle h d st -> unlocked h (set_slot id e (locked h st)) = set_slot id e st.
Proof.
  intros Hd. rewrite <- (unlocked_locked h d st Hd) at 2. destruct Hd as [E L]. unfold unlocked, locked, set_slot. destruct st. cbn in *. rewrite E.
  cbn. rewrite (nth_error_assigned _ _ _ _ E). cbn. destruct g_pending_requests0; cbn; rewrite (nth_error_assigned _ _ _ _ E); reflexivity.
Qed.

Lemma locked_desc h d st : idle h d st -> nth_error (g_server_states (locked h st)) h = Some (set_desc_lock true d).
Proof. intros [E L]. unfold locked. destruct st. cbn in *. rewrite E. cbn. exact (nth_error_assigned _ _ _ _ E). Qed.

Lemma served_locked h st : served st -> served (locked h st).
Proof.
  intros [Hq Hi Hr]. split; [|now apply lock_enclave_inv|now apply lock_ready].
  unfold locked, quiet in *. destruct st. cbn in *. now destruct (nth_error _ h).
Qed.

Lemma with_server_run {A} (fail : sgx_status_t -> A) handle body st d : ready st -> 0 <= handle < 256 ->
  idle (Z.to_nat handle) d st ->
  run (with_server fail handle body) st =
  match run (body (Z.to_nat handle)) (locked (Z.to_nat handle) st) with
  | Done r st' => Done r (unlocked (Z.to_nat handle) st')
  | Undefined => Undefined
  | Blocked => Blocked
  end.
Proof.
  intros Hr Hh [E L]. unfold with_server. rewrite run_get, Hr. cbn [negb].
  rewrite (proj2 (Z.leb_gt _ _)) by (unfold SGXSD_ENCLAVE_MAX_SERVERS; lia). rewrite run_bind.
  cbn [run sgxsd_spin_lock lock]. replace (lock_free (ServerLock (Z.to_nat handle)) st) with true
    by (cbn [lock_free enclave_locks enclave_lock_free]; rewrite E, L; reflexivity).
  rewrite run_bind. fold (locked (Z.to_nat handle) st). now destruct (run (body _) _).
Qed.

Lemma run_load_desc {B} h d (k : @sgxsd_server_state_desc_t S -> P B) st : nth_error (g_server_states st) h = Some d ->
  run (let* d := load_desc h in k d) st = run (k d) st.
Proof. intros E. unfold load_desc. rewrite run_act. now rewrite E. Qed.

(** A call that finds its request: what the server's handler is given, and what follows it. *)
Definition serve (hdr : sgxsd_msg_header_t) (args : option CallArgs) (h : nat) (size : Z) (from : sgxsd_msg_from_t) (buf : list Z)
  : P (sgx_status_t * option (list Z) * call_frame) :=
  let* d := load_desc h in
  let* (res, data, state) := interp plat stk hdr
    (sgxsd_enclave_server_handle_call serv args {| mb_data := Some buf; mb_size := u32 size |} from (p_state d)) in
  store_desc h (set_p_state state) ;;
  let* data := lift (store data (zeros (u32 size))) in
  Ret (res, data, wiped_frame).

Lemma call_locked_run hdr fr args header data size tag h d st : served st -> nth_error (g_server_states st) h = Some d ->
  valid d = true -> header_ok header -> region (u32 size) (Some data) -> size <> 0 ->
  run (sgxsd_enclave_server_call_locked plat serv stk hdr fr args (Some header) (Some data) size tag h) st =
  match find_request st (mh_pending_request_id header) with
  | inr res => Done (res, Some data, fr) st
  | inl e =>
      let st' := set_slot (id_val e) zero_pending_request st in
      match open_message (hkdf_prk e) header data size with
      | Some msg => run (serve hdr args h size (sender (hkdf_prk e) tag) (splice data 0 msg)) st'
      | None => Done (SGX_ERROR_MAC_MISMATCH, Some (splice data 0 (zeros (u32 size))), wiped_frame) st'
      end
  end.
Proof.
  intros [Hq Hi Hr] Ed Hv Hh Hd Hz. unfold sgxsd_enclave_server_call_locked. rewrite (run_load_desc h d) by exact Ed.
  rewrite Hv, (proj2 (Z.eqb_neq _ _) Hz). cbn [negb]. rewrite run_bind, remove_pending_run by (trivial; apply Hh).
  unfold find_request. destruct (request_id st _) as [id|]; [|now destruct fr].
  destruct (live st id) as [prk|]; [|now destruct fr]. cbn [success negb]. cbv zeta.
  rewrite run_bind, decrypt_message_run by assumption. cbn [numbered hkdf_prk id_val]. destruct (open_message prk header data size) as [msg|]; reflexivity.
Qed.

(** ** Negotiation *)

(** HKDF-Extract of the two shared secrets, with the hash of the three public keys as the salt. *)
Definition request_key (client ephemeral static ephemeral_dh static_dh : list Z) : list Z :=
  hmac_sha256 (sha256 (client ++ ephemeral ++ static)) (ephemeral_dh ++ static_dh).

(** The key the enclave derives from the bytes it drew, its current key and the client's. *)
Definition agreed_key (st : enclave) (x client : list Z) : list Z :=
  request_key client (pubkey (keypair_of x)) (pubkey (g_dh_keypair st))
    (Curve25519.curve25519_donna (privkey (keypair_of x)) client)
    (Curve25519.curve25519_donna (privkey (g_dh_keypair st)) client).

Lemma request_prk_spec c e s ed sd : snd (request_prk stk c e s ed sd) = request_key c e s ed sd.
Proof.
  unfold request_prk, request_key. cbn [snd]. rewrite (hmac_spec stk Hstk), (sha256_spec stk Hstk). cbn [firstn concat].
  now rewrite !app_nil_r.
Qed.

(** What the response contains, and what the stack frame holds afterwards. *)
Definition response_for (st : enclave) (x prk : list Z) (pid : sgxsd_pending_request_id_t) : sgxsd_request_negotiation_response_t :=
  let '(c, t) := aes_gcm_seal (server_key prk) (zeros 12) [] (pid_bytes pid) in
  {| server_static_pubkey := pubkey (g_dh_keypair st); server_ephemeral_pubkey := pubkey (keypair_of x);
     enc_pid_data := c; enc_pid_iv := zeros 12; enc_pid_mac := t |}.

Definition erased_frame (st : enclave) (x prk : list Z) (pid : sgxsd_pending_request_id_t) : negotiate_frame :=
  {| nf_ephemeral_keypair := wipe_privkey (keypair_of x); nf_static_keypair := wipe_privkey (g_dh_keypair st);
     nf_ephemeral_dh_key := zeros 32; nf_static_dh_key := zeros 32; nf_hkdf_salt := zeros 32; nf_hkdf_prk := prk;
     nf_server_aes_gcm_key := zeros 32; nf_pending_request_id := pid |}.

Lemma draw_frame st res x st' : draw st = (res, x, st') ->
  g_dh_keypair st' = g_dh_keypair st /\ next_id st' = next_id st /\
  g_pending_request_id_key st' = g_pending_request_id_key st /\ g_server_states st' = g_server_states st.
Proof.
  unfold draw. destruct (sgx_read_rand plat 32 (world st)) as [[r bytes] w].
  destruct (success r); intros [= _ _ <-]; now destruct st.
Qed.

Lemma draw_inv st res x st' : enclave_inv st -> draw st = (res, x, st') -> enclave_inv st' /\ g_node_initialized st' = g_node_initialized st.
Proof.
  intros Hi. unfold draw. destruct (sgx_read_rand plat 32 (world st)) as [[r bytes] w].
  pose proof (proj1 (set_world_ok st w Hi)) as Hw.
  destruct (success r); intros [= _ _ <-]; (split; [|now destruct st]); [apply set_rand_ok; [exact Hw|apply hkdf_T_shape]|exact Hw].
Qed.

Lemma draw_key st x st' : draw st = (SGX_SUCCESS, x, st') -> key_ok x.
Proof.
  unfold draw. destruct (sgx_read_rand plat 32 (world st)) as [[r bytes] w].
  destruct r; cbn [success]; intros [= <- _]. apply hkdf_T_shape.
Qed.

Lemma draw_served st res x st' : served st -> draw st = (res, x, st') -> served st'.
Proof.
  intros [Hq Hi Hr] E. destruct (draw_inv _ _ _ _ Hi E) as [Hi' En]. split; [|exact Hi'|unfold ready; now rewrite En].
  unfold quiet. now rewrite (draw_locks _ _ _ _ E).
Qed.

Lemma sealed_id_ok st id iv : enclave_inv st -> blob 12 iv -> pid_ok (sealed_id st id iv).
Proof.
  intros Hi Hiv. unfold sealed_id.
  pose proof (seal_length (Aead := aes_gcm_aead) (g_pending_request_id_key st) iv [] (br_enc64le id) (inv_key st Hi) (proj2 Hiv)) as L.
  pose proof (seal_bytes (Aead := aes_gcm_aead) (g_pending_request_id_key st) iv [] (br_enc64le id) (inv_key st Hi) (proj2 Hiv) (proj2 (enc64le_blob id))) as B.
  pose proof (seal_tag (Aead := aes_gcm_aead) (g_pending_request_id_key st) iv [] (br_enc64le id) (inv_key st Hi) (proj2 Hiv)) as T.
  rewrite (proj1 (enc64le_blob id)) in L. destruct (aes_gcm_seal _ iv [] (br_enc64le id)) as [c t]. now split.
Qed.

Lemma negotiate_run fr client response st x st1 iv w : served st -> frame_ok fr -> key_ok client -> response_ok response ->
  draw st = (SGX_SUCCESS, x, st1) -> sgx_read_rand plat 12 (world st1) = (SGX_SUCCESS, iv, w) ->
  let prk := agreed_key st x client in
  let pid := sealed_id st (next_id st) iv in
  run (sgxsd_enclave_negotiate_request plat stk fr (Some client) (Some response)) st =
  Done (SGX_SUCCESS, Some (response_for st x prk pid), erased_frame st x (zeros 32) pid) (set_world w (added prk st1)).
Proof.
  intros Hs [He Hp] Hc Hresp Ed Er prk pid. destruct (draw_served _ _ _ _ Hs Ed) as [Hq1 Hi1 Hr1] eqn:Es1.
  destruct (draw_frame _ _ _ _ Ed) as (Edh & Eid & Ekey & _).
  unfold sgxsd_enclave_negotiate_request. rewrite run_get, (sv_ready st Hs). cbn [negb].
  rewrite run_bind, generate_run, Ed by (apply quiet_draw, Hs). cbn [success negb].
  unfold get at 1. rewrite run_section by trivial. rewrite unlocked_same by trivial.
  replace (g_dh_keypair (lock_set DhKeypairLock true st1)) with (g_dh_keypair st) by (rewrite <- Edh; now destruct st1).
  destruct (request_prk stk client _ _ _ _) as [salt k] eqn:Ek.
  replace k with prk by (unfold prk, agreed_key; rewrite <- request_prk_spec; cbn [wipe_privkey pubkey] in Ek; rewrite Ek; reflexivity).
  clear Ek. cbv zeta. rewrite derive_keys. cbn [snd option_map]. rewrite run_lift, run_bind, add_pending_run; try assumption;
    [|unfold prk, agreed_key, request_key; apply hmac_shape]. rewrite Er. cbn [success negb].
  replace (sealed_id st1 (next_id st1) iv) with pid by (unfold pid, sealed_id; now rewrite Ekey, Eid).
  pose proof (Hplat 12 (world st1) ltac:(lia)) as Hiv. rewrite Er in Hiv. cbn [fst snd] in Hiv.
  match goal with |- context [lift (sgxsd_aes_gcm_encrypt _ _ _ _ (Some (enc_pid_data ?r)) _ _ _ _)] => set (resp := r) end.
  assert (Hr : response_ok resp).
  { destruct Hresp as (H1 & H2 & H3 & H4 & H5). refine (conj H1 (conj H2 (conj H3 (conj _ H5)))). now apply (zeros_blob 12). }
  destruct (response_encrypted stk Hstk (server_key prk) pid resp) as (c & t & E & Esl & _); try assumption;
    [apply hkdf_T_shape|apply sealed_id_ok; [apply Hs|exact Hiv]|].
  rewrite run_lift, E, !run_lift. cbn [success negb run]. unfold response_for.
  change (zeros 12) with (enc_pid_iv resp). now rewrite <- Esl.
Qed.

Lemma added_world_frame prk (st : enclave) w : g_server_states (set_world w (added prk st)) = g_server_states st /\
  g_pending_request_id_key (set_world w (added prk st)) = g_pending_request_id_key st.
Proof. unfold added, set_slot. destruct st. cbn. now destruct g_pending_requests0. Qed.

Lemma added_found st st1 prk w iv : served st1 -> next_id st1 = next_id st ->
  g_pending_request_id_key st1 = g_pending_request_id_key st -> blob 12 iv ->
  find_request (set_world w (added prk st1)) (sealed_id st (next_id st) iv) = inl (numbered (next_id st) prk).
Proof.
  intros Hs En Ek Hiv. assert (Hn : in_range 64 (next_id st)) by (now apply wrap_range).
  assert (E : request_id (set_world w (added prk st1)) (sealed_id st (next_id st) iv) = Some (next_id st)).
  { unfold request_id. rewrite (proj2 (added_world_frame prk st1 w)), Ek. apply open_sealed_id; [|apply Hiv|exact Hn].
    rewrite <- Ek. apply (sv_inv st1 Hs). }
  unfold find_request. rewrite E, live_set_world, live_added by assumption. now rewrite En, Z.eqb_refl.
Qed.

Lemma negotiated_pid_opens st x prk pid : let r := response_for st x prk pid in
  aes_gcm_open (server_key prk) (enc_pid_iv r) [] (enc_pid_data r) (enc_pid_mac r) = Some (pid_bytes pid).
Proof.
  cbv zeta. unfold response_for. pose proof (zeros_blob 12 ltac:(lia)) as [_ Bz].
  pose proof (open_seal (Aead := aes_gcm_aead) (server_key prk) (zeros 12) [] (pid_bytes pid) (hkdf_T_shape _ _) Bz) as H.
  now destruct (aes_gcm_seal (server_key prk) (zeros 12) [] (pid_bytes pid)) as [c t].
Qed.

(** The message a client seals for a request. *)
Definition seal_message (prk iv msg : list Z) (pid : sgxsd_pending_request_id_t) : sgxsd_msg_header_t * list Z :=
  let '(c, t) := aes_gcm_seal (client_key prk) iv (pid_bytes pid) msg in
  ({| mh_iv := iv; mh_mac := t; mh_pending_request_id := pid |}, c).

Lemma seal_message_ok prk iv msg pid : blob 12 iv -> bytes_ok msg -> pid_ok pid ->
  header_ok (fst (seal_message prk iv msg pid)) /\ length (snd (seal_message prk iv msg pid)) = length msg /\
  bytes_ok (snd (seal_message prk iv msg pid)).
Proof.
  intros Hiv Bm Hp. unfold seal_message.
  pose proof (seal_length (Aead := aes_gcm_aead) (client_key prk) iv (pid_bytes pid) msg (hkdf_T_shape _ _) (proj2 Hiv)) as L.
  pose proof (seal_bytes (Aead := aes_gcm_aead) (client_key prk) iv (pid_bytes pid) msg (hkdf_T_shape _ _) (proj2 Hiv) Bm) as B.
  pose proof (seal_tag (Aead := aes_gcm_aead) (client_key prk) iv (pid_bytes pid) msg (hkdf_T_shape _ _) (proj2 Hiv)) as T.
  destruct (aes_gcm_seal _ iv (pid_bytes pid) msg) as [c t]. cbn [fst snd] in *. split; [|now split]. now split.
Qed.

Lemma open_sealed_message prk iv msg pid size : blob 12 iv -> u32 size = Z.of_nat (length msg) ->
  open_message prk (fst (seal_message prk iv msg pid)) (snd (seal_message prk iv msg pid)) size = Some msg.
Proof.
  intros Hiv Es. unfold open_message, seal_message.
  pose proof (seal_length (Aead := aes_gcm_aead) (client_key prk) iv (pid_bytes pid) msg (hkdf_T_shape _ _) (proj2 Hiv)) as L.
  pose proof (open_seal (Aead := aes_gcm_aead) (client_key prk) iv (pid_bytes pid) msg (hkdf_T_shape _ _) (proj2 Hiv)) as H.
  destruct (aes_gcm_seal _ iv (pid_bytes pid) msg) as [c t]. cbn [fst snd mh_iv mh_mac mh_pending_request_id] in *.
  rewrite Es, Nat2Z.id, firstn_all2 by lia. exact H.
Qed.

Lemma find_request_locked h st pid : find_request (locked h st) pid = find_request st pid.
Proof. unfold find_request, request_id, live, load_entry, locked. destruct st. cbn. now destruct (nth_error _ h). Qed.

Lemma server_call_run hdr fr args header data size tag handle d st (Hs : served st) (Hh : 0 <= handle < 256)
  (Hd : idle (Z.to_nat handle) d st) (Hv : valid d = true) (Hhd : header_ok header)
  (Hr : region (u32 size) (Some data)) (Hz : size <> 0) :
  run (sgxsd_enclave_server_call plat serv stk hdr fr args (Some header) (Some data) size tag handle) st =
  match find_request st (mh_pending_request_id header) with
  | inr res => Done (res, Some data, fr) st
  | inl e =>
      match open_message (hkdf_prk e) header data size with
      | None => Done (SGX_ERROR_MAC_MISMATCH, Some (splice data 0 (zeros (u32 size))), wiped_frame)
                  (set_slot (id_val e) zero_pending_request st)
      | Some msg =>
          match run (serve hdr args (Z.to_nat handle) size (sender (hkdf_prk e) tag) (splice data 0 msg))
                    (set_slot (id_val e) zero_pending_request (locked (Z.to_nat handle) st)) with
          | Done r st' => Done r (unlocked (Z.to_nat handle) st')
          | Undefined => Undefined
          | Blocked => Blocked
          end
      end
  end.
Proof.
  unfold sgxsd_enclave_server_call. rewrite (with_server_run _ _ _ st d) by (trivial; apply Hs).
  rewrite (call_locked_run _ _ _ _ _ _ _ _ (set_desc_lock true d)); trivial; [|now apply served_locked|now apply locked_desc].
  rewrite find_request_locked. destruct (find_request st (mh_pending_request_id header)) as [e|res].
  - cbv zeta. destruct (open_message (hkdf_prk e) header data size); [reflexivity|].
    now rewrite (unlocked_slot _ d) by exact Hd.
  - now rewrite (unlocked_locked _ d) by exact Hd.
Qed.

(** C16. Every branch of a call to a running server: an id the enclave did not issue, or one used
    before, is refused and changes nothing; otherwise the request is used up, and a message that
    does not authenticate is erased without reaching the server, while one that does is what the
    server's handler runs on, with the key for the reply. *)
Theorem server_call_spec hdr fr args header data size tag handle d st (Hs : served st) (Hh : 0 <= handle < 256)
  (Hd : idle (Z.to_nat handle) d st) (Hv : valid d = true) (Hhd : header_ok header)
  (Hr : region (u32 size) (Some data)) (Hz : size <> 0) :
  run (sgxsd_enclave_server_call plat serv stk hdr fr args (Some header) (Some data) size tag handle) st =
  match find_request st (mh_pending_request_id header) with
  | inr res => Done (res, Some data, fr) st
  | inl e =>
      match open_message (hkdf_prk e) header data size with
      | None => Done (SGX_ERROR_MAC_MISMATCH, Some (splice data 0 (zeros (u32 size))), wiped_frame)
                  (set_slot (id_val e) zero_pending_request st)
      | Some msg =>
          match run (serve hdr args (Z.to_nat handle) size (sender (hkdf_prk e) tag) (splice data 0 msg))
                    (set_slot (id_val e) zero_pending_request (locked (Z.to_nat handle) st)) with
          | Done r st' => Done r (unlocked (Z.to_nat handle) st')
          | Undefined => Undefined
          | Blocked => Blocked
          end
      end
  end.
Proof. now apply (server_call_run hdr fr args header data size tag handle d). Qed.

(** C7. The exchange as a whole: a client that negotiates obtains a response from which the
    server key of the agreed key opens an encrypted id; when it seals a message for that id with
    the client key, the server's handler runs on exactly that message, with the server key for
    its reply; and a second call with the same id is refused. *)
Theorem negotiate_then_call fr client response st x st1 id_iv w hdr cfr args iv msg tag handle d (Hs : served st)
  (Hfr : frame_ok fr) (Hc : key_ok client) (Hresp : response_ok response) (Ed : draw st = (SGX_SUCCESS, x, st1))
  (Er : sgx_read_rand plat 12 (world st1) = (SGX_SUCCESS, id_iv, w)) (Hh : 0 <= handle < 256)
  (Hd : idle (Z.to_nat handle) d st) (Hv : valid d = true) (Hiv : blob 12 iv) (Bm : bytes_ok msg)
  (Hm : 0 < Z.of_nat (length msg) < 2 ^ 32) (Hn : next_id st <> 0) :
  let prk := agreed_key st x client in
  exists r fr' pid st2,
    run (sgxsd_enclave_negotiate_request plat stk fr (Some client) (Some response)) st = Done (SGX_SUCCESS, Some r, fr') st2 /\
    server_static_pubkey r = pubkey (g_dh_keypair st) /\ server_ephemeral_pubkey r = pubkey (keypair_of x) /\
    aes_gcm_open (server_key prk) (enc_pid_iv r) [] (enc_pid_data r) (enc_pid_mac r) = Some (pid_bytes pid) /\
    let '(header, data) := seal_message prk iv msg pid in
    let st3 := set_slot (next_id st) zero_pending_request (locked (Z.to_nat handle) st2) in
    run (sgxsd_enclave_server_call plat serv stk hdr cfr args (Some header) (Some data) (Z.of_nat (length msg)) tag handle) st2 =
    match run (serve hdr args (Z.to_nat handle) (Z.of_nat (length msg)) (sender prk tag) msg) st3 with
    | Done res st' => Done res (unlocked (Z.to_nat handle) st')
    | Undefined => Undefined
    | Blocked => Blocked
    end /\ find_request st3 pid = inr SGXSD_ERROR_PENDING_REQUEST_NOT_FOUND.
Proof.
  intros prk. pose proof (Hplat 12 (world st1) ltac:(lia)) as Hiv'. rewrite Er in Hiv'. cbn [fst snd] in Hiv'.
  set (pid := sealed_id st (next_id st) id_iv). set (st2 := set_world w (added prk st1)).
  assert (Hp : pid_ok pid) by (apply sealed_id_ok; [apply Hs|exact Hiv']).
  destruct (draw_frame _ _ _ _ Ed) as (Edh & Eid & Ekey & Esv).
  assert (Hprk : key_ok prk) by (apply hmac_shape). pose proof (draw_served _ _ _ _ Hs Ed) as Hs1.
  assert (Hs2 : served st2) by (now apply served_world, served_added).
  pose proof (added_found st st1 prk w id_iv Hs1 Eid Ekey Hiv') as Ef. fold pid st2 in Ef.
  exists (response_for st x prk pid), (erased_frame st x (zeros 32) pid), pid, st2.
  split; [now apply negotiate_run|]. split; [unfold response_for; now destruct (aes_gcm_seal _ _ _ _)|].
  split; [unfold response_for; now destruct (aes_gcm_seal _ _ _ _)|]. split; [apply negotiated_pid_opens|].
  destruct (seal_message_ok prk iv msg pid Hiv Bm Hp) as (Hhd & Ld & Bd).
  assert (Esz : u32 (Z.of_nat (length msg)) = Z.of_nat (length msg)) by (apply wrap_small; unfold in_range; lia).
  pose proof (open_sealed_message prk iv msg pid _ Hiv Esz) as Eo.
  assert (Epid : mh_pending_request_id (fst (seal_message prk iv msg pid)) = pid)
    by (unfold seal_message; now destruct (aes_gcm_seal _ _ _ _)).
  destruct (seal_message prk iv msg pid) as [header data]. cbn [fst snd] in *. cbv zeta. split.
  - rewrite (server_call_run hdr cfr args header data _ tag handle d st2); trivial; [|split|split; [lia|exact Bd]|lia].
    + rewrite Epid, Ef. cbn [numbered hkdf_prk id_val]. rewrite Eo, splice_all by congruence. reflexivity.
    + unfold st2. rewrite (proj1 (added_world_frame prk st1 w)), Esv. apply Hd.
    + apply Hd.
  - destruct (find_request_cases _ _ _ Ef) as [E1 E2]. cbn [numbered id_val hkdf_prk] in E1, E2.
    assert (Hni : in_range 64 (next_id st)) by (now apply wrap_range).
    pose proof (served_locked (Z.to_nat handle) st2 Hs2) as Hs3.
    assert (El : live (locked (Z.to_nat handle) st2) (next_id st) = Some prk)
      by (rewrite <- E2; unfold live, load_entry, locked; destruct st2; cbn; now destruct (nth_error _ (Z.to_nat handle))).
    assert (Ei : request_id (locked (Z.to_nat handle) st2) pid = Some (next_id st))
      by (rewrite <- E1; unfold request_id, locked; destruct st2; cbn; now destruct (nth_error _ (Z.to_nat handle))).
    unfold find_request. rewrite request_id_frame, Ei, removed_live, Z.eqb_refl; trivial; [rewrite El; discriminate|destruct Hni; lia].
Qed.

End Run.
End Protocol.
End SgxsdProtocol.
