(* ===== verification/SgxsdEntry.v ===== *)
(** The other entry points of the enclave, run alone: replies, initialisation, the rotation of
    the enclave's key, and the life of a server. *)
From S2P Require Import Prelude Codec Curve25519 SgxsdCrypto Threads Sgxsd SgxsdSafety SgxsdSystem SgxsdProtocol.
From Stdlib Require Import ZArith List Lia Bool.
Import Codec SgxsdCrypto Threads Sgxsd SgxsdSafety SgxsdSystem SgxsdProtocol.

Module SgxsdEntry.

#[local] Opaque Curve25519.curve25519_donna Curve25519.clamp sgxsd_enclave_sha256 sgxsd_enclave_hmac_sha256
  sgxsd_aes_gcm_run aes_gcm_seal aes_gcm_open hkdf_T hmac_sha256 sha256 sgxsd_enclave_ra_hkdf_round br_dec64le br_enc64le.

Section Entry.
Context {W S TargetInfo InitArgs CallArgs TermArgs : Type} {SS : ServerState S} {SA : ServerArgs InitArgs CallArgs TermArgs}.
Abbreviation enclave := (@enclave W S).
Abbreviation P A := (prog enclave lock_id A).
Context (plat : @platform W TargetInfo) (Hplat : platform_ok plat)
  (serv : @server W S InitArgs CallArgs TermArgs)
  (stk : stack) (Hstk : stack_ok stk).

(** * Replies *)

(** The initialisation vector of a reply: random, with one bit set. *)
Definition reply_iv (iv : list Z) : list Z := splice iv 0 [nth 0 iv 0 .| 1].

Lemma reply_iv_blob iv : blob 12 iv -> blob 12 (reply_iv iv).
Proof.
  intros [L B]. split; [unfold reply_iv; rewrite length_splice; cbn; lia|].
  apply Forall_splice; [exact B|]. constructor; [|constructor].
  destruct iv as [|b iv]; [discriminate|]. apply Forall_inv in B. apply lor_range; [lia|exact B|unfold in_range; lia].
Qed.

Lemma reply_iv_not_zero iv : blob 12 iv -> reply_iv iv <> zeros 12.
Proof.
  intros [L B] E. destruct iv as [|b iv]; [discriminate|]. apply (f_equal (fun l => nth 0 l 0)) in E.
  cbn in E. apply (f_equal (fun x => Z.testbit x 0)) in E. rewrite Z.lor_spec, orb_true_r in E. discriminate.
Qed.

(** Encryption of the first [size] bytes of a buffer in place. *)
Lemma encrypt_in_place key d size iv mac : key_ok key -> 0 <= size < 2 ^ 32 -> region size (Some d) -> blob 12 iv -> blob 16 mac ->
  sgxsd_aes_gcm_encrypt stk (Some key) (Some d) size (Some d) (Some iv) None 0 (Some mac)
  = Some (SGX_SUCCESS, Some (splice d 0 (fst (aes_gcm_seal key iv [] (firstn (Z.to_nat size) d)))),
          Some (snd (aes_gcm_seal key iv [] (firstn (Z.to_nat size) d)))).
Proof.
  intros [Lk Bk] Hs [Ld Bd] [Liv Biv] [Lm Bm].
  assert (Hv : view (Some d) size = Some (firstn (Z.to_nat size) d)).
  { unfold view. destruct (Z.eqb_spec size 0) as [->|]; [reflexivity|]. apply load_Some. lia. }
  rewrite (encrypt_spec stk _ _ _ _ _ _ _ _ key iv [] (firstn (Z.to_nat size) d) Hstk).
  2: { split; try assumption; try constructor; try (apply load_all; rewrite ?Lk, ?Liv, ?Lm; reflexivity).
       - now apply Forall_firstn.
       - eexists. exact Hv.
       - exists mac. apply load_all. now rewrite Lm. }
  destruct (seal_tag (Aead := aes_gcm_aead) key iv [] (firstn (Z.to_nat size) d) (conj Lk Bk) Biv) as [Lt Bt].
  unfold write. cbn [option_map]. now rewrite (splice_all mac) by congruence.
Qed.

(** A reply leaves the enclave encrypted under the request's server key, with an
    initialisation vector that is never the one the negotiation used under that key; what the
    untrusted side is given opens to the first [size] bytes of the buffer; the buffer and the
    request are erased whether or not the untrusted side accepts the reply. *)
Theorem server_reply_spec hdr d size from st iv w (Hm : blob 16 (mh_mac hdr)) (Hs : 0 <= size < 2 ^ 32)
  (Hd : region size (Some d)) (Hf : from_ok from) (Hv : from_valid from = true)
  (Er : sgx_read_rand plat 12 (world st) = (SGX_SUCCESS, iv, w)) :
  exists c t,
    run (sgxsd_enclave_server_reply (S := S) plat stk hdr {| mb_data := Some d; mb_size := size |} (Some from)) st =
    (let '(ocall_res, reply_res, w') :=
       sgxsd_ocall_reply plat (Some {| mh_iv := reply_iv iv; mh_mac := t; mh_pending_request_id := mh_pending_request_id hdr |})
         (Some (splice d 0 c)) size (from_tag from) w in
     Done (if success ocall_res then reply_res else ocall_res, Some (splice d 0 (zeros size)), Some zero_from) (set_world w' st)) /\
    aes_gcm_open (from_server_key from) (reply_iv iv) [] c t = Some (firstn (Z.to_nat size) d) /\
    length c = Z.to_nat size /\ reply_iv iv <> zeros 12.
Proof.
  pose proof (Hplat 12 (world st) ltac:(lia)) as Hiv. rewrite Er in Hiv. cbn [fst snd] in Hiv.
  pose proof (reply_iv_blob iv Hiv) as Hri.
  set (cs := aes_gcm_seal (from_server_key from) (reply_iv iv) [] (firstn (Z.to_nat size) d)).
  exists (fst cs), (snd cs).
  pose proof (seal_length (Aead := aes_gcm_aead) (from_server_key from) (reply_iv iv) [] (firstn (Z.to_nat size) d) Hf (proj2 Hri)) as Lc.
  fold cs in Lc. rewrite length_firstn in Lc. destruct Hd as [Ld Bd] eqn:Ed. split; [|split; [|split; [lia|now apply reply_iv_not_zero]]].
  - unfold sgxsd_enclave_server_reply, sgxsd_enclave_server_reply_noerase. cbn [mb_data mb_size is_null andb]. rewrite Hv. cbn [negb].
    rewrite !run_bind, call_read_rand_run. change SGXSD_AES_GCM_IV_SIZE with 12. rewrite Er. cbn [success negb].
    fold (reply_iv iv). rewrite encrypt_in_place, !run_lift by assumption. cbn [success negb]. fold cs. unfold call_ocall_reply. rewrite run_act.
    replace (world (set_world w st)) with w by (now destruct st).
    destruct (sgxsd_ocall_reply plat _ _ size (from_tag from) w) as [[r1 r2] w']. cbn [run is_null].
    rewrite run_lift. unfold store. destruct (zeros_blob size) as [Lz _]; [lia|].
    rewrite (proj2 (Nat.leb_le _ _)) by (rewrite length_splice; lia). cbn [run option_map].
    fold (write (Some d) (fst cs)). replace (set_world w' (set_world w st)) with (set_world w' st) by (now destruct st).
    do 4 f_equal. pose proof (write_write (Some d) (fst cs) (zeros size) ltac:(lia)) as E. injection E as E. exact E.
  - exact (open_seal (Aead := aes_gcm_aead) _ _ _ _ Hf (proj2 Hri)).
Qed.

(** * Before and after initialisation *)

(** Until the node is initialised every other entry point is refused with
    SGX_ERROR_INVALID_STATE, whatever its arguments, and changes nothing. *)
Theorem uninitialised_refused c (st : enclave) (Hu : g_node_initialized st = false) :
  match c with
  | NodeInit _ => True
  | _ => run (enter plat serv stk c) st = Done SGX_ERROR_INVALID_STATE st
  end.
Proof. destruct c; trivial; cbn; rewrite Hu; reflexivity. Qed.

(** The state after a successful initialisation: two keypairs, the key of the request ids, an
    empty table. *)
Definition initialised (x1 x2 key : list Z) (order : Z) (w : W) (st : enclave) : enclave :=
  set_node_initialized true (set_pending_requests (Some (repeat zero_pending_request (Z.to_nat (2 ^ order))))
    (set_table_order order (set_id_key key (set_new_dh_keypair (keypair_of x2) (set_dh_keypair (keypair_of x1) (set_world w st)))))).

Lemma run_generate_into {B} sel upd (k : sgx_status_t -> P B) st x st' : can_draw st -> draw plat st = (SGX_SUCCESS, x, st') ->
  run (let* res := generate_into plat stk sel upd in k res) st = run (k SGX_SUCCESS) (upd (keypair_of x) st').
Proof.
  intros Hq E. rewrite run_bind. unfold generate_into. rewrite run_get, run_bind, generate_run, E by assumption. reflexivity.
Qed.

Lemma set_dh_draw kp (st : enclave) : draw plat (set_dh_keypair kp st) = (let '(r, x, st') := draw plat st in (r, x, set_dh_keypair kp st')).
Proof.
  unfold draw. replace (world (set_dh_keypair kp st)) with (world st) by (now destruct st).
  destruct (sgx_read_rand plat 32 (world st)) as [[r b] w]. destruct (success r); now destruct st.
Qed.

Lemma node_init_locked_run order st x1 st1 x2 st2 key w w' : 0 <= order <= 63 -> can_draw st -> g_node_initialized st = false ->
  (forall a n, sgx_is_outside_enclave plat a n = 1) ->
  draw plat st = (SGX_SUCCESS, x1, st1) -> draw plat st1 = (SGX_SUCCESS, x2, st2) ->
  sgx_read_rand plat 32 (world st2) = (SGX_SUCCESS, key, w) -> calloc plat (2 ^ order) 40 w = (true, w') ->
  run (sgxsd_enclave_node_init_locked plat stk (Some order)) st = Done SGX_SUCCESS (initialised x1 x2 key order w' st2).
Proof.
  intros Ho Hq Hu Hout E1 E2 E3 E4. unfold sgxsd_enclave_node_init_locked. rewrite run_get, Hu, !Hout. cbn [Z.eqb Pos.eqb negb].
  rewrite (proj2 (Z.ltb_ge _ _)) by lia. rewrite (run_generate_into _ _ _ st x1 st1) by assumption. cbn [success negb].
  assert (Hq1 : can_draw st1) by (unfold can_draw; now rewrite (draw_locks plat _ _ _ _ E1)).
  rewrite (run_generate_into _ _ _ (set_dh_keypair (keypair_of x1) st1) x2 (set_dh_keypair (keypair_of x1) st2));
    [|now destruct st1|rewrite set_dh_draw, E2; reflexivity].
  cbn [success negb]. rewrite run_bind, call_read_rand_run. change SGXSD_AES_GCM_KEY_SIZE with 32.
  replace (world (set_new_dh_keypair _ (set_dh_keypair _ st2))) with (world st2) by (now destruct st2). rewrite E3. cbn [success negb].
  rewrite run_modify, run_modify, run_act.
  assert (Ec : u64 (1 << order) = 2 ^ order).
  { rewrite Z.shiftl_mul_pow2, Z.mul_1_l by lia. apply wrap_small. split; [apply Z.pow_nonneg; lia|apply Z.pow_lt_mono_r; lia]. }
  destruct st2. cbn -[Z.pow wrap Z.shiftl Z.to_nat]. rewrite Ec, E4. reflexivity.
Qed.

Lemma initialised_served x1 x2 key order w st : 0 <= order <= 63 -> quiet st -> enclave_inv st -> key_ok x1 -> key_ok x2 -> key_ok key ->
  served (initialised x1 x2 key order w st).
Proof.
  intros Ho Hq Hi Hx1 Hx2 Hk. assert (Hkp : forall x, key_ok x -> kp_ok (keypair_of x)).
  { intros x Hx. split; cbn [keypair_of privkey pubkey]; [now apply clamp_key|]. apply donna_key; [now apply clamp_key|apply basepoint_key]. }
  split; [now destruct st| |now destruct st]. destruct st. destruct Hi. cbn in *. split; cbn; auto.
  - apply Forall_repeat, zero_entry_ok.
  - intros _. split; [exact Ho|]. eexists. split; [reflexivity|]. rewrite repeat_length, Z2Nat.id; [reflexivity|apply Z.pow_nonneg; lia].
Qed.

(** Taking and releasing the initialisation lock around a draw. *)
Lemma draw_held b st : draw plat (lock_set NodeInitLock b st)
  = (let '(r, x, st') := draw plat st in (r, x, lock_set NodeInitLock b st') : sgx_status_t * list Z * enclave).
Proof.
  unfold draw. replace (world (lock_set NodeInitLock b st)) with (world st) by (now destruct st).
  destruct (sgx_read_rand plat 32 (world st)) as [[r bytes] w]. destruct (success r); now destruct st.
Qed.

(** Initialisation: with a table order of at most 63, when the random source and the
    allocator deliver, the node has two fresh keypairs, a fresh key for the request ids and an
    empty table of 2^order entries, and every later attempt to initialise it is refused and
    changes nothing. *)
Theorem node_init_spec order (st : enclave) x1 st1 x2 st2 key w w' (Ho : 0 <= order <= 63) (Hq : quiet st) (Hi : enclave_inv st)
  (Hu : g_node_initialized st = false) (Hout : forall a n, sgx_is_outside_enclave plat a n = 1)
  (E1 : draw plat st = (SGX_SUCCESS, x1, st1)) (E2 : draw plat st1 = (SGX_SUCCESS, x2, st2))
  (E3 : sgx_read_rand plat 32 (world st2) = (SGX_SUCCESS, key, w)) (E4 : calloc plat (2 ^ order) 40 w = (true, w')) :
  exists st', run (sgxsd_enclave_node_init plat stk (Some order)) st = Done SGX_SUCCESS st' /\ served st' /\
    g_dh_keypair st' = keypair_of x1 /\ g_new_dh_keypair st' = keypair_of x2 /\ g_pending_request_id_key st' = key /\
    g_pending_requests_table_order st' = order /\ table_size st' = Some (Z.to_nat (2 ^ order)) /\
    (forall i, 0 < i -> live st' i = None) /\
    forall args, run (sgxsd_enclave_node_init plat stk args) st' = Done SGX_ERROR_INVALID_STATE st'.
Proof.
  destruct (draw_inv plat _ _ _ _ Hi E1) as [Hi1 _]. destruct (draw_inv plat _ _ _ _ Hi1 E2) as [Hi2 _].
  assert (Hq2 : quiet st2) by (unfold quiet; now rewrite (draw_locks plat _ _ _ _ E2), (draw_locks plat _ _ _ _ E1)).
  pose proof (Hplat 32 (world st2) ltac:(lia)) as Hk. rewrite E3 in Hk. cbn [fst snd] in Hk.
  exists (initialised x1 x2 key order w' st2). split.
  { unfold sgxsd_enclave_node_init. rewrite run_bind. cbn [run sgxsd_spin_lock lock].
    replace (lock_free NodeInitLock st) with true by (cbn; now rewrite Hq). rewrite run_bind.
    rewrite (node_init_locked_run order _ x1 (lock_set NodeInitLock true st1) x2 (lock_set NodeInitLock true st2) key w w'); trivial.
    - cbn [bind run sgxsd_spin_unlock unlock]. destruct st2. unfold quiet in Hq2. cbn in Hq2. now subst.
    - destruct st. unfold quiet in Hq. cbn in Hq. now subst.
    - now destruct st.
    - now rewrite draw_held, E1.
    - now rewrite draw_held, E2.
    - now destruct st2. }
  pose proof (initialised_served x1 x2 key order w' st2 Ho Hq2 Hi2 (draw_key plat _ _ _ E1) (draw_key plat _ _ _ E2) Hk) as Hs.
  split; [exact Hs|]. repeat (split; [now destruct st2|]).
  split; [destruct st2; cbn -[Z.pow Z.to_nat]; now rewrite repeat_length|]. split.
  - intros i H0. unfold live, load_entry. destruct st2. cbn -[Z.pow Z.to_nat entry_index].
    destruct (nth_error _ (entry_index order i)) as [e|] eqn:E; [|reflexivity]. apply nth_error_In, repeat_spec in E. subst.
    now rewrite (proj2 (Z.eqb_neq _ _)) by (cbn; lia).
  - intros args. unfold sgxsd_enclave_node_init. rewrite run_bind. cbn [run sgxsd_spin_lock lock].
    replace (lock_free NodeInitLock _) with true by (cbn; now rewrite (sv_quiet _ Hs)).
    rewrite <- (unlocked_same NodeInitLock (initialised x1 x2 key order w' st2) (sv_quiet _ Hs) I) at 2. now destruct st2.
Qed.

(** * The enclave's key *)

Lemma splice_zeros l : length l = 32%nat -> splice (zeros 64) 0 l = l ++ zeros 32.
Proof. intros L. unfold splice. rewrite Nat.add_0_l, L. reflexivity. Qed.

(** Rotation of the static key: a report is made over a fresh public key, padded with zeros,
    while the old key stays in use and the private key is erased from the stack; confirming the
    quote then puts exactly the reported key in use. *)
Theorem report_key_rotation kp info report st x st1 rep w (Hs : served st)
  (Ed : draw plat st = (SGX_SUCCESS, x, st1))
  (Er : sgx_create_report plat info (pubkey (keypair_of x) ++ zeros 32) report (world st1) = (SGX_SUCCESS, rep, w)) :
  exists st2 st3 : enclave,
    run (sgxsd_enclave_get_next_report plat stk kp info (Some report)) st
    = Done (SGX_SUCCESS, Some rep, {| privkey := zeros 32; pubkey := zeros 32 |}) st2 /\
    g_dh_keypair st2 = g_dh_keypair st /\ g_new_dh_keypair st2 = keypair_of x /\
    run sgxsd_enclave_set_current_quote st2 = Done SGX_SUCCESS st3 /\ g_dh_keypair st3 = keypair_of x.
Proof.
  pose proof (draw_served plat _ _ _ _ Hs Ed) as [Hq1 Hi1 Hr1].
  destruct (draw_frame plat _ _ _ _ Ed) as (Edh & _ & _ & _).
  set (st2 := set_new_dh_keypair (keypair_of x) (set_world w st1)).
  exists st2, (set_dh_keypair (keypair_of x) st2).
  assert (Hpub : splice (zeros 64) 0 (pubkey (keypair_of x)) = pubkey (keypair_of x) ++ zeros 32).
  { apply splice_zeros, (donna_key (Curve25519.clamp x) BASEPOINT); [apply clamp_key, (draw_key plat _ _ _ Ed)|apply basepoint_key]. }
  split.
  { unfold sgxsd_enclave_get_next_report. rewrite run_get, (sv_ready st Hs). cbn [negb].
    rewrite run_bind, (generate_run plat stk Hstk), Ed by (apply quiet_draw, Hs). cbn [success negb]. rewrite Hpub, run_act, Er. cbn [success negb].
    unfold modify. rewrite run_section; [|now destruct st1|exact I]. cbn [run]. f_equal.
    unfold st2. destruct st1. unfold quiet in Hq1. cbn in Hq1. now subst. }
  split; [unfold st2; rewrite <- Edh; now destruct st1|]. split; [unfold st2; now destruct st1|]. split; [|now destruct st2].
  unfold sgxsd_enclave_set_current_quote. rewrite run_get. replace (g_node_initialized st2) with true by (rewrite <- Hr1; now destruct st1).
  cbn [negb]. unfold modify. rewrite run_section; [|now destruct st1|exact I]. cbn [run]. f_equal.
  unfold st2. destruct st1. unfold quiet in Hq1. cbn in Hq1. now subst.
Qed.

(** * The life of a server *)

Ltac pres_step := match goal with
  | |- preserves _ (Ret _) => exact I
  | |- preserves _ (bind (sgxsd_spin_lock _) _) => split; [now intros b []|]
  | |- preserves _ (bind (sgxsd_spin_unlock _) _) => split; [now intros b []|]
  | |- preserves _ (bind _ _) => apply preserves_bind; [|intros ?]
  | |- preserves _ (get _) => split; [now intros st b st' [= _ <-]|intros; exact I]
  | |- preserves _ (modify _) => split; [now intros [] b st' [= _ <-]|intros; exact I]
  | |- preserves _ (lift ?o) => split; [intros st b st'; destruct o; [now intros [= _ <-]|discriminate]|intros; exact I]
  | |- preserves _ (match ?x with _ => _ end) => destruct x
  end.
Ltac pres := repeat (cbv beta zeta; pres_step).

(** A callback acts on the world and on the random generator, not on the descriptors. *)
Lemma interp_preserves {A} hdr (p : server_prog A) : preserves (@g_server_states W S) (interp plat stk hdr p).
Proof.
  assert (Hrand : forall n, preserves (@g_server_states W S) (call_read_rand plat n)).
  { intros n. split; [|intros; exact I]. intros st b st'. destruct (sgx_read_rand plat n (world st)) as [[? ?] ?]. intros [= _ <-]. now destruct st. }
  assert (Hocall : forall h d s t, preserves (@g_server_states W S) (call_ocall_reply plat h d s t)).
  { intros h d s t. split; [|intros; exact I]. intros st b st'. destruct (sgxsd_ocall_reply plat h d s t (world st)) as [[? ?] ?].
    intros [= _ <-]. now destruct st. }
  induction p as [a| |B f k IH|x k IH|buf from k IH|from k IH]; cbn [interp]; pres; trivial.
  - now split.
  - split; [|intros; exact I]. intros st b st'. destruct (f (world st)). intros [= _ <-]. now destruct st.
  - unfold sgxsd_enclave_read_rand. pres. apply Hrand.
  - unfold sgxsd_enclave_server_reply, sgxsd_enclave_server_reply_noerase. pres; auto.
  - unfold sgxsd_enclave_server_noreply. pres. apply Hocall.
Qed.

Lemma run_store_desc {B} h d upd (k : unit -> P B) st : nth_error (g_server_states st) h = Some d ->
  run (bind (store_desc h upd) k) st = run (k tt) (set_server_states (assign (g_server_states st) h (upd d)) st).
Proof. intros E. unfold store_desc. rewrite run_act. now rewrite E. Qed.

(** What the server's initialisation leaves in the descriptor, if it wrote it. *)
Lemma run_store_stored {B} h d (stored : option (option S)) (p : P B) st : nth_error (g_server_states st) h = Some d ->
  run (match stored with Some state => store_desc h (set_p_state state) | None => Ret tt end ;; p) st
  = run p (set_server_states (assign (g_server_states st) h (set_p_state (match stored with Some state => state | None => p_state d end) d)) st).
Proof.
  intros E. destruct stored as [state|]; [now apply run_store_desc|]. cbn [bind]. f_equal. destruct d, st. unfold set_p_state. cbn in *.
  now rewrite assign_same.
Qed.

Lemma states_set v (st : enclave) : g_server_states (set_server_states v st) = v.
Proof. now destruct st. Qed.

Lemma set_states_twice u v (st : enclave) : set_server_states v (set_server_states u st) = set_server_states v st.
Proof. now destruct st. Qed.

(** The descriptors once [h] is [d] and unlocked. *)
Lemma unlocked_states h (d0 d : @sgxsd_server_state_desc_t S) (st : enclave) l : nth_error l h = Some d0 ->
  g_server_states (unlocked h (set_server_states (assign l h d) st)) = assign l h (set_desc_lock false d).
Proof.
  intros E. unfold unlocked. destruct st. cbn. rewrite (nth_error_assigned _ _ _ _ E). cbn. now rewrite assign_assign.
Qed.

Lemma locked_states h d (st : enclave) : idle h d st -> g_server_states (locked h st) = assign (g_server_states st) h (set_desc_lock true d).
Proof. intros [E L]. unfold locked. destruct st. cbn in *. now rewrite E. Qed.

Lemma other_desc {A} (l : list A) h h' x : h' <> h -> nth_error (assign l h x) h' = nth_error l h'.
Proof. intros Hn. rewrite nth_error_assign. now rewrite (proj2 (Nat.eqb_neq h h')) by congruence. Qed.

(** Starting a server: one that runs is left alone; otherwise the server's own initialisation
    decides: the server runs exactly when it succeeded, with the state it stored if it stored one,
    its status is the result, and no other server is touched. *)
Theorem server_start_spec hdr args handle d (st : enclave) (Hr : ready st) (Hh : 0 <= handle < 256)
  (Hd : idle (Z.to_nat handle) d st) :
  if valid d then run (sgxsd_enclave_server_start plat serv stk hdr args handle) st = Done SGX_ERROR_INVALID_STATE st
  else match run (interp plat stk hdr (sgxsd_enclave_server_init serv args)) (locked (Z.to_nat handle) st) with
       | Done (res, stored) st1 => exists st',
           run (sgxsd_enclave_server_start plat serv stk hdr args handle) st = Done res st' /\
           idle (Z.to_nat handle) {| valid := success res; desc_lock := false;
             p_state := match stored with Some state => state | None => p_state d end |} st' /\
           forall h, h <> Z.to_nat handle -> nth_error (g_server_states st') h = nth_error (g_server_states st) h
       | Undefined => run (sgxsd_enclave_server_start plat serv stk hdr args handle) st = Undefined
       | Blocked => run (sgxsd_enclave_server_start plat serv stk hdr args handle) st = Blocked
       end.
Proof.
  unfold sgxsd_enclave_server_start. rewrite (with_server_run _ _ _ st d) by assumption. set (h := Z.to_nat handle) in *.
  unfold sgxsd_enclave_server_start_locked. rewrite (run_load_desc _ (set_desc_lock true d)) by (now apply locked_desc).
  cbn [set_desc_lock valid p_state]. destruct (valid d) eqn:Hv; [cbn [run]; now rewrite (unlocked_locked _ d)|].
  rewrite run_bind. destruct (run (interp plat stk hdr _) (locked h st)) as [[res stored] st1| |] eqn:E; [|reflexivity..].
  apply (run_preserves _ _ _ _ _ (interp_preserves hdr _)) in E. rewrite (locked_states _ d) in E by exact Hd. destruct Hd as [Ed Ld].
  assert (E1 : nth_error (g_server_states st1) h = Some (set_desc_lock true d)) by (rewrite E; exact (nth_error_assigned _ _ _ _ Ed)).
  rewrite (run_store_stored _ _ _ _ _ E1). cbn [set_desc_lock p_state]. set (state := match stored with Some _ => _ | None => _ end).
  set (d1 := set_p_state state (set_desc_lock true d)).
  destruct (success res) eqn:Es.
  - rewrite (run_store_desc h d1) by (rewrite states_set; exact (nth_error_assigned _ _ _ _ E1)). destruct res; try discriminate.
    cbn [run]. eexists. split; [reflexivity|]. rewrite states_set, set_states_twice, assign_assign. unfold idle. rewrite (unlocked_states _ _ _ _ _ E1), E, assign_assign.
    split; [split; [exact (nth_error_assigned _ _ _ _ Ed)|reflexivity]|]. intros h' Hn. now apply other_desc.
  - cbn [run]. eexists. split; [reflexivity|]. unfold idle. rewrite (unlocked_states _ _ _ _ _ E1), E, assign_assign.
    split; [split; [|reflexivity]|intros h' Hn; now apply other_desc].
    rewrite (nth_error_assigned _ _ _ _ Ed). f_equal. unfold d1, set_desc_lock, set_p_state. cbn. now rewrite Hv.
Qed.

(** A running server is stopped by its termination, once the descriptor is cleared. *)
Definition stopped (h : nat) (st : enclave) : enclave := set_server_states (assign (g_server_states st) h zero_desc) st.

Lemma server_stop_run hdr args handle d (st : enclave) (Hr : ready st) (Hh : 0 <= handle < 256)
  (Hd : idle (Z.to_nat handle) d st) (Hv : valid d = true) :
  run (sgxsd_enclave_server_stop plat serv stk hdr args handle) st =
  run (interp plat stk hdr (sgxsd_enclave_server_terminate serv args (p_state d))) (stopped (Z.to_nat handle) st).
Proof.
  unfold sgxsd_enclave_server_stop. rewrite (with_server_run _ _ _ st d) by assumption. set (h := Z.to_nat handle) in *.
  unfold sgxsd_enclave_server_stop_locked. rewrite (run_load_desc _ (set_desc_lock true d)) by (now apply locked_desc).
  cbn [set_desc_lock valid p_state]. rewrite Hv. cbn [negb]. rewrite (run_store_desc _ _ _ _ _ (locked_desc _ _ _ Hd)). unfold stopped.
  replace (set_server_states (assign (g_server_states (locked h st)) h zero_desc) (locked h st))
    with (set_server_states (assign (g_server_states st) h zero_desc) st)
    by (rewrite (locked_states _ _ _ Hd), assign_assign; unfold locked; destruct st, Hd as [E L]; cbn in *; now rewrite E).
  destruct (run (interp plat stk hdr _) _) as [res st1| |] eqn:E; [|reflexivity..].
  apply (run_preserves _ _ _ _ _ (interp_preserves hdr _)) in E. rewrite states_set in E. destruct Hd as [Ed Ld].
  pose proof (nth_error_assigned _ _ _ zero_desc Ed) as E1. rewrite <- E in E1. f_equal.
  unfold unlocked. destruct st1. cbn in *. rewrite E1. cbn. now rewrite assign_same.
Qed.

(** Stopping a server: one that does not run is left alone; otherwise its descriptor is
    cleared before its termination runs on the old state, whose status is the result, and no
    other server is touched. *)
Theorem server_stop_spec hdr args handle d (st : enclave) (Hr : ready st) (Hh : 0 <= handle < 256)
  (Hd : idle (Z.to_nat handle) d st) :
  if valid d then
    match run (interp plat stk hdr (sgxsd_enclave_server_terminate serv args (p_state d))) (stopped (Z.to_nat handle) st) with
    | Done res st1 => run (sgxsd_enclave_server_stop plat serv stk hdr args handle) st = Done res st1 /\
        idle (Z.to_nat handle) zero_desc st1 /\
        forall h, h <> Z.to_nat handle -> nth_error (g_server_states st1) h = nth_error (g_server_states st) h
    | Undefined => run (sgxsd_enclave_server_stop plat serv stk hdr args handle) st = Undefined
    | Blocked => run (sgxsd_enclave_server_stop plat serv stk hdr args handle) st = Blocked
    end
  else run (sgxsd_enclave_server_stop plat serv stk hdr args handle) st = Done SGX_ERROR_INVALID_STATE st.
Proof.
  destruct (valid d) eqn:Hv.
  - rewrite (server_stop_run hdr args handle d st Hr Hh Hd Hv). set (h := Z.to_nat handle) in *.
    destruct (run (interp plat stk hdr _) _) as [res st1| |] eqn:E; [|reflexivity..]. split; [reflexivity|].
    apply (run_preserves _ _ _ _ _ (interp_preserves hdr _)) in E. unfold stopped in E. rewrite states_set in E. destruct Hd as [Ed Ld].
    pose proof (nth_error_assigned _ _ _ zero_desc Ed) as E1. rewrite <- E in E1.
    split; [now split|]. intros h' Hn. rewrite E. now apply other_desc.
  - unfold sgxsd_enclave_server_stop. rewrite (with_server_run _ _ _ st d) by assumption. unfold sgxsd_enclave_server_stop_locked.
    rewrite (run_load_desc _ (set_desc_lock true d)) by (now apply locked_desc). cbn [set_desc_lock valid]. rewrite Hv. cbn [negb run].
    now rewrite (unlocked_locked _ d).
Qed.

(** * Where the code falls short *)

(** The size check is made on 64 bits and the decryption on 32: a message whose size is a
    positive multiple of 2^32 passes the check that refuses size 0, and its handler is run on an
    empty message that the client sealed. *)
Theorem size_check_is_bypassed hdr fr args header data k tag handle d e st (Hs : served st) (Hh : 0 <= handle < 256)
  (Hd : idle (Z.to_nat handle) d st) (Hv : valid d = true) (Hhd : header_ok header) (Bd : bytes_ok data) (Hk : 0 < k)
  (Hf : find_request st (mh_pending_request_id header) = inl e)
  (Ho : aes_gcm_open (client_key (hkdf_prk e)) (mh_iv header) (pid_bytes (mh_pending_request_id header)) [] (mh_mac header) = Some []) :
  run (sgxsd_enclave_server_call plat serv stk hdr fr args (Some header) (Some data) 0 tag handle) st
  = Done (SGX_ERROR_INVALID_PARAMETER, Some data, fr) st /\
  run (sgxsd_enclave_server_call plat serv stk hdr fr args (Some header) (Some data) (k * 2 ^ 32) tag handle) st =
  match run (serve plat serv stk hdr args (Z.to_nat handle) 0 (sender (hkdf_prk e) tag) data)
            (set_slot (id_val e) zero_pending_request (locked (Z.to_nat handle) st)) with
  | Done r st' => Done r (unlocked (Z.to_nat handle) st')
  | Undefined => Undefined
  | Blocked => Blocked
  end.
Proof.
  split.
  - unfold sgxsd_enclave_server_call. rewrite (with_server_run _ _ _ st d) by (trivial; apply Hs).
    unfold sgxsd_enclave_server_call_locked. rewrite (run_load_desc _ (set_desc_lock true d)) by (now apply locked_desc).
    cbn [set_desc_lock valid]. rewrite Hv. cbn [negb Z.eqb run]. now rewrite (unlocked_locked _ d).
  - assert (E0 : u32 (k * 2 ^ 32) = 0) by (unfold wrap; apply Z.mod_mul; lia).
    rewrite (server_call_run plat serv stk Hstk _ _ _ _ _ _ _ _ d); trivial; [|rewrite E0; split; [lia|exact Bd]|lia].
    rewrite Hf. unfold open_message, serve. rewrite E0. cbn [Z.to_nat firstn]. rewrite Ho. reflexivity.
Qed.

(** When the random source fails after the key agreement, the negotiation returns its error
    without erasing the agreed key from its stack frame, unlike on success. *)
Theorem negotiate_failure_leaves_key fr client response (st : enclave) x st1 res iv w (Hs : served st) (Hfr : frame_ok fr)
  (Hc : key_ok client) (Ed : draw plat st = (SGX_SUCCESS, x, st1))
  (Er : sgx_read_rand plat 12 (world st1) = (res, iv, w)) (Hres : success res = false) :
  exists r fr' st', run (sgxsd_enclave_negotiate_request plat stk fr (Some client) (Some response)) st = Done (res, r, fr') st' /\
    nf_hkdf_prk fr' = agreed_key st x client.
Proof.
  destruct (draw_served plat _ _ _ _ Hs Ed) as [Hq1 Hi1 Hr1]. destruct (draw_frame plat _ _ _ _ Ed) as (Edh & _).
  unfold sgxsd_enclave_negotiate_request. rewrite run_get, (sv_ready st Hs). cbn [negb].
  rewrite run_bind, (generate_run plat stk Hstk), Ed by (apply quiet_draw, Hs). cbn [success negb].
  unfold get at 1. rewrite run_section, unlocked_same by trivial.
  replace (g_dh_keypair (lock_set DhKeypairLock true st1)) with (g_dh_keypair st) by (rewrite <- Edh; now destruct st1).
  destruct (request_prk stk client _ _ _ _) as [salt k] eqn:Ek.
  assert (k = agreed_key st x client) as ->
    by (unfold agreed_key; rewrite <- (request_prk_spec stk Hstk); cbn [wipe_privkey pubkey] in Ek; rewrite Ek; reflexivity).
  cbv zeta. rewrite (derive_keys stk Hstk). cbn [snd option_map]. rewrite run_lift, run_bind, (add_pending_run plat Hplat stk Hstk); trivial;
    [|apply Hfr|apply hmac_shape]. rewrite Er, Hres. cbn [negb]. rewrite Hres. cbn [negb run]. eexists _, _, _. split; reflexivity.
Qed.

End Entry.
End SgxsdEntry.
