(* ===== verification/Edge.v ===== *)
(** The bridge between the host and the enclave: the routines of src/enclave/include/cds_enclave_t.c
    that check and copy the arguments of a call before the entry point runs, the one that carries
    a reply out, and their counterparts on the host, src/enclave/include/cds_enclave_u.c. *)
From S2P Require Import Prelude Codec SgxsdCrypto Threads Sgxsd SgxsdSystem.
From Stdlib Require Import ZArith List Lia Bool.
Import Codec SgxsdCrypto Threads Sgxsd SgxsdSystem.

(** Memory outside the enclave, one byte per address. The world has it, and with it whatever
    else the host does to it while the enclave runs. *)
Class HostMemory (W : Type) := {
  peek : W -> Z -> Z;
  poke : W -> Z -> list Z -> W;
  peek_byte w a : in_range 8 (peek w a) }.

Module Edge.

(** * Layout of structures *)

(** A field is its size and its alignment. *)
Definition ctype : Type := Z * Z.
Definition t_status : ctype := (4, 4).
Definition t_ptr : ctype := (8, 8).
Definition t_u64 : ctype := (8, 8).
Definition t_target_info : ctype := (512, 8).

Definition align (o a : Z) : Z := (o + a - 1) / a * a.

Fixpoint offsets (o : Z) (fs : list ctype) : list Z :=
  match fs with
  | [] => [o]
  | (size, a) :: fs' => align o a :: offsets (align o a + size) fs'
  end.

Definition offsetof (fs : list ctype) (i : nat) : Z := nth i (offsets 0 fs) 0.
Definition sizeof (fs : list ctype) : Z :=
  align (nth (length fs) (offsets 0 fs) 0) (fold_left (fun m f => Z.max m (snd f)) fs 1).

Definition ms_sgxsd_enclave_node_init_t : list ctype := [t_status; t_ptr].
Definition ms_sgxsd_enclave_get_next_report_t : list ctype := [t_status; t_target_info; t_ptr].
Definition ms_sgxsd_enclave_set_current_quote_t : list ctype := [t_status].
Definition ms_sgxsd_enclave_negotiate_request_t : list ctype := [t_status; t_ptr; t_ptr].
Definition ms_sgxsd_enclave_server_start_t : list ctype := [t_status; t_ptr; t_u64].
Definition ms_sgxsd_enclave_server_call_t : list ctype := [t_status; t_ptr; t_ptr; t_ptr; t_u64; t_u64; t_u64].
Definition ms_sgxsd_enclave_server_stop_t : list ctype := [t_status; t_ptr; t_u64].
Definition ms_sgxsd_enclave_ratelimit_fingerprint_t : list ctype :=
  [t_status; t_ptr; t_ptr; t_ptr; t_u64; t_u64; t_ptr; t_u64].
Definition ms_sgxsd_ocall_reply_t : list ctype := [t_status; t_ptr; t_ptr; t_u64; t_u64].

(** The arguments of the servers, cds.h. *)
Record cds_encrypted_msg_t := { em_iv : list Z; em_mac : list Z; em_size : Z; em_data : Z }.
Record sgxsd_server_init_args_t := { max_query_phones : Z; max_ratelimit_states : Z }.
Record sgxsd_server_handle_call_args_t := {
  query_phone_count : Z;
  ratelimit_state_size : Z;
  ratelimit_state_uuid : list Z;
  ratelimit_state_data : Z;
  query : cds_encrypted_msg_t;
  query_commitment : list Z }.
Record sgxsd_server_terminate_args_t := { in_phones : Z; in_phone_count : Z; in_uuids : Z }.

(** [n] bytes from offset [o]. *)
Definition slice (o n : nat) (b : list Z) : list Z := firstn n (skipn o b).

(** Structures as the bytes of memory that hold them. *)
Definition get_init_args (b : list Z) : sgxsd_server_init_args_t :=
  {| max_query_phones := br_dec32le (slice 0 4 b); max_ratelimit_states := br_dec32le (slice 4 4 b) |}.
Definition get_call_args (b : list Z) : sgxsd_server_handle_call_args_t :=
  {| query_phone_count := br_dec32le (slice 0 4 b);
     ratelimit_state_size := br_dec32le (slice 4 4 b);
     ratelimit_state_uuid := slice 8 16 b;
     ratelimit_state_data := br_dec64le (slice 24 8 b);
     query := {| em_iv := slice 32 12 b; em_mac := slice 44 16 b; em_size := br_dec32le (slice 60 4 b);
                 em_data := br_dec64le (slice 64 8 b) |};
     query_commitment := slice 72 32 b |}.
Definition get_terminate_args (b : list Z) : sgxsd_server_terminate_args_t :=
  {| in_phones := br_dec64le (slice 0 8 b); in_phone_count := br_dec64le (slice 8 8 b); in_uuids := br_dec64le (slice 16 8 b) |}.
Definition get_pid (b : list Z) : sgxsd_pending_request_id_t :=
  {| pid_data := slice 0 8 b; pid_iv := slice 8 12 b; pid_mac := slice 20 16 b |}.
Definition get_header (b : list Z) : sgxsd_msg_header_t :=
  {| mh_iv := slice 0 12 b; mh_mac := slice 12 16 b; mh_pending_request_id := get_pid (slice 28 36 b) |}.
Definition header_bytes (h : sgxsd_msg_header_t) : list Z := mh_iv h ++ mh_mac h ++ pid_bytes (mh_pending_request_id h).
Definition get_response (b : list Z) : sgxsd_request_negotiation_response_t :=
  {| server_static_pubkey := slice 0 32 b; server_ephemeral_pubkey := slice 32 32 b; enc_pid_data := slice 64 36 b;
     enc_pid_iv := slice 100 12 b; enc_pid_mac := slice 112 16 b |}.
Definition response_bytes (r : sgxsd_request_negotiation_response_t) : list Z :=
  server_static_pubkey r ++ server_ephemeral_pubkey r ++ enc_pid_data r ++ enc_pid_iv r ++ enc_pid_mac r.

Definition sizeof_node_init_args : Z := 1.
Definition sizeof_report : Z := 432.
Definition sizeof_request : Z := 32.
Definition sizeof_response : Z := 128.
Definition sizeof_header : Z := 64.
Definition sizeof_init_args : Z := 8.
Definition sizeof_call_args : Z := 104.
Definition sizeof_terminate_args : Z := 24.

(** Status codes as the 32-bit values they are. *)
Definition status_code (s : sgx_status_t) : Z :=
  match s with
  | SGX_SUCCESS => 0
  | SGX_ERROR_UNEXPECTED => 1
  | SGX_ERROR_INVALID_PARAMETER => 2
  | SGX_ERROR_OUT_OF_MEMORY => 3
  | SGX_ERROR_INVALID_STATE => 5
  | SGX_ERROR_MAC_MISMATCH => 12289
  | SGXSD_ERROR_PENDING_REQUEST_NOT_FOUND => 65537
  | SGX_ERROR_OTHER code => code
  end.

Definition code_status (z : Z) : sgx_status_t :=
  match z with
  | 0 => SGX_SUCCESS
  | 1 => SGX_ERROR_UNEXPECTED
  | 2 => SGX_ERROR_INVALID_PARAMETER
  | 3 => SGX_ERROR_OUT_OF_MEMORY
  | 5 => SGX_ERROR_INVALID_STATE
  | 12289 => SGX_ERROR_MAC_MISMATCH
  | 65537 => SGXSD_ERROR_PENDING_REQUEST_NOT_FOUND
  | _ => SGX_ERROR_OTHER z
  end.

(** * The enclave's side *)

Section Trusted.
Context {W S : Type} {HM : HostMemory W}.
Abbreviation enclave := (@enclave W S).
Abbreviation P A := (prog enclave lock_id A).
Abbreviation edge_server := (@server W S sgxsd_server_init_args_t sgxsd_server_handle_call_args_t sgxsd_server_terminate_args_t).

(** What the SDK and the C library provide, as far as the bridge and the enclave use it: beside
    what [platform] lists, memory of the enclave, memory of the host's stack (NULL when there is
    none), and the call of the host's function number [i] on a structure. *)
Record sdk := {
  sdk_read_rand : Z -> W -> sgx_status_t * list Z * W;
  sdk_is_outside_enclave : Z -> Z -> Z;
  sdk_create_report : list Z -> list Z -> list Z -> W -> sgx_status_t * list Z * W;
  sdk_calloc : Z -> Z -> W -> bool * W;
  malloc : Z -> W -> bool * W;
  sgx_ocalloc : Z -> W -> Z * W;
  sgx_ocfree : W -> W;
  sgx_ocall : Z -> Z -> W -> sgx_status_t * W }.

(** [n] addresses from [p]. *)
Definition addresses (p n : Z) : list Z := map (fun i => p + Z.of_nat i) (seq 0 (Z.to_nat n)).
Definition peek_bytes (w : W) (p n : Z) : list Z := map (peek w) (addresses p n).

(** [memcpy_s] refuses a NULL pointer and a destination that is too small, unless there is
    nothing to copy. *)
Definition memcpy_s (dst_null : bool) (dst_size : Z) (src_null : bool) (count : Z) : bool :=
  negb (count =? 0) && (dst_null || src_null || (dst_size <? count)).

Section Ocall.
Context (lib : sdk).

(** An object of the enclave is within it. *)
Definition CHECK_ENCLAVE_POINTER (obj : option (list Z)) (n : Z) : bool :=
  match obj with Some b => n <=? Z.of_nat (length b) | None => true end.

(** The sum, and whether it has wrapped around. *)
Definition ADD_ASSIGN_OVERFLOW (a b : Z) : Z * bool := let a := u64 (a + b) in (a, a <? b).

(** [retval] is what [*retval] holds. The status, [*retval] and the world afterwards. *)
Definition sgxsd_ocall_reply (retval : sgx_status_t) (reply_header : option sgxsd_msg_header_t) (reply_data : option (list Z))
  (reply_data_size msg_tag : Z) (w : W) : sgx_status_t * sgx_status_t * W :=
  let ms_t := ms_sgxsd_ocall_reply_t in
  let len_reply_header := sizeof_header in
  let len_reply_data := reply_data_size in
  let ocalloc_size := sizeof ms_t in
  if negb (CHECK_ENCLAVE_POINTER (option_map header_bytes reply_header) len_reply_header) then (SGX_ERROR_INVALID_PARAMETER, retval, w)
  else if negb (CHECK_ENCLAVE_POINTER reply_data len_reply_data) then (SGX_ERROR_INVALID_PARAMETER, retval, w)
  else
    let (ocalloc_size, overflow) := ADD_ASSIGN_OVERFLOW ocalloc_size (if is_null reply_header then 0 else len_reply_header) in
    if overflow then (SGX_ERROR_INVALID_PARAMETER, retval, w)
    else
      let (ocalloc_size, overflow) := ADD_ASSIGN_OVERFLOW ocalloc_size (if is_null reply_data then 0 else len_reply_data) in
      if overflow then (SGX_ERROR_INVALID_PARAMETER, retval, w)
      else
        let (tmp, w) := sgx_ocalloc lib ocalloc_size w in
        if tmp =? 0 then (SGX_ERROR_UNEXPECTED, retval, sgx_ocfree lib w)
        else
          let ms := tmp in
          let tmp := tmp + sizeof ms_t in
          let ocalloc_size := ocalloc_size - sizeof ms_t in
          let put_ptr (i : nat) (v : Z) (w : W) := poke w (ms + offsetof ms_t i) (br_enc64le v) in
          let copied_header := match reply_header with
            | Some h =>
                let w := put_ptr 1%nat tmp w in
                if memcpy_s false ocalloc_size false len_reply_header then inr (SGX_ERROR_UNEXPECTED, w)
                else inl (tmp + len_reply_header, ocalloc_size - len_reply_header, poke w tmp (header_bytes h))
            | None => inl (tmp, ocalloc_size, put_ptr 1%nat 0 w)
            end in
          match copied_header with
          | inr (status, w) => (status, retval, sgx_ocfree lib w)
          | inl (tmp, ocalloc_size, w) =>
            let copied_data := match reply_data with
              | Some d =>
                  let w := put_ptr 2%nat tmp w in
                  if negb (len_reply_data mod 1 =? 0) then inr (SGX_ERROR_INVALID_PARAMETER, w)
                  else if memcpy_s false ocalloc_size false len_reply_data then inr (SGX_ERROR_UNEXPECTED, w)
                  else inl (poke w tmp (firstn (Z.to_nat len_reply_data) d))
              | None => inl (put_ptr 2%nat 0 w)
              end in
            match copied_data with
            | inr (status, w) => (status, retval, sgx_ocfree lib w)
            | inl w =>
              let w := put_ptr 3%nat reply_data_size w in
              let w := put_ptr 4%nat msg_tag w in
              let (status, w) := sgx_ocall lib 0 ms w in
              let retval := if success status then code_status (br_dec32le (peek_bytes w (ms + offsetof ms_t 0) 4)) else retval in
              (status, retval, sgx_ocfree lib w)
            end
          end.

(** The platform the entry points run on; [retval] as above. *)
Definition edge_platform (retval : sgx_status_t) : @platform W (list Z) := {|
  sgx_read_rand := sdk_read_rand lib;
  sgx_is_outside_enclave := sdk_is_outside_enclave lib;
  sgx_create_report := sdk_create_report lib;
  calloc := sdk_calloc lib;
  Sgxsd.sgxsd_ocall_reply := sgxsd_ocall_reply retval |}.

End Ocall.

Section Ecalls.
(** [base] and [limit]: the address range of the enclave. The last arguments are what the
    uninitialised locals of the entry points hold. *)
Context (lib : sdk) (base limit : Z) (serv : edge_server) (stk : stack) (retval : sgx_status_t) (hdr : sgxsd_msg_header_t)
  (kp : sgxsd_curve25519_key_pair_t) (nfr : negotiate_frame) (cfr : call_frame).
Let plat := edge_platform lib retval.

Definition outside_enclave (p n : Z) : bool := (0 <=? p) && (0 <=? n) && (p + n <=? 2 ^ 64) && ((p + n <=? base) || (limit <=? p)).

(** Reading and writing memory through a pointer the host gave: no defined behaviour within the
    enclave. *)
Definition host_load (p n : Z) : P (list Z) :=
  act (fun st => if outside_enclave p n then Some (peek_bytes (world st) p n, st) else None).
Definition host_store (p : Z) (l : list Z) : P unit :=
  act (fun st => if outside_enclave p (Z.of_nat (length l)) then Some (tt, set_world (poke (world st) p l) st) else None).

(** Fields of a structure at [pms], read when the code reads them. *)
Definition load_u64 (pms : Z) (ms_t : list ctype) (i : nat) : P Z :=
  let* b := host_load (pms + offsetof ms_t i) 8 in Ret (br_dec64le b).
Definition store_retval (pms : Z) (res : sgx_status_t) : P unit := host_store (pms + 0) (br_enc32le (status_code res)).

Definition CHECK_REF_POINTER (ptr siz : Z) (k : P sgx_status_t) : P sgx_status_t :=
  if (ptr =? 0) || (sdk_is_outside_enclave lib ptr siz =? 0) then Ret SGX_ERROR_INVALID_PARAMETER else k.
Definition CHECK_UNIQUE_POINTER (ptr siz : Z) (k : P sgx_status_t) : P sgx_status_t :=
  if negb (ptr =? 0) && (sdk_is_outside_enclave lib ptr siz =? 0) then Ret SGX_ERROR_INVALID_PARAMETER else k.

Definition call_malloc (n : Z) : P bool := act (fun st => let '(ok, w) := malloc lib n (world st) in Some (ok, set_world w st)).

(** The enclave's copy of an argument, NULL for NULL; or the status to return. *)
Definition copy_in (tmp len : Z) : P (option (list Z) + sgx_status_t) :=
  if negb (tmp =? 0) && negb (len =? 0) then
    let* ok := call_malloc len in
    if negb ok then Ret (inr SGX_ERROR_OUT_OF_MEMORY)
    else if memcpy_s false len (tmp =? 0) len then Ret (inr SGX_ERROR_UNEXPECTED)
    else let* b := host_load tmp len in Ret (inl (Some b))
  else Ret (inl None).

(** A zeroed object for a result. *)
Definition alloc_out (tmp len : Z) : P (option (list Z) + sgx_status_t) :=
  if negb (tmp =? 0) && negb (len =? 0) then
    let* ok := call_malloc len in
    if negb ok then Ret (inr SGX_ERROR_OUT_OF_MEMORY) else Ret (inl (Some (zeros len)))
  else Ret (inl None).

(** The check on the size of an array of elements of [elt] bytes. *)
Definition whole_elements (elt tmp len : Z) (k : P (option (list Z) + sgx_status_t)) : P (option (list Z) + sgx_status_t) :=
  if negb (tmp =? 0) && negb (len =? 0) && negb (len mod elt =? 0) then Ret (inr SGX_ERROR_INVALID_PARAMETER) else k.

(** The result copied to the host. *)
Definition copy_out (tmp len : Z) (result : option (list Z)) : P sgx_status_t :=
  match result with
  | None => Ret SGX_SUCCESS
  | Some b =>
      if memcpy_s (tmp =? 0) len false len then Ret SGX_ERROR_UNEXPECTED
      else host_store tmp (firstn (Z.to_nat len) b) ;; Ret SGX_SUCCESS
  end.

Definition sgx_sgxsd_enclave_node_init (pms : Z) : P sgx_status_t :=
  let ms_t := ms_sgxsd_enclave_node_init_t in
  CHECK_REF_POINTER pms (sizeof ms_t) (
  let* tmp_p_args := load_u64 pms ms_t 1 in
  let len_p_args := sizeof_node_init_args in
  CHECK_UNIQUE_POINTER tmp_p_args len_p_args (
  let* in_p_args := copy_in tmp_p_args len_p_args in
  match in_p_args with
  | inr status => Ret status
  | inl in_p_args =>
      let* res := sgxsd_enclave_node_init plat stk (option_map (fun b => nth 0 b 0) in_p_args) in
      store_retval pms res ;;
      Ret SGX_SUCCESS
  end)).

Definition sgx_sgxsd_enclave_get_next_report (pms : Z) : P sgx_status_t :=
  let ms_t := ms_sgxsd_enclave_get_next_report_t in
  CHECK_REF_POINTER pms (sizeof ms_t) (
  let* tmp_p_report := load_u64 pms ms_t 2 in
  let len_p_report := sizeof_report in
  CHECK_UNIQUE_POINTER tmp_p_report len_p_report (
  let* in_p_report := alloc_out tmp_p_report len_p_report in
  match in_p_report with
  | inr status => Ret status
  | inl in_p_report =>
      let* qe_target_info := host_load (pms + offsetof ms_t 1) 512 in
      let* (res, in_p_report, _) := sgxsd_enclave_get_next_report plat stk kp qe_target_info in_p_report in
      store_retval pms res ;;
      copy_out tmp_p_report len_p_report in_p_report
  end)).

Definition sgx_sgxsd_enclave_set_current_quote (pms : Z) : P sgx_status_t :=
  CHECK_REF_POINTER pms (sizeof ms_sgxsd_enclave_set_current_quote_t) (
  let* res := sgxsd_enclave_set_current_quote in
  store_retval pms res ;;
  Ret SGX_SUCCESS).

Definition sgx_sgxsd_enclave_negotiate_request (pms : Z) : P sgx_status_t :=
  let ms_t := ms_sgxsd_enclave_negotiate_request_t in
  CHECK_REF_POINTER pms (sizeof ms_t) (
  let* tmp_p_request := load_u64 pms ms_t 1 in
  let len_p_request := sizeof_request in
  let* tmp_p_response := load_u64 pms ms_t 2 in
  let len_p_response := sizeof_response in
  CHECK_UNIQUE_POINTER tmp_p_request len_p_request (
  CHECK_UNIQUE_POINTER tmp_p_response len_p_response (
  let* in_p_request := copy_in tmp_p_request len_p_request in
  match in_p_request with
  | inr status => Ret status
  | inl in_p_request =>
    let* in_p_response := alloc_out tmp_p_response len_p_response in
    match in_p_response with
    | inr status => Ret status
    | inl in_p_response =>
        let* (res, response, _) :=
          sgxsd_enclave_negotiate_request plat stk nfr in_p_request (option_map get_response in_p_response) in
        store_retval pms res ;;
        copy_out tmp_p_response len_p_response (option_map response_bytes response)
    end
  end))).

Definition sgx_sgxsd_enclave_server_start (pms : Z) : P sgx_status_t :=
  let ms_t := ms_sgxsd_enclave_server_start_t in
  CHECK_REF_POINTER pms (sizeof ms_t) (
  let* tmp_p_args := load_u64 pms ms_t 1 in
  let len_p_args := sizeof_init_args in
  CHECK_UNIQUE_POINTER tmp_p_args len_p_args (
  let* in_p_args := copy_in tmp_p_args len_p_args in
  match in_p_args with
  | inr status => Ret status
  | inl in_p_args =>
      let* state_handle := load_u64 pms ms_t 2 in
      let* res := sgxsd_enclave_server_start plat serv stk hdr (option_map get_init_args in_p_args) state_handle in
      store_retval pms res ;;
      Ret SGX_SUCCESS
  end)).

Definition sgx_sgxsd_enclave_server_call (pms : Z) : P sgx_status_t :=
  let ms_t := ms_sgxsd_enclave_server_call_t in
  CHECK_REF_POINTER pms (sizeof ms_t) (
  let* tmp_p_args := load_u64 pms ms_t 1 in
  let len_p_args := sizeof_call_args in
  let* tmp_msg_header := load_u64 pms ms_t 2 in
  let len_msg_header := sizeof_header in
  let* tmp_msg_data := load_u64 pms ms_t 3 in
  let* tmp_msg_size := load_u64 pms ms_t 4 in
  let len_msg_data := tmp_msg_size in
  CHECK_UNIQUE_POINTER tmp_p_args len_p_args (
  CHECK_UNIQUE_POINTER tmp_msg_header len_msg_header (
  CHECK_UNIQUE_POINTER tmp_msg_data len_msg_data (
  let* in_p_args := copy_in tmp_p_args len_p_args in
  match in_p_args with
  | inr status => Ret status
  | inl in_p_args =>
    let* in_msg_header := copy_in tmp_msg_header len_msg_header in
    match in_msg_header with
    | inr status => Ret status
    | inl in_msg_header =>
      let* in_msg_data := whole_elements 1 tmp_msg_data len_msg_data (copy_in tmp_msg_data len_msg_data) in
      match in_msg_data with
      | inr status => Ret status
      | inl in_msg_data =>
          let* msg_tag := load_u64 pms ms_t 5 in
          let* state_handle := load_u64 pms ms_t 6 in
          let* (res, _, _) :=
            sgxsd_enclave_server_call plat serv stk hdr cfr (option_map get_call_args in_p_args) (option_map get_header in_msg_header)
              in_msg_data tmp_msg_size msg_tag state_handle in
          store_retval pms res ;;
          Ret SGX_SUCCESS
      end
    end
  end)))).

Definition sgx_sgxsd_enclave_server_stop (pms : Z) : P sgx_status_t :=
  let ms_t := ms_sgxsd_enclave_server_stop_t in
  CHECK_REF_POINTER pms (sizeof ms_t) (
  let* tmp_p_args := load_u64 pms ms_t 1 in
  let len_p_args := sizeof_terminate_args in
  CHECK_UNIQUE_POINTER tmp_p_args len_p_args (
  let* in_p_args := copy_in tmp_p_args len_p_args in
  match in_p_args with
  | inr status => Ret status
  | inl in_p_args =>
      let* state_handle := load_u64 pms ms_t 2 in
      let* res := sgxsd_enclave_server_stop plat serv stk hdr (option_map get_terminate_args in_p_args) state_handle in
      store_retval pms res ;;
      Ret SGX_SUCCESS
  end)).

(** The call passes seven arguments to a function of nine, which has no defined behaviour. *)
Definition sgx_sgxsd_enclave_ratelimit_fingerprint (pms : Z) : P sgx_status_t :=
  let ms_t := ms_sgxsd_enclave_ratelimit_fingerprint_t in
  CHECK_REF_POINTER pms (sizeof ms_t) (
  let* tmp_fingerprint_key := load_u64 pms ms_t 1 in
  let len_fingerprint_key := 32 * 1 in
  let* tmp_msg_header := load_u64 pms ms_t 2 in
  let len_msg_header := sizeof_header in
  let* tmp_msg_data := load_u64 pms ms_t 3 in
  let* tmp_msg_data_size := load_u64 pms ms_t 4 in
  let len_msg_data := tmp_msg_data_size in
  let* tmp_fingerprint := load_u64 pms ms_t 6 in
  let len_fingerprint := 1 in
  CHECK_UNIQUE_POINTER tmp_fingerprint_key len_fingerprint_key (
  CHECK_UNIQUE_POINTER tmp_msg_header len_msg_header (
  CHECK_UNIQUE_POINTER tmp_msg_data len_msg_data (
  CHECK_UNIQUE_POINTER tmp_fingerprint len_fingerprint (
  let* in_fingerprint_key := whole_elements 1 tmp_fingerprint_key len_fingerprint_key (copy_in tmp_fingerprint_key len_fingerprint_key) in
  match in_fingerprint_key with
  | inr status => Ret status
  | inl _ =>
    let* in_msg_header := copy_in tmp_msg_header len_msg_header in
    match in_msg_header with
    | inr status => Ret status
    | inl _ =>
      let* in_msg_data := whole_elements 1 tmp_msg_data len_msg_data (copy_in tmp_msg_data len_msg_data) in
      match in_msg_data with
      | inr status => Ret status
      | inl _ =>
        let* in_fingerprint := whole_elements 1 tmp_fingerprint len_fingerprint (alloc_out tmp_fingerprint len_fingerprint) in
        match in_fingerprint with
        | inr status => Ret status
        | inl _ => act (fun _ => None)
        end
      end
    end
  end))))).

Definition g_ecall_table : list (Z -> P sgx_status_t) :=
  [sgx_sgxsd_enclave_node_init; sgx_sgxsd_enclave_get_next_report; sgx_sgxsd_enclave_set_current_quote;
   sgx_sgxsd_enclave_negotiate_request; sgx_sgxsd_enclave_server_start; sgx_sgxsd_enclave_server_call;
   sgx_sgxsd_enclave_server_stop; sgx_sgxsd_enclave_ratelimit_fingerprint].

End Ecalls.
End Trusted.

End Edge.
