(* ===== verification/EdgeSafety.v ===== *)
(** The bridge establishes what the entry points rely on: whatever the host puts in its memory,
    and however it changes it meanwhile, the enclave's memory is touched through no pointer of
    the host, and the entry points receive valid arguments. *)
From S2P Require Import Prelude Codec SgxsdCrypto Threads Sgxsd SgxsdSafety SgxsdSystem Edge.
From Stdlib Require Import ZArith List Lia Bool Relations.
Import Codec SgxsdCrypto Threads Sgxsd SgxsdSafety SgxsdSystem Edge.

Module EdgeSafety.

#[local] Opaque Curve25519.Curve25519.curve25519_donna Curve25519.Curve25519.clamp sgxsd_enclave_sha256 sgxsd_enclave_hmac_sha256
  sgxsd_aes_gcm_run aes_gcm_seal aes_gcm_open hkdf_T hmac_sha256.

Section EdgeSafety.
Context {W S : Type} {HM : HostMemory W} {SS : ServerState S}
  {SA : ServerArgs sgxsd_server_init_args_t sgxsd_server_handle_call_args_t sgxsd_server_terminate_args_t}.
Abbreviation enclave := (@enclave W S).
Abbreviation P A := (prog enclave lock_id A).

(** The documented behaviour of the SDK: [sgx_read_rand] fills its buffer, and
    [sgx_is_outside_enclave] accepts only memory outside the enclave. *)
Record sdk_ok (base limit : Z) (lib : @sdk W) : Prop := {
  sdk_rand n w : 0 <= n -> blob (Z.to_nat n) (snd (fst (sdk_read_rand lib n w)));
  sdk_outside p n : in_range 64 p -> in_range 64 n -> sdk_is_outside_enclave lib p n <> 0 -> outside_enclave base limit p n = true }.

(** The server accepts whatever arguments the bridge makes of the bytes it copies. *)
Record host_args_ok : Prop := {
  host_init_args o : if_some (blob (Z.to_nat sizeof_init_args)) o -> init_args_ok (option_map get_init_args o);
  host_call_args o : if_some (blob (Z.to_nat sizeof_call_args)) o -> call_args_ok (option_map get_call_args o) }.
(** And lets itself be stopped: by any arguments, and with other threads in its calls. *)
Definition stop_ok : Prop :=
  state_ok None /\ forall o, if_some (blob (Z.to_nat sizeof_terminate_args)) o -> terminate_args_ok (option_map get_terminate_args o).

Context (base limit : Z) (lib : @sdk W) (Hlib : sdk_ok base limit lib)
  (serv : @server W S sgxsd_server_init_args_t sgxsd_server_handle_call_args_t sgxsd_server_terminate_args_t) (Hserv : server_ok serv)
  (Hargs : host_args_ok)  (stk : stack) (Hstk : stack_ok stk) (retval : sgx_status_t) (hdr : sgxsd_msg_header_t) (Hhdr : blob 16 (mh_mac hdr))
  (kp : sgxsd_curve25519_key_pair_t) (Hkp : kp_ok kp) (nfr : negotiate_frame) (Hnfr : frame_ok nfr)
  (cfr : call_frame) (Hcfr : entry_ok (cf_pending_request cfr)).

Abbreviation plat := (edge_platform lib retval).

Lemma plat_ok : platform_ok plat.
Proof. intros n w Hn. now apply (sdk_rand base limit lib Hlib). Qed.

(** ** Access to the host's memory *)

Lemma outside_range p n : outside_enclave base limit p n = true -> 0 <= p /\ 0 <= n /\ p + n <= 2 ^ 64 /\ (p + n <= base \/ limit <= p).
Proof. unfold outside_enclave. rewrite !andb_true_iff, orb_true_iff, !Z.leb_le. tauto. Qed.

Lemma outside_part p n q m : outside_enclave base limit p n = true -> p <= q -> 0 <= m -> q + m <= p + n ->
  outside_enclave base limit q m = true.
Proof.
  intros H Hq Hm Hn. apply outside_range in H. unfold outside_enclave. rewrite !andb_true_iff, orb_true_iff, !Z.leb_le. lia.
Qed.

Lemma peek_blob w p n : blob (Z.to_nat n) (peek_bytes w p n).
Proof.
  unfold peek_bytes, addresses. split; [now rewrite !length_map, length_seq|].
  apply Forall_map, Forall_map, Forall_forall. intros i _. apply peek_byte.
Qed.

Abbreviation safe_for p := (ok false anytime (fun _ => True) p).

Ltac seq t := eapply (ok_bind false anytime); [t|].
Ltac ret_ok := apply (ok_ret false anytime).

Lemma load_ok p n : outside_enclave base limit p n = true ->
  ok false anytime (fun b => blob (Z.to_nat n) b) (host_load base limit (S := S) p n).
Proof.
  intros H. apply (ok_act false anytime). intros st Hi _. rewrite H. eexists _, st. apply stay; [exact Hi|apply peek_blob].
Qed.

Lemma host_store_ok p l : outside_enclave base limit p (Z.of_nat (length l)) = true -> safe_for (host_store base limit (S := S) p l).
Proof.
  intros H. apply (ok_act false anytime). intros st Hi _. rewrite H. eexists _, _. apply act_assign; [now apply set_world_ok|trivial].
Qed.

Lemma u64_blob b : blob 8 b -> in_range 64 (br_dec64le b).
Proof. intros [_ B]. now apply dec64le_range. Qed.

(** A field of a structure that lies outside. *)
Lemma field_ok pms ms_t i : outside_enclave base limit pms (sizeof ms_t) = true -> 0 <= offsetof ms_t i -> offsetof ms_t i + 8 <= sizeof ms_t ->
  ok false anytime (fun v => in_range 64 v) (load_u64 base limit (S := S) pms ms_t i).
Proof.
  intros H H0 Hn. unfold load_u64. seq ltac:(apply load_ok, (outside_part pms (sizeof ms_t)); [exact H|lia..]).
  intros b Hb. ret_ok. now apply u64_blob.
Qed.

Lemma part_ok pms n o m : outside_enclave base limit pms n = true -> 0 <= o -> 0 <= m -> o + m <= n ->
  outside_enclave base limit (pms + o) m = true.
Proof. intros H Ho Hm Hn. apply (outside_part pms n); [exact H|lia..]. Qed.

Lemma retval_ok pms ms_t res : outside_enclave base limit pms (sizeof ms_t) = true -> 4 <= sizeof ms_t ->
  safe_for (store_retval base limit (S := S) pms res).
Proof. intros H Hn. apply host_store_ok, (outside_part pms (sizeof ms_t)); [exact H|cbn; lia..]. Qed.

Lemma ref_ok pms n k : in_range 64 pms -> in_range 64 n -> (outside_enclave base limit pms n = true -> safe_for k) ->
  safe_for (CHECK_REF_POINTER lib (S := S) pms n k).
Proof.
  intros Hp Hn Hk. unfold CHECK_REF_POINTER. destruct (pms =? 0); [now ret_ok|]. cbn [orb].
  destruct (Z.eqb_spec (sdk_is_outside_enclave lib pms n) 0) as [|E]; [now ret_ok|]. apply Hk. now apply (sdk_outside base limit lib Hlib).
Qed.

(** A pointer that passed the check is NULL or points outside. *)
Definition checked (p n : Z) : Prop := p <> 0 -> outside_enclave base limit p n = true.

Lemma unique_ok p n k : in_range 64 p -> in_range 64 n -> (checked p n -> safe_for k) ->
  safe_for (CHECK_UNIQUE_POINTER lib (S := S) p n k).
Proof.
  intros Hp Hn Hk. unfold CHECK_UNIQUE_POINTER. destruct (Z.eqb_spec p 0) as [->|Hz]; cbn [negb andb]; [now apply Hk|].
  destruct (Z.eqb_spec (sdk_is_outside_enclave lib p n) 0) as [|E]; [now ret_ok|]. apply Hk. intros _. now apply (sdk_outside base limit lib Hlib).
Qed.

Lemma malloc_ok n : safe_for (call_malloc lib (S := S) n).
Proof.
  apply (ok_act false anytime). intros st Hi _. destruct (malloc lib n (world st)) as [b w].
  eexists _, _. apply act_assign; [now apply set_world_ok|trivial].
Qed.

Lemma copy_in_ok p n : checked p n ->
  ok false anytime (fun r : option (list Z) + sgx_status_t => match r with inl o => if_some (blob (Z.to_nat n)) o | inr _ => True end)
    (copy_in lib base limit (S := S) p n).
Proof.
  intros Hc. unfold copy_in. destruct (Z.eqb_spec p 0) as [->|Hp]; cbn [negb andb]; [now ret_ok|].
  destruct (n =? 0); cbn [negb]; [now ret_ok|]. seq ltac:(apply malloc_ok). intros b _.
  destruct b; cbn [negb]; [|now ret_ok]. destruct (memcpy_s _ _ _ _); [now ret_ok|].
  seq ltac:(now apply load_ok, Hc). intros d Hd. now ret_ok.
Qed.

Lemma alloc_out_ok p n : 0 <= n ->
  ok false anytime (fun r : option (list Z) + sgx_status_t => match r with inl o => if_some (eq (zeros n)) o | inr _ => True end)
    (alloc_out lib (S := S) p n).
Proof.
  intros Hn. unfold alloc_out. destruct (_ && _); [|now ret_ok]. seq ltac:(apply malloc_ok). intros b _. destruct b; now ret_ok.
Qed.

Lemma elements_ok (Q : option (list Z) + sgx_status_t -> Prop) elt p n k : (forall s, Q (inr s)) -> ok false anytime Q k ->
  ok false anytime Q (whole_elements (W := W) (S := S) elt p n k).
Proof. intros Hq Hk. unfold whole_elements. destruct (_ && _); [now ret_ok|exact Hk]. Qed.

Lemma copy_out_ok p n r : checked p n -> (p = 0 -> n <> 0) -> 0 <= n -> safe_for (copy_out base limit (S := S) p n r).
Proof.
  intros Hc Hz Hn. unfold copy_out. destruct r as [b|]; [|now ret_ok]. unfold memcpy_s.
  destruct (Z.eqb_spec p 0) as [Hp|Hp].
  - rewrite (proj2 (Z.eqb_neq n 0)) by auto. cbn [negb orb andb]. now ret_ok.
  - destruct (_ && _); [now ret_ok|]. seq ltac:(apply host_store_ok, (outside_part p n); [now apply Hc|lia..|rewrite length_firstn; lia]).
    intros _ _. now ret_ok.
Qed.

(** ** Structures *)

Lemma slice_blob o n m b : blob m b -> (o + n <= m)%nat -> blob n (slice o n b).
Proof.
  intros [L B] H. unfold slice. split; [rewrite length_firstn, length_skipn; lia|]. now apply Forall_firstn, Forall_skipn.
Qed.

Lemma get_header_ok b : blob 64 b -> header_ok (get_header b).
Proof.
  intros H. split; [now apply (slice_blob 0 12 64); [|lia]|]. split; [now apply (slice_blob 12 16 64); [|lia]|].
  assert (Hp : blob 36 (slice 28 36 b)) by (apply (slice_blob 28 36 64); [exact H|lia]).
  split; [apply (slice_blob 0 8 36); [exact Hp|lia]|]. split; [apply (slice_blob 8 12 36)|apply (slice_blob 20 16 36)]; (exact Hp || lia).
Qed.

Lemma get_response_ok b : blob 128 b -> response_ok (get_response b).
Proof.
  intros H. split; [now apply (slice_blob 0 32 128); [|lia]|]. split; [now apply (slice_blob 32 32 128); [|lia]|].
  split; [now apply (slice_blob 64 36 128); [|lia]|]. split; [now apply (slice_blob 100 12 128); [|lia]|].
  now apply (slice_blob 112 16 128); [|lia].
Qed.

(** ** The bridges *)

Ltac field := match goal with |- ok _ _ _ (bind (load_u64 _ _ _ _ _) _) =>
  seq ltac:(apply field_ok; [assumption|vm_compute; discriminate..]) end.
Ltac small := unfold in_range, sizeof_node_init_args, sizeof_report, sizeof_request, sizeof_response, sizeof_header, sizeof_init_args,
  sizeof_call_args, sizeof_terminate_args; lia.
Ltac ref := match goal with |- ok _ _ _ (CHECK_REF_POINTER _ ?p (sizeof ?t) _) =>
  apply ref_ok; [assumption|vm_compute; split; [discriminate|reflexivity]|] end.
Ltac unique := match goal with |- ok _ _ _ (CHECK_UNIQUE_POINTER _ _ _ _) => apply unique_ok; [assumption|assumption || small|] end.
Ltac finish := seq ltac:(eapply retval_ok; [eassumption|vm_compute; discriminate]); intros _ _; now ret_ok.

Lemma bridge_node_init_ok pms : in_range 64 pms -> safe_for (sgx_sgxsd_enclave_node_init lib base limit stk retval (S := S) pms).
Proof.
  intros Hp. unfold sgx_sgxsd_enclave_node_init. ref. intros Hout. field. intros tmp Ht. unique. intros Hc.
  seq ltac:(now apply copy_in_ok). intros [o|status] Ho; [|now ret_ok].
  seq ltac:(apply (node_init_ok plat plat_ok stk Hstk)). 2: { intros res _. finish. }
  destruct o as [b|]; [|exact I]. destruct Ho as [L B]. cbn. destruct b as [|x b]; [discriminate L|]. apply Forall_inv in B. apply B.
Qed.

Lemma bridge_get_next_report_ok pms : in_range 64 pms ->
  safe_for (sgx_sgxsd_enclave_get_next_report lib base limit stk retval kp (S := S) pms).
Proof.
  intros Hp. unfold sgx_sgxsd_enclave_get_next_report. ref. intros Hout. field. intros tmp Ht. unique. intros Hc.
  seq ltac:(apply alloc_out_ok; small). intros [o|status] _; [|now ret_ok].
  seq ltac:(apply load_ok, (part_ok pms (sizeof ms_sgxsd_enclave_get_next_report_t)); [exact Hout|vm_compute; discriminate..]).
  intros info _. seq ltac:(apply (get_next_report_ok plat plat_ok stk Hstk); exact Hkp). intros [[res report] kp'] _.
  seq ltac:(eapply retval_ok; [exact Hout|vm_compute; discriminate]). intros _ _.
  apply copy_out_ok; [exact Hc|discriminate|small].
Qed.

Lemma bridge_set_current_quote_ok pms : in_range 64 pms ->
  safe_for (sgx_sgxsd_enclave_set_current_quote lib base limit (S := S) pms).
Proof.
  intros Hp. unfold sgx_sgxsd_enclave_set_current_quote. ref. intros Hout. seq ltac:(apply set_current_quote_ok). intros res _. finish.
Qed.

Lemma bridge_negotiate_request_ok pms : in_range 64 pms ->
  safe_for (sgx_sgxsd_enclave_negotiate_request lib base limit stk retval nfr (S := S) pms).
Proof.
  intros Hp. unfold sgx_sgxsd_enclave_negotiate_request. ref. intros Hout. field. intros tmp1 Ht1. field. intros tmp2 Ht2.
  unique. intros Hc1. unique. intros Hc2. seq ltac:(now apply copy_in_ok). intros [o|status] Ho; [|now ret_ok].
  seq ltac:(apply alloc_out_ok; small). intros [r|status] Hr; [|now ret_ok].
  seq ltac:(apply (negotiate_ok plat plat_ok stk Hstk); [exact Hnfr|exact Ho|]).
  - destruct r as [r|]; [|exact I]. cbn in Hr. subst. apply get_response_ok. now apply (zeros_blob 128).
  - intros [[res resp] fr'] _. seq ltac:(eapply retval_ok; [exact Hout|vm_compute; discriminate]). intros _ _.
    apply copy_out_ok; [exact Hc2|discriminate|small].
Qed.

Lemma bridge_server_start_ok pms : in_range 64 pms ->
  safe_for (sgx_sgxsd_enclave_server_start lib base limit serv stk retval hdr pms).
Proof.
  intros Hp. unfold sgx_sgxsd_enclave_server_start. ref. intros Hout. field. intros tmp Ht. unique. intros Hc.
  seq ltac:(now apply copy_in_ok). intros [o|status] Ho; [|now ret_ok]. field. intros handle Hh.
  seq ltac:(apply (server_start_ok plat plat_ok serv Hserv stk Hstk); [now apply Hargs|exact Hhdr|apply Hh]). intros res _. finish.
Qed.

Lemma bridge_server_stop_ok pms : stop_ok -> in_range 64 pms ->
  safe_for (sgx_sgxsd_enclave_server_stop lib base limit serv stk retval hdr pms).
Proof.
  intros [Hn Ha] Hp. unfold sgx_sgxsd_enclave_server_stop. ref. intros Hout. field. intros tmp Ht. unique. intros Hc.
  seq ltac:(now apply copy_in_ok). intros [o|status] Ho; [|now ret_ok]. field. intros handle Hh.
  seq ltac:(apply (server_stop_ok plat plat_ok serv Hserv stk Hstk); [exact Hn|now apply Ha|exact Hhdr|apply Hh]). intros res _. finish.
Qed.

(** The message has the size the entry point is told, of which it uses the low 32 bits. *)
Lemma copied_region size data : in_range 64 size -> if_some (blob (Z.to_nat size)) data -> region (u32 size) data.
Proof.
  intros Hs Hd. destruct data as [d|]; [|exact I]. destruct Hd as [L B]. split; [|exact B]. rewrite L.
  unfold wrap, in_range in *. pose proof (Z.mod_le size (2 ^ 32)). lia.
Qed.

Lemma bridge_server_call_ok pms : in_range 64 pms ->
  safe_for (sgx_sgxsd_enclave_server_call lib base limit serv stk retval hdr cfr pms).
Proof.
  intros Hp. unfold sgx_sgxsd_enclave_server_call. ref. intros Hout. field. intros tmp1 Ht1. field. intros tmp2 Ht2.
  field. intros tmp3 Ht3. field. intros size Hs. unique. intros Hc1. unique. intros Hc2. unique. intros Hc3.
  seq ltac:(now apply copy_in_ok). intros [o1|status] Ho1; [|now ret_ok].
  seq ltac:(now apply copy_in_ok). intros [o2|status] Ho2; [|now ret_ok].
  seq ltac:(apply elements_ok; [|now apply copy_in_ok]; exact (fun _ => I)). intros [o3|status] Ho3; [|now ret_ok].
  field. intros tag Htag. field. intros handle Hh.
  seq ltac:(apply (server_call_ok plat plat_ok serv Hserv stk Hstk); [now apply Hargs| |apply Hh]).
  - split; [exact Hhdr|exact Hcfr|destruct o2; [now apply get_header_ok|exact I]|now apply copied_region].
  - intros [[res d] fr'] _. finish.
Qed.

(** * The system with its host *)

(** A thread of the host: it enters the enclave by function number [i], other than the last one,
    with a structure at an address of its choice, or does anything to its own memory. *)
Inductive host_thread : Type :=
| Enter (i : nat) (pms : Z)
| Meddle (fs : list (W -> W)).

Fixpoint meddle (fs : list (W -> W)) : P sgx_status_t :=
  match fs with
  | [] => Ret SGX_SUCCESS
  | f :: fs' => modify (fun st => set_world (f (world st)) st) ;; meddle fs'
  end.

Definition thread_prog (t : host_thread) : P sgx_status_t :=
  match t with
  | Enter i pms =>
      match nth_error (g_ecall_table lib base limit serv stk retval hdr kp nfr cfr) i with
      | Some bridge => bridge pms
      | None => Ret SGX_ERROR_INVALID_PARAMETER
      end
  | Meddle fs => meddle fs
  end.

(** Not the fingerprint function, number 7; and a server is stopped, by number 6, where it lets
    itself be. *)
Definition thread_ok (t : host_thread) : Prop :=
  match t with Enter i pms => i <> 7%nat /\ (i = 6%nat -> stop_ok) /\ in_range 64 pms | Meddle _ => True end.

Lemma thread_prog_ok t : thread_ok t -> safe_for (thread_prog t).
Proof.
  destruct t as [i pms|fs]; cbn [thread_ok thread_prog].
  - intros (Hi & Hn & Hp). do 7 (destruct i as [|i]; cbn [nth_error g_ecall_table];
      [auto using bridge_node_init_ok, bridge_get_next_report_ok, bridge_set_current_quote_ok, bridge_negotiate_request_ok,
         bridge_server_start_ok, bridge_server_call_ok, bridge_server_stop_ok|]).
    destruct i as [|i]; [contradiction|]. destruct i; now ret_ok.
  - intros _. induction fs as [|f fs IH]; cbn [meddle]; [now ret_ok|].
    seq ltac:(apply (ok_modify false anytime); intros st Hi _; now apply set_world_ok). intros _ _. exact IH.
Qed.

(** ** Locks *)

Abbreviation neutral p := (balanced rank [] [] p).

Lemma host_load_bal p n : neutral (host_load base limit (S := S) p n).
Proof.
  apply neutral_act. intros st b st' E. destruct (outside_enclave _ _ _ _); [|discriminate]. injection E as _ <-. now apply same_locks.
Qed.

Lemma host_store_bal p l : neutral (host_store base limit (S := S) p l).
Proof.
  apply neutral_act. intros st b st' E. destruct (outside_enclave _ _ _ _); [|discriminate]. injection E as _ <-. now destruct st.
Qed.

Lemma call_malloc_bal n : neutral (call_malloc lib (S := S) n).
Proof.
  apply neutral_act. intros st b st' E. destruct (malloc lib n (world st)). injection E as _ <-. now destruct st.
Qed.

Ltac ebal := repeat (cbv beta zeta; match goal with
  | |- balanced _ _ _ (Ret _) => reflexivity
  | |- balanced _ _ _ (bind _ _) => apply neutral_bind; [|intros ?]
  | |- balanced _ _ _ (host_load _ _ _ _) => apply host_load_bal
  | |- balanced _ _ _ (host_store _ _ _ _) => apply host_store_bal
  | |- balanced _ _ _ (call_malloc _ _) => apply call_malloc_bal
  | |- balanced _ _ _ (match ?x with _ => _ end) => destruct x
  | |- balanced _ _ _ (load_u64 _ _ _ _ _) => unfold load_u64
  | |- balanced _ _ _ (store_retval _ _ _ _) => unfold store_retval
  | |- balanced _ _ _ (CHECK_REF_POINTER _ _ _ _) => unfold CHECK_REF_POINTER
  | |- balanced _ _ _ (CHECK_UNIQUE_POINTER _ _ _ _) => unfold CHECK_UNIQUE_POINTER
  | |- balanced _ _ _ (copy_in _ _ _ _ _) => unfold copy_in
  | |- balanced _ _ _ (alloc_out _ _ _) => unfold alloc_out
  | |- balanced _ _ _ (whole_elements _ _ _ _) => unfold whole_elements
  | |- balanced _ _ _ (copy_out _ _ _ _ _) => unfold copy_out
  end).

Lemma thread_prog_bal t : thread_ok t -> neutral (thread_prog t).
Proof.
  destruct t as [i pms|fs]; cbn [thread_ok thread_prog].
  - intros (Hi & _). do 7 (destruct i as [|i]; cbn [nth_error g_ecall_table];
      [unfold sgx_sgxsd_enclave_node_init, sgx_sgxsd_enclave_get_next_report, sgx_sgxsd_enclave_set_current_quote,
         sgx_sgxsd_enclave_negotiate_request, sgx_sgxsd_enclave_server_start, sgx_sgxsd_enclave_server_call, sgx_sgxsd_enclave_server_stop; ebal;
       auto using node_init_bal, get_next_report_bal, set_current_quote_bal, negotiate_bal, server_start_bal, server_stop_bal, server_call_bal|]).
    destruct i as [|i]; [contradiction|]. destruct i; reflexivity.
  - intros _. induction fs as [|f fs IH]; cbn [meddle]; [reflexivity|]. apply neutral_bind; [|intros _; exact IH].
    apply neutral_modify. now intros [].
Qed.

Abbreviation start threads w := (map thread_prog threads, loaded w).
Abbreviation any := (fun (_ : bool) (_ : sgx_status_t) (_ : enclave) => True).

Lemma host_pool_ok threads w : Forall thread_ok threads -> pool_ok enclave_inv NodeInitLock evolves evolves_unheld any (start threads w).
Proof.
  intros Hc. split; [apply loaded_inv|]. left. split; [apply loaded_free|]. cbn [fst snd]. apply Forall_map.
  eapply Forall_impl; [|exact Hc]. intros t Hok. eapply safe_impl; [|exact (thread_prog_ok t Hok (loaded w) I)]. trivial.
Qed.

Lemma host_pool_balanced threads w : Forall thread_ok threads -> pool_balanced rank (start threads w).
Proof.
  intros Hc. exists (map (fun _ => []) threads). cbn [fst snd]. split; [|intros l Hl; rewrite loaded_free in Hl; discriminate].
  induction Hc; cbn [map]; constructor; [now apply thread_prog_bal|assumption].
Qed.

Lemma host_reachable threads w ts st : Forall thread_ok threads -> reachable (start threads w) (ts, st) ->
  enclave_inv st /\ Forall (fun p => step p st <> Wrong) ts /\ pool_balanced rank (ts, st).
Proof.
  intros Hc Hr.
  pose proof (pool_reachable_ok enclave_inv NodeInitLock evolves evolves_unheld any _ _ (host_pool_ok threads w Hc) Hr) as H.
  split; [apply H|]. split.
  - apply Forall_forall. intros p Hp E. pose proof (pool_ok_thread enclave_inv NodeInitLock evolves evolves_unheld any ts st p H Hp) as G.
    now rewrite E in G.
  - apply (pool_balanced_reachable rank (start threads w)); [now apply host_pool_balanced|exact Hr].
Qed.


End EdgeSafety.
End EdgeSafety.
