(* ===== verification/EdgeHost.v ===== *)
(** The host's side of the bridge, src/enclave/include/cds_enclave_u.c, and the two crossings as a
    whole: a call and its arguments reach the entry point, and a reply reaches the host, unchanged. *)
From S2P Require Import Prelude Codec SgxsdCrypto Threads Sgxsd SgxsdSafety SgxsdSystem SgxsdProtocol Edge EdgeSafety.
From Stdlib Require Import ZArith List Lia Bool.
Import Codec SgxsdCrypto Threads Sgxsd SgxsdSafety SgxsdSystem SgxsdProtocol Edge EdgeSafety.

(** Memory holds what was last written to it. *)
Class HostMemoryLaws (W : Type) {HM : HostMemory W} : Prop := {
  peek_poke w a l b : bytes_ok l ->
    peek (poke w a l) b = (if (a <=? b) && (b <? a + Z.of_nat (length l)) then nth (Z.to_nat (b - a)) l 0 else peek w b) }.

Module EdgeHost.

#[local] Opaque Curve25519.Curve25519.curve25519_donna Curve25519.Curve25519.clamp sgxsd_enclave_sha256 sgxsd_enclave_hmac_sha256
  sgxsd_aes_gcm_run aes_gcm_seal aes_gcm_open hkdf_T hmac_sha256 br_enc64le br_dec64le br_enc32le br_dec32le.

Section Host.
Context {W S : Type} {HM : HostMemory W}.
Abbreviation enclave := (@enclave W S).
Abbreviation P A := (prog enclave lock_id A).

(** * Calls out of the enclave *)

Section OcallTable.
(** The host's function that sends a reply to the client. *)
Context (reply : Z -> Z -> Z -> Z -> W -> sgx_status_t * W).

Definition peek_u64 (w : W) (pms : Z) (ms_t : list ctype) (i : nat) : Z := br_dec64le (peek_bytes w (pms + offsetof ms_t i) 8).

Definition cds_enclave_sgxsd_ocall_reply (pms : Z) (w : W) : sgx_status_t * W :=
  let ms_t := ms_sgxsd_ocall_reply_t in
  let '(res, w) := reply (peek_u64 w pms ms_t 1) (peek_u64 w pms ms_t 2) (peek_u64 w pms ms_t 3) (peek_u64 w pms ms_t 4) w in
  (SGX_SUCCESS, poke w (pms + offsetof ms_t 0) (br_enc32le (status_code res))).

Definition ocall_table_cds_enclave : list (Z -> W -> sgx_status_t * W) := [cds_enclave_sgxsd_ocall_reply].

End OcallTable.

(** * Calls into the enclave *)

Section Ecalls.
(** [sgx_ecall i pms]: the SDK enters the enclave by function number [i]. [ms] is the address of
    the local variable of that name. *)
Context (sgx_ecall : Z -> Z -> P sgx_status_t) (ms : Z).

(** A field of [ms] is set. *)
Definition set_field (ms_t : list ctype) (i : nat) (l : list Z) : P unit :=
  modify (fun st => set_world (poke (world st) (ms + offsetof ms_t i) l) st).
Definition set_u64 (ms_t : list ctype) (i : nat) (v : Z) : P unit := set_field ms_t i (br_enc64le v).

(** The end of each function: the status, and [*retval] when it is set. *)
Definition finish_ecall (i : Z) (retval : bool) : P (sgx_status_t * option sgx_status_t) :=
  let* status := sgx_ecall i ms in
  if success status && retval then
    let* b := get (fun st => peek_bytes (world st) (ms + 0) 4) in
    Ret (status, Some (code_status (br_dec32le b)))
  else Ret (status, None).

Definition u_sgxsd_enclave_node_init (retval : bool) (p_args : Z) : P (sgx_status_t * option sgx_status_t) :=
  set_u64 ms_sgxsd_enclave_node_init_t 1 p_args ;;
  finish_ecall 0 retval.

Definition u_sgxsd_enclave_get_next_report (retval : bool) (qe_target_info : list Z) (p_report : Z)
  : P (sgx_status_t * option sgx_status_t) :=
  set_field ms_sgxsd_enclave_get_next_report_t 1 qe_target_info ;;
  set_u64 ms_sgxsd_enclave_get_next_report_t 2 p_report ;;
  finish_ecall 1 retval.

Definition u_sgxsd_enclave_set_current_quote (retval : bool) : P (sgx_status_t * option sgx_status_t) :=
  finish_ecall 2 retval.

Definition u_sgxsd_enclave_negotiate_request (retval : bool) (p_request p_response : Z) : P (sgx_status_t * option sgx_status_t) :=
  set_u64 ms_sgxsd_enclave_negotiate_request_t 1 p_request ;;
  set_u64 ms_sgxsd_enclave_negotiate_request_t 2 p_response ;;
  finish_ecall 3 retval.

Definition u_sgxsd_enclave_server_start (retval : bool) (p_args state_handle : Z) : P (sgx_status_t * option sgx_status_t) :=
  set_u64 ms_sgxsd_enclave_server_start_t 1 p_args ;;
  set_u64 ms_sgxsd_enclave_server_start_t 2 state_handle ;;
  finish_ecall 4 retval.

Definition u_sgxsd_enclave_server_call (retval : bool) (p_args msg_header msg_data msg_size msg_tag state_handle : Z)
  : P (sgx_status_t * option sgx_status_t) :=
  let ms_t := ms_sgxsd_enclave_server_call_t in
  set_u64 ms_t 1 p_args ;;
  set_u64 ms_t 2 msg_header ;;
  set_u64 ms_t 3 msg_data ;;
  set_u64 ms_t 4 msg_size ;;
  set_u64 ms_t 5 msg_tag ;;
  set_u64 ms_t 6 state_handle ;;
  finish_ecall 5 retval.

Definition u_sgxsd_enclave_server_stop (retval : bool) (p_args state_handle : Z) : P (sgx_status_t * option sgx_status_t) :=
  set_u64 ms_sgxsd_enclave_server_stop_t 1 p_args ;;
  set_u64 ms_sgxsd_enclave_server_stop_t 2 state_handle ;;
  finish_ecall 6 retval.

Definition u_sgxsd_enclave_ratelimit_fingerprint (retval : bool) (fingerprint_key msg_header msg_data msg_data_size msg_tag
  fingerprint fingerprint_size : Z) : P (sgx_status_t * option sgx_status_t) :=
  let ms_t := ms_sgxsd_enclave_ratelimit_fingerprint_t in
  set_u64 ms_t 1 fingerprint_key ;;
  set_u64 ms_t 2 msg_header ;;
  set_u64 ms_t 3 msg_data ;;
  set_u64 ms_t 4 msg_data_size ;;
  set_u64 ms_t 5 msg_tag ;;
  set_u64 ms_t 6 fingerprint ;;
  set_u64 ms_t 7 fingerprint_size ;;
  finish_ecall 7 retval.

End Ecalls.

(** * The crossings *)

Context {HL : HostMemoryLaws W}.

Lemma in_addresses p n a : In a (addresses p n) -> p <= a < p + n.
Proof. unfold addresses. rewrite in_map_iff. intros (i & <- & Hi). apply in_seq in Hi. lia. Qed.

Lemma peek_other w a l q n : bytes_ok l -> q + n <= a \/ a + Z.of_nat (length l) <= q ->
  peek_bytes (poke w a l) q n = peek_bytes w q n.
Proof.
  intros B H. unfold peek_bytes. apply map_ext_in. intros b Hb. apply in_addresses in Hb. rewrite peek_poke by exact B.
  destruct (Z.leb_spec a b), (Z.ltb_spec b (a + Z.of_nat (length l))); try reflexivity. lia.
Qed.

Lemma peek_same w a l n : bytes_ok l -> n = Z.of_nat (length l) -> peek_bytes (poke w a l) a n = l.
Proof.
  intros B ->. apply nth_ext with (d := peek (poke w a l) a) (d' := 0).
  - unfold peek_bytes, addresses. now rewrite !length_map, length_seq, Nat2Z.id.
  - unfold peek_bytes, addresses. rewrite !length_map, length_seq, Nat2Z.id. intros i Hi.
    rewrite map_map, (nth_indep _ _ (peek (poke w a l) (a + Z.of_nat 0))) by (rewrite length_map, length_seq; exact Hi).
    rewrite (map_nth (fun i => peek (poke w a l) (a + Z.of_nat i))), seq_nth by exact Hi. rewrite peek_poke by exact B.
    destruct (Z.leb_spec a (a + Z.of_nat (0 + i))), (Z.ltb_spec (a + Z.of_nat (0 + i)) (a + Z.of_nat (length l))); cbn [andb]; try lia.
    f_equal. lia.
Qed.

Lemma peek_u64_same w pms ms_t i v : in_range 64 v -> peek_u64 (poke w (pms + offsetof ms_t i) (br_enc64le v)) pms ms_t i = v.
Proof.
  intros Hv. unfold peek_u64. destruct (enc64le_blob v) as [L B]. rewrite peek_same by (exact B || now rewrite L).
  pose proof (br_dec64le_enc v [] Hv) as E. now rewrite app_nil_r in E.
Qed.

Lemma peek_u64_other w a l pms ms_t i : bytes_ok l -> pms + offsetof ms_t i + 8 <= a \/ a + Z.of_nat (length l) <= pms + offsetof ms_t i ->
  peek_u64 (poke w a l) pms ms_t i = peek_u64 w pms ms_t i.
Proof. intros B H. unfold peek_u64. now rewrite peek_other. Qed.

Lemma header_bytes_blob h : header_ok h -> blob 64 (header_bytes h).
Proof.
  intros ([L1 B1] & [L2 B2] & Hp). destruct (pid_bytes_blob _ Hp) as [L3 B3]. unfold header_bytes.
  split; [rewrite !length_app; lia|]. apply Forall_app. split; [exact B1|]. now apply Forall_app.
Qed.

(** A status that a 32-bit variable holds under its own name. *)
Definition canonical (res : sgx_status_t) : Prop := in_range 32 (status_code res) /\ code_status (status_code res) = res.

Lemma status_roundtrip res : canonical res -> code_status (br_dec32le (br_enc32le (status_code res))) = res.
Proof.
  intros [Hr Hc]. pose proof (br_dec32le_enc (status_code res) [] Hr) as E. rewrite app_nil_r in E. now rewrite E.
Qed.

Lemma enc32le_bytes x : length (br_enc32le x) = 4%nat /\ bytes_ok (br_enc32le x).
Proof. split; [reflexivity|apply br_enc32le_bytes]. Qed.

Lemma no_overflow a b : 0 <= a -> 0 <= b -> a + b < 2 ^ 64 -> ADD_ASSIGN_OVERFLOW a b = (a + b, false).
Proof.
  intros Ha Hb H. unfold ADD_ASSIGN_OVERFLOW. rewrite wrap_small by (unfold in_range; lia). cbv zeta.
  f_equal. apply Z.ltb_ge. lia.
Qed.

(** The host's memory when the reply function runs: the structure, the header and the data at
    [p]. *)
Definition reply_memory (p : Z) (h : sgxsd_msg_header_t) (data : list Z) (size tag : Z) (w : W) : W :=
  let w := poke w (p + 8) (br_enc64le (p + 40)) in
  let w := poke w (p + 40) (header_bytes h) in
  let w := poke w (p + 16) (br_enc64le (p + 104)) in
  let w := poke w (p + 104) data in
  let w := poke w (p + 24) (br_enc64le size) in
  poke w (p + 32) (br_enc64le tag).

Lemma reply_memory_spec p h data size tag w : header_ok h -> bytes_ok data -> 0 <= p -> p + 104 < 2 ^ 64 ->
  in_range 64 size -> in_range 64 tag ->
  let w' := reply_memory p h data size tag w in
  peek_u64 w' p ms_sgxsd_ocall_reply_t 1 = p + 40 /\ peek_u64 w' p ms_sgxsd_ocall_reply_t 2 = p + 104 /\
  peek_u64 w' p ms_sgxsd_ocall_reply_t 3 = size /\ peek_u64 w' p ms_sgxsd_ocall_reply_t 4 = tag /\
  peek_bytes w' (p + 40) 64 = header_bytes h /\ peek_bytes w' (p + 104) (Z.of_nat (length data)) = data.
Proof.
  intros Hh Hd H0 Hp Hs Ht w'. unfold w', reply_memory. destruct (header_bytes_blob h Hh) as [Lh Bh].
  assert (E : forall v, length (br_enc64le v) = 8%nat /\ bytes_ok (br_enc64le v)) by (intros v; apply (enc64le_blob v)).
  change (p + 8) with (p + offsetof ms_sgxsd_ocall_reply_t 1). change (p + 16) with (p + offsetof ms_sgxsd_ocall_reply_t 2).
  change (p + 24) with (p + offsetof ms_sgxsd_ocall_reply_t 3). change (p + 32) with (p + offsetof ms_sgxsd_ocall_reply_t 4).
  assert (O1 : offsetof ms_sgxsd_ocall_reply_t 1 = 8) by reflexivity. assert (O2 : offsetof ms_sgxsd_ocall_reply_t 2 = 16) by reflexivity.
  assert (O3 : offsetof ms_sgxsd_ocall_reply_t 3 = 24) by reflexivity. assert (O4 : offsetof ms_sgxsd_ocall_reply_t 4 = 32) by reflexivity.
  assert (L1 := fun v => proj1 (E v)). assert (B1 := fun v => proj2 (E v)).
  repeat split; repeat first [rewrite peek_u64_same by (unfold in_range in *; lia) | rewrite peek_u64_other by (solve [assumption|apply B1] || rewrite ?L1, ?Lh; lia)
    | rewrite peek_same by (assumption || rewrite ?Lh; reflexivity) | rewrite peek_other by (solve [assumption|apply B1] || rewrite ?L1, ?Lh; lia)]; reflexivity.
Qed.

Lemma firstn_region size d : region size (Some d) -> 0 <= size ->
  Z.of_nat (length (firstn (Z.to_nat size) d)) = size /\ bytes_ok (firstn (Z.to_nat size) d).
Proof. intros [L B] H. rewrite length_firstn. split; [lia|now apply Forall_firstn]. Qed.

(** A reply leaves the enclave unchanged: when the host has room for it at [p], its function
    is called once, on the addresses of a header and of data in its own memory that hold exactly
    the header and the first [size] bytes of the data the enclave passed, on that size and on the
    tag; the status it returns is the one the enclave receives. *)
Theorem reply_crosses_boundary (lib : @sdk W) reply retval h d size tag w p w1 res w2
  (Htable : forall f ms w, nth_error (ocall_table_cds_enclave reply) 0 = Some f -> sgx_ocall lib 0 ms w = f ms w)
  (Hh : header_ok h) (Hd : region size (Some d)) (Hs : 0 <= size) (Hn : size + 104 < 2 ^ 64) (Ht : in_range 64 tag)
  (Halloc : sgx_ocalloc lib (size + 104) w = (p, w1)) (Hp : 0 < p) (Hr : p + 104 < 2 ^ 64) :
  let w' := reply_memory p h (firstn (Z.to_nat size) d) size tag w1 in
  forall (Hreply : reply (p + 40) (p + 104) size tag w' = (res, w2)) (Hres : canonical res),
  sgxsd_ocall_reply lib retval (Some h) (Some d) size tag w =
    (SGX_SUCCESS, res, sgx_ocfree lib (poke w2 (p + 0) (br_enc32le (status_code res)))) /\
  peek_bytes w' (p + 40) 64 = header_bytes h /\ peek_bytes w' (p + 104) size = firstn (Z.to_nat size) d.
Proof.
  intros w' Hreply Hres. destruct (firstn_region size d Hd Hs) as [Ld Bd]. destruct (header_bytes_blob h Hh) as [Lh Bh].
  destruct (reply_memory_spec p h (firstn (Z.to_nat size) d) size tag w1 Hh Bd ltac:(lia) Hr ltac:(unfold in_range; lia) Ht)
    as (E1 & E2 & E3 & E4 & E5 & E6). rewrite Ld in E6. fold w' in E1, E2, E3, E4, E5, E6. split; [|now split].
  specialize (Htable _ p w' eq_refl). unfold cds_enclave_sgxsd_ocall_reply in Htable. rewrite E1, E2, E3, E4, Hreply in Htable.
  unfold sgxsd_ocall_reply, CHECK_ENCLAVE_POINTER, option_map, is_null, sizeof_header. rewrite Lh. destruct Hd as [Hl _].
  rewrite (proj2 (Z.leb_le size _) Hl). cbn [negb Z.leb Z.of_nat]. change (sizeof ms_sgxsd_ocall_reply_t) with 40.
  change (64 <=? Z.of_nat 64) with true. cbn [negb]. rewrite (no_overflow 40 64), (no_overflow _ size) by lia.
  replace (40 + 64 + size) with (size + 104) by lia. rewrite Halloc, (proj2 (Z.eqb_neq p 0)) by lia.
  replace (size + 104 - 40) with (size + 64) by lia. unfold memcpy_s. cbn [orb]. rewrite (proj2 (Z.ltb_ge (size + 64) 64)), andb_false_r by lia.
  replace (size + 64 - 64) with size by lia. rewrite Z.mod_1_r, Z.ltb_irrefl, andb_false_r. cbn [negb Z.eqb].
  replace (p + 40 + 64) with (p + 104) by lia. change (poke _ (p + offsetof ms_sgxsd_ocall_reply_t 4) _) with w'. rewrite Htable.
  cbn [success]. rewrite peek_same by (apply enc32le_bytes || reflexivity). now rewrite status_roundtrip.
Qed.

(** ** A call of a server *)

Section Call.
Context (base limit : Z) (lib : @sdk W).
(** [sgx_is_outside_enclave] accepts what is outside, and there is memory in the enclave. *)
Context (Hout : forall p n, outside_enclave base limit p n = true -> sdk_is_outside_enclave lib p n <> 0)
  (Hmalloc : forall n w, malloc lib n w = (true, w)).

Lemma run_load_u64 {B} pms ms_t i (k : Z -> P B) st : outside_enclave base limit (pms + offsetof ms_t i) 8 = true ->
  run (bind (load_u64 base limit pms ms_t i) k) st = run (k (peek_u64 (world st) pms ms_t i)) st.
Proof. intros H. unfold load_u64, host_load. rewrite !run_bind. cbn [run act]. rewrite H. reflexivity. Qed.

(** The object a pointer and a size stand for: none for NULL or for no bytes. *)
Definition object (w : W) (p n : Z) : option (list Z) := if (p =? 0) || (n =? 0) then None else Some (peek_bytes w p n).

Lemma run_copy_in {B} p n (k : _ -> P B) st : checked base limit p n ->
  run (bind (copy_in lib base limit p n) k) st = run (k (inl (object (world st) p n))) st.
Proof.
  intros H. unfold copy_in, object, call_malloc, host_load, memcpy_s. destruct (Z.eqb_spec p 0) as [Hp|Hp], (n =? 0); cbn [negb andb orb]; try reflexivity.
  rewrite Z.ltb_irrefl, !run_bind. cbn [run act]. rewrite Hmalloc. cbn [negb]. rewrite run_bind. cbn [run act].
  destruct st. cbn [set_world world]. now rewrite H.
Qed.

Lemma run_check_unique p n (k : P sgx_status_t) : checked base limit p n -> CHECK_UNIQUE_POINTER lib p n k = k.
Proof.
  intros H. unfold CHECK_UNIQUE_POINTER. destruct (Z.eqb_spec p 0) as [|Hp]; [reflexivity|].
  now rewrite (proj2 (Z.eqb_neq _ 0) (Hout _ _ (H Hp))), andb_false_r.
Qed.

Lemma run_check_ref p n (k : P sgx_status_t) : p <> 0 -> outside_enclave base limit p n = true -> CHECK_REF_POINTER lib p n k = k.
Proof. intros Hp H. unfold CHECK_REF_POINTER. now rewrite (proj2 (Z.eqb_neq _ 0) (Hout _ _ H)), (proj2 (Z.eqb_neq _ 0) Hp). Qed.

(** The host's memory with the structure of a call at [ms]. *)
Definition call_memory (ms p_args msg_header msg_data msg_size msg_tag state_handle : Z) (w : W) : W :=
  fold_left (fun w f => poke w (ms + offsetof ms_sgxsd_enclave_server_call_t (fst f)) (br_enc64le (snd f)))
    [(1%nat, p_args); (2%nat, msg_header); (3%nat, msg_data); (4%nat, msg_size); (5%nat, msg_tag); (6%nat, state_handle)] w.

Lemma call_offset i : (1 <= i <= 6)%nat -> offsetof ms_sgxsd_enclave_server_call_t i = 8 * Z.of_nat i.
Proof. intros H. do 7 (destruct i as [|i]; [lia || reflexivity|]). lia. Qed.

Lemma call_memory_spec ms a h d n t s w : Forall (in_range 64) [a; h; d; n; t; s] ->
  let w' := call_memory ms a h d n t s w in
  map (peek_u64 w' ms ms_sgxsd_enclave_server_call_t) [1; 2; 3; 4; 5; 6]%nat = [a; h; d; n; t; s] /\
  (forall q m, q + m <= ms \/ ms + 56 <= q -> peek_bytes w' q m = peek_bytes w q m).
Proof.
  intros H w'. unfold w', call_memory. cbn [fold_left fst snd].
  pose proof (call_offset 1 ltac:(lia)) as E1. pose proof (call_offset 2 ltac:(lia)) as E2. pose proof (call_offset 3 ltac:(lia)) as E3.
  pose proof (call_offset 4 ltac:(lia)) as E4. pose proof (call_offset 5 ltac:(lia)) as E5. pose proof (call_offset 6 ltac:(lia)) as E6.
  assert (L1 := fun v => proj1 (enc64le_blob v)). assert (B1 := fun v => proj2 (enc64le_blob v)).
  rewrite !Forall_cons_iff in H. destruct H as (Ha & Hh & Hd & Hn & Ht & Hs & _). split.
  - cbn [map]. repeat f_equal; repeat first [rewrite peek_u64_same by assumption | rewrite peek_u64_other by (apply B1 || rewrite L1; lia)]; reflexivity.
  - intros q m Hq. repeat rewrite peek_other by (apply B1 || rewrite L1; lia). reflexivity.
Qed.

Context (serv : @server W S sgxsd_server_init_args_t sgxsd_server_handle_call_args_t sgxsd_server_terminate_args_t)
  (stk : stack) (retval : sgx_status_t) (hdr : sgxsd_msg_header_t) (kp : sgxsd_curve25519_key_pair_t) (nfr : negotiate_frame) (cfr : call_frame).

(** A range of the host's memory that does not meet the structure at [ms]. *)
Definition apart (ms p n : Z) : Prop := p + n <= ms \/ ms + 56 <= p.

Lemma object_apart ms a h d n t s w p m : Forall (in_range 64) [a; h; d; n; t; s] -> apart ms p m ->
  object (call_memory ms a h d n t s w) p m = object w p m.
Proof. intros H Hp. unfold object. now rewrite (proj2 (call_memory_spec ms a h d n t s w H)). Qed.

(** The bridge on a structure that the host has filled. *)
Lemma bridge_call_run ms a h d n t s (st : enclave) : Forall (in_range 64) [a; h; d; n; t; s] -> ms <> 0 ->
  outside_enclave base limit ms 56 = true -> checked base limit a 104 -> checked base limit h 64 -> checked base limit d n ->
  apart ms a 104 -> apart ms h 64 -> apart ms d n ->
  let w := world st in
  let st1 := set_world (call_memory ms a h d n t s w) st in
  run (sgx_sgxsd_enclave_server_call lib base limit serv stk retval hdr cfr ms) st1 =
  run (let* (res, _, _) := sgxsd_enclave_server_call (edge_platform lib retval) serv stk hdr cfr (option_map get_call_args (object w a 104))
         (option_map get_header (object w h 64)) (object w d n) n t s in
       store_retval base limit ms res ;; Ret SGX_SUCCESS) st1.
Proof.
  intros H Hz Hms Ca Ch Cd Aa Ah Ad w st1. destruct (call_memory_spec ms a h d n t s w H) as [E _]. cbn [map] in E.
  injection E as E1 E2 E3 E4 E5 E6.
  assert (Hf : forall i, (1 <= i <= 6)%nat -> outside_enclave base limit (ms + offsetof ms_sgxsd_enclave_server_call_t i) 8 = true).
  { intros i Hi. rewrite call_offset by exact Hi. apply (part_ok base limit ms 56); [exact Hms|lia..]. }
  assert (Ew : world st1 = call_memory ms a h d n t s w) by now destruct st.
  unfold sgx_sgxsd_enclave_server_call, sizeof_call_args, sizeof_header. rewrite run_check_ref by assumption.
  rewrite run_load_u64, Ew, E1 by (apply Hf; lia). rewrite run_load_u64, Ew, E2 by (apply Hf; lia). rewrite run_load_u64, Ew, E3 by (apply Hf; lia).
  rewrite run_load_u64, Ew, E4 by (apply Hf; lia). rewrite !run_check_unique by assumption.
  rewrite run_copy_in, Ew, object_apart by assumption. rewrite run_copy_in, Ew, object_apart by assumption.
  unfold whole_elements. rewrite Z.mod_1_r, andb_false_r. rewrite run_copy_in, Ew, object_apart by assumption.
  rewrite run_load_u64, Ew, E5 by (apply Hf; lia). rewrite run_load_u64, Ew, E6 by (apply Hf; lia). reflexivity.
Qed.

Lemma run_set_u64 {B} ms ms_t i v (k : unit -> P B) st :
  run (bind (set_u64 ms ms_t i v) k) st = run (k tt) (set_world (poke (world st) (ms + offsetof ms_t i) (br_enc64le v)) st).
Proof. reflexivity. Qed.

Lemma set_world_twice v w (st : enclave) : set_world v (set_world w st) = set_world v st.
Proof. now destruct st. Qed.

Lemma world_set w (st : enclave) : world (set_world w st) = w.
Proof. now destruct st. Qed.

(** A call of a server enters the enclave unchanged: the host's function, given addresses of
    its own memory, runs the entry point on copies of exactly the objects at these addresses, NULL
    for NULL, and on the size, the tag and the handle it was given; the status the entry point
    returns is the one the host receives, and beside the structure of the call the crossing itself
    changes nothing. *)
Theorem server_call_crosses_boundary sgx_ecall ms a h d n t s (st : enclave) res x y st2
  (Htable : forall i f pms, nth_error (g_ecall_table lib base limit serv stk retval hdr kp nfr cfr) (Z.to_nat i) = Some f -> sgx_ecall i pms = f pms)
  (Hargs : Forall (in_range 64) [a; h; d; n; t; s]) (Hz : ms <> 0) (Hms : outside_enclave base limit ms 56 = true)
  (Ca : checked base limit a 104) (Ch : checked base limit h 64) (Cd : checked base limit d n)
  (Aa : apart ms a 104) (Ah : apart ms h 64) (Ad : apart ms d n) :
  let w := world st in
  forall (Hrun : run (sgxsd_enclave_server_call (edge_platform lib retval) serv stk hdr cfr (option_map get_call_args (object w a 104))
    (option_map get_header (object w h 64)) (object w d n) n t s) (set_world (call_memory ms a h d n t s w) st) = Done (res, x, y) st2)
    (Hres : canonical res),
  run (u_sgxsd_enclave_server_call sgx_ecall ms true a h d n t s) st =
    Done (SGX_SUCCESS, Some res) (set_world (poke (world st2) (ms + 0) (br_enc32le (status_code res))) st2).
Proof.
  intros w Hrun Hres. unfold u_sgxsd_enclave_server_call, finish_ecall. rewrite !run_set_u64. rewrite !world_set, !set_world_twice.
  change (set_world _ st) with (set_world (call_memory ms a h d n t s w) st).
  subst w.
  rewrite run_bind, (Htable 5 _ ms eq_refl), bridge_call_run by assumption. rewrite run_bind, Hrun.
  unfold store_retval, host_store. rewrite run_bind. cbn [run act].
  rewrite (proj1 (enc32le_bytes _)), (part_ok base limit ms 56) by (assumption || lia). cbn [run success andb].
  rewrite run_get, world_set, peek_same by (apply enc32le_bytes || reflexivity). now rewrite status_roundtrip.
Qed.

Lemma run_alloc_out {B} p n (k : _ -> P B) st :
  run (bind (alloc_out lib p n) k) st = run (k (inl (if (p =? 0) || (n =? 0) then None else Some (zeros n)))) st.
Proof.
  unfold alloc_out, call_malloc. destruct (p =? 0), (n =? 0); cbn [negb andb orb]; try reflexivity.
  rewrite !run_bind. cbn [run act]. rewrite Hmalloc. now destruct st.
Qed.


End Call.

End Host.
End EdgeHost.
