(* ===== verification/Service.v ===== *)
(** The programs that the Rust part of the enclave consists of: callbacks of the server that act on
    the world and call the functions of the C part, with results, and what they do when they run
    alone. *)
From S2P Require Import Prelude Codec SgxsdCrypto Sgxsd SgxsdSafety Edge EdgeSafety.
From Stdlib Require Import ZArith List Lia Bool.
Import Codec SgxsdCrypto Sgxsd SgxsdSafety Edge EdgeSafety.

Module Service.

(** [Result<A, E>]. *)
Inductive Result (A E : Type) : Type := Ok (a : A) | Err (e : E).
Arguments Ok {A E} a.
Arguments Err {A E} e.

(** A program followed by another one. *)
Fixpoint sbind {W A B} (p : @server_prog W A) (k : A -> @server_prog W B) : @server_prog W B :=
  match p with
  | SRet _ a => k a
  | SUndefined _ => SUndefined _
  | SExt _ f g => SExt _ f (fun b => sbind (g b) k)
  | SReadRand _ x g => SReadRand _ x (fun res x => sbind (g res x) k)
  | SReply _ buf from g => SReply _ buf from (fun res data from => sbind (g res data from) k)
  | SNoReply _ from g => SNoReply _ from (fun res from => sbind (g res from) k)
  end.

Section Programs.
Context {W : Type} {HM : HostMemory W}.
Abbreviation SP A := (@server_prog W A).

Definition ret {A} (a : A) : SP A := SRet _ a.
Definition ext {A} (f : W -> A * W) : SP A := SExt _ f (fun a => SRet _ a).
Definition undefined {A} : SP A := SUndefined _.
(** A panic aborts the enclave; that the service does not panic is proved with the rest. *)
Definition panic {A} : SP A := undefined.

(** The [?] operator, on a value and on what a call returns. *)
Definition try {A B E} (r : Result A E) (k : A -> SP (Result B E)) : SP (Result B E) :=
  match r with Ok a => k a | Err e => ret (Err e) end.

(** ** Memory of the host *)

Section Memory.
Context (base limit : Z).

(** It is read and written; memory of the enclave must not be, through such a pointer. *)
Definition read_host (p n : Z) : SP (list Z) :=
  if outside_enclave base limit p n then ext (fun w => (peek_bytes w p n, w)) else undefined.
Definition write_host (p : Z) (l : list Z) : SP unit :=
  if outside_enclave base limit p (Z.of_nat (length l)) then ext (fun w => (tt, poke w p l)) else undefined.

End Memory.

(** * Programs that run alone *)

(** A program that acts on the world only. *)
Fixpoint eval {A} (p : SP A) (w : W) : option (A * W) :=
  match p with
  | SRet _ a => Some (a, w)
  | SExt _ f k => let '(b, w) := f w in eval (k b) w
  | _ => None
  end.

Lemma eval_bind {A B} (p : SP A) (k : A -> SP B) : forall w, eval (sbind p k) w = match eval p w with Some (a, w') => eval (k a) w' | None => None end.
Proof. induction p as [a| |C f g IH|x g IH|buf from g IH|from g IH]; intros w; cbn [sbind eval]; try reflexivity. destruct (f w). apply IH. Qed.

Lemma eval_read base limit p n w : outside_enclave base limit p n = true -> eval (read_host base limit p n) w = Some (peek_bytes w p n, w).
Proof. intros H. unfold read_host. now rewrite H. Qed.

(** * Programs that behave *)

Lemma prog_ok_bind {A B} (Q : A -> Prop) (R : B -> Prop) (p : SP A) (k : A -> SP B) :
  prog_ok Q p -> (forall a, Q a -> prog_ok R (k a)) -> prog_ok R (sbind p k).
Proof.
  intros Hp Hk. induction p as [a| |C f g IH|x g IH|buf from g IH|from g IH]; cbn [sbind prog_ok] in *; auto.
  - destruct Hp as (Hb & Hf & Hg). auto 6.
  - destruct Hp as (Hf & Hg). auto.
Qed.

Lemma prog_ok_impl {A} (Q R : A -> Prop) (p : SP A) : prog_ok Q p -> (forall a, Q a -> R a) -> prog_ok R p.
Proof.
  intros Hp Hk. induction p as [a| |C f g IH|x g IH|buf from g IH|from g IH]; cbn [prog_ok] in *; auto.
  - destruct Hp as (Hb & Hf & Hg). auto 6.
  - destruct Hp as (Hf & Hg). auto.
Qed.

(** What a program that behaves returns. *)
Lemma eval_post {A} (Q : A -> Prop) (p : SP A) : prog_ok Q p -> forall w a w', eval p w = Some (a, w') -> Q a.
Proof.
  induction p as [a0| |C f g IH|x g IH|buf from g IH|from g IH]; cbn [prog_ok eval]; intros Hp w a w' E; try discriminate.
  - now injection E as <- _.
  - specialize (Hp w). destruct (f w) as [b w1]. exact (IH b Hp w1 a w' E).
Qed.

Lemma read_host_ok base limit p n : outside_enclave base limit p n = true -> prog_ok (blob (Z.to_nat n)) (read_host base limit p n).
Proof. intros H. unfold read_host. rewrite H. intros w. apply peek_blob. Qed.

Lemma write_host_ok base limit p l : outside_enclave base limit p (Z.of_nat (length l)) = true -> prog_ok (fun _ => True) (write_host base limit p l).
Proof. intros H. unfold write_host. rewrite H. now intros w. Qed.

End Programs.
End Service.

Notation "'do*' x := p 'in' k" := (Service.sbind p (fun x => k)) (at level 10, x pattern, p at level 100, k at level 200).
Notation "'do?' x := r 'in' k" := (Service.try r (fun x => k)) (at level 10, x pattern, r at level 100, k at level 200).
