(* ===== verification/SgxsdFfi.v ===== *)
(** The Rust wrappers around the platform and the C part of the enclave: src/enclave/sgx_ffi/src
    (slices of untrusted memory) and src/enclave/sgxsd_ffi/src (cryptography and the sender of a
    message). *)
From S2P Require Import Prelude Codec CtPrim HashClass Sha2 Hmac Curve25519 SgxsdCrypto Sgxsd SgxsdSafety Edge EdgeSafety Service.
From Stdlib Require Import ZArith List Lia Bool.
Import Codec SgxsdCrypto Sgxsd SgxsdSafety Edge EdgeSafety Service.

(** * sgx_ffi/src/untrusted_slice.rs *)

Module UntrustedSlice.

Inductive UntrustedSlice : Type := NonEmpty (data size : Z) | Empty.

Section Slice.
Context {W : Type} {HM : HostMemory W} (base limit : Z) (sgx_is_outside_enclave : Z -> Z -> Z).

Definition new (p_data size : Z) : Result UntrustedSlice unit :=
  if negb (size =? 0) && negb (p_data =? 0) then
    if negb (sgx_is_outside_enclave p_data size =? 1) then Err tt
    else if u64 (p_data + size) <? p_data then Err tt
    else Ok (NonEmpty p_data size)
  else Ok Empty.

Definition len (s : UntrustedSlice) : Z := match s with NonEmpty _ size => size | Empty => 0 end.
Definition as_ptr (s : UntrustedSlice) : Z := match s with NonEmpty data _ => data | Empty => 0 end.

Definition offset (s : UntrustedSlice) (offset : Z) : UntrustedSlice :=
  match s with
  | NonEmpty data size => if offset <? size then NonEmpty (data + offset) (size - offset) else Empty
  | Empty => Empty
  end.

Definition read_bytes (s : UntrustedSlice) (read_count : Z) : @server_prog W (Result (list Z) unit) :=
  match s with
  | NonEmpty data size =>
      if read_count <=? size then do* dest := read_host base limit data read_count in ret (Ok dest) else ret (Err tt)
  | Empty => if read_count =? 0 then ret (Ok []) else ret (Err tt)
  end.

Definition write_bytes (s : UntrustedSlice) (bytes : list Z) : @server_prog W (Result unit unit) :=
  match s with
  | NonEmpty data size =>
      if Z.of_nat (length bytes) <=? size then do* _ := write_host base limit data bytes in ret (Ok tt) else ret (Err tt)
  | Empty => match bytes with [] => ret (Ok tt) | _ => ret (Err tt) end
  end.

(** [sgx_is_outside_enclave] answers 1 only for memory outside the enclave. *)
Context (Houtside : forall p n, in_range 64 p -> in_range 64 n -> sgx_is_outside_enclave p n = 1 -> outside_enclave base limit p n = true).

(** A slice lies outside the enclave, however it was cut. *)
Definition slice_ok (s : UntrustedSlice) : Prop :=
  match s with NonEmpty data size => data <> 0 /\ 0 < size /\ outside_enclave base limit data size = true | Empty => True end.

Lemma new_ok p n s : in_range 64 p -> in_range 64 n -> new p n = Ok s ->
  slice_ok s /\ ((s = Empty /\ (p = 0 \/ n = 0)) \/ (s = NonEmpty p n /\ p <> 0 /\ n <> 0)).
Proof.
  intros Hp Hn. unfold new. destruct (Z.eqb_spec n 0) as [->|Hn0]; [intros [= <-]; cbn; auto|].
  destruct (Z.eqb_spec p 0) as [->|Hp0]; [intros [= <-]; cbn; auto|]. cbn [negb andb].
  destruct (Z.eqb_spec (sgx_is_outside_enclave p n) 1) as [E|]; [|discriminate]. cbn [negb].
  destruct (_ <? p); [discriminate|]. intros [= <-]. split; [|auto]. repeat split; [exact Hp0|unfold in_range in *; lia|now apply Houtside].
Qed.

Lemma offset_ok s o : 0 <= o -> slice_ok s -> slice_ok (offset s o).
Proof.
  intros Ho. destruct s as [data size|]; [|trivial]. intros (H0 & Hs & Hout). cbn [offset]. destruct (Z.ltb_spec o size); [|exact I].
  pose proof (outside_range _ _ _ _ Hout). repeat split; [lia..|]. apply (outside_part base limit data size); [exact Hout|lia..].
Qed.

Lemma read_bytes_ok s n : 0 <= n -> slice_ok s ->
  prog_ok (fun r => match r with Ok b => blob (Z.to_nat n) b /\ n <= len s | Err _ => len s < n end) (read_bytes s n).
Proof.
  intros Hn. destruct s as [data size|]; cbn [slice_ok read_bytes len].
  - intros (_ & _ & Hout). destruct (Z.leb_spec n size) as [H|H]; [|exact H].
    eapply prog_ok_bind; [apply read_host_ok, (outside_part base limit data size); [exact Hout|lia..]|]. now intros b Hb.
  - intros _. destruct (Z.eqb_spec n 0) as [->|]; cbn; [repeat split; [constructor|lia]|lia].
Qed.

Lemma write_bytes_ok s b : slice_ok s -> prog_ok (fun r => match r with Ok _ => Z.of_nat (length b) <= len s | Err _ => len s < Z.of_nat (length b) end) (write_bytes s b).
Proof.
  destruct s as [data size|]; cbn [slice_ok write_bytes len].
  - intros (_ & _ & Hout). destruct (Z.leb_spec (Z.of_nat (length b)) size) as [H|H]; [|exact H].
    eapply prog_ok_bind; [apply write_host_ok, (outside_part base limit data size); [exact Hout|lia..]|]. now intros u _.
  - intros _. destruct b as [|x b]; cbn; lia.
Qed.

Lemma len_offset s o : 0 <= o -> slice_ok s -> len (offset s o) = Z.max 0 (len s - o).
Proof.
  intros Ho. destruct s as [data size|]; cbn [slice_ok offset len]; [|lia]. intros (_ & Hs & _). destruct (Z.ltb_spec o size); cbn [len]; lia.
Qed.

Lemma cut_ok os : Forall (fun o => 0 <= o) os -> forall s, slice_ok s ->
  slice_ok (fold_left offset os s) /\ len (fold_left offset os s) = Z.max 0 (len s - fold_right Z.add 0 os).
Proof.
  induction 1 as [|o os Ho Hos IH]; intros s Hs; cbn [fold_left fold_right].
  - split; [exact Hs|]. destruct s; cbn [slice_ok len] in *; lia.
  - destruct (IH (offset s o) (offset_ok s o Ho Hs)) as [H1 H2]. split; [exact H1|]. rewrite H2, len_offset by assumption.
    assert (0 <= fold_right Z.add 0 os) by (clear - Hos; induction Hos; cbn; lia). lia.
Qed.

Lemma eval_read_bytes s n w : 0 <= n -> slice_ok s ->
  eval (read_bytes s n) w = Some (if n <=? len s then Ok (peek_bytes w (as_ptr s) n) else Err tt, w).
Proof.
  intros Hn. destruct s as [data size|]; cbn [slice_ok read_bytes len as_ptr].
  - intros (_ & _ & Hout). destruct (Z.leb_spec n size) as [H|H]; [|reflexivity].
    rewrite eval_bind, eval_read by (apply (outside_part base limit data size); [exact Hout|lia..]). reflexivity.
  - intros _. destruct (Z.eqb_spec n 0) as [->|]; [reflexivity|]. now rewrite (proj2 (Z.leb_gt n 0)) by lia.
Qed.

Lemma eval_write_bytes s b w : slice_ok s ->
  eval (write_bytes s b) w = Some (if Z.of_nat (length b) <=? len s then (Ok tt, match b, s with [], Empty => w | _, _ => poke w (as_ptr s) b end) else (Err tt, w)).
Proof.
  destruct s as [data size|]; cbn [slice_ok write_bytes len as_ptr].
  - intros (_ & _ & Hout). destruct (Z.leb_spec (Z.of_nat (length b)) size) as [H|H]; [|reflexivity].
    rewrite eval_bind. unfold write_host. rewrite (outside_part base limit data size) by (exact Hout || lia). now destruct b.
  - intros _. now destruct b.
Qed.

(** A slice of the host's memory is confined to it: whatever pointer and size the host gives,
    and however the slice is then cut, it has what is left of the size, lies outside the enclave,
    and a read or a write of any length goes to exactly the bytes from its start or is an error. *)
Theorem untrusted_slice_confined p n os k b w s (Hp : in_range 64 p) (Hn : in_range 64 n) (Ho : Forall (fun o => 0 <= o) os) (Hk : 0 <= k)
  (E : new p n = Ok s) :
  let s' := fold_left offset os s in
  len s' = (if p =? 0 then 0 else Z.max 0 (n - fold_right Z.add 0 os)) /\
  (0 < len s' -> outside_enclave base limit (as_ptr s') (len s') = true) /\
  eval (read_bytes s' k) w = Some (if k <=? len s' then Ok (peek_bytes w (as_ptr s') k) else Err tt, w) /\
  eval (write_bytes s' b) w =
    Some (if Z.of_nat (length b) <=? len s' then (Ok tt, match b, s' with [], Empty => w | _, _ => poke w (as_ptr s') b end) else (Err tt, w)).
Proof.
  destruct (new_ok p n s Hp Hn E) as [Hs Hcase]. destruct (cut_ok os Ho s Hs) as [Hs' Hl]. cbv zeta.
  assert (0 <= fold_right Z.add 0 os) by (clear - Ho; induction Ho; cbn; lia).
  split; [|split; [|split; [now apply eval_read_bytes|now apply eval_write_bytes]]].
  - rewrite Hl. destruct Hcase as [[-> H0]|(-> & Hp0 & _)]; cbn [len]; destruct (Z.eqb_spec p 0); lia.
  - destruct (fold_left offset os s); cbn [len slice_ok as_ptr] in *; [|lia]. intros _. apply Hs'.
Qed.

End Slice.
End UntrustedSlice.

(** * sgxsd_ffi/src/lib.rs *)

Module RdRand.
Section Rand.
Context {W : Type}.

(** The loop over [dest] while it is not empty; a round fills at most 32 bytes, so that
    [length dest] rounds are enough. What is filled, and the error if there was one. *)
Fixpoint try_fill_loop (fuel : nat) (rand_buf dest : list Z) : @server_prog W (Result unit sgx_status_t * list Z) :=
  match fuel, dest with
  | _, [] => ret (Ok tt, [])
  | O, _ => undefined
  | S fuel', _ =>
      SReadRand _ rand_buf (fun res rand_buf =>
        if negb (success res) then ret (Err res, dest)
        else
          let dest_part_len := Nat.min (length rand_buf) (length dest) in
          do* (r, rest) := try_fill_loop fuel' rand_buf (skipn dest_part_len dest) in
          ret (r, firstn dest_part_len rand_buf ++ rest))
  end.
Definition try_fill_bytes (dest : list Z) : @server_prog W (Result unit sgx_status_t * list Z) :=
  try_fill_loop (length dest) (zeros 32) dest.

Lemma try_fill_loop_ok fuel : forall rand_buf dest, (length dest <= fuel)%nat -> bytes_ok dest ->
  prog_ok (fun '(_, out) => blob (length dest) out) (try_fill_loop fuel rand_buf dest).
Proof.
  induction fuel as [|fuel IH]; intros rand_buf [|d dest] L B; cbn [try_fill_loop prog_ok length] in *; try (split; [reflexivity|constructor]); [lia|].
  intros res x [Lx Bx]. destruct (negb (success res)); [now split|]. set (n := Nat.min (length x) (S (length dest))).
  assert (Hn : (1 <= n <= S (length dest))%nat) by lia.
  assert (Lr : length (skipn n (d :: dest)) = (S (length dest) - n)%nat) by (now rewrite length_skipn).
  eapply prog_ok_bind; [apply IH; [lia|now apply Forall_skipn]|]. intros [r rest] [Lrest Brest].
  split; [rewrite length_app, length_firstn; lia|]. apply Forall_app. split; [now apply Forall_firstn|exact Brest].
Qed.

Lemma try_fill_ok dest : bytes_ok dest -> prog_ok (fun '(_, out) => blob (length dest) out) (try_fill_bytes dest).
Proof. now apply try_fill_loop_ok. Qed.

End Rand.
End RdRand.

(** A slice of bytes as a pointer, never NULL, and its length. *)
Definition fits_u32 (l : list Z) : bool := Z.of_nat (length l) <? 2 ^ 32.

Lemma view_all (l : list Z) : view (Some l) (Z.of_nat (length l)) = Some l.
Proof.
  unfold view. destruct (Z.eqb_spec (Z.of_nat (length l)) 0) as [E|]; [now destruct l|]. now apply load_all.
Qed.

Module AesGcmKey.
Section Key.
Context {W : Type} (stk : stack).

Definition len : Z := 32.
Definition new (data : list Z) : Result (list Z) sgx_status_t :=
  if negb (Z.of_nat (length data) =? 32) then Err SGX_ERROR_INVALID_PARAMETER else Ok data.

(** The result, and what [data] holds afterwards. *)
Definition decrypt (key data aad iv mac : list Z) : @server_prog W (Result unit sgx_status_t * list Z) :=
  if negb (fits_u32 data) then ret (Err SGX_ERROR_INVALID_PARAMETER, data)
  else if negb (fits_u32 aad) then ret (Err SGX_ERROR_INVALID_PARAMETER, data)
  else match sgxsd_aes_gcm_decrypt stk (Some key) (Some data) (Z.of_nat (length data)) (Some data) (Some iv)
               (Some aad) (Z.of_nat (length aad)) (Some mac) with
       | Some (res, Some data, _) => ret (if success res then Ok tt else Err res, data)
       | _ => undefined
       end.

(** The result, and what [data] and [mac] hold afterwards. *)
Definition encrypt (key data aad iv mac : list Z) : @server_prog W (Result unit sgx_status_t * list Z * list Z) :=
  if negb (fits_u32 data) then ret (Err SGX_ERROR_INVALID_PARAMETER, data, mac)
  else if negb (fits_u32 aad) then ret (Err SGX_ERROR_INVALID_PARAMETER, data, mac)
  else match sgxsd_aes_gcm_encrypt stk (Some key) (Some data) (Z.of_nat (length data)) (Some data) (Some iv)
               (Some aad) (Z.of_nat (length aad)) (Some mac) with
       | Some (res, Some data, Some mac) => ret (if success res then Ok tt else Err res, data, mac)
       | _ => undefined
       end.

Context (Hstk : stack_ok stk).

Lemma slice_operands key data aad iv mac : key_ok key -> bytes_ok data -> bytes_ok aad -> blob 12 iv -> blob 16 mac ->
  operands (Some key) (Some data) (Z.of_nat (length data)) (Some data) (Some iv) (Some aad) (Z.of_nat (length aad)) (Some mac) key iv aad data.
Proof.
  intros [Lk Bk] Bd Ba [Liv Biv] [Lm Bm]. split; try assumption.
  - apply load_all. now rewrite Lk.
  - apply load_all. now rewrite Liv.
  - apply view_all.
  - apply view_all.
  - exists data. apply view_all.
  - exists mac. apply load_all. now rewrite Lm.
Qed.

(** Decryption in place: the plaintext exactly when the tag is right, zeros otherwise. *)
Lemma decrypt_in_place key data aad iv mac : key_ok key -> bytes_ok data -> bytes_ok aad -> blob 12 iv -> blob 16 mac ->
  fits_u32 data = true -> fits_u32 aad = true ->
  decrypt key data aad iv mac = ret (match aes_gcm_open key iv aad data mac with
                                     | Some p => (Ok tt, p)
                                     | None => (Err SGX_ERROR_MAC_MISMATCH, zeros (Z.of_nat (length data))) end).
Proof.
  intros Hk Bd Ba Hiv Hmac Fd Fa. unfold decrypt. rewrite Fd, Fa. cbn [negb].
  rewrite (decrypt_spec stk _ _ _ _ _ _ _ _ key iv aad data mac Hstk (slice_operands _ _ _ _ _ Hk Bd Ba Hiv Hmac));
    [|apply load_all; now rewrite (proj1 Hmac)|apply Hmac].
  destruct (aes_gcm_open key iv aad data mac) as [p|] eqn:E; cbn [write option_map success].
  - pose proof (open_sound (Aead := aes_gcm_aead) key iv aad _ mac p Hk (proj2 Hiv) E) as Es.
    pose proof (seal_length (Aead := aes_gcm_aead) key iv aad p Hk (proj2 Hiv)) as Lp. rewrite Es in Lp. cbn [fst] in Lp.
    now rewrite splice_all by congruence.
  - rewrite splice_all; [reflexivity|]. now rewrite repeat_length, Nat2Z.id.
Qed.

Lemma encrypt_seals key data aad iv mac : key_ok key -> bytes_ok data -> bytes_ok aad -> blob 12 iv -> blob 16 mac ->
  fits_u32 data = true -> fits_u32 aad = true ->
  encrypt key data aad iv mac = ret (Ok tt, fst (aes_gcm_seal key iv aad data), snd (aes_gcm_seal key iv aad data)).
Proof.
  intros Hk Bd Ba Hiv Hmac Fd Fa. unfold encrypt. rewrite Fd, Fa. cbn [negb].
  rewrite (encrypt_spec stk _ _ _ _ _ _ _ _ key iv aad data Hstk (slice_operands _ _ _ _ _ Hk Bd Ba Hiv Hmac)). cbn [write option_map success].
  pose proof (seal_length (Aead := aes_gcm_aead) key iv aad data Hk (proj2 Hiv)) as Lc.
  destruct (seal_tag (Aead := aes_gcm_aead) key iv aad data Hk (proj2 Hiv)) as [Lt _]. destruct Hmac as [Lm _].
  now rewrite !splice_all by congruence.
Qed.

End Key.
End AesGcmKey.

Module SHA256Context.
Definition hash_len : Z := 32.
Definition reset (context : Sha2.br_sha224_context) : Sha2.br_sha224_context := Sha2.br_sha256_init context.
Definition update (context : Sha2.br_sha224_context) (data : list Z) : Sha2.br_sha224_context := Sha2.br_sha224_update context data.
Definition result (context : Sha2.br_sha224_context) : list Z := Sha2.br_sha256_out context.

(** A NULL vtable is any: [reset] sets it. *)
Definition blank : Sha2.br_sha224_context :=
  {| Sha2.vtable := HASH_SHA256; Sha2.buf := repeat 0 64; Sha2.count := 0; Sha2.val := repeat 0 8 |}.
Definition default : Sha2.br_sha224_context := reset blank.

Lemma result_sha256 data : result (update default data) = sha256 data.
Proof.
  pose proof (stream_digest Sha2.br_sha256_vtable blank [data] eq_refl) as H. cbn [fold_left concat] in H. now rewrite app_nil_r in H.
Qed.
End SHA256Context.

Module SHA256HMACContext.

Record SHA256HMACContext := {
  key_context : Hmac.br_hmac_key_context Sha2.br_sha224_context;
  context : Hmac.br_hmac_context Sha2.br_sha224_context }.

Section Hash.
(** What an uninitialised hash context of the C functions holds. *)
Context (hc : Sha2.br_sha224_context).

Definition reset (c : SHA256HMACContext) : SHA256HMACContext :=
  {| key_context := key_context c; context := Hmac.br_hmac_init (Hmac.dig (context c)) (key_context c) 32 |}.
Definition new (key : list Z) : SHA256HMACContext :=
  let br_key := {| Hmac.kc_dig_vtable := Sha2.br_sha256_vtable; Hmac.kc_ksi := repeat 0 64; Hmac.kc_kso := repeat 0 64 |} in
  let br_key := Hmac.br_hmac_key_init br_key hc Sha2.br_sha256_vtable key in
  let state := {| Hmac.dig_vtable := Sha2.br_sha256_vtable; Hmac.dig := SHA256Context.blank; Hmac.kso := repeat 0 64; Hmac.out_len := 0 |} in
  reset {| key_context := br_key; context := state |}.
Definition update (c : SHA256HMACContext) (data : list Z) : SHA256HMACContext :=
  {| key_context := key_context c; context := Hmac.br_hmac_update (context c) data |}.
Definition result (c : SHA256HMACContext) : list Z := fst (Hmac.br_hmac_out (context c) hc).

Context (Hhc : length (Sha2.buf hc) = 64%nat).

(** A context with a key, and one that is fresh from [reset]. *)
Definition keyed (key : list Z) (c : SHA256HMACContext) : Prop :=
  Hmac.key_ready Sha2.br_sha256_vtable (key_context c) key /\ length (Sha2.buf (Hmac.dig (context c))) = 64%nat.
Definition fresh (key : list Z) (c : SHA256HMACContext) : Prop :=
  exists hc', length (Sha2.buf hc') = 64%nat /\ Hmac.key_ready Sha2.br_sha256_vtable (key_context c) key /\
    context c = Hmac.br_hmac_init hc' (key_context c) 32.

Lemma reset_fresh key c : keyed key c -> fresh key (reset c).
Proof. intros [Hk L]. now exists (Hmac.dig (context c)). Qed.

Lemma new_fresh key : fresh key (new key).
Proof.
  apply reset_fresh. split; [|reflexivity]. apply Hmac.key_init_ready; reflexivity || exact Hhc || Hmac.sizes.
Qed.

Lemma update_keyed key c data : fresh key c -> keyed key (update c data).
Proof.
  intros (hc' & L & Hk & E). split; [exact Hk|]. cbn [context update]. rewrite E.
  destruct (Hmac.hmac_absorbed Sha2.br_sha256_vtable ltac:(Hmac.sizes) ltac:(Hmac.sizes) (key_context c) hc' key 32 [data] Hk L)
    as (_ & _ & _ & H). exact (holds_wf _ _ H).
Qed.

Lemma update_result key c data : fresh key c -> result (update c data) = hmac_sha256 key data.
Proof.
  intros (hc' & L & Hk & E). unfold result. cbn [context update]. rewrite E.
  pose proof (Hmac.hmac_stream Sha2.br_sha256_vtable ltac:(Hmac.sizes) ltac:(Hmac.sizes) (key_context c) hc' hc key 32 [data] Hk L Hhc) as H.
  cbn [fold_left concat] in H. rewrite H, app_nil_r. cbn [fst]. apply firstn_all2. rewrite (proj1 (hmac_shape key data)). vm_compute. lia.
Qed.

End Hash.
End SHA256HMACContext.

(** * sgxsd_ffi/src/ecalls.rs *)

(** The sender of a message, until it has been answered. *)
Module SgxsdMsgFrom.
Definition SgxsdMsgFrom : Type := option sgxsd_msg_from_t.

Section From.
Context {W : Type}.

(** The new object, and [*from] afterwards. *)
Definition new (from : sgxsd_msg_from_t) : SgxsdMsgFrom * sgxsd_msg_from_t :=
  (Some {| from_valid := from_valid from; from_tag := from_tag from; from_server_key := from_server_key from |},
   {| from_valid := false; from_tag := from_tag from; from_server_key := zeros 32 |}).

Definition drop (self : SgxsdMsgFrom) : @server_prog W unit :=
  match self with
  | Some from => SNoReply _ (Some from) (fun _ _ => ret tt)
  | None => ret tt
  end.

(** [self] is consumed: what is left in it is dropped. *)
Definition reply (self : SgxsdMsgFrom) (msg : list Z) : @server_prog W (Result unit sgx_status_t) :=
  if fits_u32 msg then
    match self with
    | Some msg_from =>
        SReply _ {| mb_data := Some msg; mb_size := Z.of_nat (length msg) |} (Some msg_from) (fun res _ _ =>
          ret (if success res then Ok tt else Err res))
    | None => ret (Err SGX_ERROR_INVALID_STATE)
    end
  else do* _ := drop self in ret (Err SGX_ERROR_UNEXPECTED).

(** Nothing is sent. *)
Definition forget (self : SgxsdMsgFrom) : SgxsdMsgFrom := None.

Lemma new_copies from : fst (new from) = Some from.
Proof. now destruct from. Qed.

Lemma msg_drop_ok self : if_some from_ok self -> prog_ok (fun _ => True) (drop self).
Proof. destruct self as [from|]; cbn; auto. Qed.

Lemma msg_reply_ok self msg : if_some from_ok self -> bytes_ok msg -> prog_ok (fun _ => True) (reply self msg).
Proof.
  intros Hf Bm. unfold reply. destruct (fits_u32 msg) eqn:F.
  - destruct self as [from|]; [|exact I]. apply Z.ltb_lt in F. cbn [prog_ok]. split; [|split; [exact Hf|now cbn]].
    split; cbn [mb_size mb_data region]; [lia|split; [lia|exact Bm]].
  - eapply prog_ok_bind; [now apply msg_drop_ok|]. now cbn.
Qed.

End From.
End SgxsdMsgFrom.

(** [ECallSlice(data, size).as_ref()]; at least [size] bytes must be there. *)
Definition ECallSlice_as_ref (data : option (list Z)) (size : Z) : option (list Z) :=
  if negb (size =? 0) then match data with Some _ => load data size | None => Some [] end else Some [].

(** The trait of a server. A call returns what becomes of the server too. *)
Class SgxsdServer (W S InitArgs CallArgs TermArgs : Type) := {
  init : option InitArgs -> @server_prog W (Result S sgx_status_t);
  handle_call : S -> option CallArgs -> list Z -> SgxsdMsgFrom.SgxsdMsgFrom ->
    @server_prog W (Result unit (sgx_status_t * SgxsdMsgFrom.SgxsdMsgFrom) * S);
  terminate : S -> option TermArgs -> @server_prog W (Result unit sgx_status_t) }.

Module Ecalls.
Section Ecalls.
Context {W S InitArgs CallArgs TermArgs : Type} {SV : SgxsdServer W S InitArgs CallArgs TermArgs}.

Definition sgxsd_enclave_server_init (p_args : option InitArgs) : @server_prog W (sgx_status_t * option (option S)) :=
  do* r := init p_args in
  match r with Ok new_state => ret (SGX_SUCCESS, Some (Some new_state)) | Err err => ret (err, None) end.

(** [Box::from_raw] of a NULL pointer has no defined behaviour. *)
Definition sgxsd_enclave_server_handle_call (p_args : option CallArgs) (msg_buf : sgxsd_msg_buf_t) (from : sgxsd_msg_from_t)
  (p_state : option S) : @server_prog W (sgx_status_t * option (list Z) * option S) :=
  match p_state, ECallSlice_as_ref (mb_data msg_buf) (mb_size msg_buf) with
  | Some state, Some msg =>
      do* (r, state) := handle_call state p_args msg (fst (SgxsdMsgFrom.new from)) in
      match r with
      | Ok _ => ret (SGX_SUCCESS, mb_data msg_buf, Some state)
      | Err (error, from) => do* _ := SgxsdMsgFrom.drop (SgxsdMsgFrom.forget from) in ret (error, mb_data msg_buf, Some state)
      end
  | _, _ => undefined
  end.

Definition sgxsd_enclave_server_terminate (p_args : option TermArgs) (p_state : option S) : @server_prog W sgx_status_t :=
  match p_state with
  | Some state =>
      do* r := terminate state p_args in
      ret (match r with Ok _ => SGX_SUCCESS | Err err => err end)
  | None => undefined
  end.

End Ecalls.
End Ecalls.
