(* ===== verification/Avx.v ===== *)
(** The 256-bit vector instructions (AVX and AVX2) that the hash lookup of the service uses through
    intrinsics, with the meaning of the processor manual. A register is its four 64-bit lanes,
    lowest first. *)
From S2P Require Import Prelude Intrinsics.
From Stdlib Require Import ZArith List Lia Bool.
Import X86.

Module Avx.

Record __m256i := { q0 : Z; q1 : Z; q2 : Z; q3 : Z }.

Definition lanes2 (f : Z -> Z -> Z) (a b : __m256i) : __m256i :=
  {| q0 := f (q0 a) (q0 b); q1 := f (q1 a) (q1 b); q2 := f (q2 a) (q2 b); q3 := f (q3 a) (q3 b) |}.
Definition lanes3 (f : Z -> Z -> Z -> Z) (a b c : __m256i) : __m256i :=
  {| q0 := f (q0 a) (q0 b) (q0 c); q1 := f (q1 a) (q1 b) (q1 c); q2 := f (q2 a) (q2 b) (q2 c); q3 := f (q3 a) (q3 b) (q3 c) |}.

(** The highest lane comes first. *)
Definition _mm256_set_epi64x (e3 e2 e1 e0 : Z) : __m256i := {| q0 := u64 e0; q1 := u64 e1; q2 := u64 e2; q3 := u64 e3 |}.
Definition _mm256_set1_epi64x (a : Z) : __m256i := _mm256_set_epi64x a a a a.
Definition _mm256_setzero_si256 : __m256i := _mm256_set1_epi64x 0.

Definition _mm256_and_si256 := lanes2 Z.land.
Definition _mm256_or_si256 := lanes2 Z.lor.
Definition _mm256_xor_si256 := lanes2 Z.lxor.
Definition _mm256_add_epi64 := lanes2 (fun a b => u64 (a + b)).
Definition _mm256_cmpeq_epi64 := lanes2 (fun a b => if a =? b then 2 ^ 64 - 1 else 0).

(** Bytes of [b] where the byte of the mask has its highest bit set, of [a] elsewhere. *)
Fixpoint blend_bytes (a b mask : list Z) : list Z :=
  match a, b, mask with
  | x :: a', y :: b', m :: mask' => (if Z.testbit m 7 then y else x) :: blend_bytes a' b' mask'
  | _, _, _ => []
  end.
Definition _mm256_blendv_epi8 := lanes3 (fun a b mask => le_dec (blend_bytes (le_enc 8 a) (le_enc 8 b) (le_enc 8 mask))).

(** Lanes of [b] where the lane of the mask has its highest bit set, of [a] elsewhere. *)
Definition _mm256_blendv_pd := lanes3 (fun a b mask => if Z.testbit mask 63 then b else a).

(** 1 when no lane of the conjunction has its highest bit set. *)
Definition _mm256_testz_pd (a b : __m256i) : Z :=
  let c := _mm256_and_si256 a b in
  if Z.testbit (q0 c) 63 || Z.testbit (q1 c) 63 || Z.testbit (q2 c) 63 || Z.testbit (q3 c) 63 then 0 else 1.

Definition _mm256_extract_epi64 (a : __m256i) (i : nat) : Z := nth i [q0 a; q1 a; q2 a; q3 a] 0.

(** * Facts *)

Definition m256_ok (a : __m256i) : Prop := in_range 64 (q0 a) /\ in_range 64 (q1 a) /\ in_range 64 (q2 a) /\ in_range 64 (q3 a).

Lemma blend_bytes_ones n : forall a b, length (le_enc n a) = length (le_enc n b) ->
  blend_bytes (le_enc n a) (le_enc n b) (repeat 255 n) = le_enc n b.
Proof.
  induction n as [|n IH]; intros a b H; cbn [le_enc repeat blend_bytes]; [reflexivity|].
  cbn [le_enc length] in H. injection H as H. rewrite !length_le_enc in H. f_equal. apply IH. now rewrite !length_le_enc.
Qed.

Lemma blend_bytes_zeros n : forall a b, blend_bytes (le_enc n a) (le_enc n b) (repeat 0 n) = le_enc n a.
Proof. induction n as [|n IH]; intros a b; cbn [le_enc repeat blend_bytes]; [reflexivity|]. f_equal. apply IH. Qed.

Lemma blend_bytes_ok n : forall a b m, bytes_ok (blend_bytes (le_enc n a) (le_enc n b) (le_enc n m)) /\
  length (blend_bytes (le_enc n a) (le_enc n b) (le_enc n m)) = n.
Proof.
  induction n as [|n IH]; intros a b m; cbn [le_enc blend_bytes length]; [repeat constructor|].
  destruct (IH (a >> 8) (b >> 8) (m >> 8)) as [B L]. rewrite L. split; [|reflexivity]. constructor; [|exact B].
  destruct (Z.testbit _ 7); now apply wrap_range.
Qed.

Lemma blend_range a b m : in_range 64 (le_dec (blend_bytes (le_enc 8 a) (le_enc 8 b) (le_enc 8 m))).
Proof. destruct (blend_bytes_ok 8 a b m) as [B L]. pose proof (le_dec_range _ B) as R. now rewrite L in R. Qed.

(** With the mask of a comparison. *)
Lemma blend_lane (c : bool) a b : in_range 64 a -> in_range 64 b ->
  le_dec (blend_bytes (le_enc 8 a) (le_enc 8 b) (le_enc 8 (if c then 2 ^ 64 - 1 else 0))) = if c then b else a.
Proof.
  intros Ha Hb. destruct c.
  - change (le_enc 8 (2 ^ 64 - 1)) with (repeat 255 8). rewrite blend_bytes_ones by now rewrite !length_le_enc. now apply le_dec_enc.
  - change (le_enc 8 0) with (repeat 0 8). rewrite blend_bytes_zeros. now apply le_dec_enc.
Qed.

Lemma sign_mask (c : bool) : Z.testbit (if c then 2 ^ 64 - 1 else 0) 63 = c.
Proof. now destruct c. Qed.

(** The sign of a small difference. *)
Lemma sign_sub n k : 0 <= n < 2 ^ 62 -> 0 <= k < 2 ^ 62 -> Z.testbit (u64 (n - k)) 63 = (n <? k).
Proof.
  intros Hn Hk. assert (R : in_range 64 (u64 (n - k))) by now apply wrap_range.
  pose proof (testbit_top 64 (u64 (n - k)) ltac:(lia) R) as E. change (64 - 1) with 63 in E. rewrite E. unfold wrap.
  destruct (Z.ltb_spec n k).
  - rewrite <- (Z.mod_add _ 1) by lia. rewrite Z.mod_small by lia. apply Z.leb_le. lia.
  - rewrite Z.mod_small by lia. apply Z.leb_gt. lia.
Qed.

End Avx.
