(* ===== verification/HashLookup.v ===== *)
(** The oblivious hash lookup, src/enclave/cds_enclave/c_src/cds-enclave-hash.rs: a table of query
    phones is built, the phones of the directory are matched against it, and the results are
    collected, with memory accesses that do not depend on the query. *)
From S2P Require Import Prelude Codec Fips197 Intrinsics Avx.
From Stdlib Require Import ZArith List Lia Bool.
Import Codec Fips197 X86 Avx.

Module HashLookup.

(** * The hash *)

Definition _mm_set_epi64x (e1 e0 : Z) : Z := mk64 (u64 e0) (u64 e1).
Definition _mm_cvtsi64_si128 (a : Z) : Z := u64 a.
Definition _mm_cvtsi128_si32 (a : Z) : Z := u32 a.

Module HashKey.

(** [sk]: eleven registers. *)
Record HashKey := { sk : list Z }.

Definition expand_step128 (k k2 : Z) : Z :=
  let k := _mm_xor_si128 k (_mm_slli_si128 k 4) in
  let k := _mm_xor_si128 k (_mm_slli_si128 k 4) in
  let k := _mm_xor_si128 k (_mm_slli_si128 k 4) in
  let k2 := _mm_shuffle_epi32 k2 0xFF in
  _mm_xor_si128 k k2.

(** One assignment [self.sk[i + 1] = expand_step128(self.sk[i], ..)]. *)
Definition expand (sk : list Z) (i : nat) (rcon : Z) : list Z :=
  assign sk (i + 1) (expand_step128 (nth i sk 0) (_mm_aeskeygenassist_si128 (nth i sk 0) rcon)).

Definition set (k : HashKey) (hash_key_1 hash_key_2 : Z) : HashKey :=
  let sk := assign (sk k) 0 (_mm_set_epi64x hash_key_1 hash_key_2) in
  let sk := expand sk 0 0x01 in
  let sk := expand sk 1 0x02 in
  let sk := expand sk 2 0x04 in
  let sk := expand sk 3 0x08 in
  let sk := expand sk 4 0x10 in
  let sk := expand sk 5 0x20 in
  let sk := expand sk 6 0x40 in
  let sk := expand sk 7 0x80 in
  let sk := expand sk 8 0x1B in
  let sk := expand sk 9 0x36 in
  {| sk := sk |}.

Definition new (hash_key_1 hash_key_2 : Z) : HashKey := set {| sk := repeat 0 11 |} hash_key_1 hash_key_2.

(** The rounds of [hash]. *)
Definition hash_block (k : HashKey) (phone : Z) : Z :=
  let key i := nth i (sk k) 0 in
  let hash := _mm_cvtsi64_si128 phone in
  let hash := _mm_xor_si128 hash (key 0%nat) in
  let hash := _mm_aesenc_si128 hash (key 1%nat) in
  let hash := _mm_aesenc_si128 hash (key 2%nat) in
  let hash := _mm_aesenc_si128 hash (key 3%nat) in
  let hash := _mm_aesenc_si128 hash (key 4%nat) in
  let hash := _mm_aesenc_si128 hash (key 5%nat) in
  let hash := _mm_aesenc_si128 hash (key 6%nat) in
  let hash := _mm_aesenc_si128 hash (key 7%nat) in
  let hash := _mm_aesenc_si128 hash (key 8%nat) in
  let hash := _mm_aesenc_si128 hash (key 9%nat) in
  _mm_aesenclast_si128 hash (key 10%nat).

Definition hash (k : HashKey) (phone hash_table_order : Z) : Z :=
  _mm_cvtsi128_si32 (hash_block k phone) .& u32 (u32 (1 << hash_table_order) - 1).

End HashKey.

(** * Tables *)

Definition CHAIN_BLOCK_COUNT : Z := 4.
Definition CHAIN_BLOCK_PHONE_COUNT : Z := 32 / 8.
Definition CHAIN_PHONE_COUNT : Z := CHAIN_BLOCK_COUNT * CHAIN_BLOCK_PHONE_COUNT.
Definition CACHE_LINE_SIZE : Z := 32.

(** [u64::MAX as i64]. *)
Definition UINT64_MAX : Z := -1.

(** [data64[0]] and [data64[1]]. *)
Definition uuid_t : Type := Z * Z.
Definition uuid_default : uuid_t := (0, 0).

(** Four blocks; the results have a block for each half of a UUID. *)
Definition HashSlot : Type := list __m256i.
Definition HashSlotResult : Type := list (__m256i * __m256i).

Inductive CdsHashLookupError := InvalidParameter | RdRand | HashTableOverflow.

Definition CDS_HASH_LOOKUP_SUCCESS : Z := 0.
Definition CDS_HASH_LOOKUP_ERROR_INVALID_PARAMETER : Z := 1.
Definition CDS_HASH_LOOKUP_ERROR_RDRAND : Z := 2.
Definition CDS_HASH_LOOKUP_ERROR_HASH_TABLE_OVERFLOW : Z := 3.

Definition error_code (e : CdsHashLookupError) : Z :=
  match e with
  | InvalidParameter => CDS_HASH_LOOKUP_ERROR_INVALID_PARAMETER
  | RdRand => CDS_HASH_LOOKUP_ERROR_RDRAND
  | HashTableOverflow => CDS_HASH_LOOKUP_ERROR_HASH_TABLE_OVERFLOW
  end.

Definition block (l : list __m256i) (i : nat) : __m256i := nth i l _mm256_setzero_si256.

(** * Matching a phone of the directory *)

Definition hash_phone_chain_block (chain_results : HashSlotResult) (in_uuid_blocks : __m256i * __m256i) (chain_eq : list __m256i)
  (chain_block_idx : nat) : HashSlotResult :=
  let dummy_write_mask := _mm256_set_epi64x 0 0 0 UINT64_MAX in
  let update chain_result in_uuid_block :=
    _mm256_blendv_epi8 (_mm256_xor_si256 chain_result dummy_write_mask) in_uuid_block (block chain_eq chain_block_idx) in
  let '(r0, r1) := nth chain_block_idx chain_results (_mm256_setzero_si256, _mm256_setzero_si256) in
  assign chain_results chain_block_idx (update r0 (fst in_uuid_blocks), update r1 (snd in_uuid_blocks)).

(** [None]: an index outside the table. *)
Definition hash_phone (in_phone : Z) (in_uuid : uuid_t) (hash_key : HashKey.HashKey) (hash_table_order : Z) (hash_slots : list HashSlot)
  (hash_slot_results : list HashSlotResult) : option (list HashSlotResult) :=
  let chain_block_dummy_mask := _mm256_set_epi64x 0 0 0 UINT64_MAX in
  let in_phone_block := _mm256_or_si256 (_mm256_set1_epi64x in_phone) chain_block_dummy_mask in
  let in_phone_hash_slot_idx := Z.to_nat (HashKey.hash hash_key in_phone hash_table_order) in
  let? hash_slot := nth_error hash_slots in_phone_hash_slot_idx in
  let chain_eq := map (fun i => _mm256_cmpeq_epi64 in_phone_block (block hash_slot i)) [0; 1; 2; 3]%nat in
  let in_uuid_blocks := (_mm256_set1_epi64x (fst in_uuid), _mm256_set1_epi64x (snd in_uuid)) in
  let? chain_results := nth_error hash_slot_results in_phone_hash_slot_idx in
  let chain_results := hash_phone_chain_block chain_results in_uuid_blocks chain_eq 0 in
  let chain_results := hash_phone_chain_block chain_results in_uuid_blocks chain_eq 1 in
  let chain_results := hash_phone_chain_block chain_results in_uuid_blocks chain_eq 2 in
  let chain_results := hash_phone_chain_block chain_results in_uuid_blocks chain_eq 3 in
  Some (assign hash_slot_results in_phone_hash_slot_idx chain_results).

(** * Building the table *)

(** The registers of the loop over the query phones. *)
Record chain := { chain_blocks : list __m256i; chain_block_masks : list __m256i; chain_idx : Z }.

Definition chain_start : chain := {|
  chain_blocks := repeat _mm256_setzero_si256 4;
  chain_block_masks :=
    [_mm256_set_epi64x (UINT64_MAX - 0) (UINT64_MAX - 1) (UINT64_MAX - 2) 0;
     _mm256_set_epi64x (UINT64_MAX - 3) (UINT64_MAX - 4) (UINT64_MAX - 5) 0;
     _mm256_set_epi64x (UINT64_MAX - 6) (UINT64_MAX - 7) (UINT64_MAX - 8) 0;
     _mm256_set_epi64x (UINT64_MAX - 9) (UINT64_MAX - 10) (UINT64_MAX - 11) 0];
  chain_idx := 0 |}.

(** The blocks, each blended with [b] where its mask is negative. *)
Definition blend_chain (c : chain) (b : __m256i) : list __m256i :=
  map (fun i => _mm256_blendv_pd (block (chain_blocks c) i) b (block (chain_block_masks c) i)) [0; 1; 2; 3]%nat.

Definition chain_insert (hash_key : HashKey.HashKey) (hash_table_order hash_slot_idx : Z) (c : chain) (ab_phone : Z) : chain :=
  let ab_phone_block := _mm256_set1_epi64x ab_phone in
  let ab_phone_hash_slot_idx := HashKey.hash hash_key ab_phone hash_table_order in
  let hash_slot_matches := (u64 ((ab_phone_hash_slot_idx .^ hash_slot_idx) - 1) >> (4 * 8)) .& 1 in
  let chain_eq := _mm256_cmpeq_epi64 ab_phone_block (block (chain_blocks c) 0) in
  let chain_eq := _mm256_or_si256 chain_eq (_mm256_cmpeq_epi64 ab_phone_block (block (chain_blocks c) 1)) in
  let chain_eq := _mm256_or_si256 chain_eq (_mm256_cmpeq_epi64 ab_phone_block (block (chain_blocks c) 2)) in
  let chain_eq := _mm256_or_si256 chain_eq (_mm256_cmpeq_epi64 ab_phone_block (block (chain_blocks c) 3)) in
  let phone_not_in_chain := negb (_mm256_testz_pd chain_eq chain_eq =? 0) in
  let should_insert_phone := hash_slot_matches .& Z.b2z phone_not_in_chain in
  {| chain_blocks := blend_chain c ab_phone_block;
     chain_block_masks := map (fun i => _mm256_add_epi64 (block (chain_block_masks c) i) (_mm256_set1_epi64x should_insert_phone)) [0; 1; 2; 3]%nat;
     chain_idx := u32 (chain_idx c + should_insert_phone) |}.

(** One slot, and whether its chain has overflowed. *)
Definition build_slot (hash_key : HashKey.HashKey) (hash_table_order : Z) (ab_phones : list Z) (hash_slot_idx : Z) : HashSlot * bool :=
  let c := fold_left (chain_insert hash_key hash_table_order hash_slot_idx) ab_phones chain_start in
  let dummy_block := _mm256_set1_epi64x UINT64_MAX in
  (blend_chain c dummy_block, CHAIN_PHONE_COUNT <? chain_idx c).

(** The loop over the slots. *)
Definition build_slots (hash_key : HashKey.HashKey) (hash_table_order : Z) (ab_phones : list Z) (hash_slots_count : nat) : list HashSlot * bool :=
  let slots := map (fun i => build_slot hash_key hash_table_order ab_phones (Z.of_nat i)) (seq 0 hash_slots_count) in
  (map fst slots, existsb snd slots).

(** * Collecting the results *)

Definition half (uuid_data64_idx : nat) (r : __m256i * __m256i) : __m256i := if (uuid_data64_idx =? 0)%nat then fst r else snd r.

Definition hash_slot_collect_result (chain_results : HashSlotResult) (chain_eq : list __m256i) (uuid_data64_idx : nat) : Z :=
  let result i := half uuid_data64_idx (nth i chain_results (_mm256_setzero_si256, _mm256_setzero_si256)) in
  let chain_result := _mm256_setzero_si256 in
  let chain_result := _mm256_blendv_epi8 chain_result (result 0%nat) (block chain_eq 0) in
  let chain_result := _mm256_blendv_epi8 chain_result (result 1%nat) (block chain_eq 1) in
  let chain_result := _mm256_blendv_epi8 chain_result (result 2%nat) (block chain_eq 2) in
  let chain_result := _mm256_blendv_epi8 chain_result (result 3%nat) (block chain_eq 3) in
  _mm256_extract_epi64 chain_result 0 .| _mm256_extract_epi64 chain_result 1 .| _mm256_extract_epi64 chain_result 2 .|
    _mm256_extract_epi64 chain_result 3.

(** The loop over the slots for one query phone. *)
Definition collect_result (hash_slots : list HashSlot) (hash_slot_results : list HashSlotResult) (ab_phone : Z) : uuid_t :=
  let chain_block_non_dummy_mask := _mm256_set_epi64x UINT64_MAX UINT64_MAX UINT64_MAX 0 in
  let ab_phone_block := _mm256_set1_epi64x ab_phone in
  fold_left (fun ab_phone_result '(hash_slot, chain_results) =>
    let chain_eq := map (fun i => _mm256_cmpeq_epi64 ab_phone_block (_mm256_and_si256 (block hash_slot i) chain_block_non_dummy_mask)) [0; 1; 2; 3]%nat in
    (fst ab_phone_result .| hash_slot_collect_result chain_results chain_eq 0,
     snd ab_phone_result .| hash_slot_collect_result chain_results chain_eq 1))
    (combine hash_slots hash_slot_results) uuid_default.

Definition uuid_bytes (u : uuid_t) : list Z := br_enc64le (fst u) ++ br_enc64le (snd u).

(** New dummy values for the temporary tables. *)
Definition erase_results (hash_slot_results : list HashSlotResult) : list HashSlotResult :=
  let chain_block_dummy_mask := _mm256_set_epi64x 0 0 0 UINT64_MAX in
  let erase r := _mm256_xor_si256 (_mm256_and_si256 r chain_block_dummy_mask) chain_block_dummy_mask in
  map (map (fun '(r0, r1) => (erase r0, erase r1))) hash_slot_results.
Definition erase_slots (hash_slots : list HashSlot) : list HashSlot := map (fun _ => repeat _mm256_setzero_si256 4) hash_slots.

#[local] Opaque HashKey.hash_block.

(** The slot is the low bits of the block. *)
Lemma hash_bits hash_key order p : 0 <= order < 32 -> HashKey.hash hash_key p order = HashKey.hash_block hash_key p mod 2 ^ order.
Proof.
  intros Horder. unfold HashKey.hash.
  assert (E : u32 (u32 (1 << order) - 1) = Z.ones order).
  { rewrite Z.shiftl_1_l, Z.ones_equiv. assert (0 < 2 ^ order < 2 ^ 32) by (split; [lia|apply Z.pow_lt_mono_r; lia]).
    rewrite (wrap_small 32 (2 ^ order)) by (unfold in_range; lia). rewrite wrap_small by (unfold in_range; lia). lia. }
  unfold _mm_cvtsi128_si32. generalize (HashKey.hash_block hash_key p). intros x. rewrite E, <- Z.land_ones by lia. zbits.
Qed.

End HashLookup.
