(* ===== verification/HashAes.v ===== *)
(** The hash of the lookup is AES-128: the vector code of [HashKey] in HashLookup.v against FIPS 197. *)
From S2P Require Import Prelude Fips197 Intrinsics Aes AesCtr HashLookup.
From Stdlib Require Import ZArith List Lia Bool.
Import Fips197 X86 Aes AesCtr HashLookup.

Module HashAes.

(** One step of the schedule. *)
Definition step (rcon k : Z) : Z := Aes.expand_step128 k (_mm_aeskeygenassist_si128 k rcon).

Lemma expand_step sk i rcon : HashKey.expand sk i rcon = assign sk (i + 1) (step rcon (nth i sk 0)).
Proof. reflexivity. Qed.

Lemma KEXP128_step i rcon sk k : KEXP128 i rcon (sk, k) = (put sk i (step rcon k), step rcon k).
Proof. reflexivity. Qed.

Lemma step_range rcon k : in_range 128 k -> in_range 128 (step rcon k).
Proof.
  intros Hk. unfold step, Aes.expand_step128, _mm_xor_si128, _mm_slli_si128.
  repeat (apply lxor_range; [lia| |]); try exact Hk; try (now apply wrap_range).
  unfold _mm_shuffle_epi32. apply (mk128_range _ _ _ _ 0 0 0 0); first [apply dw_range | unfold in_range; lia].
Qed.

#[local] Opaque step.

Lemma set_range k1 k2 : in_range 128 (_mm_set_epi64x k1 k2).
Proof.
  unfold _mm_set_epi64x, mk64. apply lor_range; [lia|apply (range_weaken 64); [lia|now apply wrap_range]|].
  pose proof (wrap_range 64 k1 ltac:(lia)) as [H0 H1]. rewrite Z.shiftl_mul_pow2 by lia. unfold in_range. lia.
Qed.

Lemma set_bytes k1 k2 : le_enc 16 (_mm_set_epi64x k1 k2) = le_enc 8 k2 ++ le_enc 8 k1.
Proof.
  change 16%nat with (8 + 8)%nat. rewrite le_enc_app. unfold _mm_set_epi64x, mk64. f_equal.
  - cbn [le_enc]. repeat (f_equal; [zbits|]). f_equal. zbits.
  - cbn [le_enc]. repeat (f_equal; [zbits|]). f_equal. zbits.
Qed.

(** The eleven registers. *)
Lemma new_steps k1 k2 : let x := _mm_set_epi64x k1 k2 in
  HashKey.sk (HashKey.new k1 k2) = fold_left (fun l rcon => l ++ [step rcon (last l 0)]) [1; 2; 4; 8; 16; 32; 64; 128; 27; 54] [x].
Proof. intros x. unfold HashKey.new, HashKey.set. fold x. cbv zeta. rewrite !expand_step. reflexivity. Qed.

Lemma new_range k1 k2 : Forall (in_range 128) (HashKey.sk (HashKey.new k1 k2)) /\ length (HashKey.sk (HashKey.new k1 k2)) = 11%nat.
Proof.
  rewrite new_steps. cbn [fold_left app last length]. split; [|reflexivity]. repeat constructor; repeat apply step_range; apply set_range.
Qed.

Lemma new_keysched k1 k2 : let x := _mm_set_epi64x k1 k2 in
  HashKey.sk (HashKey.new k1 k2) ++ repeat 0 4 = fst (x86ni_keysched (repeat 0 15) (le_enc 16 x) 16).
Proof.
  intros x. assert (E : _mm_loadu_si128 (le_enc 16 x) = x).
  { pose proof (load_store x [] (set_range k1 k2)) as E. now rewrite app_nil_r in E. }
  unfold x86ni_keysched. cbn [Z.eqb Pos.eqb]. rewrite E. cbv zeta. rewrite !KEXP128_step. cbn [fst].
  rewrite new_steps. reflexivity.
Qed.

(** The round keys of FIPS 197. *)
Lemma new_round_keys k1 k2 : HashKey.sk (HashKey.new k1 k2) = map le_dec (round_keys (le_enc 16 (_mm_set_epi64x k1 k2))).
Proof.
  set (key := le_enc 16 (_mm_set_epi64x k1 k2)). assert (L : length key = (4 * 4)%nat) by apply length_le_enc.
  destruct (scheduled_keys _ _ _ (keysched_scheduled (repeat 0 15) key 4 eq_refl L (le_enc_ok _ _) (or_introl eq_refl))) as (regs & E & <- & Lr).
  rewrite L in E. pose proof (new_keysched k1 k2) as N. cbv zeta in N. fold key in N. change 16 with (Z.of_nat (4 * 4)) in N. rewrite E in N. cbn [fst] in N.
  destruct (new_range k1 k2) as [R Ln]. apply (f_equal (firstn 11)) in N.
  rewrite !firstn_app, Lr, Ln, !Nat.sub_diag, !firstn_O, !app_nil_r, !firstn_all2 in N by lia. rewrite <- N, map_map.
  clear - R. induction R as [|x l Hx _ IH]; cbn [map]; [reflexivity|]. f_equal; [|exact IH].
  unfold _mm_storeu_si128. symmetry. now apply le_dec_enc.
Qed.

#[local] Opaque _mm_aesenc_si128 _mm_aesenclast_si128 _mm_xor_si128 round_keys.

Lemma hash_block_rounds k phone : length (HashKey.sk k) = 11%nat -> in_range 64 phone ->
  HashKey.hash_block k phone = rounds1 (Z.of_nat (4 + 6)) (HashKey.sk k ++ []) phone.
Proof.
  intros L Hp. rewrite rounds1_fold by (now left || exact L). unfold HashKey.hash_block, _mm_cvtsi64_si128. rewrite wrap_small by exact Hp.
  destruct k as [sk]. cbn [HashKey.sk] in *. explode sk. reflexivity.
Qed.

(** The hash of a phone is AES-128 of the phone under the drawn key, cut to the size of the
    table: its slot is the low bits of the block. *)
Theorem hash_is_aes k1 k2 phone order : in_range 64 phone -> 0 <= order < 32 ->
  HashKey.hash (HashKey.new k1 k2) phone order
  = le_dec (Cipher (le_enc 8 k2 ++ le_enc 8 k1) (le_enc 16 phone)) mod 2 ^ order.
Proof.
  intros Hp Ho. rewrite hash_bits by exact Ho. destruct (new_range k1 k2) as [_ L]. rewrite hash_block_rounds by assumption.
  rewrite new_round_keys. rewrite set_bytes. f_equal.
  assert (Ep : le_dec (le_enc 16 phone) = phone) by (apply le_dec_enc; apply (range_weaken 64); [lia|exact Hp]).
  destruct (round_keys_b16 (le_enc 8 k2 ++ le_enc 8 k1) 4) as [B Lk]; [now rewrite length_app, !length_le_enc| |now left|].
  { apply Forall_app. split; apply le_enc_ok. }
  destruct (rounds1_cipher 4 _ [] (le_enc 16 phone) (or_introl eq_refl) Lk B) as [E _]; [split; [apply length_le_enc|apply le_enc_ok]|].
  rewrite Ep in E. exact E.
Qed.

Lemma hash_is_aes_witness : HashKey.hash (HashKey.new 1 2) 15558275309 5
  = le_dec (Cipher (le_enc 8 2 ++ le_enc 8 1) (le_enc 16 15558275309)) mod 32.
Proof. apply (hash_is_aes 1 2 15558275309 5); unfold in_range; lia. Defined.

End HashAes.
