(* ===== verification/HashTable.v ===== *)
(** The hash lookup is a lookup: what the vector code of HashLookup.v computes, in terms of lists and
    of a directory of phones. *)
From S2P Require Import Prelude Codec Intrinsics Avx HashLookup.
From Stdlib Require Import ZArith List Lia Bool Btauto.
Import Codec X86 Avx HashLookup.

Module HashTable.

#[local] Opaque HashKey.hash_block.

Lemma lanes_ext a b : q0 a = q0 b -> q1 a = q1 b -> q2 a = q2 b -> q3 a = q3 b -> a = b.
Proof. destruct a, b. cbn. congruence. Qed.

Section Table.
Context (hash_key : HashKey.HashKey) (order : Z).
Abbreviation h p := (HashKey.hash hash_key p order).

(** ** One chain *)

(** The chain of the phones of one slot: twelve places, filled in the order of insertion. *)
Definition CAPACITY : nat := 12.
Definition mem (p : Z) (l : list Z) : bool := existsb (Z.eqb p) l.

Definition insert (slot : Z) (s : list Z * Z) (p : Z) : list Z * Z :=
  let '(kept, n) := s in
  if (h p =? slot) && negb (p =? 0) && negb (mem p kept)
  then (if (length kept <? CAPACITY)%nat then kept ++ [p] else kept, n + 1) else s.

Definition inserted (slot : Z) (ab_phones : list Z) : list Z * Z := fold_left (insert slot) ab_phones ([], 0).

(** Places from the highest lane of the first block; the lowest lane of a block is unused. *)
Definition lane_blocks (v : nat -> Z) : list __m256i :=
  map (fun b => {| q0 := 0; q1 := v (3 * b + 2)%nat; q2 := v (3 * b + 1)%nat; q3 := v (3 * b)%nat |}) [0; 1; 2; 3]%nat.
Definition lane_masks (n : Z) : list __m256i :=
  map (fun b => {| q0 := u64 n; q1 := u64 (n - (3 * b + 3)); q2 := u64 (n - (3 * b + 2)); q3 := u64 (n - (3 * b + 1)) |}) [0; 1; 2; 3].

(** The registers after [n] insertions; [t] is the phone processed last. *)
Definition represents (c : chain) (s : list Z * Z) (t : Z) : Prop :=
  chain_blocks c = lane_blocks (fun k => nth k (fst s) t) /\ chain_block_masks c = lane_masks (snd s) /\ chain_idx c = snd s /\
  Z.of_nat (length (fst s)) = Z.min (snd s) 12.

Lemma slot_matches i j : in_range 32 i -> in_range 32 j -> (u64 ((i .^ j) - 1) >> (4 * 8)) .& 1 = Z.b2z (i =? j).
Proof.
  intros Hi Hj. destruct (Z.eqb_spec i j) as [->|Hn].
  - now rewrite Z.lxor_nilpotent.
  - pose proof (lxor_range 32 i j ltac:(lia) Hi Hj) as [R0 R1]. assert (i .^ j <> 0) by now rewrite Z.lxor_eq_0_iff.
    rewrite wrap_small by (unfold in_range; lia). change (4 * 8) with 32.
    rewrite Z.shiftr_div_pow2, Z.div_small by lia. reflexivity.
Qed.

Lemma blend_place n k kept (t p : Z) : 0 <= n < 2 ^ 62 -> (k < 12)%nat -> Z.of_nat (length kept) = Z.min n 12 ->
  (if Z.testbit (u64 (n - (Z.of_nat k + 1))) 63 then p else nth k kept t) = nth k kept p.
Proof.
  intros Hn Hk L. rewrite sign_sub by lia. destruct (Z.ltb_spec n (Z.of_nat k + 1)).
  - now rewrite nth_overflow by lia.
  - apply nth_indep. lia.
Qed.

Lemma blend_unused n p : 0 <= n < 2 ^ 62 -> (if Z.testbit (u64 n) 63 then p else 0) = 0.
Proof. intros Hn. replace n with (n - 0) at 1 by lia. rewrite sign_sub by lia. destruct (Z.ltb_spec n 0); [lia|reflexivity]. Qed.

(** Blending fills the free places. *)
Lemma blend_represents c s t b p : represents c s t -> 0 <= snd s < 2 ^ 62 -> b = _mm256_set1_epi64x p ->
  blend_chain c b = lane_blocks (fun k => nth k (fst s) (u64 p)).
Proof.
  intros (Eb & Em & _ & L) Hn ->. unfold blend_chain. rewrite Eb, Em. unfold lane_blocks, lane_masks, block. cbn [map nth].
  pose proof (fun k Hk => blend_place (snd s) k (fst s) t (u64 p) Hn Hk L) as E.
  repeat f_equal; apply lanes_ext; cbn [_mm256_blendv_pd lanes3 _mm256_set1_epi64x _mm256_set_epi64x q0 q1 q2 q3];
    first [now apply blend_unused | match goal with |- _ = nth ?k _ _ => rewrite <- (E k) by lia; reflexivity end].
Qed.

Lemma not_in_chain v p :
  let blocks := lane_blocks v in
  let eq := _mm256_or_si256 (_mm256_or_si256 (_mm256_or_si256 (_mm256_cmpeq_epi64 (_mm256_set1_epi64x p) (block blocks 0))
    (_mm256_cmpeq_epi64 (_mm256_set1_epi64x p) (block blocks 1))) (_mm256_cmpeq_epi64 (_mm256_set1_epi64x p) (block blocks 2)))
    (_mm256_cmpeq_epi64 (_mm256_set1_epi64x p) (block blocks 3)) in
  negb (_mm256_testz_pd eq eq =? 0) = negb ((u64 p =? 0) || existsb (fun k => u64 p =? v k) (seq 0 12)).
Proof.
  cbv zeta. unfold _mm256_testz_pd, block, lane_blocks, _mm256_and_si256, _mm256_or_si256, _mm256_cmpeq_epi64, lanes2, _mm256_set1_epi64x, _mm256_set_epi64x.
  cbn [map nth q0 q1 q2 q3 seq existsb]. rewrite !Z.land_diag, !Z.lor_spec, !sign_mask.
  cbn [Nat.mul Nat.add].
  match goal with |- negb ((if ?b then 0 else 1) =? 0) = negb ?c => assert (E : b = c); [|now rewrite E; destruct c] end.
  rewrite !orb_false_r, !orb_assoc. btauto.
Qed.

Lemma nth_snoc k (l : list Z) p : nth k (l ++ [p]) p = nth k l p.
Proof.
  destruct (Nat.lt_ge_cases k (length l)); [now apply app_nth1|]. rewrite app_nth2, (nth_overflow l) by lia.
  destruct (k - length l)%nat as [|[|]]; reflexivity.
Qed.

Lemma existsb_map {A B} (f : B -> bool) (g : A -> B) l : existsb f (map g l) = existsb (fun x => f (g x)) l.
Proof. induction l; cbn; congruence. Qed.

Lemma existsb_same {A} (f g : A -> bool) l : (forall x, f x = g x) -> existsb f l = existsb g l.
Proof. intros H. induction l; cbn; congruence. Qed.

(** The places hold the phones kept, and the last one in the free places. *)
Lemma places f (t : Z) m : forall l, (length l <= m)%nat ->
  existsb (fun k => f (nth k l t)) (seq 0 m) = existsb f l || ((length l <? m)%nat && f t).
Proof.
  induction m as [|m IH]; intros l L.
  - destruct l; [reflexivity|cbn in L; lia].
  - cbn [seq existsb]. rewrite <- seq_shift, existsb_map. destruct l as [|x l]; cbn [nth existsb length].
    + specialize (IH [] ltac:(cbn; lia)). cbn [length existsb] in IH.
      rewrite (existsb_same _ (fun k => f (nth k [] t))) by now intros []. rewrite IH. destruct m, (f t); reflexivity.
    + rewrite IH by (cbn in L; lia). now rewrite orb_assoc.
Qed.

(** A phone that is in a free place belongs elsewhere, or is kept, or is no phone. *)
Definition settled (slot : Z) (s : list Z * Z) (t : Z) : Prop :=
  (length (fst s) < 12)%nat -> h t = slot -> t = 0 \/ mem t (fst s) = true.

Context (Horder : 0 <= order < 32).

Lemma hash_range p : 0 <= h p < 2 ^ order.
Proof.
  rewrite hash_bits by exact Horder. generalize (HashKey.hash_block hash_key p). intros x. apply Z.mod_pos_bound. lia.
Qed.

Lemma hash_range32 p : in_range 32 (h p).
Proof.
  pose proof (hash_range p). assert (2 ^ order <= 2 ^ 32) by (apply Z.pow_le_mono_r; lia). unfold in_range. lia.
Qed.

Lemma masks_add n d : map (fun i => _mm256_add_epi64 (block (lane_masks n) i) (_mm256_set1_epi64x d)) [0; 1; 2; 3]%nat = lane_masks (n + d).
Proof.
  unfold lane_masks, block. cbn [map nth]. repeat f_equal; apply lanes_ext;
    cbn [_mm256_add_epi64 lanes2 _mm256_set1_epi64x _mm256_set_epi64x q0 q1 q2 q3]; rewrite wrap_add_l, wrap_add_r; f_equal; lia.
Qed.

Lemma insert_represents c s t slot p : in_range 32 slot -> in_range 64 p -> 0 <= snd s < 2 ^ 31 -> represents c s t -> settled slot s t ->
  represents (chain_insert hash_key order slot c p) (insert slot s p) p.
Proof.
  intros Hslot Hp Hn Hr Hs. pose proof (blend_represents c s t _ p Hr ltac:(lia) eq_refl) as Eb. rewrite wrap_small in Eb by exact Hp.
  destruct Hr as (Ec & Em & Ei & L). destruct s as [kept n]. cbn [fst snd] in *.
  set (b := (h p =? slot) && negb (p =? 0) && negb (mem p kept)).
  assert (E : ((u64 ((h p .^ slot) - 1) >> (4 * 8)) .& 1) .&
    Z.b2z (negb ((u64 p =? 0) || existsb (fun k => u64 p =? nth k kept t) (seq 0 12))) = Z.b2z b).
  { rewrite slot_matches, wrap_small by (exact Hp || apply hash_range32 || exact Hslot). rewrite (places (Z.eqb p)) by lia. fold (mem p kept).
    unfold b. destruct (Z.eqb_spec (h p) slot) as [<-|]; [|reflexivity]. destruct (Z.eqb_spec p 0) as [->|Hz]; [reflexivity|].
    destruct (mem p kept) eqn:Ep; [reflexivity|]. cbn [orb]. destruct (Nat.ltb_spec (length kept) 12) as [Hl|]; [|reflexivity].
    destruct (Z.eqb_spec p t) as [->|]; [|reflexivity]. destruct (Hs Hl eq_refl); cbn [fst] in *; congruence. }
  unfold represents, chain_insert. cbn [chain_blocks chain_block_masks chain_idx]. rewrite Ec, Em, Ei, Eb, not_in_chain, E, masks_add.
  unfold insert. fold b. rewrite wrap_small by (destruct b; cbn; unfold in_range; lia).
  destruct b; cbn [Z.b2z fst snd]; [|rewrite Z.add_0_r; repeat split; assumption].
  repeat split.
  - destruct (Nat.ltb_spec (length kept) CAPACITY); [|reflexivity]. unfold lane_blocks. cbn [map]. now rewrite !nth_snoc.
  - destruct (Nat.ltb_spec (length kept) CAPACITY); unfold CAPACITY in *; [rewrite length_app; cbn [length]|]; lia.
Qed.

Lemma insert_settled slot s p : settled slot (insert slot s p) p.
Proof.
  destruct s as [kept n]. unfold settled, insert. destruct (Z.eqb_spec (h p) slot) as [E|E]; [|now intros _ H].
  destruct (Z.eqb_spec p 0) as [->|]; cbn [negb andb]; [auto|]. destruct (mem p kept) eqn:Em; cbn [negb fst]; [auto|].
  unfold CAPACITY. destruct (Nat.ltb_spec (length kept) 12); cbn [fst]; [|lia]. intros _ _. right. unfold mem.
  rewrite existsb_app. cbn. now rewrite Z.eqb_refl, orb_true_r.
Qed.

Lemma insert_count slot s p : snd s <= snd (insert slot s p) <= snd s + 1.
Proof. destruct s as [kept n]. unfold insert. destruct (_ && _); cbn [snd]; lia. Qed.

Lemma inserts_represent slot ps : in_range 32 slot -> Forall (in_range 64) ps -> forall c s t, represents c s t -> settled slot s t ->
  0 <= snd s -> snd s + Z.of_nat (length ps) < 2 ^ 31 ->
  exists t', represents (fold_left (chain_insert hash_key order slot) ps c) (fold_left (insert slot) ps s) t'.
Proof.
  intros Hslot Hps. induction Hps as [|p ps Hp Hps IH]; intros c s t Hr Hs H0 Hn; cbn [fold_left length] in *; [now exists t|].
  pose proof (insert_count slot s p). apply (IH _ _ p); [|apply insert_settled|lia..].
  eapply insert_represents; [exact Hslot|exact Hp|lia|exact Hr|exact Hs].
Qed.

(** A slot of the table: the phones kept, and all ones in the free places. *)
Lemma build_slot_spec slot ps : in_range 32 slot -> Forall (in_range 64) ps -> Z.of_nat (length ps) < 2 ^ 31 ->
  build_slot hash_key order ps slot =
  (lane_blocks (fun k => nth k (fst (inserted slot ps)) (2 ^ 64 - 1)), 16 <? snd (inserted slot ps)).
Proof.
  intros Hslot Hps Hn. unfold build_slot, inserted.
  destruct (inserts_represent slot ps Hslot Hps chain_start ([], 0) 0) as (t & Hr); [repeat split|now left|cbn; lia..|].
  assert (B : 0 <= snd (fold_left (insert slot) ps ([], 0)) < 2 ^ 31).
  { assert (G : forall l s, snd s <= snd (fold_left (insert slot) l s) <= snd s + Z.of_nat (length l)).
    { induction l as [|p l IH]; intros s; cbn [fold_left length]; [lia|]. pose proof (insert_count slot s p). specialize (IH (insert slot s p)). lia. }
    specialize (G ps ([], 0)). cbn [snd] in G. lia. }
  rewrite (blend_represents _ _ t _ UINT64_MAX Hr) by (lia || reflexivity). destruct Hr as (_ & _ & -> & _). reflexivity.
Qed.

(** ** Which phones are kept *)

Definition wanted (slot : Z) (p : Z) : bool := (h p =? slot) && negb (p =? 0).

Lemma mem_spec p l : mem p l = true <-> In p l.
Proof.
  unfold mem. rewrite existsb_exists. split.
  - intros (x & Hx & E). apply Z.eqb_eq in E. now subst.
  - intros H. exists p. now rewrite Z.eqb_refl.
Qed.

(** What holds of a chain after the phones [ps]: it keeps different phones that belong to the slot,
    all of them unless there are more than twelve. *)
Record kept_ok (slot : Z) (ps : list Z) (s : list Z * Z) : Prop := {
  kept_nodup : NoDup (fst s);
  kept_wanted p : In p (fst s) -> wanted slot p = true /\ In p ps;
  kept_count : Z.of_nat (length (fst s)) = Z.min (snd s) 12;
  kept_all p : snd s <= 12 -> In p ps -> wanted slot p = true -> In p (fst s);
  kept_more : 12 < snd s -> exists p, In p ps /\ wanted slot p = true /\ ~ In p (fst s) }.

Lemma insert_kept slot ps s p : kept_ok slot ps s -> kept_ok slot (ps ++ [p]) (insert slot s p).
Proof.
  intros [K1 K2 K3 K4 K5]. destruct s as [kept n]. cbn [fst snd] in *. unfold insert. fold (wanted slot p).
  assert (In_snoc : forall q, In q (ps ++ [p]) <-> In q ps \/ q = p).
  { intros q. rewrite in_app_iff. cbn. intuition. }
  destruct (wanted slot p) eqn:Ew; cbn [andb]; [destruct (mem p kept) eqn:Em; cbn [negb]|].
  - apply mem_spec in Em. split; cbn [fst snd]; try assumption.
    + intros q Hq. rewrite In_snoc. split; [|left]; now apply K2.
    + intros q Hn Hq. rewrite In_snoc in Hq. destruct Hq as [Hq| ->]; auto.
    + intros Hn. destruct (K5 Hn) as (q & H1 & H2 & H3). exists q. rewrite In_snoc. auto.
  - assert (Hm : ~ In p kept) by (rewrite <- mem_spec, Em; discriminate). unfold CAPACITY.
    destruct (Nat.ltb_spec (length kept) 12); split; cbn [fst snd].
    + apply NoDup_app; [assumption|repeat constructor; auto|]. intros q Hq [<-|[]]. contradiction.
    + intros q Hq. rewrite In_snoc. apply in_app_iff in Hq. destruct Hq as [Hq|[<-|[]]]; [|auto]. destruct (K2 q Hq). auto.
    + rewrite length_app. cbn [length]. lia.
    + intros q Hn Hq Hw. rewrite In_snoc in Hq. apply in_app_iff. destruct Hq as [Hq| ->]; [left; apply K4; auto; lia|right; now left].
    + lia.
    + assumption.
    + intros q Hq. rewrite In_snoc. split; [|left]; now apply K2.
    + lia.
    + lia.
    + intros _. exists p. rewrite In_snoc. auto.
  - split; cbn [fst snd]; try assumption.
    + intros q Hq. rewrite In_snoc. split; [|left]; now apply K2.
    + intros q Hn Hq Hw. rewrite In_snoc in Hq. destruct Hq as [Hq| ->]; [auto|congruence].
    + intros Hn. destruct (K5 Hn) as (q & H1 & H2 & H3). exists q. rewrite In_snoc. auto.
Qed.

Lemma inserted_kept slot ps : kept_ok slot ps (inserted slot ps).
Proof.
  unfold inserted. induction ps as [|p ps IH] using rev_ind.
  - split; cbn; try lia; try easy. constructor.
  - rewrite fold_left_app. now apply insert_kept.
Qed.

(** ** Matching the directory *)

(** The results of a slot: [u k] for place [k], and [d] in the unused lanes. *)
Definition result_half (d : Z) (v : nat -> Z) (b : nat) : __m256i :=
  {| q0 := d; q1 := v (3 * b + 2)%nat; q2 := v (3 * b + 1)%nat; q3 := v (3 * b)%nat |}.
Definition slot_result (d : Z) (u : nat -> uuid_t) : HashSlotResult :=
  map (fun b => (result_half d (fun k => fst (u k)) b, result_half d (fun k => snd (u k)) b)) [0; 1; 2; 3]%nat.

Definition uuid_ok (u : uuid_t) : Prop := in_range 64 (fst u) /\ in_range 64 (snd u).

(** The mask of a block against the places [v]. *)
Definition eq_block (v : nat -> Z) (p : Z) (b : nat) : __m256i :=
  let eq x := if p =? x then 2 ^ 64 - 1 else 0 in
  {| q0 := 0; q1 := eq (v (3 * b + 2)%nat); q2 := eq (v (3 * b + 1)%nat); q3 := eq (v (3 * b)%nat) |}.

Lemma chain_eq_blocks v p : in_range 64 p ->
  map (fun i => _mm256_cmpeq_epi64 (_mm256_or_si256 (_mm256_set1_epi64x p) (_mm256_set_epi64x 0 0 0 UINT64_MAX)) (block (lane_blocks v) i)) [0; 1; 2; 3]%nat
  = map (eq_block v p) [0; 1; 2; 3]%nat.
Proof.
  intros Hp. unfold block, lane_blocks. cbn [map nth].
  assert (E : _mm256_or_si256 (_mm256_set1_epi64x p) (_mm256_set_epi64x 0 0 0 UINT64_MAX) = {| q0 := 2 ^ 64 - 1; q1 := p; q2 := p; q3 := p |}).
  { unfold _mm256_or_si256, lanes2, _mm256_set1_epi64x, _mm256_set_epi64x. cbn [q0 q1 q2 q3]. rewrite wrap_small by exact Hp.
    change (u64 0) with 0. rewrite !Z.lor_0_r. f_equal. change (u64 UINT64_MAX) with (Z.ones 64). change (2 ^ 64 - 1) with (Z.ones 64).
    apply Z.bits_inj'. intros i Hi. rewrite Z.lor_spec, testbit_ones by lia. destruct (Z.ltb_spec i 64); [now rewrite (proj2 (Z.ltb_ge i 0)), orb_true_r by lia|].
    now rewrite (testbit_above 64 p i Hp), andb_false_r by lia. }
  rewrite E. reflexivity.
Qed.

(** One half of a result, where the phone matches. *)
Lemma blend_half d v u x p b : in_range 64 d -> (forall k, in_range 64 (u k)) -> in_range 64 x ->
  _mm256_blendv_epi8 (_mm256_xor_si256 (result_half d u b) (_mm256_set_epi64x 0 0 0 UINT64_MAX)) (_mm256_set1_epi64x x) (eq_block v p b)
  = result_half (d .^ (2 ^ 64 - 1)) (fun k => if p =? v k then x else u k) b.
Proof.
  intros Hd Hu Hx. unfold result_half, _mm256_xor_si256, lanes2, _mm256_blendv_epi8, lanes3, eq_block, _mm256_set1_epi64x, _mm256_set_epi64x. cbn [q0 q1 q2 q3].
  change (u64 0) with 0. change (u64 UINT64_MAX) with (2 ^ 64 - 1). rewrite !Z.lxor_0_r, (wrap_small 64 x) by exact Hx.
  pose proof (blend_lane false (d .^ (2 ^ 64 - 1)) x) as E0. cbv iota in E0.
  rewrite E0, !blend_lane by (apply Hu || exact Hx || (apply lxor_range; [lia|exact Hd|unfold in_range; lia])). reflexivity.
Qed.

Lemma chain_blocks_update d u v p x : in_range 64 d -> (forall k, uuid_ok (u k)) -> uuid_ok x ->
  let eqs := map (eq_block v p) [0; 1; 2; 3]%nat in
  let xs := (_mm256_set1_epi64x (fst x), _mm256_set1_epi64x (snd x)) in
  hash_phone_chain_block (hash_phone_chain_block (hash_phone_chain_block (hash_phone_chain_block (slot_result d u) xs eqs 0) xs eqs 1) xs eqs 2) xs eqs 3
  = slot_result (d .^ (2 ^ 64 - 1)) (fun k => if p =? v k then x else u k).
Proof.
  intros Hd Hu [Hx1 Hx2]. unfold hash_phone_chain_block, slot_result, block. cbn [map nth assign fst snd].
  rewrite !blend_half by (assumption || intros k; apply Hu). unfold result_half.
  repeat (f_equal; try now destruct (p =? _)).
Qed.

(** ** The whole table *)

Definition slot_count : nat := Z.to_nat (2 ^ order).
Definition slot_of (p : Z) : nat := Z.to_nat (h p).

Lemma slot_of_lt p : (slot_of p < slot_count)%nat.
Proof. unfold slot_of, slot_count. pose proof (hash_range p). lia. Qed.

Lemma nth_error_tabulate {A} (f : nat -> A) n i : (i < n)%nat -> nth_error (map f (seq 0 n)) i = Some (f i).
Proof.
  intros H. rewrite nth_error_map. replace (nth_error (seq 0 n) i) with (Some i); [reflexivity|]. symmetry.
  rewrite nth_error_nth' with (d := O) by now rewrite length_seq. now rewrite seq_nth.
Qed.

Lemma assign_tabulate {A} (f : nat -> A) n i y : assign (map f (seq 0 n)) i y = map (fun s => if (s =? i)%nat then y else f s) (seq 0 n).
Proof.
  apply nth_error_ext. intros j. rewrite nth_error_assign, length_map, length_seq. destruct (Nat.lt_ge_cases j n).
  - rewrite !nth_error_tabulate by assumption. rewrite (proj2 (Nat.ltb_lt _ _)), andb_true_r by assumption.
    rewrite (Nat.eqb_sym j i). now destruct (i =? j)%nat.
  - rewrite (proj2 (Nat.ltb_ge _ _)), andb_false_r by assumption.
    now rewrite !(proj2 (nth_error_None _ _)) by now rewrite length_map, length_seq.
Qed.

(** Places [v], unused lanes [d] and results [u] by slot. *)
Definition slots_of (v : nat -> nat -> Z) : list HashSlot := map (fun s => lane_blocks (v s)) (seq 0 slot_count).
Definition results_of (d : nat -> Z) (u : nat -> nat -> uuid_t) : list HashSlotResult := map (fun s => slot_result (d s) (u s)) (seq 0 slot_count).

Definition results_ok (d : nat -> Z) (u : nat -> nat -> uuid_t) : Prop := (forall s, in_range 64 (d s)) /\ forall s k, uuid_ok (u s k).

Lemma hash_phone_spec v d u p x : in_range 64 p -> uuid_ok x -> results_ok d u ->
  hash_phone p x hash_key order (slots_of v) (results_of d u) =
  Some (results_of (fun s => if (s =? slot_of p)%nat then d s .^ (2 ^ 64 - 1) else d s)
          (fun s k => if (s =? slot_of p)%nat && (p =? v s k) then x else u s k)).
Proof.
  intros Hp Hx [Hd Hu]. unfold hash_phone, slots_of, results_of. fold (slot_of p). pose proof (slot_of_lt p) as Hs.
  rewrite !nth_error_tabulate by exact Hs. rewrite chain_eq_blocks by exact Hp. rewrite chain_blocks_update by auto.
  rewrite assign_tabulate. f_equal. apply map_ext. intros s. destruct (Nat.eqb_spec s (slot_of p)) as [->|]; reflexivity.
Qed.

(** The loop over the directory. *)
Fixpoint hash_phones (dir : list (Z * uuid_t)) (slots : list HashSlot) (results : list HashSlotResult) : option (list HashSlotResult) :=
  match dir with
  | [] => Some results
  | (p, x) :: dir' => let? results := hash_phone p x hash_key order slots results in hash_phones dir' slots results
  end.

(** What the directory says of a phone: the last entry counts. *)
Definition lookup_from (dir : list (Z * uuid_t)) (p : Z) (r : uuid_t) : uuid_t := fold_left (fun r '(q, x) => if q =? p then x else r) dir r.
Definition lookup (dir : list (Z * uuid_t)) (p : Z) : uuid_t := lookup_from dir p uuid_default.

Definition directory_ok (dir : list (Z * uuid_t)) : Prop := Forall (fun '(p, x) => in_range 64 p /\ uuid_ok x) dir.

Lemma results_ext d u u' : (forall s k, u s k = u' s k) -> results_of d u = results_of d u'.
Proof. intros H. apply map_ext. intros s. unfold slot_result, result_half. cbn [map]. now rewrite !H. Qed.

Lemma hash_phones_spec v dir : directory_ok dir -> forall d u, results_ok d u -> exists d', (forall s, in_range 64 (d' s)) /\
  hash_phones dir (slots_of v) (results_of d u) =
  Some (results_of d' (fun s k => if (s =? slot_of (v s k))%nat then lookup_from dir (v s k) (u s k) else u s k)).
Proof.
  intros Hdir. induction Hdir as [|[p x] dir [Hp Hx] Hdir IH]; intros d u [Hd Hu]; cbn [hash_phones].
  - exists d. split; [exact Hd|]. f_equal. apply results_ext. intros s k. now destruct (_ =? _)%nat.
  - rewrite hash_phone_spec by (assumption || now split).
    destruct (IH (fun s => if (s =? slot_of p)%nat then d s .^ (2 ^ 64 - 1) else d s)
      (fun s k => if (s =? slot_of p)%nat && (p =? v s k) then x else u s k)) as (d' & Hd' & E).
    { split; intros s; [|intros k]; destruct (s =? slot_of p)%nat; cbn [andb]; auto; [apply lxor_range; [lia|apply Hd|unfold in_range; lia]|].
      destruct (p =? v s k); auto. }
    exists d'. split; [exact Hd'|]. rewrite E. f_equal. apply results_ext. intros s k. unfold lookup_from. cbn [fold_left].
    destruct (Z.eqb_spec p (v s k)) as [->|]; [|now rewrite andb_false_r]. now destruct (_ =? _)%nat.
Qed.

(** ** The results *)

Lemma or_all {A} (c : A -> Z) x l : forall r, (forall a, In a l -> c a = 0 \/ c a = x) ->
  fold_left (fun r a => r .| c a) l r = r .| (if existsb (fun a => c a =? x) l then x else 0).
Proof.
  induction l as [|a l IH]; intros r H; cbn [fold_left existsb]; [now rewrite Z.lor_0_r|].
  rewrite IH by (intros; apply H; now right). rewrite <- Z.lor_assoc. f_equal.
  destruct (H a (or_introl eq_refl)) as [->| ->].
  - rewrite Z.lor_0_l. destruct (Z.eqb_spec 0 x) as [<-|]; cbn [orb]; [|reflexivity]. now destruct (existsb _ l).
  - rewrite Z.eqb_refl. cbn [orb]. destruct (existsb _ l); [apply Z.lor_diag|apply Z.lor_0_r].
Qed.

Lemma query_eq_blocks v p : in_range 64 p -> p <> 0 -> (forall k, in_range 64 (v k)) ->
  map (fun i => _mm256_cmpeq_epi64 (_mm256_set1_epi64x p) (_mm256_and_si256 (block (lane_blocks v) i) (_mm256_set_epi64x UINT64_MAX UINT64_MAX UINT64_MAX 0)))
    [0; 1; 2; 3]%nat = map (eq_block v p) [0; 1; 2; 3]%nat.
Proof.
  intros Hp Hz Hv. assert (Hm : forall k, v k .& u64 UINT64_MAX = v k).
  { intros k. change (u64 UINT64_MAX) with (Z.ones 64). rewrite Z.land_ones by lia. apply Z.mod_small, Hv. }
  unfold block, lane_blocks, _mm256_cmpeq_epi64, _mm256_and_si256, lanes2, _mm256_set1_epi64x, _mm256_set_epi64x, eq_block.
  cbn [map nth q0 q1 q2 q3]. rewrite !Hm, wrap_small by exact Hp. change (u64 0) with 0. rewrite !Z.land_0_r. now rewrite (proj2 (Z.eqb_neq p 0) Hz).
Qed.

Lemma if_or (b c : bool) (x y : Z) : (if b then x else if c then x else y) = if b || c then x else y.
Proof. now destruct b. Qed.

Lemma or_if (b c : bool) (x : Z) : (if b then x else 0) .| (if c then x else 0) = if b || c then x else 0.
Proof. destruct b, c; cbn [orb]; rewrite ?Z.lor_diag, ?Z.lor_0_r; reflexivity. Qed.

(** Results of one slot: those of the matching places, which agree. *)
Lemma collect_slot v d u p i x : in_range 64 d -> (forall k, uuid_ok (u k)) ->
  let w k := if (i =? 0)%nat then fst (u k) else snd (u k) in
  (forall k, p = v k -> w k = x) ->
  hash_slot_collect_result (slot_result d u) (map (eq_block v p) [0; 1; 2; 3]%nat) i
  = if existsb (fun k => p =? v k) (seq 0 12) then x else 0.
Proof.
  intros Hd Hu w Hw.
  assert (Er : forall b, half i (result_half d (fun k => fst (u k)) b, result_half d (fun k => snd (u k)) b) = result_half d w b).
  { intros b. unfold half, w. now destruct (i =? 0)%nat. }
  assert (Rw : forall k, in_range 64 (w k)) by (intros k; unfold w; destruct (i =? 0)%nat; apply Hu).
  assert (Sel : forall k r, (if p =? v k then w k else r) = if p =? v k then x else r).
  { intros k r. destruct (Z.eqb_spec p (v k)); [now apply Hw|reflexivity]. }
  assert (Z0 : in_range 64 0) by (unfold in_range; lia).
  unfold hash_slot_collect_result, slot_result, block. cbn [map nth]. rewrite !Er.
  unfold _mm256_blendv_epi8, lanes3, _mm256_extract_epi64, _mm256_setzero_si256, _mm256_set1_epi64x, _mm256_set_epi64x, eq_block, result_half.
  cbn [nth q0 q1 q2 q3]. change (u64 0) with 0. pose proof (blend_lane false 0 d Z0 Hd) as E0. cbv iota in E0. rewrite !E0.
  cbn [Nat.mul Nat.add]. repeat rewrite blend_lane by first [apply Rw | exact Z0 | apply blend_range].
  rewrite !Sel, Z.lor_0_l, !if_or, !or_if. cbn [seq existsb].
  match goal with |- (if ?b then _ else _) = (if ?c then _ else _) => assert (E : b = c); [|now rewrite E] end. btauto.
Qed.

Lemma or_single (c : nat -> Z) (E : bool) x n i : (i < n)%nat -> (forall s, (s < n)%nat -> c s = if (s =? i)%nat && E then x else 0) ->
  fold_left (fun r s => r .| c s) (seq 0 n) 0 = if E then x else 0.
Proof.
  intros Hi Hc. rewrite (or_all c x).
  - rewrite Z.lor_0_l. destruct E.
    + assert (H : existsb (fun s => c s =? x) (seq 0 n) = true).
      { apply existsb_exists. exists i. split; [apply in_seq; lia|]. rewrite Hc, Nat.eqb_refl by exact Hi. apply Z.eqb_refl. }
      now rewrite H.
    + destruct (existsb _ _) eqn:H; [|reflexivity]. apply existsb_exists in H. destruct H as (s & Hs & H).
      apply in_seq in Hs. rewrite Hc, andb_false_r in H by lia. now apply Z.eqb_eq in H.
  - intros s Hs. apply in_seq in Hs. rewrite Hc by lia. destruct (_ && _); auto.
Qed.

Lemma fold_pair {A} (c0 c1 : A -> Z) l : forall r, fold_left (fun r a => (fst r .| c0 a, snd r .| c1 a)) l r
  = (fold_left (fun r a => r .| c0 a) l (fst r), fold_left (fun r a => r .| c1 a) l (snd r)).
Proof. induction l as [|a l IH]; intros r; cbn [fold_left]; [now destruct r|]. now rewrite IH. Qed.

Lemma combine_map {A B C} (f : A -> B) (g : A -> C) l : combine (map f l) (map g l) = map (fun a => (f a, g a)) l.
Proof. induction l; cbn; congruence. Qed.

Lemma fold_map {A B R} (f : R -> B -> R) (g : A -> B) l : forall r, fold_left f (map g l) r = fold_left (fun r a => f r (g a)) l r.
Proof. induction l as [|a l IH]; intros r; cbn; auto. Qed.

Lemma fold_ext {A R} (f g : R -> A -> R) l : (forall r a, f r a = g r a) -> forall r, fold_left f l r = fold_left g l r.
Proof. intros H. induction l as [|a l IH]; intros r; cbn; [reflexivity|]. now rewrite H. Qed.

Definition matched (v : nat -> nat -> Z) (dir : list (Z * uuid_t)) (s k : nat) : uuid_t :=
  if (s =? slot_of (v s k))%nat then lookup dir (v s k) else uuid_default.

Lemma collect_spec v d dir p : in_range 64 p -> p <> 0 -> (forall s k, in_range 64 (v s k)) -> (forall s, in_range 64 (d s)) ->
  (forall q, uuid_ok (lookup dir q)) ->
  collect_result (slots_of v) (results_of d (matched v dir)) p
  = if existsb (fun k => p =? v (slot_of p) k) (seq 0 12) then lookup dir p else uuid_default.
Proof.
  intros Hp Hz Hv Hd Hl. unfold collect_result, slots_of, results_of. rewrite combine_map, fold_map.
  assert (Hu : forall s k, uuid_ok (matched v dir s k)).
  { intros s k. unfold matched. destruct (_ =? _)%nat; [apply Hl|]. split; cbn; unfold in_range; lia. }
  assert (C : forall i s, hash_slot_collect_result (slot_result (d s) (matched v dir s)) (map (eq_block (v s) p) [0; 1; 2; 3]%nat) i
    = if (s =? slot_of p)%nat && existsb (fun k => p =? v (slot_of p) k) (seq 0 12)
      then (if (i =? 0)%nat then fst (lookup dir p) else snd (lookup dir p)) else 0).
  { intros i s. set (x := if (s =? slot_of p)%nat then (if (i =? 0)%nat then fst (lookup dir p) else snd (lookup dir p)) else 0).
    rewrite (collect_slot (v s) (d s) (matched v dir s) p i x (Hd s) (Hu s)).
    - subst x. destruct (Nat.eqb_spec s (slot_of p)) as [->|]; cbn [andb]; [reflexivity|]. now destruct (existsb _ _).
    - intros k E. unfold matched, x. rewrite <- E. destruct (s =? slot_of p)%nat; [reflexivity|]. now destruct (i =? 0)%nat. }
  erewrite (fold_ext _ (fun r s => (fst r .| hash_slot_collect_result (slot_result (d s) (matched v dir s)) (map (eq_block (v s) p) [0; 1; 2; 3]%nat) 0,
    snd r .| hash_slot_collect_result (slot_result (d s) (matched v dir s)) (map (eq_block (v s) p) [0; 1; 2; 3]%nat) 1))).
  2:{ intros r s. cbv beta iota. now rewrite query_eq_blocks by auto. }
  rewrite fold_pair. cbn [uuid_default fst snd].
  rewrite (or_single _ (existsb (fun k => p =? v (slot_of p) k) (seq 0 12)) (fst (lookup dir p)) slot_count (slot_of p) (slot_of_lt p)) by (intros s _; apply C).
  rewrite (or_single _ (existsb (fun k => p =? v (slot_of p) k) (seq 0 12)) (snd (lookup dir p)) slot_count (slot_of p) (slot_of_lt p)) by (intros s _; apply C).
  destruct (existsb _ _); [|reflexivity]. now destruct (lookup dir p).
Qed.

(** ** From the queries to the answers *)

Lemma lookup_ok dir q : directory_ok dir -> uuid_ok (lookup dir q).
Proof.
  intros H. unfold lookup, lookup_from. assert (H0 : uuid_ok uuid_default) by (split; cbn; unfold in_range; lia). revert H0. generalize uuid_default.
  induction H as [|[p x] dir [_ Hx] H IH]; intros r Hr; cbn [fold_left]; [exact Hr|]. apply IH. now destruct (p =? q).
Qed.

Section Queries.
Context (ps : list Z) (Hps : Forall (in_range 64) ps) (Hcount : Z.of_nat (length ps) < 2 ^ 31).

Definition places_of (s k : nat) : Z := nth k (fst (inserted (Z.of_nat s) ps)) (2 ^ 64 - 1).

(** More insertions into a slot than the code allows. *)
Definition overflows : bool := existsb (fun s => 16 <? snd (inserted (Z.of_nat s) ps)) (seq 0 slot_count).

(** The phone has a place in its slot. *)
Definition found (p : Z) : bool := existsb (fun k => p =? places_of (slot_of p) k) (seq 0 12).

Lemma build_slots_spec : build_slots hash_key order ps slot_count = (slots_of places_of, overflows).
Proof.
  assert (E : map (fun i => build_slot hash_key order ps (Z.of_nat i)) (seq 0 slot_count)
    = map (fun s => (lane_blocks (places_of s), 16 <? snd (inserted (Z.of_nat s) ps))) (seq 0 slot_count)).
  { apply map_ext_in. intros s Hs. apply in_seq in Hs. apply build_slot_spec; [|exact Hps|exact Hcount].
    assert (2 ^ order <= 2 ^ 32) by (apply Z.pow_le_mono_r; lia). unfold slot_count in Hs. unfold in_range. lia. }
  unfold build_slots. rewrite E, !map_map, existsb_map. reflexivity.
Qed.

Lemma places_range s k : in_range 64 (places_of s k).
Proof.
  unfold places_of. destruct (Nat.lt_ge_cases k (length (fst (inserted (Z.of_nat s) ps)))) as [H|H].
  - apply (nth_In _ (2 ^ 64 - 1)) in H. destruct (kept_wanted _ _ _ (inserted_kept (Z.of_nat s) ps) _ H) as [_ Hin].
    now apply (proj1 (Forall_forall _ _) Hps).
  - rewrite nth_overflow by exact H. unfold in_range. lia.
Qed.

Lemma results_zero : repeat (repeat (_mm256_setzero_si256, _mm256_setzero_si256) 4) slot_count = results_of (fun _ => 0) (fun _ _ => uuid_default).
Proof.
  change (repeat (_mm256_setzero_si256, _mm256_setzero_si256) 4) with (slot_result 0 (fun _ => uuid_default)). unfold results_of.
  generalize 0%nat as i. generalize slot_count as n. induction n as [|n IH]; intros i; cbn [repeat seq map]; [reflexivity|]. now rewrite (IH (S i)).
Qed.

(** The whole lookup, for phones other than 0. *)
Lemma lookup_spec dir : directory_ok dir -> exists results,
  hash_phones dir (slots_of places_of) (repeat (repeat (_mm256_setzero_si256, _mm256_setzero_si256) 4) slot_count) = Some results /\
  forall p, In p ps -> p <> 0 -> collect_result (slots_of places_of) results p = if found p then lookup dir p else uuid_default.
Proof.
  intros Hdir. rewrite results_zero.
  destruct (hash_phones_spec places_of dir Hdir (fun _ => 0) (fun _ _ => uuid_default)) as (d & Hd & E).
  { split; intros; [|split]; cbn; unfold in_range; lia. }
  eexists. split; [exact E|]. intros p Hp Hz. apply (collect_spec places_of d dir p).
  - exact (proj1 (Forall_forall _ _) Hps p Hp).
  - exact Hz.
  - apply places_range.
  - exact Hd.
  - intros q. now apply lookup_ok.
Qed.

(** The phones that belong to a slot. *)
Definition sharing (s : nat) : list Z := nodup Z.eq_dec (filter (wanted (Z.of_nat s)) ps).

Lemma sharing_le s : (length (sharing s) <= length ps)%nat.
Proof.
  unfold sharing. apply Nat.le_trans with (length (filter (wanted (Z.of_nat s)) ps)); [|apply filter_length_le].
  apply NoDup_incl_length; [apply NoDup_nodup|]. intros p. apply nodup_In.
Qed.

Lemma uncrowded s : (length (sharing s) <= 12)%nat -> snd (inserted (Z.of_nat s) ps) <= 12.
Proof.
  intros H. destruct (Z.le_gt_cases (snd (inserted (Z.of_nat s) ps)) 12) as [|Hn]; [assumption|exfalso].
  destruct (inserted_kept (Z.of_nat s) ps) as [K1 K2 K3 _ K5]. destruct (K5 Hn) as (p & Hp & Hw & Hk).
  enough (length (p :: fst (inserted (Z.of_nat s) ps)) <= length (sharing s))%nat by (cbn [length] in *; lia).
  apply NoDup_incl_length; [now constructor|]. intros q Hq. apply nodup_In, filter_In.
  destruct Hq as [<-|Hq]; [now split|]. destruct (K2 q Hq). now split.
Qed.

Lemma found_all p : In p ps -> p <> 0 -> (length (sharing (slot_of p)) <= 12)%nat -> found p = true.
Proof.
  intros Hp Hz Hs. apply uncrowded in Hs. destruct (inserted_kept (Z.of_nat (slot_of p)) ps) as [_ _ K3 K4 _].
  assert (Hin : In p (fst (inserted (Z.of_nat (slot_of p)) ps))).
  { apply K4; [exact Hs|exact Hp|]. unfold wanted, slot_of. pose proof (hash_range p). rewrite Z2Nat.id by lia.
    rewrite Z.eqb_refl. now destruct (Z.eqb_spec p 0). }
  destruct (In_nth _ _ (2 ^ 64 - 1) Hin) as (k & Hk & E). unfold found. apply existsb_exists. exists k.
  split; [apply in_seq; lia|]. unfold places_of. rewrite E. apply Z.eqb_refl.
Qed.

Lemma no_overflow_uncrowded : (forall s, (length (sharing s) <= 12)%nat) -> overflows = false.
Proof.
  intros H. destruct overflows eqn:E; [|reflexivity]. apply existsb_exists in E. destruct E as (s & _ & E).
  apply Z.ltb_lt in E. pose proof (uncrowded s (H s)). lia.
Qed.

End Queries.

End Table.
End HashTable.
