(* ===== verification/CdsLookup.v ===== *)
(** The lookup of a batch of phones as the service runs it: the outer half of
    src/enclave/cds_enclave/c_src/cds-enclave-hash.rs, which draws a key and reads the directory from
    the host's memory, and its caller src/enclave/cds_enclave/src/ffi/hash_lookup.rs. *)
From S2P Require Import Prelude Codec SgxsdCrypto Sgxsd SgxsdSafety Edge EdgeSafety Service Avx HashLookup HashTable.
From Stdlib Require Import ZArith List Lia Bool.
Import Codec SgxsdCrypto Sgxsd SgxsdSafety Edge EdgeSafety Service Avx HashLookup HashTable.

Module CdsLookup.

Section Lookup.
(** [rdrand64_step]: the instruction; whether it succeeded, and the number. *)
Context {W : Type} {HM : HostMemory W} (rdrand64_step : W -> bool * Z * W) (base limit : Z).
Abbreviation SP A := (@server_prog W A).

Abbreviation read_host := (read_host base limit).

(** ** The key *)

Fixpoint generate_loop (tries : nat) : SP (option HashKey.HashKey) :=
  match tries with
  | O => ret None
  | S tries' =>
      do* (ok1, hash_key_1) := ext (fun w => let '(ok, x, w) := rdrand64_step w in ((ok, x), w)) in
      if ok1 : bool then
        do* (ok2, hash_key_2) := ext (fun w => let '(ok, x, w) := rdrand64_step w in ((ok, x), w)) in
        if ok2 : bool then ret (Some (HashKey.new hash_key_1 hash_key_2)) else generate_loop tries'
      else generate_loop tries'
  end.
Definition generate : SP (option HashKey.HashKey) := generate_loop 10.

(** ** The directory *)

Record InPhonesUuids := { in_phones : Z; in_uuids : Z; in_len : Z }.

Definition trailing_zeros (n : Z) : Z := if n =? 0 then 64 else Z.log2 (n .& (- n)).
Definition is_power_of_two (n : Z) : bool := negb (n =? 0) && (n .& (n - 1) =? 0).

Section Key.
Context (hash_key : HashKey.HashKey) (hash_table_order : Z) (hash_slots : list HashSlot).

(** The loop over [len] entries from the two pointers on. *)
Fixpoint hash_range (phones uuids : Z) (len : nat) (results : list HashSlotResult) : SP (list HashSlotResult) :=
  match len with
  | O => ret results
  | S len' =>
      do* phone := read_host phones 8 in
      do* uuid := read_host uuids 16 in
      match hash_phone (br_dec64le phone) (br_dec64le (firstn 8 uuid), br_dec64le (skipn 8 uuid)) hash_key hash_table_order hash_slots results with
      | Some results => hash_range (phones + 8) (uuids + 16) len' results
      | None => undefined
      end
  end.

Definition CACHE_LINE_PHONES : Z := CACHE_LINE_SIZE / 8.
Definition PREFETCH_PHONES_DIST : Z := CACHE_LINE_PHONES * 2.

(** [in_phones_uuids.range_unchecked(start..start + len)]. *)
Definition range_unchecked (dir : InPhonesUuids) (start len : Z) (results : list HashSlotResult) : SP (list HashSlotResult) :=
  hash_range (in_phones dir + 8 * start) (in_uuids dir + 16 * start) (Z.to_nat len) results.

Fixpoint contruct_loop (fuel : nat) (dir : InPhonesUuids) (in_phone_idx : Z) (results : list HashSlotResult) : SP (list HashSlotResult) :=
  match fuel with
  | O => range_unchecked dir in_phone_idx (in_len dir - in_phone_idx) results
  | S fuel' =>
      if in_phone_idx + PREFETCH_PHONES_DIST + CACHE_LINE_PHONES <? in_len dir then
        do* results := range_unchecked dir in_phone_idx CACHE_LINE_PHONES results in
        contruct_loop fuel' dir (in_phone_idx + CACHE_LINE_PHONES) results
      else range_unchecked dir in_phone_idx (in_len dir - in_phone_idx) results
  end.

Definition cds_contruct_hash (dir : InPhonesUuids) (results : list HashSlotResult) : SP (list HashSlotResult) :=
  contruct_loop (Z.to_nat (in_len dir)) dir 0 results.

End Key.

(** ** The lookup *)

(** The results and the two tables afterwards. *)
Record tables := { ab_phone_results : list Z; hash_slots : list HashSlot; hash_slot_results : list HashSlotResult }.

Definition hash_lookup (dir : InPhonesUuids) (ab_phones : list Z) (t : tables) : SP (option CdsHashLookupError * tables) :=
  let count := Z.of_nat (length (hash_slots t)) in
  let hash_table_order := trailing_zeros count in
  if (32 <=? hash_table_order) || negb (is_power_of_two count) then ret (Some InvalidParameter, t)
  else
    do* key := generate in
    match key with
    | None => ret (Some RdRand, t)
    | Some hash_key =>
        let (slots, any_hash_slots_overflowed) := build_slots hash_key hash_table_order ab_phones (length (hash_slots t)) in
        if any_hash_slots_overflowed then
          ret (Some HashTableOverflow, {| ab_phone_results := ab_phone_results t; hash_slots := slots; hash_slot_results := hash_slot_results t |})
        else
          do* results := cds_contruct_hash hash_key hash_table_order slots dir (hash_slot_results t) in
          ret (None, {| ab_phone_results := concat (map (fun p => uuid_bytes (collect_result slots results p)) ab_phones);
                        hash_slots := erase_slots slots; hash_slot_results := erase_results results |})
    end.

Definition cds_hash_lookup (p_in_phones p_in_uuids in_phone_count : Z) (ab_phones : list Z) (t : tables) : SP (Z * tables) :=
  do* (res, t) := hash_lookup {| in_phones := p_in_phones; in_uuids := p_in_uuids; in_len := in_phone_count |} ab_phones t in
  ret (match res with None => CDS_HASH_LOOKUP_SUCCESS | Some e => error_code e end, t).

(** ** The caller *)

Definition MAX_HASH_TABLE_ORDER : Z := 13.
Definition MAX_HASH_TABLE_SIZE : Z := 2 ^ MAX_HASH_TABLE_ORDER.

(** [checked_next_power_of_two] for less than 2^63. *)
Definition next_power_of_two (n : Z) : Z := if n <=? 1 then 1 else 2 ^ Z.log2_up n.

Fixpoint lookup_loop (tries : nat) (p_in_phones p_in_uuids in_phone_count : Z) (query_phones : list Z) (t : tables) : SP (sgx_status_t * tables) :=
  match tries with
  | O => ret (SGX_ERROR_UNEXPECTED, t)
  | S tries' =>
      do* (res, t) := cds_hash_lookup p_in_phones p_in_uuids in_phone_count query_phones t in
      if res =? CDS_HASH_LOOKUP_SUCCESS then ret (SGX_SUCCESS, t)
      else if res =? CDS_HASH_LOOKUP_ERROR_HASH_TABLE_OVERFLOW then lookup_loop tries' p_in_phones p_in_uuids in_phone_count query_phones t
      else ret (SGX_ERROR_UNEXPECTED, t)
  end.

(** The results filled with ones, and tables of [n] slots filled with zeros. *)
Definition new_tables (query_phone_results : list Z) (n : nat) : tables :=
  {| ab_phone_results := repeat 255 (length query_phone_results);
     hash_slots := repeat (repeat _mm256_setzero_si256 4) n;
     hash_slot_results := repeat (repeat (_mm256_setzero_si256, _mm256_setzero_si256) 4) n |}.

(** The status and what [query_phone_results] holds afterwards. *)
Definition ffi_hash_lookup (p_in_phones p_in_uuids in_phone_count : Z) (query_phones query_phone_results : list Z) : SP (sgx_status_t * list Z) :=
  let count := Z.of_nat (length query_phones) in
  let hash_table_slot_count := next_power_of_two count in
  if MAX_HASH_TABLE_SIZE <? hash_table_slot_count then ret (SGX_ERROR_INVALID_PARAMETER, query_phone_results)
  else if count =? 0 then ret (SGX_SUCCESS, query_phone_results)
  else if negb (Z.of_nat (length query_phone_results) =? count * 16) then ret (SGX_ERROR_INVALID_PARAMETER, query_phone_results)
  else
    let t := new_tables query_phone_results (Z.to_nat hash_table_slot_count) in
    do* (res, t) := lookup_loop 128 p_in_phones p_in_uuids in_phone_count query_phones t in
    ret (res, ab_phone_results t).

(** * What it computes *)

(** The directory in the host's memory. *)
Definition entry_at (w : W) (phones uuids : Z) : Z * uuid_t :=
  let b := peek_bytes w uuids 16 in (br_dec64le (peek_bytes w phones 8), (br_dec64le (firstn 8 b), br_dec64le (skipn 8 b))).
Fixpoint directory_at (w : W) (phones uuids : Z) (n : nat) : list (Z * uuid_t) :=
  match n with O => [] | S n' => entry_at w phones uuids :: directory_at w (phones + 8) (uuids + 16) n' end.

Lemma directory_app w n m : forall phones uuids,
  directory_at w phones uuids (n + m) = directory_at w phones uuids n ++ directory_at w (phones + 8 * Z.of_nat n) (uuids + 16 * Z.of_nat n) m.
Proof.
  induction n as [|n IH]; intros phones uuids; cbn [Nat.add directory_at app]; [f_equal; lia|]. rewrite IH. do 2 f_equal; f_equal; lia.
Qed.

Lemma directory_at_ok w n : forall phones uuids, directory_ok (directory_at w phones uuids n).
Proof.
  induction n as [|n IH]; intros phones uuids; cbn [directory_at]; constructor; [|apply IH]. unfold entry_at.
  destruct (peek_blob w phones 8) as [_ B1]. destruct (peek_blob w uuids 16) as [_ B2].
  split; [now apply dec64le_range|]. split; cbn [fst snd]; apply dec64le_range; [now apply Forall_firstn|now apply Forall_skipn].
Qed.

Lemma hash_phones_app key order d1 d2 slots : forall r,
  hash_phones key order (d1 ++ d2) slots r = let? r := hash_phones key order d1 slots r in hash_phones key order d2 slots r.
Proof. induction d1 as [|[p x] d1 IH]; intros r; cbn [app hash_phones]; [reflexivity|]. now destruct (hash_phone _ _ _ _ _ _). Qed.

Section Reads.
Context (key : HashKey.HashKey) (order : Z) (slots : list HashSlot).

Lemma eval_hash_range w n : forall phones uuids r,
  outside_enclave base limit phones (8 * Z.of_nat n) = true -> outside_enclave base limit uuids (16 * Z.of_nat n) = true ->
  eval (hash_range key order slots phones uuids n r) w =
  let? r := hash_phones key order (directory_at w phones uuids n) slots r in Some (r, w).
Proof.
  induction n as [|n IH]; intros phones uuids r Hp Hu; cbn [hash_range directory_at hash_phones]; [reflexivity|].
  rewrite eval_bind, eval_read by (apply (outside_part base limit phones (8 * Z.of_nat (S n))); [exact Hp|lia..]).
  rewrite eval_bind, eval_read by (apply (outside_part base limit uuids (16 * Z.of_nat (S n))); [exact Hu|lia..]).
  cbn [entry_at]. destruct (hash_phone _ _ key order slots r) as [r'|]; [|reflexivity].
  apply IH; [apply (outside_part base limit phones (8 * Z.of_nat (S n))); [exact Hp|lia..]|apply (outside_part base limit uuids (16 * Z.of_nat (S n))); [exact Hu|lia..]].
Qed.

Context (w : W) (dir : InPhonesUuids).
Context (Hlen : 0 <= in_len dir) (Hphones : outside_enclave base limit (in_phones dir) (8 * in_len dir) = true)
  (Huuids : outside_enclave base limit (in_uuids dir) (16 * in_len dir) = true).

(** The entries from an index on. *)
Definition entries_from (i : Z) (n : nat) : list (Z * uuid_t) := directory_at w (in_phones dir + 8 * i) (in_uuids dir + 16 * i) n.

Lemma eval_range i n r : 0 <= i -> 0 <= n -> i + n <= in_len dir ->
  eval (range_unchecked key order slots dir i n r) w = let? r := hash_phones key order (entries_from i (Z.to_nat n)) slots r in Some (r, w).
Proof.
  intros Hi Hn Hin. unfold range_unchecked. apply eval_hash_range.
  - apply (outside_part base limit (in_phones dir) (8 * in_len dir)); [exact Hphones|lia..].
  - apply (outside_part base limit (in_uuids dir) (16 * in_len dir)); [exact Huuids|lia..].
Qed.

(** Prefetching four entries at a time makes no difference. *)
Lemma eval_contruct_loop fuel : forall i r, 0 <= i <= in_len dir ->
  eval (contruct_loop key order slots fuel dir i r) w =
  let? r := hash_phones key order (entries_from i (Z.to_nat (in_len dir - i))) slots r in Some (r, w).
Proof.
  induction fuel as [|fuel IH]; intros i r Hi; cbn [contruct_loop]; [apply eval_range; lia|].
  destruct (Z.ltb_spec (i + PREFETCH_PHONES_DIST + CACHE_LINE_PHONES) (in_len dir)) as [H|]; [|apply eval_range; lia].
  change (PREFETCH_PHONES_DIST) with 8 in H. change CACHE_LINE_PHONES with 4 in *.
  rewrite eval_bind, eval_range by lia. replace (Z.to_nat (in_len dir - i)) with (Z.to_nat 4 + Z.to_nat (in_len dir - (i + 4)))%nat by lia.
  unfold entries_from at 2. rewrite directory_app, hash_phones_app. fold (entries_from i (Z.to_nat 4)).
  destruct (hash_phones key order (entries_from i (Z.to_nat 4)) slots r) as [r'|]; [|reflexivity]. rewrite IH by lia. unfold entries_from.
  replace (in_phones dir + 8 * (i + 4)) with (in_phones dir + 8 * i + 8 * Z.of_nat (Z.to_nat 4)) by lia.
  now replace (in_uuids dir + 16 * (i + 4)) with (in_uuids dir + 16 * i + 16 * Z.of_nat (Z.to_nat 4)) by lia.
Qed.

Lemma eval_contruct r : eval (cds_contruct_hash key order slots dir r) w =
  let? r := hash_phones key order (directory_at w (in_phones dir) (in_uuids dir) (Z.to_nat (in_len dir))) slots r in Some (r, w).
Proof.
  unfold cds_contruct_hash. rewrite eval_contruct_loop by lia. unfold entries_from. now rewrite !Z.mul_0_r, !Z.add_0_r, Z.sub_0_r.
Qed.

End Reads.

(** ** The key *)

Lemma generate_evals w : exists key w', eval generate w = Some (key, w').
Proof.
  unfold generate. generalize 10%nat as n. intros n. revert w. induction n as [|n IH]; intros w; cbn [generate_loop]; [now exists None, w|].
  rewrite eval_bind. cbn [ext eval]. destruct (rdrand64_step w) as [[[|] x] w1]; [|apply IH].
  rewrite eval_bind. cbn [ext eval]. destruct (rdrand64_step w1) as [[[|] y] w2]; [|apply IH]. now eexists _, _.
Qed.

(** ** Sizes *)

Lemma trailing_zeros_pow k : 0 <= k -> trailing_zeros (2 ^ k) = k.
Proof.
  intros Hk. unfold trailing_zeros. assert (0 < 2 ^ k) by lia. destruct (Z.eqb_spec (2 ^ k) 0); [lia|].
  replace (2 ^ k .& - 2 ^ k) with (2 ^ k); [now apply Z.log2_pow2|].
  rewrite <- (Z.lnot_involutive (- 2 ^ k)). replace (Z.lnot (- 2 ^ k)) with (Z.ones k) by (rewrite Z.ones_equiv; unfold Z.lnot; lia).
  rewrite <- Z.ldiff_land. symmetry. apply Z.bits_inj'. intros i Hi. rewrite Z.ldiff_spec, Z.pow2_bits_eqb, testbit_ones by lia.
  destruct (Z.eqb_spec k i) as [->|]; [|reflexivity]. rewrite Z.ltb_irrefl, andb_false_r. reflexivity.
Qed.

Lemma pow_is_power_of_two k : 0 <= k -> is_power_of_two (2 ^ k) = true.
Proof.
  intros Hk. unfold is_power_of_two. destruct (Z.eqb_spec (2 ^ k) 0); [lia|]. cbn [negb andb]. apply Z.eqb_eq.
  replace (2 ^ k - 1) with (Z.ones k) by (rewrite Z.ones_equiv; lia). rewrite Z.land_ones by lia. now rewrite Z.mod_same by lia.
Qed.

Lemma next_power n : 1 <= n <= MAX_HASH_TABLE_SIZE -> exists k, 0 <= k <= 13 /\ next_power_of_two n = 2 ^ k.
Proof.
  unfold MAX_HASH_TABLE_SIZE, MAX_HASH_TABLE_ORDER. intros Hn. unfold next_power_of_two. destruct (Z.leb_spec n 1); [exists 0; lia|].
  exists (Z.log2_up n). split; [|reflexivity]. split; [apply Z.log2_up_nonneg|].
  rewrite <- (Z.log2_up_pow2 13) by lia. now apply Z.log2_up_le_mono.
Qed.

(** ** One attempt *)

(** Empty tables of 2^k slots; a failed attempt leaves its phones in the first one. *)
Definition fresh (k : Z) (t : tables) : Prop :=
  length (hash_slots t) = slot_count k /\
  hash_slot_results t = repeat (repeat (_mm256_setzero_si256, _mm256_setzero_si256) 4) (slot_count k).

Section Attempt.
Context (dir : InPhonesUuids) (ps : list Z) (k : Z).
Context (Hlen : 0 <= in_len dir) (Hphones : outside_enclave base limit (in_phones dir) (8 * in_len dir) = true)
  (Huuids : outside_enclave base limit (in_uuids dir) (16 * in_len dir) = true)
  (Hps : Forall (in_range 64) ps) (Hcount : Z.of_nat (length ps) < 2 ^ 31) (Hk : 0 <= k < 32).

Definition directory (w : W) : list (Z * uuid_t) := directory_at w (in_phones dir) (in_uuids dir) (Z.to_nat (in_len dir)).

(** The answers to a batch, each as [say] says; a query for 0, which is no phone, may get anything. *)
Definition answers (say : Z -> uuid_t -> Prop) (res : list Z) : Prop :=
  exists us, res = concat (map uuid_bytes us) /\ Forall2 (fun p u => p <> 0 -> say p u) ps us.

(** What the directory says, if the phone found a place. *)
Definition answer (key : HashKey.HashKey) (w : W) (p : Z) (u : uuid_t) : Prop :=
  u = if found key k ps p then lookup (directory w) p else uuid_default.

Lemma answers_impl (say say' : Z -> uuid_t -> Prop) res : (forall p u, In p ps -> p <> 0 -> say p u -> say' p u) -> answers say res -> answers say' res.
Proof.
  intros H (us & -> & Hus). exists us. split; [reflexivity|]. clear - H Hus. induction Hus as [|p u l us Hpu _ IH]; constructor.
  - intros Hp. apply H; [now left|exact Hp|auto].
  - apply IH. intros q v Hq. apply H. now right.
Qed.

Lemma answers_map (say : Z -> uuid_t -> Prop) f : (forall p, In p ps -> p <> 0 -> say p (f p)) -> answers say (concat (map (fun p => uuid_bytes (f p)) ps)).
Proof.
  intros H. exists (map f ps). rewrite map_map. split; [reflexivity|]. clear - H. induction ps as [|p l IH]; cbn [map]; constructor.
  - intros Hp. apply H; [now left|exact Hp].
  - apply IH. intros q Hq. apply H. now right.
Qed.

Lemma eval_hash_lookup t w key w1 : fresh k t -> eval generate w = Some (key, w1) ->
  match key with
  | None => eval (hash_lookup dir ps t) w = Some ((Some RdRand, t), w1)
  | Some key =>
      if overflows key k ps
      then exists t', eval (hash_lookup dir ps t) w = Some ((Some HashTableOverflow, t'), w1) /\ fresh k t'
      else exists t', eval (hash_lookup dir ps t) w = Some ((None, t'), w1) /\ answers (answer key w1) (ab_phone_results t')
  end.
Proof.
  intros [Ls Er] Eg. assert (Ec : Z.of_nat (length (hash_slots t)) = 2 ^ k) by (rewrite Ls; unfold slot_count; lia).
  destruct key as [key|]; unfold hash_lookup; rewrite Ec, trailing_zeros_pow, pow_is_power_of_two by lia;
    rewrite (proj2 (Z.leb_gt 32 k)) by lia; cbn [orb negb]; rewrite eval_bind, Eg; [|reflexivity].
  rewrite Ls, (build_slots_spec key k Hk ps Hps Hcount). destruct (overflows key k ps).
  - eexists. split; [reflexivity|]. split; [|exact Er]. cbn [hash_slots]. unfold slots_of. now rewrite length_map, length_seq.
  - rewrite eval_bind, eval_contruct by assumption. rewrite Er.
    destruct (lookup_spec key k Hk ps Hps (directory w1) (directory_at_ok _ _ _ _)) as (results & E & Ea). unfold directory in E. rewrite E.
    eexists. split; [reflexivity|]. cbn [ab_phone_results]. now apply answers_map.
Qed.

(** ** The attempts together *)

Abbreviation attempts n t := (lookup_loop n (in_phones dir) (in_uuids dir) (in_len dir) ps t).

Lemma eval_attempt t w : eval (cds_hash_lookup (in_phones dir) (in_uuids dir) (in_len dir) ps t) w =
  let? (res, t', w') := eval (hash_lookup dir ps t) w in Some ((match res with None => 0 | Some e => error_code e end, t'), w').
Proof.
  unfold cds_hash_lookup. destruct dir as [p u n]. cbn [in_phones in_uuids in_len]. rewrite eval_bind.
  now destruct (eval _ w) as [[[res t'] w']|].
Qed.

Lemma eval_attempts n : forall t w, fresh k t -> exists status t' w', eval (attempts n t) w = Some ((status, t'), w') /\
  ((status = SGX_SUCCESS /\ exists key, answers (answer key w') (ab_phone_results t')) \/ status = SGX_ERROR_UNEXPECTED).
Proof.
  induction n as [|n IH]; intros t w Ht; cbn [lookup_loop]; [now eexists _, _, _; split; [reflexivity|right]|].
  destruct (generate_evals w) as (key & w1 & Eg). pose proof (eval_hash_lookup t w key w1 Ht Eg) as H. rewrite eval_bind, eval_attempt.
  destruct key as [key|]; [destruct (overflows key k ps); [destruct H as (t' & -> & Ht')|destruct H as (t' & -> & Ha)]|rewrite H].
  - apply IH, Ht'.
  - eexists _, _, _. split; [reflexivity|]. left. split; [reflexivity|]. now exists key.
  - eexists _, _, _. split; [reflexivity|]. now right.
Qed.

Lemma eval_first_attempt n t w key w' : fresh k t -> eval generate w = Some (Some key, w') -> (forall s, (length (sharing key k ps s) <= 12)%nat) ->
  exists t', eval (attempts (S n) t) w = Some ((SGX_SUCCESS, t'), w') /\
  answers (fun p u => u = lookup (directory w') p) (ab_phone_results t').
Proof.
  intros Ht Eg Hs. pose proof (eval_hash_lookup t w (Some key) w' Ht Eg) as H. cbn iota in H.
  rewrite (no_overflow_uncrowded key k Hk ps Hs) in H. destruct H as (t' & E & Ha).
  cbn [lookup_loop]. rewrite eval_bind, eval_attempt, E. eexists. split; [reflexivity|]. revert Ha. apply answers_impl.
  intros p u Hp Hz. unfold answer. now rewrite (found_all key k Hk ps p Hp Hz (Hs _)).
Qed.

End Attempt.

(** ** A batch *)

Section Batch.
(** The directory lies outside the enclave; a batch has at most 8192 phones. *)
Context (dir : InPhonesUuids) (ps buf : list Z).
Context (Hlen : 0 <= in_len dir) (Hphones : outside_enclave base limit (in_phones dir) (8 * in_len dir) = true)
  (Huuids : outside_enclave base limit (in_uuids dir) (16 * in_len dir) = true)
  (Hps : Forall (in_range 64) ps) (Hcount : 1 <= Z.of_nat (length ps) <= 8192)
  (Hbuf : length buf = (16 * length ps)%nat).

(** The order of the table. *)
Definition batch_order : Z := Z.log2_up (Z.of_nat (length ps)).

Lemma batch_order_range : 0 <= batch_order < 32.
Proof.
  unfold batch_order. split; [apply Z.log2_up_nonneg|]. apply Z.le_lt_trans with (Z.log2_up (2 ^ 13)); [apply Z.log2_up_le_mono; lia|].
  rewrite Z.log2_up_pow2; lia.
Qed.

Lemma batch_slots : next_power_of_two (Z.of_nat (length ps)) = 2 ^ batch_order.
Proof.
  unfold next_power_of_two, batch_order. destruct (Z.leb_spec (Z.of_nat (length ps)) 1); [|reflexivity].
  replace (Z.of_nat (length ps)) with 1 by lia. reflexivity.
Qed.

Abbreviation batch := (ffi_hash_lookup (in_phones dir) (in_uuids dir) (in_len dir) ps buf).

Lemma batch_attempts w : exists t, fresh batch_order t /\
  eval batch w = let? (res, t', w') := eval (lookup_loop 128 (in_phones dir) (in_uuids dir) (in_len dir) ps t) w in Some ((res, ab_phone_results t'), w').
Proof.
  unfold ffi_hash_lookup. rewrite batch_slots. pose proof batch_order_range as [R0 _].
  assert (2 ^ batch_order <= 2 ^ 13).
  { apply Z.pow_le_mono_r; [lia|]. unfold batch_order. rewrite <- (Z.log2_up_pow2 13) by lia. apply Z.log2_up_le_mono. lia. }
  change MAX_HASH_TABLE_SIZE with (2 ^ 13). rewrite (proj2 (Z.ltb_ge (2 ^ 13) _)) by lia.
  rewrite (proj2 (Z.eqb_neq (Z.of_nat (length ps)) 0)) by lia. rewrite Hbuf, (proj2 (Z.eqb_eq _ _)) by lia. cbn [negb].
  exists (new_tables buf (Z.to_nat (2 ^ batch_order))). split; [split; [apply repeat_length|reflexivity]|].
  rewrite eval_bind. now destruct (eval (lookup_loop _ _ _ _ _ _) w) as [[[res t'] w']|].
Qed.

(** The lookup of a batch is a lookup: with a key under which at most twelve different phones
    of the batch share a slot, the vector code finds for every phone of the batch what the directory
    in the host's memory says of it, the last entry counting, and zeros for one it does not list. *)
Lemma batch_lookup_exact w key w' : eval generate w = Some (Some key, w') ->
  (forall s, (length (sharing key batch_order ps s) <= 12)%nat) ->
  exists res, eval batch w = Some ((SGX_SUCCESS, res), w') /\ answers ps (fun p u => u = lookup (directory dir w') p) res.
Proof.
  intros Eg Hs. destruct (batch_attempts w) as (t & Ht & ->).
  destruct (eval_first_attempt dir ps batch_order Hlen Hphones Huuids Hps ltac:(lia) batch_order_range 127 t w key w' Ht Eg Hs) as (t' & -> & Ha).
  now exists (ab_phone_results t').
Qed.

(** The lookup never gives a wrong answer and always comes to an end: whatever keys are drawn,
    no memory but the directory is read, and either the status is an error, or every phone gets
    what the directory says of it or zeros. *)
Lemma batch_lookup_sound w : exists status res w', eval batch w = Some ((status, res), w') /\
  (status = SGX_ERROR_UNEXPECTED \/
   status = SGX_SUCCESS /\ answers ps (fun p u => u = lookup (directory dir w') p \/ u = uuid_default) res).
Proof.
  destruct (batch_attempts w) as (t & Ht & ->).
  destruct (eval_attempts dir ps batch_order Hlen Hphones Huuids Hps ltac:(lia) batch_order_range 128 t w Ht) as (status & t' & w' & -> & H).
  exists status, (ab_phone_results t'), w'. split; [reflexivity|]. destruct H as [(-> & key & Ha)|H]; [right|now left].
  split; [reflexivity|]. revert Ha. apply answers_impl. intros p u _ _ ->. destruct (found key batch_order ps p); auto.
Qed.

End Batch.

End Lookup.
End CdsLookup.
