(* ===== verification/Cds.v ===== *)
(** The contact discovery service: src/enclave/cds_enclave/src/service/main.rs, the server that
    collects the queries of a batch and answers them when it is stopped, and the functions of
    src/enclave/cds_enclave/src/lib.rs by which the C part of the enclave calls it. *)
From S2P Require Import Prelude Codec SgxsdCrypto Sgxsd SgxsdSafety Edge EdgeSafety Service SgxsdFfi HashLookup CdsLookup.
From Stdlib Require Import ZArith List Lia Bool.
Import Codec SgxsdCrypto Sgxsd SgxsdSafety Edge EdgeSafety Service HashLookup CdsLookup.

Module Cds.

Definition CDS_ERROR_INVALID_REQUEST_SIZE : sgx_status_t := SGX_ERROR_OTHER 0x20001.
Definition CDS_ERROR_QUERY_COMMITMENT_MISMATCH : sgx_status_t := SGX_ERROR_OTHER 0x20002.

Definition BYTES_PER_PHONE : Z := 8.
Definition BYTES_PER_UUID : Z := 16.
Definition COMMITMENT_NONCE_SIZE : Z := 32.

(** * Data *)

Record PendingRequest := { from : SgxsdMsgFrom.SgxsdMsgFrom; request_phone_count : Z }.

(** A [Vec] with its capacity. *)
Record PhoneList := { capacity : Z; phones : list Z }.
Definition PhoneList_new (capacity : Z) : PhoneList := {| capacity := capacity; phones := [] |}.

Record SgxsdServerState := { requests : list PendingRequest; query_phones : PhoneList }.

(** [l.chunks(n)]; [length l] chunks are enough. *)
Fixpoint chunks_loop (fuel n : nat) (l : list Z) : list (list Z) :=
  match fuel, l with
  | _, [] => []
  | O, _ => []
  | S fuel', _ => firstn n l :: chunks_loop fuel' n (skipn n l)
  end.
Definition chunks (n : Z) (l : list Z) : list (list Z) := chunks_loop (length l) (Z.to_nat n) l.

(** [l.chunks_exact(n)]: without a chunk that is too short. *)
Definition chunks_exact (n : Z) (l : list Z) : list (list Z) :=
  filter (fun c => Z.of_nat (length c) =? n) (chunks n l).

Definition decode_phone (data : list Z) : Z := br_dec64le data.

(** The phones of a request, after the nonce. *)
Definition into_iter (data : list Z) : list Z :=
  let phones_data := skipn (Z.to_nat COMMITMENT_NONCE_SIZE) data in
  map decode_phone (chunks_exact BYTES_PER_PHONE phones_data).

Definition bytes_eqb (a b : list Z) : bool := if list_eq_dec Z.eq_dec a b then true else false.

Definition checked_mul (a b : Z) : option Z := if a * b <? 2 ^ 64 then Some (a * b) else None.
Definition ok_or {A E} (o : option A) (e : E) : Result A E := match o with Some a => Ok a | None => Err e end.
Definition map_err {A E F} (r : Result A E) (f : F) : Result A F := match r with Ok a => Ok a | Err _ => Err f end.

Section Service.
Context {W : Type} {HM : HostMemory W} (rdrand64_step : W -> bool * Z * W) (base limit : Z)
  (sgx_is_outside_enclave : Z -> Z -> Z) (stk : stack).
Abbreviation SP A := (@server_prog W A).
Abbreviation CallArgs := sgxsd_server_handle_call_args_t.
Abbreviation StartArgs := sgxsd_server_init_args_t.
Abbreviation StopArgs := sgxsd_server_terminate_args_t.

(** * Requests *)

Definition verify_commitment (data expected_commitment : list Z) : Result unit sgx_status_t :=
  let context := SHA256Context.default in
  let context := SHA256Context.update context data in
  let commitment := SHA256Context.result context in
  if bytes_eqb commitment expected_commitment then Ok tt else Err CDS_ERROR_QUERY_COMMITMENT_MISMATCH.

(** The decrypted data of the request. *)
Definition decode_phone_list (args : CallArgs) (request_data : list Z) : SP (Result (list Z) sgx_status_t) :=
  do? query_data_slice := map_err (UntrustedSlice.new sgx_is_outside_enclave (em_data (query args)) (em_size (query args))) SGX_ERROR_INVALID_PARAMETER in
  do* bytes := UntrustedSlice.read_bytes base limit query_data_slice (em_size (query args)) in
  do? query_phones := map_err bytes SGX_ERROR_INVALID_PARAMETER in
  let len := Z.of_nat (length query_phones) in
  do? query_phones_data_len := ok_or (if COMMITMENT_NONCE_SIZE <=? len then Some (len - COMMITMENT_NONCE_SIZE) else None) CDS_ERROR_INVALID_REQUEST_SIZE in
  if negb (Z.of_nat (length request_data) =? AesGcmKey.len)
     || negb (query_phones_data_len mod BYTES_PER_PHONE =? 0)
     || negb (query_phones_data_len / BYTES_PER_PHONE =? query_phone_count args)
  then ret (Err CDS_ERROR_INVALID_REQUEST_SIZE)
  else
    do? query_key := AesGcmKey.new request_data in
    do* (res, query_phones) := AesGcmKey.decrypt stk query_key query_phones [] (em_iv (query args)) (em_mac (query args)) in
    do? _ := res in
    do? _ := verify_commitment query_phones (query_commitment args) in
    ret (Ok query_phones).

Definition decode_request (self : SgxsdServerState) (args : CallArgs) (request_data : list Z) : SP (Result (list Z) sgx_status_t) :=
  if (query_phone_count args =? 0)
     || (capacity (query_phones self) - Z.of_nat (length (phones (query_phones self))) <? query_phone_count args)
  then ret (Err SGX_ERROR_INVALID_PARAMETER)
  else decode_phone_list args request_data.

(** * The server *)

Definition init (args : option StartArgs) : SP (Result SgxsdServerState sgx_status_t) :=
  do? args := ok_or args SGX_ERROR_INVALID_PARAMETER in
  ret (Ok {| requests := []; query_phones := PhoneList_new (max_query_phones args) |}).

Definition handle_call (self : SgxsdServerState) (args : option CallArgs) (request_data : list Z) (from : SgxsdMsgFrom.SgxsdMsgFrom)
  : SP (Result unit (sgx_status_t * SgxsdMsgFrom.SgxsdMsgFrom) * SgxsdServerState) :=
  match args with
  | None => ret (Err (SGX_ERROR_INVALID_PARAMETER, from), self)
  | Some args =>
      do* r := decode_request self args request_data in
      match r with
      | Err error => ret (Err (error, from), self)
      | Ok request =>
          let request_phones := into_iter request in
          if 2 ^ 32 <=? Z.of_nat (length request_phones) then ret (Err (SGX_ERROR_INVALID_PARAMETER, from), self)
          else ret (Ok tt,
            {| requests := requests self ++ [{| from := from; request_phone_count := Z.of_nat (length request_phones) |}];
               query_phones := {| capacity := capacity (query_phones self); phones := phones (query_phones self) ++ request_phones |} |})
      end
  end.

(** The loop over the chunks of phones and the chunks of the results. *)
Fixpoint lookup_chunks (in_phones in_uuids in_phone_count : Z) (query_phones_chunks result_chunks : list (list Z))
  : SP (Result (list Z) sgx_status_t) :=
  match query_phones_chunks, result_chunks with
  | query_phones_chunk :: query_phones_chunks', result_chunk :: result_chunks' =>
      do* (status, result_chunk) := ffi_hash_lookup rdrand64_step base limit in_phones in_uuids in_phone_count query_phones_chunk result_chunk in
      if negb (success status) then ret (Err status)
      else
        do* r := lookup_chunks in_phones in_uuids in_phone_count query_phones_chunks' result_chunks' in
        do? rest := r in ret (Ok (result_chunk ++ rest))
  | _, _ => ret (Ok (concat result_chunks))
  end.

(** [terminate] up to the results of the queries. *)
Definition terminate_lookup (self : SgxsdServerState) (args : option StopArgs) : SP (Result (list Z) sgx_status_t) :=
  do? args := ok_or args SGX_ERROR_INVALID_PARAMETER in
  do? in_phones_size := ok_or (checked_mul (in_phone_count args) BYTES_PER_PHONE) SGX_ERROR_INVALID_PARAMETER in
  do? in_uuids_size := ok_or (checked_mul (in_phone_count args) BYTES_PER_UUID) SGX_ERROR_INVALID_PARAMETER in
  do? in_phones := map_err (UntrustedSlice.new sgx_is_outside_enclave (Edge.in_phones args) in_phones_size) SGX_ERROR_INVALID_PARAMETER in
  do? in_uuids := map_err (UntrustedSlice.new sgx_is_outside_enclave (Edge.in_uuids args) in_uuids_size) SGX_ERROR_INVALID_PARAMETER in
  let phones := phones (query_phones self) in
  do? in_query_phones_result_len := ok_or (checked_mul (Z.of_nat (length phones)) BYTES_PER_UUID) SGX_ERROR_INVALID_PARAMETER in
  let in_query_phones_result := zeros in_query_phones_result_len in
  lookup_chunks (UntrustedSlice.as_ptr in_phones) (UntrustedSlice.as_ptr in_uuids) (in_phone_count args)
    (chunks MAX_HASH_TABLE_SIZE phones) (chunks (MAX_HASH_TABLE_SIZE * BYTES_PER_UUID) in_query_phones_result).

(** Requests that are dropped are answered without a message. *)
Fixpoint drop_requests (requests : list PendingRequest) : SP unit :=
  match requests with
  | [] => ret tt
  | request :: requests' => do* _ := SgxsdMsgFrom.drop (from request) in drop_requests requests'
  end.

(** The loop over the requests; [split_at_mut] panics past the end. *)
Fixpoint reply_loop (requests : list PendingRequest) (remaining : list Z) : SP (Result unit sgx_status_t) :=
  match requests with
  | [] => ret (Ok tt)
  | request :: requests' =>
      let mid := request_phone_count request * BYTES_PER_UUID in
      if Z.of_nat (length remaining) <? mid then panic
      else
        do* r := SgxsdMsgFrom.reply (from request) (firstn (Z.to_nat mid) remaining) in
        match r with
        | Ok _ => reply_loop requests' (skipn (Z.to_nat mid) remaining)
        | Err e => do* _ := drop_requests requests' in ret (Err e)
        end
  end.

Definition terminate (self : SgxsdServerState) (args : option StopArgs) : SP (Result unit sgx_status_t) :=
  do* r := terminate_lookup self args in
  match r with
  | Ok in_query_phones_result => reply_loop (requests self) in_query_phones_result
  | Err e => do* _ := drop_requests (requests self) in ret (Err e)
  end.

#[export] Instance server_trait : SgxsdServer W SgxsdServerState StartArgs CallArgs StopArgs :=
  {| SgxsdFfi.init := init; SgxsdFfi.handle_call := handle_call; SgxsdFfi.terminate := terminate |}.

(** * The rate limit *)

(** The loop over the phones from number [i] on: the status and the fingerprint. *)
Fixpoint fingerprint_loop (ctx : SHA256HMACContext.SHA256HMACContext) (i : nat) (phones : list Z) (fingerprint : list Z) (fingerprint_size : Z)
  : option (sgx_status_t * list Z) :=
  match phones with
  | [] => Some (SGX_SUCCESS, fingerprint)
  | phone :: phones' =>
      if fingerprint_size <=? Z.of_nat i then Some (SGX_ERROR_INVALID_PARAMETER, fingerprint)
      else
        let ctx := SHA256HMACContext.update ctx (br_enc64le phone) in
        let phone_out := SHA256HMACContext.result (stk_sha stk) ctx in
        if (i <? length fingerprint)%nat then
          let fingerprint := assign fingerprint i (nth 0 phone_out 0) in
          let ctx := SHA256HMACContext.reset ctx in
          fingerprint_loop ctx (S i) phones' fingerprint fingerprint_size
        else None
  end.

Definition sgxsd_enclave_create_ratelimit_fingerprint (fingerprint_key : list Z) (call_args : option CallArgs) (msg_buf : sgxsd_msg_buf_t)
  (_from : sgxsd_msg_from_t) (fingerprint_raw : option (list Z)) (fingerprint_size : Z)
  : SP (sgx_status_t * option (list Z) * option (list Z)) :=
  match call_args, ECallSlice_as_ref (mb_data msg_buf) (mb_size msg_buf) with
  | Some call_args, Some request_data =>
      do* r := decode_phone_list call_args request_data in
      match r with
      | Err error => ret (error, mb_data msg_buf, fingerprint_raw)
      | Ok request =>
          match fingerprint_raw with
          | Some fingerprint =>
              let ctx := SHA256HMACContext.new (stk_sha stk) fingerprint_key in
              match fingerprint_loop ctx 0 (into_iter request) fingerprint fingerprint_size with
              | Some (status, fingerprint) => ret (status, mb_data msg_buf, Some fingerprint)
              | None => undefined
              end
          | None => undefined
          end
      end
  | _, _ => undefined
  end.

(** The functions that the C part of the enclave calls. *)
Definition cds_server : @server W SgxsdServerState StartArgs CallArgs StopArgs := {|
  sgxsd_enclave_server_init := Ecalls.sgxsd_enclave_server_init;
  sgxsd_enclave_server_handle_call := Ecalls.sgxsd_enclave_server_handle_call;
  sgxsd_enclave_server_terminate := Ecalls.sgxsd_enclave_server_terminate;
  Sgxsd.sgxsd_enclave_create_ratelimit_fingerprint := sgxsd_enclave_create_ratelimit_fingerprint |}.

End Service.
End Cds.
