(* ===== verification/CdsSafety.v ===== *)
(** The service is a server that the enclave can be run with: whatever its clients and its host
    send, it reads nothing of the enclave through a pointer of theirs, does not panic, and keeps
    its books in order. *)
From S2P Require Import Prelude Codec Sha2 Hmac SgxsdCrypto Threads Sgxsd SgxsdSafety SgxsdSystem Edge EdgeSafety Service SgxsdFfi Avx HashLookup HashTable CdsLookup Cds.
From Stdlib Require Import ZArith List Lia Bool.
Import Codec SgxsdCrypto Threads Sgxsd SgxsdSafety SgxsdSystem Edge EdgeSafety Service Avx HashLookup HashTable CdsLookup Cds.

Module CdsSafety.

#[local] Opaque HashKey.hash_block sgxsd_aes_gcm_run aes_gcm_open aes_gcm_seal sha256 Sha2.br_sha256_out hmac_sha256 Hmac.br_hmac_out Hmac.br_hmac_key_init.

(** * Chunks *)

Lemma concat_chunks_loop fuel n : (0 < n)%nat -> forall l, (length l <= fuel)%nat -> concat (chunks_loop fuel n l) = l.
Proof.
  intros Hn. induction fuel as [|fuel IH]; intros [|x l] L; cbn [length] in L; try reflexivity; [lia|].
  cbn [chunks_loop concat]. rewrite IH; [apply firstn_skipn|]. rewrite length_skipn. cbn [length]. lia.
Qed.

Lemma concat_chunks n l : 0 < n -> concat (chunks n l) = l.
Proof. intros Hn. apply concat_chunks_loop; lia. Qed.

Lemma chunks_ok (P : Z -> Prop) n l : Forall P l -> Forall (Forall P) (chunks n l).
Proof.
  unfold chunks. generalize (length l) as fuel. intros fuel. revert l. induction fuel as [|fuel IH]; intros [|x l] H; cbn [chunks_loop]; try constructor.
  - now apply Forall_firstn.
  - apply IH. now apply Forall_skipn.
Qed.

(** Phones and their results fall into chunks alike. *)
Lemma chunks_match fuel fuel' n m : (0 < n)%nat -> (0 < m)%nat -> forall l r, (length l <= fuel)%nat -> (length r <= fuel')%nat ->
  length r = (m * length l)%nat ->
  Forall2 (fun c d => length d = (m * length c)%nat /\ (1 <= length c <= n)%nat) (chunks_loop fuel n l) (chunks_loop fuel' (n * m) r).
Proof.
  intros Hn Hm. revert fuel'. induction fuel as [|fuel IH]; intros fuel' [|x l] r L L' E; cbn [length] in *; try lia.
  - destruct r; [|cbn in E; lia]. destruct fuel'; constructor.
  - destruct r; [|cbn in E; lia]. destruct fuel'; constructor.
  - destruct r as [|y r]; [cbn in E; lia|]. destruct fuel' as [|fuel']; [cbn in L'; lia|]. cbn [chunks_loop]. cbn [length] in *.
    constructor.
    + rewrite !length_firstn. cbn [length]. split; [|lia]. rewrite E. nia.
    + apply IH; rewrite !length_skipn; cbn [length]; try lia. rewrite E. nia.
Qed.

Lemma chunks_exact_bytes l : bytes_ok l -> Forall (fun c => blob 8 c) (chunks_exact BYTES_PER_PHONE l).
Proof.
  intros B. apply Forall_forall. intros c Hc. apply filter_In in Hc. destruct Hc as [Hc E]. apply Z.eqb_eq in E. unfold BYTES_PER_PHONE in E.
  split; [lia|]. exact (proj1 (Forall_forall _ _) (chunks_ok _ BYTES_PER_PHONE l B) c Hc).
Qed.

(** With a multiple of the size, every chunk is a whole one. *)
Lemma chunks_exact_count fuel n : (0 < n)%nat -> forall l k, (length l <= fuel)%nat -> length l = (k * n)%nat ->
  length (filter (fun c => Z.of_nat (length c) =? Z.of_nat n) (chunks_loop fuel n l)) = k.
Proof.
  intros Hn. induction fuel as [|fuel IH]; intros [|x l] k L E; cbn [length] in *; try lia; cbn [chunks_loop filter length].
  1, 2: destruct k; cbn in E; lia.
  destruct k as [|k]; [lia|]. rewrite (proj2 (Z.eqb_eq _ _)) by (rewrite length_firstn; cbn [length]; lia). cbn [length]. f_equal.
  apply IH; rewrite length_skipn; cbn [length]; lia.
Qed.

Lemma into_iter_ok data : bytes_ok data -> Forall (in_range 64) (into_iter data).
Proof.
  intros B. unfold into_iter. apply Forall_map. eapply Forall_impl; [|apply chunks_exact_bytes, Forall_skipn, B].
  intros c [_ Bc]. now apply dec64le_range.
Qed.

Lemma into_iter_count data k : Z.of_nat (length data) = 32 + 8 * k -> 0 <= k -> Z.of_nat (length (into_iter data)) = k.
Proof.
  intros L Hk. unfold into_iter, chunks_exact, chunks, BYTES_PER_PHONE. rewrite length_map.
  rewrite (chunks_exact_count _ 8 ltac:(lia) _ (Z.to_nat k)); [lia|lia|]. rewrite length_skipn. change (Z.to_nat COMMITMENT_NONCE_SIZE) with 32%nat. lia.
Qed.

Section Safety.
Context {W : Type} {HM : HostMemory W} (rdrand64_step : W -> bool * Z * W) (base limit : Z)
  (sgx_is_outside_enclave : Z -> Z -> Z) (stk : stack) (Hstk : stack_ok stk).
(** The documented behaviour of [sgx_is_outside_enclave]. *)
Context (Houtside : forall p n, in_range 64 p -> in_range 64 n -> sgx_is_outside_enclave p n = 1 -> outside_enclave base limit p n = true).
Context (Hbase : 0 <= base).
Abbreviation SP A := (@server_prog W A).

(** * The lookup *)

Lemma hash_key_ok : prog_ok (fun _ => True) (generate rdrand64_step).
Proof.
  unfold generate. generalize 10%nat as n. induction n as [|n IH]; [exact I|]. cbn [generate_loop sbind ext prog_ok].
  intros w. destruct (rdrand64_step w) as [[[|] x] w1]; cbn [fst sbind prog_ok]; [|exact IH].
  intros w'. destruct (rdrand64_step w') as [[[|] y] w2]; [exact I|exact IH].
Qed.

Section Lookup.
Context (key : HashKey.HashKey) (order : Z) (Ho : 0 <= order < 32) (v : nat -> nat -> Z).

(** The table of results while the directory is gone through. *)
Definition collecting (results : list HashSlotResult) : Prop := exists d u, results = results_of order d u /\ results_ok d u.

Lemma hash_phone_collecting p x results : in_range 64 p -> uuid_ok x -> collecting results ->
  exists results', hash_phone p x key order (slots_of order v) results = Some results' /\ collecting results'.
Proof.
  intros Hp Hx (d & u & -> & Hr). rewrite (hash_phone_spec key order Ho v d u p x Hp Hx Hr). eexists. split; [reflexivity|].
  eexists _, _. split; [reflexivity|]. destruct Hr as [Hd Hu]. split.
  - intros s. destruct (s =? _)%nat; [|apply Hd]. apply lxor_range; [lia|apply Hd|unfold in_range; lia].
  - intros s k. now destruct (_ && _).
Qed.

Lemma hash_range_ok n : forall p u results, outside_enclave base limit p (8 * Z.of_nat n) = true ->
  outside_enclave base limit u (16 * Z.of_nat n) = true -> collecting results ->
  prog_ok collecting (hash_range base limit key order (slots_of order v) p u n results).
Proof.
  induction n as [|n IH]; intros p u results Hp Hu Hr; cbn [hash_range]; [exact Hr|].
  eapply prog_ok_bind; [apply read_host_ok, (outside_part base limit p (8 * Z.of_nat (S n))); [exact Hp|lia..]|]. intros phone [_ B1].
  eapply prog_ok_bind; [apply read_host_ok, (outside_part base limit u (16 * Z.of_nat (S n))); [exact Hu|lia..]|]. intros uuid [_ B2].
  destruct (hash_phone_collecting (br_dec64le phone) (br_dec64le (firstn 8 uuid), br_dec64le (skipn 8 uuid)) results) as (r' & -> & Hr');
    [now apply dec64le_range|split; cbn [fst snd]; apply dec64le_range; [now apply Forall_firstn|now apply Forall_skipn]|exact Hr|].
  apply IH; [apply (outside_part base limit p (8 * Z.of_nat (S n))); [exact Hp|lia..]|
             apply (outside_part base limit u (16 * Z.of_nat (S n))); [exact Hu|lia..]|exact Hr'].
Qed.

End Lookup.

(** A directory of [n] entries outside the enclave. *)
Definition directory_outside (p u n : Z) : Prop :=
  0 <= n /\ outside_enclave base limit p (8 * n) = true /\ outside_enclave base limit u (16 * n) = true.

Section Directory.
Context (dir : InPhonesUuids) (Hdir : directory_outside (in_phones dir) (in_uuids dir) (in_len dir)).

Lemma range_ok key order (Ho : 0 <= order < 32) v i n results : 0 <= i -> 0 <= n -> i + n <= in_len dir -> collecting order results ->
  prog_ok (collecting order) (range_unchecked base limit key order (slots_of order v) dir i n results).
Proof.
  destruct Hdir as (H0 & Hp & Hu). intros Hi Hn Hin Hr. unfold range_unchecked. apply hash_range_ok; trivial.
  - apply (outside_part base limit (in_phones dir) (8 * in_len dir)); [exact Hp|lia..].
  - apply (outside_part base limit (in_uuids dir) (16 * in_len dir)); [exact Hu|lia..].
Qed.

Lemma contruct_ok key order (Ho : 0 <= order < 32) v results : collecting order results ->
  prog_ok (collecting order) (cds_contruct_hash base limit key order (slots_of order v) dir results).
Proof.
  assert (H : forall fuel i r, 0 <= i <= in_len dir -> collecting order r ->
    prog_ok (collecting order) (contruct_loop base limit key order (slots_of order v) fuel dir i r)).
  { induction fuel as [|fuel IH]; intros i r Hi Hr; cbn [contruct_loop]; [now apply range_ok; try lia|].
    destruct (Z.ltb_spec (i + PREFETCH_PHONES_DIST + CACHE_LINE_PHONES) (in_len dir)) as [H|]; [|now apply range_ok; try lia].
    change PREFETCH_PHONES_DIST with 8 in H. change CACHE_LINE_PHONES with 4 in *.
    eapply prog_ok_bind; [apply range_ok; trivial; lia|]. intros r' Hr'. apply IH; [lia|exact Hr']. }
  intros Hr. destruct Hdir as [H0 _]. apply H; [lia|exact Hr].
Qed.

Lemma uuid_blob u : blob 16 (uuid_bytes u).
Proof.
  destruct (enc64le_blob (fst u)) as [L1 B1]. destruct (enc64le_blob (snd u)) as [L2 B2]. unfold uuid_bytes.
  split; [now rewrite length_app, L1, L2|]. apply Forall_app. now split.
Qed.

Lemma uuids_blob {A} (f : A -> uuid_t) l : blob (16 * length l) (concat (map (fun a => uuid_bytes (f a)) l)).
Proof.
  induction l as [|a l [L B]]; cbn [map concat length]; [split; [reflexivity|constructor]|]. destruct (uuid_blob (f a)) as [L1 B1].
  split; [rewrite length_app; lia|]. apply Forall_app. now split.
Qed.

Section Batch.
Context (ps : list Z) (Hps : Forall (in_range 64) ps) (k : Z) (Hk : 0 <= k < 32) (Hcount : Z.of_nat (length ps) < 2 ^ 31).

Lemma hash_lookup_ok t : fresh k t ->
  prog_ok (fun '(res, t') => match res with
                             | None => blob (16 * length ps) (ab_phone_results t')
                             | Some _ => fresh k t'
                             end) (hash_lookup rdrand64_step base limit dir ps t).
Proof.
  intros Ht. pose proof Ht as [Ls Er]. assert (Ec : Z.of_nat (length (hash_slots t)) = 2 ^ k) by (rewrite Ls; unfold slot_count; lia).
  unfold hash_lookup. rewrite Ec, trailing_zeros_pow, pow_is_power_of_two by lia. rewrite (proj2 (Z.leb_gt 32 k)) by lia. cbn [orb negb].
  eapply prog_ok_bind; [apply hash_key_ok|]. intros [key|] _; [|exact Ht]. rewrite Ls, (build_slots_spec key k Hk ps Hps Hcount).
  destruct (overflows key k ps).
  - split; [|exact Er]. cbn [hash_slots]. unfold slots_of. now rewrite length_map, length_seq.
  - eapply prog_ok_bind; [apply contruct_ok; [exact Hk|]|].
    + rewrite Er, results_zero. eexists _, _. split; [reflexivity|]. split; intros; [|split]; cbn; unfold in_range; lia.
    + intros results _. apply uuids_blob.
Qed.

Lemma lookup_loop_ok n : forall t, fresh k t ->
  prog_ok (fun '(status, t') => success status = true -> blob (16 * length ps) (ab_phone_results t'))
    (lookup_loop rdrand64_step base limit n (in_phones dir) (in_uuids dir) (in_len dir) ps t).
Proof.
  induction n as [|n IH]; intros t Ht; cbn [lookup_loop]; [discriminate|].
  eapply prog_ok_bind with (Q := fun '(res, t') => if res =? CDS_HASH_LOOKUP_SUCCESS then blob (16 * length ps) (ab_phone_results t') else fresh k t').
  - unfold cds_hash_lookup. eapply prog_ok_bind; [replace {| in_phones := _; in_uuids := _; in_len := _ |} with dir by (now destruct dir); apply hash_lookup_ok, Ht|].
    intros [[e|] t'] H; [|exact H]. destruct e; exact H.
  - intros [res t'] H. destruct (res =? CDS_HASH_LOOKUP_SUCCESS); [now intros _|]. destruct (res =? _); [now apply IH|discriminate].
Qed.

End Batch.

Lemma ffi_hash_lookup_ok ps buf : Forall (in_range 64) ps -> 1 <= Z.of_nat (length ps) <= 8192 -> length buf = (16 * length ps)%nat ->
  prog_ok (fun '(status, res) => success status = true -> blob (16 * length ps) res)
    (ffi_hash_lookup rdrand64_step base limit (in_phones dir) (in_uuids dir) (in_len dir) ps buf).
Proof.
  intros Hps Hc Hb. unfold ffi_hash_lookup. rewrite (batch_slots ps buf Hc Hb). destruct (_ <? _); [discriminate|].
  rewrite (proj2 (Z.eqb_neq _ _)) by lia. destruct (negb _); [discriminate|]. pose proof (batch_order_range ps buf Hc Hb) as Ho.
  eapply prog_ok_bind; [apply lookup_loop_ok with (k := batch_order ps); [exact Hps|exact Ho|lia|]|].
  - split; [apply repeat_length|reflexivity].
  - intros [res t] H. exact H.
Qed.

End Directory.

(** * Invariants *)

Definition total (requests : list PendingRequest) : Z := fold_right (fun r n => request_phone_count r + n) 0 requests.

(** A request that waits for its answer. *)
Definition waiting (r : PendingRequest) : Prop := (exists f, from r = Some f /\ from_ok f) /\ 0 <= request_phone_count r.

Lemma total_nonneg rs : Forall waiting rs -> 0 <= total rs.
Proof. induction 1 as [|r rs [_ H] _ IH]; cbn [total fold_right]; [lia|]. fold (total rs). lia. Qed.

(** The books: every request has its phones among those of the batch, which fit. *)
Record state_inv (s : SgxsdServerState) : Prop := {
  st_requests : Forall waiting (requests s);
  st_total : total (requests s) = Z.of_nat (length (phones (query_phones s)));
  st_phones : Forall (in_range 64) (phones (query_phones s));
  st_room : Z.of_nat (length (phones (query_phones s))) <= capacity (query_phones s) < 2 ^ 32 }.

#[export] Instance cds_state : ServerState SgxsdServerState :=
  {| state_ok p := match p with Some s => state_inv s | None => False end |}.

(** Arguments of the right types. The service dereferences the pointer to the arguments of the
    fingerprint, and the one to the fingerprint; and it takes a NULL directory for an empty one
    whose size it does not check. *)
Definition msg_ok (m : cds_encrypted_msg_t) : Prop :=
  blob 12 (em_iv m) /\ blob 16 (em_mac m) /\ in_range 32 (em_size m) /\ in_range 64 (em_data m).
Definition cds_call_args_ok (a : sgxsd_server_handle_call_args_t) : Prop := in_range 32 (query_phone_count a) /\ msg_ok (query a).
Definition cds_stop_args_ok (a : sgxsd_server_terminate_args_t) : Prop :=
  in_range 64 (Edge.in_phones a) /\ in_range 64 (Edge.in_uuids a) /\ in_range 64 (in_phone_count a) /\
  (Edge.in_phones a = 0 \/ Edge.in_uuids a = 0 -> in_phone_count a = 0).

#[export] Instance cds_args : ServerArgs sgxsd_server_init_args_t sgxsd_server_handle_call_args_t sgxsd_server_terminate_args_t := {|
  init_args_ok := if_some (fun a => in_range 32 (max_query_phones a));
  call_args_ok := if_some cds_call_args_ok;
  terminate_args_ok := if_some cds_stop_args_ok;
  fingerprint_args_ok key args fp n :=
    if_some cds_call_args_ok args /\ is_null args = false /\ is_null fp = false /\ if_some (fun f => n <= Z.of_nat (length f)) fp |}.

(** * Requests *)

Lemma open_shape key iv aad c t p : key_ok key -> bytes_ok iv -> bytes_ok c -> aes_gcm_open key iv aad c t = Some p -> blob (length c) p.
Proof.
  intros Hk Biv Bc E. pose proof (open_sound (Aead := aes_gcm_aead) key iv aad c t p Hk Biv E) as Es.
  pose proof (seal_length (Aead := aes_gcm_aead) key iv aad p Hk Biv) as L. rewrite Es in L. cbn [fst] in L.
  split; [congruence|]. exact (open_bytes (Aead := aes_gcm_aead) key iv aad c t p Hk Biv Bc E).
Qed.

Lemma decode_phone_list_ok args req : cds_call_args_ok args -> bytes_ok req ->
  prog_ok (fun r => match r with
                    | Ok data => bytes_ok data /\ Z.of_nat (length (into_iter data)) = query_phone_count args
                    | Err _ => True end) (decode_phone_list base limit sgx_is_outside_enclave stk args req).
Proof.
  intros [Hc (Hiv & Hmac & Hsize & Hdata)] Breq. unfold decode_phone_list.
  destruct (UntrustedSlice.new _ _ _) as [s|e] eqn:En; [|exact I]. cbn [map_err try].
  destruct (UntrustedSlice.new_ok base limit sgx_is_outside_enclave Houtside _ _ s Hdata (range_weaken 32 64 _ ltac:(lia) Hsize) En) as [Hs _].
  eapply prog_ok_bind; [apply UntrustedSlice.read_bytes_ok; [apply Hsize|exact Hs]|]. intros [data|e] Hr; [|exact I]. cbn [map_err try].
  destruct Hr as [[L B] _]. destruct (Z.leb_spec COMMITMENT_NONCE_SIZE (Z.of_nat (length data))) as [Hn|]; [|exact I]. cbn [ok_or try].
  unfold COMMITMENT_NONCE_SIZE, BYTES_PER_PHONE, AesGcmKey.len in *. destruct (_ || _) eqn:G; [exact I|]. rewrite !orb_false_iff, !negb_false_iff, !Z.eqb_eq in G.
  destruct G as [[Lreq Hmod] Hdiv]. unfold AesGcmKey.new. rewrite (proj2 (Z.eqb_eq _ _) Lreq). cbn [negb try].
  assert (Hk : key_ok req) by (split; [lia|exact Breq]).
  rewrite (AesGcmKey.decrypt_in_place stk Hstk req data [] _ _ Hk B (Forall_nil _) Hiv Hmac) by (apply Z.ltb_lt; unfold in_range in *; cbn [length]; lia).
  destruct (aes_gcm_open req (em_iv (query args)) [] data (em_mac (query args))) as [p|] eqn:Eo; cbn [ret sbind try]; [|exact I].
  destruct (verify_commitment p _) as [u|e]; cbn [try]; [|exact I].
  destruct (open_shape _ _ _ _ _ _ Hk (proj2 Hiv) B Eo) as [Lp Bp]. split; [exact Bp|]. apply into_iter_count; [|apply Hc].
  pose proof (Z.div_mod (Z.of_nat (length data) - 32) 8). lia.
Qed.

Lemma decode_request_ok s args req : cds_call_args_ok args -> bytes_ok req -> state_inv s ->
  prog_ok (fun r => match r with
                    | Ok data => bytes_ok data /\
                        Z.of_nat (length (phones (query_phones s))) + Z.of_nat (length (into_iter data)) <= capacity (query_phones s)
                    | Err _ => True end) (decode_request base limit sgx_is_outside_enclave stk s args req).
Proof.
  intros Ha Breq Hs. unfold decode_request. destruct (_ || _) eqn:G; [exact I|]. rewrite orb_false_iff, Z.ltb_ge in G.
  eapply prog_ok_impl; [now apply decode_phone_list_ok|]. intros [data|e]; [|trivial]. intros [B E]. split; [exact B|lia].
Qed.

(** The service accepts a new request. *)
Definition queued (s : SgxsdServerState) (f : sgxsd_msg_from_t) (ps : list Z) : SgxsdServerState :=
  {| requests := requests s ++ [{| from := Some f; request_phone_count := Z.of_nat (length ps) |}];
     query_phones := {| capacity := capacity (query_phones s); phones := phones (query_phones s) ++ ps |} |}.

Lemma total_app l l' : total (l ++ l') = total l + total l'.
Proof. induction l as [|r l IH]; cbn [app total fold_right]; [reflexivity|]. fold (total (l ++ l')) (total l). lia. Qed.

Lemma queued_inv s f ps : state_inv s -> from_ok f -> Forall (in_range 64) ps ->
  Z.of_nat (length (phones (query_phones s))) + Z.of_nat (length ps) <= capacity (query_phones s) -> state_inv (queued s f ps).
Proof.
  intros [H1 H2 H3 H4] Hf Hps Hroom. split; cbn [queued requests query_phones capacity phones].
  - apply Forall_app. split; [exact H1|]. constructor; [|constructor]. split; [now exists f|cbn; lia].
  - rewrite total_app, H2, length_app. cbn. lia.
  - apply Forall_app. now split.
  - rewrite length_app. lia.
Qed.

Lemma as_ref_bytes buf : buf_ok buf -> exists msg, ECallSlice_as_ref (mb_data buf) (mb_size buf) = Some msg /\ bytes_ok msg.
Proof.
  intros [Hs Hd]. unfold ECallSlice_as_ref. destruct (Z.eqb_spec (mb_size buf) 0); cbn [negb]; [exists []; split; [reflexivity|constructor]|].
  destruct (mb_data buf) as [d|]; [|exists []; split; [reflexivity|constructor]]. destruct Hd as [L B].
  rewrite load_Some by lia. eexists. split; [reflexivity|]. now apply Forall_firstn.
Qed.

(** * The callbacks *)

Abbreviation cds_server := (cds_server rdrand64_step base limit sgx_is_outside_enclave stk).

Lemma cds_init_ok args : init_args_ok args ->
  prog_ok (fun '(res, stored) => if_some state_ok stored /\ (success res = true -> is_null stored = false)) (sgxsd_enclave_server_init cds_server args).
Proof.
  destruct args as [a|]; cbn; [|easy]. intros Ha. split; [|reflexivity]. split; cbn; [constructor|reflexivity|constructor|].
  unfold in_range in Ha. lia.
Qed.

Lemma cds_handle_call_ok args buf f p : call_args_ok args -> buf_ok buf -> is_null (mb_data buf) = false -> from_ok f -> state_ok p ->
  prog_ok (fun '(_, data, p') => region (mb_size buf) data /\ is_null data = false /\ state_ok p')
    (sgxsd_enclave_server_handle_call cds_server args buf f p).
Proof.
  intros Ha Hb Hn Hf Hp. destruct p as [s|]; [|destruct Hp]. destruct (as_ref_bytes buf Hb) as (msg & E & Bm).
  cbn [Cds.cds_server sgxsd_enclave_server_handle_call]. unfold Ecalls.sgxsd_enclave_server_handle_call. rewrite E, SgxsdMsgFrom.new_copies.
  assert (Hbuf : region (mb_size buf) (mb_data buf)) by apply Hb.
  eapply prog_ok_bind with (Q := fun '(_, s') => state_inv s').
  - cbn [SgxsdFfi.handle_call server_trait]. unfold handle_call. destruct args as [a|]; [|exact Hp].
    eapply prog_ok_bind; [now apply decode_request_ok|]. intros [data|e] Hr; [|exact Hp]. destruct Hr as [Bd Hroom]. cbv zeta.
    destruct (2 ^ 32 <=? _); [exact Hp|]. apply (queued_inv s f (into_iter data) Hp Hf); [now apply into_iter_ok|exact Hroom].
  - intros [[u|[e f']] s'] Hs'; [now split|]. cbn [SgxsdMsgFrom.forget SgxsdMsgFrom.drop ret sbind prog_ok]. now split.
Qed.

Lemma drop_requests_ok rs : Forall waiting rs -> prog_ok (fun _ => True) (drop_requests (W := W) rs).
Proof.
  induction 1 as [|r rs [(f & E & Hf) _] _ IH]; [exact I|]. cbn [drop_requests]. rewrite E. eapply prog_ok_bind; [now apply SgxsdMsgFrom.msg_drop_ok|]. intros _ _. exact IH.
Qed.

(** The results are split among the requests without remainder, so that the loop does not panic. *)
Lemma reply_loop_ok rs : Forall waiting rs -> forall res, bytes_ok res ->
  16 * total rs <= Z.of_nat (length res) -> prog_ok (fun _ => True) (reply_loop (W := W) rs res).
Proof.
  induction 1 as [|r rs [(f & E & Hf) Hc] Hrs IH]; intros res B L; [exact I|]. cbn [reply_loop]. rewrite E. unfold BYTES_PER_UUID.
  cbn [total fold_right] in L. fold (total rs) in L.
  pose proof (total_nonneg rs Hrs).
  rewrite (proj2 (Z.ltb_ge _ _)) by lia. eapply prog_ok_bind; [apply SgxsdMsgFrom.msg_reply_ok; [exact Hf|now apply Forall_firstn]|].
  intros [u|e] _; [|eapply prog_ok_bind; [now apply drop_requests_ok|now cbn]].
  apply IH; [now apply Forall_skipn|]. rewrite length_skipn. lia.
Qed.

Lemma lookup_chunks_ok p u n cs ds : directory_outside p u n -> Forall (Forall (in_range 64)) cs ->
  Forall2 (fun c d => length d = (16 * length c)%nat /\ (1 <= length c <= Z.to_nat MAX_HASH_TABLE_SIZE)%nat) cs ds ->
  prog_ok (fun r => match r with Ok res => blob (16 * length (concat cs)) res | Err _ => True end)
    (lookup_chunks rdrand64_step base limit p u n cs ds).
Proof.
  intros Hdir Hcs H. induction H as [|c d cs ds [L Hc] _ IH]; cbn [lookup_chunks concat]; [split; [reflexivity|constructor]|].
  apply Forall_cons_iff in Hcs as [Hc1 Hcs]. eapply prog_ok_bind.
  - apply (ffi_hash_lookup_ok {| in_phones := p; in_uuids := u; in_len := n |} Hdir c d Hc1); [|exact L].
    change (Z.to_nat MAX_HASH_TABLE_SIZE) with (Z.to_nat 8192) in Hc. lia.
  - intros [status res] Hres. destruct (success status); cbn [negb]; [|exact I]. destruct (Hres eq_refl) as [Lr Br].
    eapply prog_ok_bind; [exact (IH Hcs)|]. intros [rest|e] Hrest; [|exact I]. destruct Hrest as [Lrest Brest].
    cbn [try ret prog_ok]. split; [rewrite !length_app; lia|]. apply Forall_app. now split.
Qed.

(** What [terminate] makes of the pointers of the host. *)
Lemma directory_slices a np nu sp su : cds_stop_args_ok a ->
  checked_mul (in_phone_count a) BYTES_PER_PHONE = Some np -> checked_mul (in_phone_count a) BYTES_PER_UUID = Some nu ->
  UntrustedSlice.new sgx_is_outside_enclave (Edge.in_phones a) np = Ok sp ->
  UntrustedSlice.new sgx_is_outside_enclave (Edge.in_uuids a) nu = Ok su ->
  directory_outside (UntrustedSlice.as_ptr sp) (UntrustedSlice.as_ptr su) (in_phone_count a).
Proof.
  intros (Hp & Hu & Hc & Hz). unfold checked_mul, BYTES_PER_PHONE, BYTES_PER_UUID.
  destruct (Z.ltb_spec (in_phone_count a * 8) (2 ^ 64)) as [Hnp|]; [|discriminate]. destruct (Z.ltb_spec (in_phone_count a * 16) (2 ^ 64)) as [Hnu|]; [|discriminate].
  intros [= <-] [= <-] Ep Eu. unfold in_range in Hc.
  assert (R8 : in_range 64 (in_phone_count a * 8)) by (unfold in_range; lia). assert (R16 : in_range 64 (in_phone_count a * 16)) by (unfold in_range; lia).
  destruct (UntrustedSlice.new_ok base limit sgx_is_outside_enclave Houtside _ _ sp Hp R8 Ep) as [Hsp Cp].
  destruct (UntrustedSlice.new_ok base limit sgx_is_outside_enclave Houtside _ _ su Hu R16 Eu) as [Hsu Cu].
  split; [lia|]. assert (H0 : outside_enclave base limit 0 0 = true) by (unfold outside_enclave; cbn; now rewrite (proj2 (Z.leb_le 0 base) Hbase)).
  rewrite (Z.mul_comm 8), (Z.mul_comm 16). split.
  - destruct Cp as [(-> & Cz)|(-> & Cz)]; [|apply Hsp]. cbn. replace (in_phone_count a * 8) with 0 by lia. exact H0.
  - destruct Cu as [(-> & Cz)|(-> & Cz)]; [|apply Hsu]. cbn. replace (in_phone_count a * 16) with 0 by lia. exact H0.
Qed.

Lemma result_chunks (ps : list Z) : Forall2 (fun c d => length d = (16 * length c)%nat /\ (1 <= length c <= Z.to_nat MAX_HASH_TABLE_SIZE)%nat)
  (chunks MAX_HASH_TABLE_SIZE ps) (chunks (MAX_HASH_TABLE_SIZE * BYTES_PER_UUID) (zeros (Z.of_nat (length ps) * BYTES_PER_UUID))).
Proof.
  unfold chunks. assert (Hm : 0 < MAX_HASH_TABLE_SIZE) by (unfold MAX_HASH_TABLE_SIZE, MAX_HASH_TABLE_ORDER; lia).
  unfold BYTES_PER_UUID. rewrite (Z2Nat.inj_mul _ 16) by lia. apply chunks_match; try lia.
  unfold zeros. rewrite repeat_length. lia.
Qed.

Lemma cds_terminate_ok args p : terminate_args_ok args -> state_ok p -> prog_ok (fun _ => True) (sgxsd_enclave_server_terminate cds_server args p).
Proof.
  intros Ha Hp. destruct p as [s|]; [|destruct Hp]. destruct Hp as [H1 H2 H3 H4]. cbn [Cds.cds_server sgxsd_enclave_server_terminate].
  unfold Ecalls.sgxsd_enclave_server_terminate. eapply prog_ok_bind with (Q := fun _ => True); [|now cbn]. cbn [SgxsdFfi.terminate server_trait].
  unfold terminate. eapply prog_ok_bind with (Q := fun r => match r with Ok res => blob (16 * length (phones (query_phones s))) res | Err _ => True end).
  - unfold terminate_lookup. destruct args as [a|]; cbn [ok_or try]; [|exact I].
    destruct (checked_mul (in_phone_count a) BYTES_PER_PHONE) as [np|] eqn:Enp; cbn [ok_or try]; [|exact I].
    destruct (checked_mul (in_phone_count a) BYTES_PER_UUID) as [nu|] eqn:Enu; cbn [ok_or try]; [|exact I].
    destruct (UntrustedSlice.new _ (Edge.in_phones a) np) as [sp|] eqn:Ep; cbn [map_err try]; [|exact I].
    destruct (UntrustedSlice.new _ (Edge.in_uuids a) nu) as [su|] eqn:Eu; cbn [map_err try]; [|exact I].
    unfold checked_mul at 1. destruct (_ <? 2 ^ 64); cbn [ok_or try]; [|exact I].
    eapply prog_ok_impl; [apply lookup_chunks_ok; [exact (directory_slices a np nu sp su Ha Enp Enu Ep Eu)|now apply chunks_ok|apply result_chunks]|].
    rewrite concat_chunks by (unfold MAX_HASH_TABLE_SIZE, MAX_HASH_TABLE_ORDER; lia). trivial.
  - intros [res|e] Hr; [apply reply_loop_ok; [exact H1|apply Hr|rewrite H2, (proj1 Hr); lia]|].
    eapply prog_ok_bind; [now apply drop_requests_ok|now cbn].
Qed.

(** * The fingerprint *)

(** One byte per phone. *)
Definition phone_tag (key : list Z) (phone : Z) : Z := nth 0 (hmac_sha256 key (br_enc64le phone)) 0.

Lemma splice_nil (l : list Z) i : splice l i [] = l.
Proof. unfold splice. cbn [length app]. now rewrite Nat.add_0_r, firstn_skipn. Qed.

Lemma splice_assign (l t : list Z) i x : (i < length l)%nat -> splice (assign l i x) (S i) t = splice l i (x :: t).
Proof.
  intros Hi. unfold splice. revert i Hi. induction l as [|y l IH]; intros [|i] Hi; cbn [length] in Hi; try lia; [reflexivity|].
  cbn [assign firstn length app Nat.add skipn]. f_equal. exact (IH i ltac:(lia)).
Qed.

Lemma fingerprint_loop_spec key n : forall ps ctx i fp, SHA256HMACContext.fresh key ctx -> n <= Z.of_nat (length fp) -> (i <= length fp)%nat ->
  fingerprint_loop stk ctx i ps fp n
  = Some (if Z.of_nat i + Z.of_nat (length ps) <=? Z.max n (Z.of_nat i) then SGX_SUCCESS else SGX_ERROR_INVALID_PARAMETER,
          splice fp i (firstn (Z.to_nat n - i) (map (phone_tag key) ps))).
Proof.
  assert (Hsha : length (Sha2.buf (stk_sha stk)) = 64%nat) by apply Hstk.
  induction ps as [|p ps IH]; intros ctx i fp Hctx Hn Hi; cbn [fingerprint_loop length map].
  - rewrite (proj2 (Z.leb_le _ _)) by lia. now rewrite firstn_nil, splice_nil.
  - destruct (Z.leb_spec n (Z.of_nat i)) as [H|H].
    + rewrite (proj2 (Z.leb_gt _ _)) by lia. replace (Z.to_nat n - i)%nat with 0%nat by lia. cbn [firstn]. now rewrite splice_nil.
    + rewrite (proj2 (Nat.ltb_lt _ _)) by lia. rewrite (SHA256HMACContext.update_result _ Hsha key) by exact Hctx. fold (phone_tag key p).
      rewrite IH; [|now apply SHA256HMACContext.reset_fresh, SHA256HMACContext.update_keyed|rewrite length_assign; lia|rewrite length_assign; lia].
      replace (Z.to_nat n - i)%nat with (S (Z.to_nat n - S i)) by lia. cbn [firstn]. rewrite splice_assign by lia.
      do 2 f_equal. destruct (Z.leb_spec (Z.of_nat (S i) + Z.of_nat (length ps)) (Z.max n (Z.of_nat (S i)))),
        (Z.leb_spec (Z.of_nat i + Z.of_nat (S (length ps))) (Z.max n (Z.of_nat i))); reflexivity || lia.
Qed.

Lemma cds_fingerprint_ok key args buf f fp n : fingerprint_args_ok key args fp n -> buf_ok buf -> is_null (mb_data buf) = false -> from_ok f ->
  prog_ok (fun '(_, data, _) => region (mb_size buf) data /\ is_null data = false)
    (Sgxsd.sgxsd_enclave_create_ratelimit_fingerprint cds_server key args buf f fp n).
Proof.
  intros (Ha & Hna & Hnf & Hf) Hb Hn _. destruct args as [a|]; [|discriminate]. destruct fp as [fp|]; [|discriminate].
  destruct (as_ref_bytes buf Hb) as (msg & E & Bm). assert (Hbuf : region (mb_size buf) (mb_data buf)) by apply Hb.
  cbn [Cds.cds_server Sgxsd.sgxsd_enclave_create_ratelimit_fingerprint]. unfold sgxsd_enclave_create_ratelimit_fingerprint. rewrite E.
  eapply prog_ok_bind; [now apply decode_phone_list_ok|]. intros [data|e] _; [|now split].
  rewrite (fingerprint_loop_spec key) by (exact Hf || lia || apply SHA256HMACContext.new_fresh, Hstk). now split.
Qed.

Lemma cds_server_ok : server_ok cds_server.
Proof. split; [apply cds_init_ok|apply cds_handle_call_ok|apply cds_terminate_ok|apply cds_fingerprint_ok]. Qed.

End Safety.
End CdsSafety.
