(* ===== verification/CdsSpec.v ===== *)
(** What the service does, end to end: which queries it takes, and what the clients are sent when
    the batch is closed. *)
From S2P Require Import Prelude Codec Sha2 Hmac SgxsdCrypto Threads Sgxsd SgxsdSafety SgxsdSystem SgxsdProtocol SgxsdEntry Edge EdgeSafety Service SgxsdFfi HashLookup HashTable CdsLookup Cds CdsSafety.
From Stdlib Require Import ZArith List Lia Bool.
Import Codec SgxsdCrypto Threads Sgxsd SgxsdSafety SgxsdSystem SgxsdProtocol SgxsdEntry Edge EdgeSafety Service HashLookup HashTable CdsLookup Cds CdsSafety.

Module CdsSpec.

#[local] Opaque HashKey.hash_block sgxsd_aes_gcm_run aes_gcm_open aes_gcm_seal sha256 Sha2.br_sha256_out hmac_sha256 hkdf_T.

(** * Programs of the service on a platform *)

Section Execute.
Context {W S TargetInfo : Type} (plat : @platform W TargetInfo) (Hplat : platform_ok plat) (stk : stack) (Hstk : stack_ok stk)
  (hdr : sgxsd_msg_header_t) (Hhdr : blob 16 (mh_mac hdr)).
Abbreviation enclave := (@enclave W S).
Abbreviation SP A := (@server_prog W A).

(** A reply: sealed under the key of the request with a fresh vector, and handed to the host. *)
Definition send (f : sgxsd_msg_from_t) (msg : list Z) (w : W) : sgx_status_t * W :=
  if negb (from_valid f) then (SGX_ERROR_INVALID_STATE, w)
  else
    let '(rand_res, iv, w) := sgx_read_rand plat 12 w in
    if negb (success rand_res) then (rand_res, w)
    else
      let '(c, t) := aes_gcm_seal (from_server_key f) (reply_iv iv) [] msg in
      let '(ocall_res, res, w) :=
        Sgxsd.sgxsd_ocall_reply plat (Some {| mh_iv := reply_iv iv; mh_mac := t; mh_pending_request_id := mh_pending_request_id hdr |})
          (Some c) (Z.of_nat (length msg)) (from_tag f) w in
      (if success ocall_res then res else ocall_res, w).

(** The host is told that there is no reply. *)
Definition refuse (f : sgxsd_msg_from_t) (w : W) : sgx_status_t * W :=
  if negb (from_valid f) then (SGX_ERROR_INVALID_STATE, w)
  else
    let '(ocall_res, res, w) := Sgxsd.sgxsd_ocall_reply plat None None 0 (from_tag f) w in
    (if success ocall_res then res else ocall_res, w).

(** A program that acts on the world, replies and refuses. *)
Fixpoint execute {A} (p : SP A) (w : W) : option (A * W) :=
  match p with
  | SRet _ a => Some (a, w)
  | SExt _ f k => let '(b, w) := f w in execute (k b) w
  | SReply _ {| mb_data := Some msg; mb_size := size |} (Some f) k =>
      if size =? Z.of_nat (length msg)
      then let '(res, w) := send f msg w in execute (k res (Some (zeros size)) (Some zero_from)) w
      else None
  | SNoReply _ (Some f) k =>
      let '(res, w) := refuse f w in execute (k res (Some (if from_valid f then zero_from else f))) w
  | _ => None
  end.

Lemma execute_bind {A B} (p : SP A) (k : A -> SP B) : forall w,
  execute (sbind p k) w = match execute p w with Some (a, w') => execute (k a) w' | None => None end.
Proof.
  induction p as [a| |C f g IH|x g IH|[[msg|] size] [f|] g IH|[f|] g IH]; intros w; cbn [sbind execute]; try reflexivity.
  - destruct (f w). apply IH.
  - destruct (size =? _); [|reflexivity]. destruct (send f msg w). apply IH.
  - destruct (refuse f w). apply IH.
Qed.

Lemma execute_eval {A} (p : SP A) : forall w r, eval p w = Some r -> execute p w = Some r.
Proof.
  induction p as [a| |C f g IH|x g IH|buf from g IH|from g IH]; intros w r; cbn [eval execute]; try discriminate; [trivial|].
  destruct (f w). apply IH.
Qed.

Lemma run_noreply f (st : enclave) : run (sgxsd_enclave_server_noreply plat (Some f)) st =
  let '(res, w) := refuse f (world st) in Done (res, Some (if from_valid f then zero_from else f)) (set_world w st).
Proof.
  unfold sgxsd_enclave_server_noreply, refuse. destruct (from_valid f); cbn [negb]; [|now destruct st].
  unfold call_ocall_reply. rewrite run_act. now destruct (Sgxsd.sgxsd_ocall_reply plat None None 0 (from_tag f) (world st)) as [[r1 r2] w].
Qed.

Lemma run_reply f msg (st : enclave) : bytes_ok msg -> Z.of_nat (length msg) < 2 ^ 32 -> from_ok f ->
  run (sgxsd_enclave_server_reply plat stk hdr {| mb_data := Some msg; mb_size := Z.of_nat (length msg) |} (Some f)) st =
  let '(res, w) := send f msg (world st) in Done (res, Some (zeros (Z.of_nat (length msg))), Some zero_from) (set_world w st).
Proof.
  intros Bm Lm Hf. set (n := Z.of_nat (length msg)) in *.
  assert (Estore : forall d, length d = length msg -> store (Some d) (zeros n) = Some (Some (zeros n))).
  { intros d Ld. destruct (zeros_blob n) as [Lz _]; [lia|]. unfold store. now rewrite (proj2 (Nat.leb_le _ _)), splice_all by lia. }
  unfold sgxsd_enclave_server_reply, sgxsd_enclave_server_reply_noerase, send. cbn [mb_data mb_size is_null andb].
  destruct (from_valid f); cbn [negb]; [|rewrite run_bind; cbn [run is_null]; rewrite run_lift, Estore by reflexivity; now destruct st].
  rewrite !run_bind, call_read_rand_run. change SGXSD_AES_GCM_IV_SIZE with 12.
  pose proof (Hplat 12 (world st) ltac:(lia)) as Hiv. destruct (sgx_read_rand plat 12 (world st)) as [[rres iv] w]. cbn [fst snd] in Hiv.
  destruct (negb (success rres)); [cbn [run is_null]; rewrite run_lift, Estore by reflexivity; reflexivity|].
  fold (reply_iv iv). pose proof (reply_iv_blob iv Hiv) as Hri.
  rewrite (encrypt_in_place stk Hstk), !run_lift; [|exact Hf|lia|split; [lia|exact Bm]|exact Hri|exact Hhdr]. cbn [success negb].
  subst n. rewrite Nat2Z.id, firstn_all. pose proof (seal_length (Aead := aes_gcm_aead) (from_server_key f) (reply_iv iv) [] msg Hf (proj2 Hri)) as Lc.
  destruct (aes_gcm_seal (from_server_key f) (reply_iv iv) [] msg) as [c t]. cbn [fst snd] in *. rewrite splice_all by congruence.
  unfold call_ocall_reply. rewrite run_act. replace (world (set_world w st)) with w by (now destruct st).
  destruct (Sgxsd.sgxsd_ocall_reply plat _ _ _ (from_tag f) w) as [[r1 r2] w']. cbn [run is_null]. rewrite run_lift, Estore by exact Lc.
  cbn [run option_map]. now replace (set_world w' (set_world w st)) with (set_world w' st) by (now destruct st).
Qed.

(** The enclave runs a program of the service as [execute] says. *)
Lemma run_interp {A} (Q : A -> Prop) (p : SP A) : prog_ok Q p -> forall (st : enclave) a w, execute p (world st) = Some (a, w) ->
  run (interp plat stk hdr p) st = Done a (set_world w st).
Proof.
  induction p as [a0| |C f g IH|x g IH|[[msg|] size] [f|] g IH|[f|] g IH]; cbn [prog_ok execute interp]; intros Hp st a w E; try discriminate.
  - injection E as <- <-. now destruct st.
  - rewrite run_act. specialize (Hp (world st)). destruct (f (world st)) as [b w1]. cbn [fst] in Hp.
    rewrite (IH b Hp (set_world w1 st) a w); [now destruct st|]. now replace (world (set_world w1 st)) with w1 by (now destruct st).
  - destruct Hp as ([Hs Hd] & Hf & Hk). cbn [mb_size mb_data region if_some] in *. destruct (Z.eqb_spec size (Z.of_nat (length msg))) as [->|]; [|discriminate].
    rewrite run_bind, run_reply by (apply Hd || lia || exact Hf). destruct (send f msg (world st)) as [res w1].
    rewrite (IH res (Some (zeros (Z.of_nat (length msg)))) (Some zero_from)) with (a := a) (w := w); [now destruct st| |now destruct st].
    apply Hk; [|reflexivity..]. destruct (zeros_blob (Z.of_nat (length msg))) as [Lz Bz]; [lia|]. split; [lia|exact Bz].
  - destruct Hp as (Hf & Hk). rewrite run_bind, run_noreply. destruct (refuse f (world st)) as [res w1].
    rewrite (IH res (Some (if from_valid f then zero_from else f))) with (a := a) (w := w); [now destruct st| |now destruct st].
    apply Hk. destruct (from_valid f); [apply zero_from_ok|exact Hf].
Qed.

End Execute.

(** * Programs that only read the host's memory *)

Section ReadOnly.
Context {W : Type} {HM : HostMemory W}.
Abbreviation SP A := (@server_prog W A).

Definition same_memory (w w' : W) : Prop := forall a, peek w' a = peek w a.

Lemma same_refl w : same_memory w w.
Proof. intros a. reflexivity. Qed.

Lemma same_trans w1 w2 w3 : same_memory w1 w2 -> same_memory w2 w3 -> same_memory w1 w3.
Proof. intros H1 H2 a. now rewrite H2. Qed.

Lemma same_bytes w w' p n : same_memory w w' -> peek_bytes w' p n = peek_bytes w p n.
Proof. intros H. apply map_ext. intros a. apply H. Qed.

Lemma same_directory w w' n : same_memory w w' -> forall p u, directory_at w' p u n = directory_at w p u n.
Proof.
  intros H. induction n as [|n IH]; intros p u; cbn [directory_at]; [reflexivity|]. unfold entry_at. now rewrite !(same_bytes w w'), IH.
Qed.

Fixpoint reads_only {A} (p : SP A) : Prop :=
  match p with
  | SRet _ _ | SUndefined _ => True
  | SExt _ f k => forall w, same_memory w (snd (f w)) /\ reads_only (k (fst (f w)))
  | _ => False
  end.

Lemma reads_only_bind {A B} (p : SP A) (k : A -> SP B) : reads_only p -> (forall a, reads_only (k a)) -> reads_only (sbind p k).
Proof.
  intros Hp Hk. induction p as [a| |C f g IH|x g IH|buf from g IH|from g IH]; cbn [sbind reads_only] in *; auto.
  intros w. destruct (Hp w). auto.
Qed.

Lemma eval_reads_only {A} (p : SP A) : reads_only p -> forall w a w', eval p w = Some (a, w') -> same_memory w w'.
Proof.
  induction p as [a0| |C f g IH|x g IH|buf from g IH|from g IH]; cbn [reads_only eval]; intros Hp w a w' E; try discriminate.
  - injection E as _ <-. apply same_refl.
  - destruct (Hp w) as [H1 H2]. destruct (f w) as [b w1]. cbn [fst snd] in *. apply (same_trans w w1); [exact H1|]. exact (IH b H2 w1 a w' E).
Qed.

Lemma read_host_reads base limit p n : reads_only (read_host base limit p n).
Proof. unfold read_host. destruct (outside_enclave base limit p n); [|exact I]. intros w. split; [apply same_refl|exact I]. Qed.

(** The instruction does not change memory. *)
Context (rdrand64_step : W -> bool * Z * W) (Hrd : forall w, same_memory w (snd (rdrand64_step w))) (base limit : Z).

Lemma generate_reads : reads_only (generate rdrand64_step).
Proof.
  unfold generate. generalize 10%nat as n. induction n as [|n IH]; [exact I|]. cbn [generate_loop sbind ext reads_only].
  intros w. pose proof (Hrd w) as H. destruct (rdrand64_step w) as [[[|] x] w1]; cbn [fst snd sbind reads_only] in *; (split; [exact H|]); [|exact IH].
  intros w'. pose proof (Hrd w') as H'. destruct (rdrand64_step w') as [[[|] y] w2]; cbn [fst snd] in *; (split; [exact H'|]); [exact I|exact IH].
Qed.

Lemma hash_range_reads key order slots n : forall p u results, reads_only (hash_range base limit key order slots p u n results).
Proof.
  induction n as [|n IH]; intros p u results; cbn [hash_range]; [exact I|]. apply reads_only_bind; [apply read_host_reads|]. intros phone.
  apply reads_only_bind; [apply read_host_reads|]. intros uuid. destruct (hash_phone _ _ _ _ _ _); [apply IH|exact I].
Qed.

Lemma contruct_reads key order slots fuel dir : forall i results, reads_only (contruct_loop base limit key order slots fuel dir i results).
Proof.
  induction fuel as [|fuel IH]; intros i results; cbn [contruct_loop]; [apply hash_range_reads|].
  destruct (_ <? _); [|apply hash_range_reads]. apply reads_only_bind; [apply hash_range_reads|]. auto.
Qed.

Lemma lookup_loop_reads n p u c ps : forall t, reads_only (lookup_loop rdrand64_step base limit n p u c ps t).
Proof.
  induction n as [|n IH]; intros t; cbn [lookup_loop]; [exact I|]. apply reads_only_bind.
  - unfold cds_hash_lookup. apply reads_only_bind; [|now intros []]. unfold hash_lookup. destruct (_ || _); [exact I|].
    apply reads_only_bind; [apply generate_reads|]. intros [key|]; [|exact I]. destruct (build_slots _ _ _ _) as [slots [|]]; [exact I|].
    apply reads_only_bind; [apply contruct_reads|]. now intros results.
  - intros [res t']. destruct (res =? _); [exact I|]. destruct (res =? _); [apply IH|exact I].
Qed.

Lemma ffi_hash_lookup_reads p u c ps buf : reads_only (ffi_hash_lookup rdrand64_step base limit p u c ps buf).
Proof.
  unfold ffi_hash_lookup. destruct (_ <? _); [exact I|]. destruct (_ =? 0); [exact I|]. destruct (negb _); [exact I|].
  apply reads_only_bind; [apply lookup_loop_reads|]. now intros [res t].
Qed.

End ReadOnly.

(** * The answers *)

Lemma answers_nil say : answers [] say [].
Proof. now exists []. Qed.

Lemma answers_app ps ps' say res res' : answers ps say res -> answers ps' say res' -> answers (ps ++ ps') say (res ++ res').
Proof.
  intros (us & -> & H) (us' & -> & H'). exists (us ++ us'). rewrite map_app, concat_app. split; [reflexivity|]. now apply Forall2_app.
Qed.

Lemma uuids_len us : length (concat (map uuid_bytes us)) = (16 * length us)%nat.
Proof. exact (proj1 (uuids_blob (fun u => u) us)). Qed.

Lemma answers_len ps say res : answers ps say res -> length res = (16 * length ps)%nat.
Proof.
  intros (us & -> & H). rewrite uuids_len. f_equal. symmetry. exact (Forall2_length H).
Qed.

Lemma firstn_uuids n : forall us, firstn (16 * n) (concat (map uuid_bytes us)) = concat (map uuid_bytes (firstn n us)).
Proof.
  induction n as [|n IH]; intros [|u us]; try reflexivity. cbn [map concat firstn]. destruct (uuid_blob u) as [L _].
  rewrite firstn_app, firstn_all2, <- IH by lia. do 2 f_equal. lia.
Qed.

Lemma skipn_uuids n : forall us, skipn (16 * n) (concat (map uuid_bytes us)) = concat (map uuid_bytes (skipn n us)).
Proof.
  induction n as [|n IH]; intros [|u us]; try reflexivity. cbn [map concat skipn]. destruct (uuid_blob u) as [L _].
  rewrite skipn_app, skipn_all2, <- IH by lia. cbn [app]. f_equal. lia.
Qed.

Definition sender_of (r : PendingRequest) : sgxsd_msg_from_t := match from r with Some f => f | None => zero_from end.

(** Who is to be sent which answers. *)
Fixpoint deal (rs : list PendingRequest) (us : list uuid_t) : list (sgxsd_msg_from_t * list Z) :=
  match rs with
  | [] => []
  | r :: rs' =>
      let n := Z.to_nat (request_phone_count r) in
      (sender_of r, concat (map uuid_bytes (firstn n us))) :: deal rs' (skipn n us)
  end.

Section Answer.
Context {W TargetInfo : Type} (plat : @platform W TargetInfo) (hdr : sgxsd_msg_header_t).

Definition refuse_all (fs : list sgxsd_msg_from_t) (w : W) : W := fold_left (fun w f => snd (refuse plat f w)) fs w.

(** One after the other; once a reply fails, the rest are refused. *)
Fixpoint answer_all (l : list (sgxsd_msg_from_t * list Z)) (w : W) : sgx_status_t * W :=
  match l with
  | [] => (SGX_SUCCESS, w)
  | (f, msg) :: l' =>
      let '(res, w) := send plat hdr f msg w in
      if success res then answer_all l' w else (res, refuse_all (map fst l') w)
  end.

Lemma execute_drop rs : Forall waiting rs -> forall w, execute plat hdr (drop_requests rs) w = Some (tt, refuse_all (map sender_of rs) w).
Proof.
  induction 1 as [|r rs [(f & E & _) _] _ IH]; intros w; [reflexivity|]. cbn [drop_requests map]. unfold sender_of at 1. rewrite E, execute_bind.
  cbn [SgxsdMsgFrom.drop execute ret]. cbn [refuse_all fold_left]. destruct (refuse plat f w) as [res w1]. cbn [execute snd]. apply IH.
Qed.

Lemma deal_senders rs : forall us, map fst (deal rs us) = map sender_of rs.
Proof. induction rs as [|r rs IH]; intros us; cbn [deal map fst]; [reflexivity|]. now rewrite IH. Qed.

Lemma execute_replies rs : Forall waiting rs -> forall us w, Z.of_nat (length us) = total rs -> 16 * total rs < 2 ^ 32 ->
  execute plat hdr (reply_loop rs (concat (map uuid_bytes us))) w =
  let '(res, w') := answer_all (deal rs us) w in Some (if success res then Ok tt else Err res, w').
Proof.
  induction 1 as [|r rs [(f & E & Hf) Hc] Hrs IH]; intros us w L Hlt; [reflexivity|]. cbn [total fold_right] in L, Hlt. fold (total rs) in L, Hlt.
  pose proof (total_nonneg rs Hrs) as Ht. cbn [reply_loop deal answer_all]. unfold sender_of at 1. rewrite E. set (n := Z.to_nat (request_phone_count r)).
  replace (Z.to_nat (request_phone_count r * BYTES_PER_UUID)) with (16 * n)%nat by (unfold BYTES_PER_UUID; lia).
  rewrite (proj2 (Z.ltb_ge _ _)) by (rewrite uuids_len; unfold BYTES_PER_UUID; lia).
  rewrite firstn_uuids, skipn_uuids, execute_bind. unfold SgxsdMsgFrom.reply.
  assert (Lm : length (concat (map uuid_bytes (firstn n us))) = (16 * n)%nat) by (rewrite uuids_len, length_firstn; lia).
  unfold fits_u32. rewrite (proj2 (Z.ltb_lt _ _)) by lia. cbn [execute]. rewrite Z.eqb_refl.
  destruct (send plat hdr f _ w) as [res w1]. cbn [execute ret]. destruct (success res) eqn:Es.
  - apply IH; [rewrite length_skipn; lia|lia].
  - rewrite execute_bind, execute_drop, deal_senders, Es by exact Hrs. reflexivity.
Qed.

End Answer.

(** * The service *)

Section Discovery.
Context {W TargetInfo : Type} {HM : HostMemory W} (rdrand64_step : W -> bool * Z * W) (base limit : Z)
  (sgx_is_outside_enclave : Z -> Z -> Z) (stk : stack) (Hstk : stack_ok stk).
Context (Houtside : forall p n, in_range 64 p -> in_range 64 n -> sgx_is_outside_enclave p n = 1 -> outside_enclave base limit p n = true).
Context (Hbase : 0 <= base) (Hrd : forall w, same_memory w (snd (rdrand64_step w))).
Abbreviation SP A := (@server_prog W A).
Abbreviation cds_server := (cds_server rdrand64_step base limit sgx_is_outside_enclave stk).

(** ** Queries *)

(** The encrypted query in the host's memory, which must be outside the enclave. *)
Definition query_data (w : W) (q : cds_encrypted_msg_t) : option (list Z) :=
  if em_size q =? 0 then Some []
  else if negb (em_data q =? 0) && (sgx_is_outside_enclave (em_data q) (em_size q) =? 1) && (em_data q + em_size q <? 2 ^ 64)
  then Some (peek_bytes w (em_data q) (em_size q))
  else None.

(** The phones of a query that is in order, or why it is not. *)
Definition decoded (w : W) (a : sgxsd_server_handle_call_args_t) (req : list Z) : list Z + sgx_status_t :=
  match query_data w (query a) with
  | None => inr SGX_ERROR_INVALID_PARAMETER
  | Some c =>
      if negb (Z.of_nat (length c) =? 32 + 8 * query_phone_count a) || negb (Z.of_nat (length req) =? 32)
      then inr CDS_ERROR_INVALID_REQUEST_SIZE
      else match aes_gcm_open req (em_iv (query a)) [] c (em_mac (query a)) with
           | None => inr SGX_ERROR_MAC_MISMATCH
           | Some p => if bytes_eqb (sha256 p) (query_commitment a) then inl (into_iter p) else inr CDS_ERROR_QUERY_COMMITMENT_MISMATCH
           end
  end.

(** And that fits the batch. *)
Definition verdict (w : W) (s : SgxsdServerState) (a : sgxsd_server_handle_call_args_t) (req : list Z) : list Z + sgx_status_t :=
  if (query_phone_count a =? 0) || (capacity (query_phones s) <? Z.of_nat (length (phones (query_phones s))) + query_phone_count a)
  then inr SGX_ERROR_INVALID_PARAMETER
  else decoded w a req.

Lemma eval_query_data w q : msg_ok q ->
  match map_err (UntrustedSlice.new sgx_is_outside_enclave (em_data q) (em_size q)) SGX_ERROR_INVALID_PARAMETER with
  | Ok s => eval (UntrustedSlice.read_bytes base limit s (em_size q)) w =
            Some (match query_data w q with Some c => Ok c | None => Err tt end, w)
  | Err e => query_data w q = None /\ e = SGX_ERROR_INVALID_PARAMETER
  end.
Proof.
  intros (_ & _ & Hn & Hp). unfold UntrustedSlice.new, query_data. destruct (Z.eqb_spec (em_size q) 0) as [->|Hn0]; [reflexivity|].
  destruct (Z.eqb_spec (em_data q) 0) as [->|Hp0]; cbn [negb andb map_err].
  { cbn [UntrustedSlice.read_bytes]. now rewrite (proj2 (Z.eqb_neq _ _) Hn0). }
  destruct (Z.eqb_spec (sgx_is_outside_enclave (em_data q) (em_size q)) 1) as [Ho|]; cbn [negb andb map_err]; [|now split].
  apply Houtside in Ho; [|exact Hp|apply (range_weaken 32); [lia|exact Hn]]. pose proof (outside_range _ _ _ _ Ho) as (_ & _ & Hle & _).
  unfold in_range in *. destruct (Z.ltb_spec (em_data q + em_size q) (2 ^ 64)) as [Hlt|Hge].
  - rewrite wrap_small by (unfold in_range; lia). rewrite (proj2 (Z.ltb_ge _ _)) by lia. cbn [map_err UntrustedSlice.read_bytes].
    rewrite Z.leb_refl, eval_bind, eval_read by exact Ho. reflexivity.
  - replace (em_data q + em_size q) with (2 ^ 64) by lia. rewrite (proj2 (Z.ltb_lt _ _)) by (change (u64 (2 ^ 64)) with 0; lia). now split.
Qed.

Lemma query_bytes w q c : query_data w q = Some c -> bytes_ok c.
Proof.
  unfold query_data. destruct (em_size q =? 0); [intros [= <-]; constructor|]. destruct (_ && _); [|discriminate]. intros [= <-]. apply peek_blob.
Qed.

Lemma query_short w q c : in_range 32 (em_size q) -> query_data w q = Some c -> fits_u32 c = true.
Proof.
  intros Hn. unfold query_data, fits_u32. destruct (em_size q =? 0); [now intros [= <-]|]. destruct (_ && _); [|discriminate]. intros [= <-].
  rewrite (proj1 (peek_blob w _ _)). apply Z.ltb_lt. unfold in_range in Hn. lia.
Qed.

Lemma eval_decode_list w a req : cds_call_args_ok a -> bytes_ok req ->
  let p := decode_phone_list base limit sgx_is_outside_enclave stk a req in
  match decoded w a req with
  | inl ps => exists d, into_iter d = ps /\ Z.of_nat (length ps) = query_phone_count a /\ eval p w = Some (Ok d, w)
  | inr e => eval p w = Some (Err e, w)
  end.
Proof.
  intros [Hc Hq] Breq p. subst p. unfold decode_phone_list, decoded. pose proof (eval_query_data w (query a) Hq) as Hs. destruct (map_err _ _) as [sl|e]; [|destruct Hs as [-> ->]; reflexivity].
  cbn [try]. rewrite eval_bind, Hs. destruct (query_data w (query a)) as [c|] eqn:Ec; [|reflexivity]. cbn [map_err try].
  pose proof (query_bytes w _ c Ec) as Bc. destruct Hq as (Hiv & Hmac & Hn & Hp). pose proof (query_short w _ c Hn Ec) as Fc.
  unfold COMMITMENT_NONCE_SIZE, BYTES_PER_PHONE, AesGcmKey.len. unfold in_range in Hc.
  destruct (Z.eqb_spec (Z.of_nat (length c)) (32 + 8 * query_phone_count a)) as [El|Nl]; cbn [negb orb].
  - rewrite (proj2 (Z.leb_le _ _)) by lia. cbn [ok_or try]. replace (Z.of_nat (length c) - 32) with (query_phone_count a * 8) by lia.
    rewrite Z.mod_mul, Z.div_mul, !Z.eqb_refl by lia. cbn [negb]. rewrite !orb_false_r.
    destruct (Z.eqb_spec (Z.of_nat (length req)) 32) as [Er|Nr]; cbn [negb]; [|reflexivity]. assert (Hk : key_ok req) by (split; [lia|exact Breq]).
    unfold AesGcmKey.new. rewrite Er. cbn [Z.eqb Pos.eqb negb try].
    rewrite (AesGcmKey.decrypt_in_place stk Hstk req c [] _ _ Hk Bc (Forall_nil _) Hiv Hmac Fc eq_refl).
    destruct (aes_gcm_open req (em_iv (query a)) [] c (em_mac (query a))) as [d|] eqn:Eo; cbn [ret sbind try]; [|reflexivity].
    unfold verify_commitment. rewrite SHA256Context.result_sha256. destruct (bytes_eqb (sha256 d) (query_commitment a)); [|reflexivity].
    exists d. split; [reflexivity|]. split; [|reflexivity]. apply into_iter_count; [|lia].
    rewrite (proj1 (open_shape _ _ _ _ _ _ Hk (proj2 Hiv) Bc Eo)). exact El.
  - destruct (Z.leb_spec 32 (Z.of_nat (length c))) as [H32|]; [|reflexivity]. cbn [ok_or try].
    replace (negb _ || negb _ || negb _) with true; [reflexivity|]. symmetry. rewrite !orb_true_iff, !negb_true_iff, !Z.eqb_neq.
    destruct (Z.eq_dec ((Z.of_nat (length c) - 32) mod 8) 0) as [Hm|]; [right|now left; right].
    intros Hd. pose proof (Z.div_mod (Z.of_nat (length c) - 32) 8). lia.
Qed.

Lemma eval_decode w s a req : cds_call_args_ok a -> bytes_ok req ->
  let p := decode_request base limit sgx_is_outside_enclave stk s a req in
  match verdict w s a req with
  | inl ps => exists d, into_iter d = ps /\ Z.of_nat (length ps) = query_phone_count a /\ eval p w = Some (Ok d, w)
  | inr e => eval p w = Some (Err e, w)
  end.
Proof.
  intros Ha Breq p. subst p. unfold decode_request, verdict. set (len := Z.of_nat (length (phones (query_phones s)))).
  replace (capacity (query_phones s) - len <? query_phone_count a) with (capacity (query_phones s) <? len + query_phone_count a)
    by (apply eq_true_iff_eq; rewrite !Z.ltb_lt; lia). destruct (_ || _); [reflexivity|]. now apply eval_decode_list.
Qed.

(** What becomes of a call: the query is queued, or refused for a reason and nothing changes. *)
Lemma eval_handle_call w s a buf f msg : cds_call_args_ok a -> ECallSlice_as_ref (mb_data buf) (mb_size buf) = Some msg -> bytes_ok msg ->
  eval (sgxsd_enclave_server_handle_call cds_server (Some a) buf f (Some s)) w =
  Some (match verdict w s a msg with
        | inl ps => (SGX_SUCCESS, mb_data buf, Some (queued s f ps))
        | inr e => (e, mb_data buf, Some s)
        end, w).
Proof.
  intros Ha Em Bm. cbn [Cds.cds_server sgxsd_enclave_server_handle_call]. unfold Ecalls.sgxsd_enclave_server_handle_call.
  rewrite Em, SgxsdMsgFrom.new_copies. cbn [SgxsdFfi.handle_call server_trait]. unfold handle_call. rewrite !eval_bind.
  pose proof (eval_decode w s a msg Ha Bm) as H. cbv zeta in H. destruct (verdict w s a msg) as [ps|e].
  - destruct H as (d & <- & Ld & ->). destruct Ha as [Hc _]. unfold in_range in Hc. rewrite (proj2 (Z.leb_gt _ _)) by lia. reflexivity.
  - rewrite H. reflexivity.
Qed.

(** ** The lookup of a batch *)

(** The arguments describe a directory that [terminate] accepts. *)
Record host_directory (a : sgxsd_server_terminate_args_t) : Prop := {
  hd_phones : in_range 64 (Edge.in_phones a);
  hd_uuids : in_range 64 (Edge.in_uuids a);
  hd_count : 0 <= in_phone_count a /\ in_phone_count a * 16 < 2 ^ 64;
  hd_outside : in_phone_count a <> 0 ->
    Edge.in_phones a <> 0 /\ sgx_is_outside_enclave (Edge.in_phones a) (in_phone_count a * 8) = 1 /\
    Edge.in_phones a + in_phone_count a * 8 < 2 ^ 64 /\
    Edge.in_uuids a <> 0 /\ sgx_is_outside_enclave (Edge.in_uuids a) (in_phone_count a * 16) = 1 /\
    Edge.in_uuids a + in_phone_count a * 16 < 2 ^ 64 }.

(** The directory in the host's memory. *)
Definition directory_of (w : W) (a : sgxsd_server_terminate_args_t) : list (Z * uuid_t) :=
  directory_at w (Edge.in_phones a) (Edge.in_uuids a) (Z.to_nat (in_phone_count a)).

Lemma new_nonempty p n : in_range 64 p -> p <> 0 -> 0 < n -> sgx_is_outside_enclave p n = 1 -> p + n < 2 ^ 64 ->
  UntrustedSlice.new sgx_is_outside_enclave p n = Ok (UntrustedSlice.NonEmpty p n).
Proof.
  intros Hp Hp0 Hn Ho Hlt. unfold UntrustedSlice.new. unfold in_range in Hp.
  rewrite (proj2 (Z.eqb_neq n 0)), (proj2 (Z.eqb_neq p 0)), Ho by lia. cbn [negb andb Z.eqb Pos.eqb].
  rewrite wrap_small by (unfold in_range; lia). now rewrite (proj2 (Z.ltb_ge _ _)) by lia.
Qed.

(** [terminate] looks the chunks up in a directory outside the enclave, which is the host's. *)
Lemma terminate_lookup_chunks s a : host_directory a -> Z.of_nat (length (phones (query_phones s))) * 16 < 2 ^ 64 ->
  exists p u, directory_outside base limit p u (in_phone_count a) /\
    (forall w, directory_at w p u (Z.to_nat (in_phone_count a)) = directory_of w a) /\
    terminate_lookup rdrand64_step base limit sgx_is_outside_enclave s (Some a) =
    lookup_chunks rdrand64_step base limit p u (in_phone_count a) (chunks MAX_HASH_TABLE_SIZE (phones (query_phones s)))
      (chunks (MAX_HASH_TABLE_SIZE * BYTES_PER_UUID) (zeros (Z.of_nat (length (phones (query_phones s))) * BYTES_PER_UUID))).
Proof.
  intros [Hp Hu [H0 Hc] Ho] Hlen. unfold terminate_lookup, checked_mul, BYTES_PER_PHONE, BYTES_PER_UUID in *. cbn [ok_or try].
  rewrite !(proj2 (Z.ltb_lt _ (2 ^ 64))) by lia. cbn [ok_or try]. destruct (Z.eq_dec (in_phone_count a) 0) as [E|Hnz].
  - exists 0, 0. rewrite E. split; [|split; [now unfold directory_of; rewrite E|reflexivity]].
    split; [lia|]. unfold outside_enclave. cbn. now rewrite (proj2 (Z.leb_le 0 base) Hbase).
  - destruct (Ho Hnz) as (Hp0 & Op & Lp & Hu0 & Ou & Lu). exists (Edge.in_phones a), (Edge.in_uuids a). split; [|split; [reflexivity|]].
    + split; [lia|]. rewrite (Z.mul_comm 8), (Z.mul_comm 16). unfold in_range in *. split; apply Houtside; unfold in_range; lia || assumption.
    + rewrite !new_nonempty by (assumption || lia). reflexivity.
Qed.

Section Chunks.
Context (p u n : Z) (Hdir : directory_outside base limit p u n).
Abbreviation dir := {| in_phones := p; in_uuids := u; in_len := n |}.

Lemma chunk_size c : (1 <= length c <= Z.to_nat MAX_HASH_TABLE_SIZE)%nat -> 1 <= Z.of_nat (@length Z c) <= 8192.
Proof. change (Z.to_nat MAX_HASH_TABLE_SIZE) with (Z.to_nat 8192). lia. Qed.

Lemma eval_chunks_sound cs ds : Forall (Forall (in_range 64)) cs ->
  Forall2 (fun c d => length d = (16 * length c)%nat /\ (1 <= length c <= Z.to_nat MAX_HASH_TABLE_SIZE)%nat) cs ds -> forall w,
  exists r w', eval (lookup_chunks rdrand64_step base limit p u n cs ds) w = Some (r, w') /\ same_memory w w' /\
    match r with
    | Ok res => answers (concat cs) (fun q x => x = lookup (directory_at w p u (Z.to_nat n)) q \/ x = uuid_default) res
    | Err e => e = SGX_ERROR_UNEXPECTED
    end.
Proof.
  intros Hcs H. induction H as [|c d cs ds [L Hc] _ IH]; intros w; cbn [lookup_chunks concat].
  { exists (Ok []), w. split; [reflexivity|]. split; [apply same_refl|apply answers_nil]. }
  apply Forall_cons_iff in Hcs as [Hc1 Hcs]. destruct Hdir as (H0 & Hp & Hu).
  destruct (batch_lookup_sound rdrand64_step base limit dir c d H0 Hp Hu Hc1 (chunk_size c Hc) L w) as (status & res & w1 & E & Hs).
  cbn [in_phones in_uuids in_len] in E. pose proof (eval_reads_only _ (ffi_hash_lookup_reads rdrand64_step Hrd base limit _ _ _ _ _) _ _ _ E) as M1.
  rewrite eval_bind, E. destruct Hs as [->|[-> Ha]]; cbn [success negb]; [exists (Err SGX_ERROR_UNEXPECTED), w1; auto|].
  destruct (IH Hcs w1) as (r & w2 & E2 & M2 & Hr). rewrite eval_bind, E2. pose proof (same_trans _ _ _ M1 M2) as M.
  destruct r as [rest|e]; cbn [try eval ret]; [|exists (Err e), w2; auto]. eexists _, w2. split; [reflexivity|]. split; [exact M|].
  unfold directory in Ha. cbn [in_phones in_uuids in_len] in Ha. rewrite (same_directory w w1 _ M1) in Ha, Hr. now apply answers_app.
Qed.

(** A batch of one chunk. *)
Lemma eval_chunk_exact c d w key w' : Forall (in_range 64) c -> 1 <= Z.of_nat (length c) <= 8192 -> length d = (16 * length c)%nat ->
  eval (generate rdrand64_step) w = Some (Some key, w') -> (forall s, (length (sharing key (batch_order c) c s) <= 12)%nat) ->
  exists res, eval (lookup_chunks rdrand64_step base limit p u n [c] [d]) w = Some (Ok res, w') /\ same_memory w w' /\
    answers c (fun q x => x = lookup (directory_at w p u (Z.to_nat n)) q) res.
Proof.
  intros Hc1 Hc L Eg Hs. destruct Hdir as (H0 & Hp & Hu).
  destruct (batch_lookup_exact rdrand64_step base limit dir c d H0 Hp Hu Hc1 Hc L w key w' Eg Hs) as (res & E & Ha).
  cbn [in_phones in_uuids in_len] in E. pose proof (eval_reads_only _ (generate_reads rdrand64_step Hrd) _ _ _ Eg) as M.
  unfold directory in Ha. cbn [in_phones in_uuids in_len] in Ha. rewrite (same_directory w w' _ M) in Ha.
  exists res. cbn [lookup_chunks]. rewrite eval_bind, E. cbn [success negb sbind try ret eval concat]. rewrite app_nil_r. auto.
Qed.

End Chunks.

Lemma chunks_one n (l : list Z) : (1 <= length l)%nat -> Z.of_nat (length l) <= n -> chunks n l = [l].
Proof.
  intros H1 Hn. unfold chunks. destruct l as [|x l]; [cbn in H1; lia|]. cbn [length chunks_loop] in *.
  rewrite firstn_all2, skipn_all2 by (cbn [length]; lia). now destruct l.
Qed.

(** ** The end of a batch *)

Section Platform.
Context (plat : @platform W TargetInfo) (Hplat : platform_ok plat) (hdr : sgxsd_msg_header_t) (Hhdr : blob 16 (mh_mac hdr)).
Abbreviation enclave := (@enclave W SgxsdServerState).
Abbreviation terminate_prog a s := (sgxsd_enclave_server_terminate cds_server (Some a) (Some s)).
Abbreviation lookup_prog a s := (terminate_lookup rdrand64_step base limit sgx_is_outside_enclave s (Some a)).

Lemma execute_answers s a w us w1 : state_inv s -> 16 * Z.of_nat (length (phones (query_phones s))) < 2 ^ 32 ->
  length us = length (phones (query_phones s)) -> eval (lookup_prog a s) w = Some (Ok (concat (map uuid_bytes us)), w1) ->
  execute plat hdr (terminate_prog a s) w = Some (answer_all plat hdr (deal (requests s) us) w1).
Proof.
  intros [H1 H2 _ _] Hlt L E. cbn [Cds.cds_server sgxsd_enclave_server_terminate]. unfold Ecalls.sgxsd_enclave_server_terminate.
  cbn [SgxsdFfi.terminate server_trait]. unfold terminate. rewrite !execute_bind, (execute_eval plat hdr _ _ _ E), execute_replies by (assumption || lia).
  destruct (answer_all plat hdr _ w1) as [res w2]. now destruct res.
Qed.

Lemma execute_refusals s a w e w1 : state_inv s -> eval (lookup_prog a s) w = Some (Err e, w1) ->
  execute plat hdr (terminate_prog a s) w = Some (e, refuse_all plat (map sender_of (requests s)) w1).
Proof.
  intros [H1 _ _ _] E. cbn [Cds.cds_server sgxsd_enclave_server_terminate]. unfold Ecalls.sgxsd_enclave_server_terminate.
  cbn [SgxsdFfi.terminate server_trait]. unfold terminate. rewrite !execute_bind, (execute_eval plat hdr _ _ _ E), execute_bind, execute_drop by exact H1.
  reflexivity.
Qed.

(** A running server with its state, and a directory for it. *)
Record closing (handle : Z) (s : SgxsdServerState) (a : sgxsd_server_terminate_args_t) (st : enclave) : Prop := {
  cl_ready : ready st;
  cl_handle : 0 <= handle < 256;
  cl_idle : idle (Z.to_nat handle) {| valid := true; desc_lock := false; p_state := Some s |} st;
  cl_state : state_inv s;
  cl_directory : host_directory a }.

Lemma host_directory_ok a : host_directory a -> cds_stop_args_ok a.
Proof.
  intros [Hp Hu Hc Ho]. unfold in_range in *. repeat split; lia.
Qed.

Lemma run_stop handle s a st r w : closing handle s a st -> execute plat hdr (terminate_prog a s) (world st) = Some (r, w) ->
  run (sgxsd_enclave_server_stop plat cds_server stk hdr (Some a) handle) st = Done r (set_world w (stopped (Z.to_nat handle) st)).
Proof.
  intros [Hr Hh Hd Hs Ha] E. rewrite (server_stop_run plat cds_server stk hdr (Some a) handle _ st Hr Hh Hd eq_refl).
  apply (run_interp plat Hplat stk Hstk hdr Hhdr (fun _ => True)); [|now destruct st].
  apply (cds_terminate_ok rdrand64_step base limit sgx_is_outside_enclave stk Houtside Hbase (Some a) (Some s)); [now apply host_directory_ok|exact Hs].
Qed.

(** The batch is looked up in the directory as it is in the host's memory. *)
Lemma batch_exact s a w key w1 : host_directory a -> state_inv s -> 1 <= Z.of_nat (length (phones (query_phones s))) <= 8192 ->
  eval (generate rdrand64_step) w = Some (Some key, w1) ->
  (forall i, (length (sharing key (batch_order (phones (query_phones s))) (phones (query_phones s)) i) <= 12)%nat) ->
  exists us, length us = length (phones (query_phones s)) /\ eval (lookup_prog a s) w = Some (Ok (concat (map uuid_bytes us)), w1) /\
    Forall2 (fun q x => q <> 0 -> x = lookup (directory_of w a) q) (phones (query_phones s)) us.
Proof.
  intros Ha [_ _ Hps _] Hc Eg Hs. destruct (terminate_lookup_chunks s a Ha ltac:(lia)) as (p & u & Hdir & Ed & ->).
  set (ps := phones (query_phones s)) in *. assert (Lz : length (zeros (Z.of_nat (length ps) * BYTES_PER_UUID)) = (16 * length ps)%nat)
    by (unfold zeros, BYTES_PER_UUID; rewrite repeat_length; lia).
  assert (EM : MAX_HASH_TABLE_SIZE = 8192) by reflexivity.
  rewrite !chunks_one by (rewrite ?EM, ?Lz; unfold BYTES_PER_UUID; lia).
  destruct (eval_chunk_exact p u (in_phone_count a) Hdir ps _ w key w1 Hps Hc Lz Eg Hs) as (res & E & _ & us & -> & Hus).
  exists us. rewrite <- Ed. split; [symmetry; exact (Forall2_length Hus)|]. now split.
Qed.

Lemma batch_sound s a w : host_directory a -> state_inv s ->
  exists r w1, eval (lookup_prog a s) w = Some (r, w1) /\ same_memory w w1 /\
    match r with
    | Ok res => answers (phones (query_phones s)) (fun q x => x = lookup (directory_of w a) q \/ x = uuid_default) res
    | Err e => e = SGX_ERROR_UNEXPECTED
    end.
Proof.
  intros Ha [_ _ Hps Hroom]. destruct (terminate_lookup_chunks s a Ha ltac:(lia)) as (p & u & Hdir & Ed & ->).
  destruct (eval_chunks_sound p u (in_phone_count a) Hdir _ _ (chunks_ok _ MAX_HASH_TABLE_SIZE _ Hps) (result_chunks _) w) as (r & w1 & E & M & Hr).
  exists r, w1. split; [exact E|]. split; [exact M|]. destruct r as [res|e]; [|exact Hr]. rewrite Ed, concat_chunks in Hr; [exact Hr|].
  unfold MAX_HASH_TABLE_SIZE, MAX_HASH_TABLE_ORDER. lia.
Qed.

(** ** A call *)

(** The message a call carries: at least its size in the buffer, and the client's own bytes in it. *)
Lemma splice_msg (data msg : list Z) n : length msg = Z.to_nat n -> 0 <= n -> region n (Some data) -> bytes_ok msg ->
  ECallSlice_as_ref (Some (splice data 0 msg)) n = Some msg /\ region n (Some (splice data 0 msg)).
Proof.
  intros Lm Hn [Ld Bd] Bm. assert (Ls : length (splice data 0 msg) = length data) by (apply length_splice; lia).
  split; [|split; [lia|now apply Forall_splice]]. unfold ECallSlice_as_ref. destruct (Z.eqb_spec n 0) as [->|]; cbn [negb].
  - now destruct msg.
  - rewrite load_Some by lia. unfold splice. cbn [firstn app]. rewrite firstn_app, Lm, Nat.sub_diag, firstn_all2 by lia. now rewrite app_nil_r.
Qed.

(** The server's state after a query, and the status it gets. *)
Definition after_query (s : SgxsdServerState) (f : sgxsd_msg_from_t) (v : list Z + sgx_status_t) : SgxsdServerState :=
  match v with inl ps => queued s f ps | inr _ => s end.
Definition query_status (v : list Z + sgx_status_t) : sgx_status_t := match v with inl _ => SGX_SUCCESS | inr e => e end.

Lemma run_serve a h d s f data msg size (st : enclave) : cds_call_args_ok a -> nth_error (g_server_states st) h = Some d ->
  p_state d = Some s -> state_inv s -> from_ok f -> region (u32 size) (Some data) -> length msg = Z.to_nat (u32 size) -> bytes_ok msg ->
  run (serve plat cds_server stk hdr (Some a) h size f (splice data 0 msg)) st =
  let v := verdict (world st) s a msg in
  Done (query_status v, Some (splice data 0 (zeros (u32 size))), wiped_frame)
    (set_server_states (assign (g_server_states st) h (set_p_state (Some (after_query s f v)) d)) st).
Proof.
  intros Ha Ed Ep Hs Hf Hd Lm Bm. assert (Hn : 0 <= u32 size < 2 ^ 32) by (now apply wrap_range).
  destruct (splice_msg data msg (u32 size) Lm (proj1 Hn) Hd Bm) as [Eref Hbuf]. unfold serve. rewrite (run_load_desc h d) by exact Ed. rewrite Ep, run_bind.
  pose proof (eval_handle_call (world st) s a {| mb_data := Some (splice data 0 msg); mb_size := u32 size |} f msg Ha Eref Bm) as E.
  apply (execute_eval plat hdr) in E. rewrite (run_interp plat Hplat stk Hstk hdr Hhdr _ _
    (cds_handle_call_ok rdrand64_step base limit sgx_is_outside_enclave stk Hstk Houtside (Some a)
       {| mb_data := Some (splice data 0 msg); mb_size := u32 size |} f (Some s) Ha (conj Hn Hbuf) eq_refl Hf Hs) st _ _ E).
  cbn [mb_data]. replace (set_world (world st) st) with st by (now destruct st). cbv zeta. destruct (zeros_blob (u32 size)) as [Lz _]; [lia|].
  assert (Est : store (Some (splice data 0 msg)) (zeros (u32 size)) = Some (Some (splice data 0 (zeros (u32 size))))).
  { destruct Hbuf as [Lb _]. unfold store. rewrite (proj2 (Nat.leb_le _ _)) by lia. do 2 f_equal.
    pose proof (write_write (Some data) msg (zeros (u32 size)) ltac:(lia)) as Ew. injection Ew as Ew. exact Ew. }
  destruct (verdict (world st) s a msg) as [ps|e]; cbn [after_query query_status]; rewrite (run_store_desc _ _ _ _ _ Ed), Est, run_lift; reflexivity.
Qed.

(** A running server that waits for queries, and a message for it. *)
Record calling (handle : Z) (s : SgxsdServerState) (a : sgxsd_server_handle_call_args_t) (header : sgxsd_msg_header_t) (data : list Z)
  (size : Z) (e : sgxsd_pending_request_t) (msg : list Z) (st : enclave) : Prop := {
  ca_served : served st;
  ca_handle : 0 <= handle < 256;
  ca_idle : idle (Z.to_nat handle) {| valid := true; desc_lock := false; p_state := Some s |} st;
  ca_state : state_inv s;
  ca_args : cds_call_args_ok a;
  ca_header : header_ok header;
  ca_region : region (u32 size) (Some data);
  ca_size : size <> 0;
  ca_request : find_request st (mh_pending_request_id header) = inl e;
  ca_message : open_message (hkdf_prk e) header data size = Some msg }.

(** The enclave once the request is used up and the server is in state [s]. *)
Definition after_call (handle : Z) (id : Z) (s : SgxsdServerState) (st : enclave) : enclave :=
  set_server_states (assign (g_server_states st) (Z.to_nat handle) {| valid := true; desc_lock := false; p_state := Some s |})
    (set_slot id zero_pending_request st).

Lemma open_message_shape prk header data size msg : header_ok header -> region (u32 size) (Some data) ->
  open_message prk header data size = Some msg -> length msg = Z.to_nat (u32 size) /\ bytes_ok msg.
Proof.
  intros (Hiv & _ & _) [Ld Bd] E. unfold open_message in E.
  apply open_shape in E; [|apply hkdf_T_shape|apply Hiv|now apply Forall_firstn]. destruct E as [L B]. split; [|exact B].
  rewrite L, length_firstn. pose proof (wrap_range 32 size). unfold in_range in *. lia.
Qed.

Lemma slot_world id e (st : enclave) : world (set_slot id e st) = world st.
Proof. unfold set_slot. now destruct (g_pending_requests st), st. Qed.

Lemma slot_servers id e (st : enclave) : g_server_states (set_slot id e st) = g_server_states st.
Proof. unfold set_slot. now destruct (g_pending_requests st), st. Qed.

Lemma locked_world h (st : enclave) : world (locked h st) = world st.
Proof. unfold locked. destruct st. cbn. now destruct (nth_error _ h). Qed.

Lemma run_query fr handle s a header data size tag e msg st : calling handle s a header data size e msg st ->
  let f := sender (hkdf_prk e) tag in
  let v := verdict (world st) s a msg in
  run (sgxsd_enclave_server_call plat cds_server stk hdr fr (Some a) (Some header) (Some data) size tag handle) st =
  Done (query_status v, Some (splice data 0 (zeros (u32 size))), wiped_frame) (after_call handle (id_val e) (after_query s f v) st).
Proof.
  intros [Hs Hh Hd Hst Ha Hhd Hr Hz Ef Em] f v. rewrite (server_call_run plat cds_server stk Hstk _ _ _ _ _ _ _ _ _ _ Hs Hh Hd eq_refl Hhd Hr Hz), Ef, Em.
  destruct (open_message_shape _ _ _ _ _ Hhd Hr Em) as [Lm Bm]. set (h := Z.to_nat handle) in *.
  pose proof (locked_desc _ _ _ Hd) as Ed. cbn [set_desc_lock] in Ed.
  rewrite (run_serve a h (set_desc_lock true {| valid := true; desc_lock := false; p_state := Some s |}) s f data msg size);
    trivial; [|now rewrite slot_servers|apply hkdf_T_shape].
  cbv zeta. rewrite slot_world, locked_world, slot_servers, (locked_states _ _ _ Hd), assign_assign. fold v. f_equal.
  unfold after_call. fold h. destruct Hd as [Es _]. unfold unlocked, locked, set_slot. destruct st. cbn in *. rewrite Es. cbn.
  destruct g_pending_requests0; cbn; rewrite (nth_error_assigned _ _ _ _ Es); cbn; rewrite assign_assign; reflexivity.
Qed.

Lemma closing_after_call handle s a header data size e msg st f ps b : calling handle s a header data size e msg st -> from_ok f ->
  verdict (world st) s a msg = inl ps -> host_directory b -> closing handle (queued s f ps) b (after_call handle (id_val e) (queued s f ps) st).
Proof.
  intros Hc Hf Ev Hb. destruct Hc as [Hs Hh [Ei _] Hst Ha Hhd Hr _ _ Em]. destruct (open_message_shape _ _ _ _ _ Hhd Hr Em) as [_ Bm].
  pose proof (eval_decode (world st) s a msg Ha Bm) as Hd. cbv zeta in Hd. rewrite Ev in Hd. destruct Hd as (d & Ed & Ld & Ee).
  pose proof (decode_request_ok base limit sgx_is_outside_enclave stk Hstk Houtside s a msg Ha Bm Hst) as Hok.
  pose proof (eval_post _ _ Hok _ _ _ Ee) as [Bd Hroom]. rewrite Ed in Hroom. split; trivial.
  - unfold after_call, ready. pose proof (sv_ready st Hs) as Hr1. destruct st. unfold set_slot. cbn in *. now destruct g_pending_requests0.
  - unfold after_call, idle. split; [|reflexivity]. rewrite states_set. exact (nth_error_assigned _ _ _ _ Ei).
  - apply queued_inv; trivial. rewrite <- Ed. now apply into_iter_ok.
Qed.



(** C14. What a call comes to: the request is used up and the message erased; the query is queued with
    its sender exactly when it fits the batch, lies outside the enclave, has the size of its phones,
    opens under the key in the message and matches its commitment, and is refused for the first of
    these that fails otherwise, with the server as it was. *)
Theorem query_call_spec fr handle s a header data size tag e msg st (Hc : calling handle s a header data size e msg st) :
  let v := verdict (world st) s a msg in
  run (sgxsd_enclave_server_call plat cds_server stk hdr fr (Some a) (Some header) (Some data) size tag handle) st =
  Done (query_status v, Some (splice data 0 (zeros (u32 size))), wiped_frame)
    (after_call handle (id_val e) (after_query s (sender (hkdf_prk e) tag) v) st).
Proof. exact (run_query fr handle s a header data size tag e msg st Hc). Qed.

(** A query on an empty server, and the end of the batch. *)
Lemma discovery_run fr handle s a header data size tag e msg st ps b key w1 (Hc : calling handle s a header data size e msg st)
  (He : requests s = [] /\ phones (query_phones s) = []) (Hv : verdict (world st) s a msg = inl ps) (Hb : host_directory b)
  (Hn : 1 <= Z.of_nat (length ps) <= 8192) (Eg : eval (generate rdrand64_step) (world st) = Some (Some key, w1))
  (Hs : forall i, (length (sharing key (batch_order ps) ps i) <= 12)%nat) :
  exists st1 us, run (sgxsd_enclave_server_call plat cds_server stk hdr fr (Some a) (Some header) (Some data) size tag handle) st =
      Done (SGX_SUCCESS, Some (splice data 0 (zeros (u32 size))), wiped_frame) st1 /\
    Forall2 (fun q x => q <> 0 -> x = lookup (directory_of (world st) b) q) ps us /\
    run (sgxsd_enclave_server_stop plat cds_server stk hdr (Some b) handle) st1 =
    let '(status, w') := send plat hdr (sender (hkdf_prk e) tag) (concat (map uuid_bytes us)) w1 in
    Done status (set_world w' (stopped (Z.to_nat handle) st1)).
Proof.
  destruct He as [Er Ep]. set (f := sender (hkdf_prk e) tag). set (s' := queued s f ps). set (st1 := after_call handle (id_val e) s' st).
  assert (Hf : from_ok f) by apply hkdf_T_shape. pose proof (closing_after_call _ _ _ _ _ _ _ _ _ f ps b Hc Hf Hv Hb) as Hcl. fold s' st1 in Hcl.
  assert (Eps : phones (query_phones s') = ps) by (cbn; now rewrite Ep). assert (Ew : world st1 = world st) by (unfold st1, after_call, set_slot; now destruct (g_pending_requests st), st).
  destruct (batch_exact s' b (world st1) key w1 Hb (cl_state _ _ _ _ Hcl)) as (us & L & E & Hus); [now rewrite Eps|now rewrite Ew|now rewrite Eps|].
  rewrite Eps in L, Hus. rewrite Ew in Hus. exists st1, us. split; [|split; [exact Hus|]].
  - rewrite (run_query fr handle s a header data size tag e msg st Hc). cbv zeta. now rewrite Hv.
  - pose proof (execute_answers s' b _ us w1 (cl_state _ _ _ _ Hcl) ltac:(rewrite Eps; lia) ltac:(now rewrite Eps) E) as Ex.
    assert (Ed : deal (requests s') us = [(f, concat (map uuid_bytes us))]) by (cbn; rewrite Er; cbn; rewrite Nat2Z.id, firstn_all2 by lia; reflexivity).
    rewrite Ed in Ex. cbn [answer_all map refuse_all fold_left] in Ex. destruct (send plat hdr f _ w1) as [status w'].
    apply (run_stop handle s' b st1 status w' Hcl). rewrite Ex. now destruct status.
Qed.

(** Contact discovery from end to end: a client's query that is in order is accepted by an empty
    server, and when the server is stopped the host is handed one reply, sealed under the key the
    client negotiated, that gives for each phone of the query what the directory says of it. *)
Theorem contact_discovery fr handle s a header data size tag e msg st ps b key w1 (Hc : calling handle s a header data size e msg st)
  (He : requests s = [] /\ phones (query_phones s) = []) (Hv : verdict (world st) s a msg = inl ps) (Hb : host_directory b)
  (Hn : 1 <= Z.of_nat (length ps) <= 8192) (Eg : eval (generate rdrand64_step) (world st) = Some (Some key, w1))
  (Hs : forall i, (length (sharing key (batch_order ps) ps i) <= 12)%nat) :
  exists st1 us, run (sgxsd_enclave_server_call plat cds_server stk hdr fr (Some a) (Some header) (Some data) size tag handle) st =
      Done (SGX_SUCCESS, Some (splice data 0 (zeros (u32 size))), wiped_frame) st1 /\
    Forall2 (fun q x => q <> 0 -> x = lookup (directory_of (world st) b) q) ps us /\
    run (sgxsd_enclave_server_stop plat cds_server stk hdr (Some b) handle) st1 =
    let '(status, w') := send plat hdr (sender (hkdf_prk e) tag) (concat (map uuid_bytes us)) w1 in
    Done status (set_world w' (stopped (Z.to_nat handle) st1)).
Proof. exact (discovery_run fr handle s a header data size tag e msg st ps b key w1 Hc He Hv Hb Hn Eg Hs). Qed.

End Platform.

(** C26. The fingerprint of a query for the rate limit: for a query that is in order, one byte per
    phone, the first of the HMAC-SHA-256 of the phone under the given key, as far as there is room,
    and an error where there is not enough; otherwise the error of the query, and the fingerprint
    as it was. *)
Theorem fingerprint_spec key a buf f fp n w msg (Ha : cds_call_args_ok a) (Em : ECallSlice_as_ref (mb_data buf) (mb_size buf) = Some msg)
  (Bm : bytes_ok msg) (Hn : 0 <= n <= Z.of_nat (length fp)) :
  eval (Sgxsd.sgxsd_enclave_create_ratelimit_fingerprint cds_server key (Some a) buf f (Some fp) n) w =
  Some (match decoded w a msg with
        | inl ps => (if Z.of_nat (length ps) <=? n then SGX_SUCCESS else SGX_ERROR_INVALID_PARAMETER, mb_data buf,
                     Some (splice fp 0 (firstn (Z.to_nat n) (map (phone_tag key) ps))))
        | inr e => (e, mb_data buf, Some fp)
        end, w).
Proof.
  cbn [Cds.cds_server Sgxsd.sgxsd_enclave_create_ratelimit_fingerprint]. unfold sgxsd_enclave_create_ratelimit_fingerprint. rewrite Em, eval_bind.
  pose proof (eval_decode_list w a msg Ha Bm) as H. cbv zeta in H. destruct (decoded w a msg) as [ps|e]; [|now rewrite H].
  destruct H as (d & <- & _ & ->). rewrite (fingerprint_loop_spec stk Hstk key) by (lia || apply SHA256HMACContext.new_fresh, Hstk).
  cbn [Z.of_nat Z.add]. rewrite Z.max_l, Nat.sub_0_r by lia. reflexivity.
Qed.

(** The states of a server: what initialisation leaves, and what calls make of it. *)
Inductive batch : SgxsdServerState -> Prop :=
| BatchInit args w s w' : init_args_ok args ->
    eval (sgxsd_enclave_server_init cds_server args) w = Some (SGX_SUCCESS, Some (Some s), w') -> batch s
| BatchCall s args buf f w res data s' w' : batch s -> call_args_ok args -> buf_ok buf -> is_null (mb_data buf) = false -> from_ok f ->
    eval (sgxsd_enclave_server_handle_call cds_server args buf f (Some s)) w = Some (res, data, Some s', w') -> batch s'.

Lemma batch_inv s : batch s -> state_inv s.
Proof.
  induction 1 as [args w s w' Ha E|s args buf f w res data s' w' _ IH Ha Hb Hn Hf E].
  - exact (proj1 (eval_post _ _ (cds_init_ok rdrand64_step base limit sgx_is_outside_enclave stk args Ha) _ _ _ E)).
  - exact (proj2 (proj2 (eval_post _ _ (cds_handle_call_ok rdrand64_step base limit sgx_is_outside_enclave stk Hstk Houtside args buf f (Some s) Ha Hb Hn Hf IH) _ _ _ E))).
Qed.

Lemma handle_call_returns s args buf f w : call_args_ok args -> buf_ok buf -> is_null (mb_data buf) = false ->
  exists res data s', eval (sgxsd_enclave_server_handle_call cds_server args buf f (Some s)) w = Some (res, data, Some s', w).
Proof.
  intros Ha Hb Hn. destruct (as_ref_bytes buf Hb) as (msg & E & Bm). destruct args as [a|].
  - rewrite (eval_handle_call w s a buf f msg Ha E Bm). destruct (verdict w s a msg); eauto.
  - cbn [Cds.cds_server sgxsd_enclave_server_handle_call]. unfold Ecalls.sgxsd_enclave_server_handle_call. rewrite E, SgxsdMsgFrom.new_copies.
    eexists _, _, _. reflexivity.
Qed.

(** C18. A server's state is well-formed throughout: after initialisation and any calls with
    arguments of their types, accepted and refused, each request in the batch has its sender and
    its phones, the phones are 64-bit numbers and no more than the batch has room for; and the
    next call, whatever it is, returns. *)
Theorem batch_well_formed s (Hs : batch s) :
  state_inv s /\
  forall args buf f w, call_args_ok args -> buf_ok buf -> is_null (mb_data buf) = false ->
    exists res data s', eval (sgxsd_enclave_server_handle_call cds_server args buf f (Some s)) w = Some (res, data, Some s', w).
Proof. split; [now apply batch_inv|]. intros. now apply handle_call_returns. Qed.

End Discovery.

(** * The enclave with the service in it *)

Section System.
Context {W : Type} {HM : HostMemory W} (rdrand64_step : W -> bool * Z * W) (base limit : Z) (Hbase : 0 <= base) (lib : @sdk W)
  (Hlib : sdk_ok base limit lib) (stk : stack) (Hstk : stack_ok stk) (retval : sgx_status_t) (hdr : sgxsd_msg_header_t) (Hhdr : blob 16 (mh_mac hdr))
  (kp : sgxsd_curve25519_key_pair_t) (Hkp : kp_ok kp) (nfr : negotiate_frame) (Hnfr : frame_ok nfr)
  (cfr : call_frame) (Hcfr : entry_ok (cf_pending_request cfr)).
Abbreviation cds := (cds_server rdrand64_step base limit (sdk_is_outside_enclave lib) stk).

Lemma sdk_outside_one p n : in_range 64 p -> in_range 64 n -> sdk_is_outside_enclave lib p n = 1 -> outside_enclave base limit p n = true.
Proof. intros Hp Hn E. apply (sdk_outside base limit lib Hlib); [exact Hp|exact Hn|]. rewrite E. discriminate. Qed.

(** Whatever bytes the host passes as arguments, they are arguments of the right types. *)
Lemma cds_host_args : host_args_ok.
Proof.
  split; intros [b|]; cbn [option_map if_some init_args_ok call_args_ok cds_args]; trivial; intros Hb.
  - cbn [max_query_phones get_init_args]. apply br_dec32le_range. apply (slice_blob 0 4 8 b Hb). lia.
  - change (Z.to_nat sizeof_call_args) with 104%nat in Hb. unfold cds_call_args_ok, msg_ok. cbn [query_phone_count query em_iv em_mac em_size em_data get_call_args].
    repeat apply conj; try (apply br_dec32le_range); try (apply dec64le_range); try (apply (slice_blob _ _ 104 b Hb); lia).
Qed.

(** A thread of the host that may do anything but stop a server or ask for a fingerprint. *)
Definition cds_thread_ok (t : @host_thread W) : Prop :=
  match t with Enter i pms => i <> 6%nat /\ i <> 7%nat /\ in_range 64 pms | Meddle _ => True end.

(** C6. The enclave with the contact discovery service in it against its host and its clients: with
    any number of threads that enter it by the functions that initialise it, rotate its keys,
    negotiate, start servers and call them, with any arguments and messages, while other threads
    change the host's memory at will, the service reads nothing of the enclave through their
    pointers, keeps its books, does not panic, and every thread comes back. *)
Theorem service_withstands_host threads w ts st : Forall cds_thread_ok threads ->
  reachable (map (thread_prog base limit lib cds stk retval hdr kp nfr cfr) threads, loaded w) (ts, st) ->
  enclave_inv st /\ Forall (fun p => step p st <> Wrong) ts /\
  Acc (fun c' c => pool_step c c') (ts, st) /\
  ((exists c', pool_step (ts, st) c') \/ (forallb finished ts = true /\ forall l, lock_free l st = true)).
Proof.
  intros Hc Hr.
  assert (Hserv : server_ok cds) by (apply (cds_server_ok _ _ _ _ _ Hstk); [apply sdk_outside_one|exact Hbase]).
  destruct (host_reachable base limit lib Hlib cds Hserv cds_host_args stk Hstk retval hdr Hhdr kp Hkp nfr Hnfr cfr Hcfr threads w ts st) as (Hi & Hw & Hb).
  - eapply Forall_impl; [|exact Hc]. intros [i pms|fs]; cbn; [|trivial]. tauto.
  - exact Hr.
  - split; [exact Hi|]. split; [exact Hw|]. split; [apply pool_terminates|].
    destruct (forallb (fun p => negb (moves st p)) ts) eqn:E; [right|left; now apply moves_step].
    apply (stuck_finished rank); [exact Hb|exact Hw|exact E|apply rank_bound].
Qed.

End System.

End CdsSpec.
