(* ===== verification/Client.v ===== *)
(** The client, src/client/cds_client/src/lib.rs: key agreement with the enclave, the encrypted query
    and the decoding of the reply, with the messages of src/client/cds_api/src/entities.rs. *)
From S2P Require Import Prelude Codec Service.
From Stdlib Require String.
From Stdlib Require Import ZArith List Lia Bool.
Import Codec Service.

Module Client.

(** error.rs. *)
Inductive CdsClientError : Type :=
| EncryptionError | DecryptionError | CreateEncryptionKeyError | CreateDecryptionKeyError | CreateClientKeyError | U64u8SliceConversionError
| ExtractHkdfError | MutexLockError | NoServerKeyError | U8UuidConverionError.

Record EncryptedMessage : Type := { iv : list Z; mac : list Z; data : list Z }.
Record RequestNegotiation : Type := {
  server_ephemeral_pubkey : list Z;
  server_static_pubkey : list Z;
  encrypted_pending_request_id : EncryptedMessage }.

(** entities.rs; the map of envelopes as the list of its entries. *)
Record DiscoveryRequestEnvelope : Type := { env_requestId : list Z; env_data : list Z; env_iv : list Z; env_mac : list Z }.
Record DiscoveryRequest : Type := {
  addressCount : Z; commitment : list Z; req_data : list Z; req_iv : list Z; req_mac : list Z;
  envelopes : list (String.string * DiscoveryRequestEnvelope) }.
Record DiscoveryResponse : Type := { resp_requestId : list Z; resp_data : list Z; resp_iv : list Z; resp_mac : list Z }.

(** The crates that the client is linked with: the AEAD, the digest and the key derivation of ring,
    the Diffie-Hellman function of x25519_dalek, and a source [R] of random bytes. *)
Class Crates (Secret R : Type) := {
  fill : nat -> R -> list Z * R;
  static_secret : R -> Secret * R;
  public_key : Secret -> list Z;
  diffie_hellman : Secret -> list Z -> list Z;
  (** The ciphertext and the tag of a key, a nonce, additional data and a plaintext. *)
  seal_in_place_separate_tag : list Z -> list Z -> list Z -> list Z -> option (list Z * list Z);
  (** The buffer of the ciphertext and the tag after it was opened. *)
  open_in_place : list Z -> list Z -> list Z -> list Z -> option (list Z);
  digest : list Z -> list Z;
  hkdf_extract : list Z -> list Z -> list Z;
  hkdf_expand : list Z -> list Z -> nat -> option (list Z) }.

Section Client.
Context {Secret R : Type} {HC : Crates Secret R}.

Record Client : Type := { client_privkey : Secret; client_pubkey : list Z }.

Definition new (random : R) : Client * R :=
  let '(client_privkey, random) := static_secret random in
  ({| client_privkey := client_privkey; client_pubkey := public_key client_privkey |}, random).

(** [UnboundKey::new] of AES-256-GCM. *)
Definition unbound_key (key : list Z) : option (list Z) := if (length key =? 32)%nat then Some key else None.

(** [FixedSealingKey::new] and [seal_in_place]. *)
Definition seal (key iv aad data : list Z) : Result EncryptedMessage CdsClientError :=
  match unbound_key key with
  | None => Err CreateEncryptionKeyError
  | Some key =>
      match seal_in_place_separate_tag key iv aad data with
      | Some (data, mac) => Ok {| iv := iv; mac := mac; data := data |}
      | None => Err EncryptionError
      end
  end.

(** [FixedOpeningKey::new] and [open_in_place]. *)
Definition open (key iv aad cyphertext : list Z) : Result (list Z) CdsClientError :=
  match unbound_key key with
  | None => Err CreateDecryptionKeyError
  | Some key => match open_in_place key iv aad cyphertext with Some buf => Ok buf | None => Err DecryptionError end
  end.

Definition encrypt_data (random : R) (key data aad : list Z) : Result EncryptedMessage CdsClientError * R :=
  let '(iv, random) := fill 12 random in (seal key iv aad data, random).

Definition key_agreement (client_privkey : Secret) (client_pubkey server_ephemeral_pubkey server_static_pubkey : list Z)
  : Result (list Z * list Z) CdsClientError :=
  let hkdf_secret := diffie_hellman client_privkey server_ephemeral_pubkey ++ diffie_hellman client_privkey server_static_pubkey in
  let hkdf_salt := client_pubkey ++ server_ephemeral_pubkey ++ server_static_pubkey in
  let prk := hkdf_extract hkdf_salt hkdf_secret in
  match hkdf_expand prk [] 64 with
  | None => Err ExtractHkdfError
  | Some keys => Ok (firstn 32 keys, firstn 32 (skipn 32 keys))
  end.

(** The ciphertext without the room for the tag. *)
Definition decrypt (key iv data mac : list Z) : Result (list Z) CdsClientError :=
  match open key iv [] (data ++ mac) with
  | Ok buf => Ok (firstn (length data) buf)
  | Err e => Err e
  end.

Definition discovery_request (self : Client) (random : R) (attestation_key : String.string) (negotiation : RequestNegotiation) (phone_list : list Z)
  : Result (list Z * DiscoveryRequest) CdsClientError * R :=
  match key_agreement (client_privkey self) (client_pubkey self) (server_ephemeral_pubkey negotiation) (server_static_pubkey negotiation) with
  | Err e => (Err e, random)
  | Ok (client_key, server_key) =>
      let encrypted := encrypted_pending_request_id negotiation in
      match decrypt server_key (iv encrypted) (data encrypted) (mac encrypted) with
      | Err e => (Err e, random)
      | Ok pending_request_id =>
          let '(query_nonce, random) := fill 32 random in
          let be_phone_data := concat (map br_enc64be phone_list) in
          let query_data := query_nonce ++ be_phone_data in
          let commitment := digest query_data in
          let '(query_data_key_entropy, random) := fill 32 random in
          let '(envelope, random) := encrypt_data random client_key query_data_key_entropy pending_request_id in
          match envelope with
          | Err e => (Err e, random)
          | Ok envelope =>
              let discovery_envelope :=
                {| env_requestId := pending_request_id; env_data := data envelope; env_iv := iv envelope; env_mac := mac envelope |} in
              let '(query_data_message, random) := encrypt_data random query_data_key_entropy query_data [] in
              match query_data_message with
              | Err e => (Err e, random)
              | Ok query_data_message =>
                  (Ok (server_key,
                       {| addressCount := u32 (Z.of_nat (length phone_list)); commitment := commitment; req_data := data query_data_message;
                          req_iv := iv query_data_message; req_mac := mac query_data_message;
                          envelopes := [(attestation_key, discovery_envelope)] |}), random)
              end
          end
      end
  end.

(** [chunks_exact]: what is left over at the end is not returned. *)
Fixpoint uuid_chunks (fuel : nat) (l : list Z) : list (list Z) :=
  match fuel with
  | O => []
  | S fuel' => if (length l <? 16)%nat then [] else firstn 16 l :: uuid_chunks fuel' (skipn 16 l)
  end.

(** The UUIDs, as their bytes; [Uuid::from_slice] takes 16 of them. *)
Definition decode_discovery_response (server_key : list Z) (response : DiscoveryResponse) : Result (list (list Z)) CdsClientError :=
  match decrypt server_key (resp_iv response) (resp_data response) (resp_mac response) with
  | Err e => Err e
  | Ok uuid_array => Ok (uuid_chunks (length uuid_array) uuid_array)
  end.

(** [PendingRequest::decrypt_reply]. *)
Definition decrypt_reply (server_key : list Z) (reply : EncryptedMessage) : Result unit CdsClientError :=
  match open server_key (iv reply) [] (data reply ++ mac reply) with Ok _ => Ok tt | Err e => Err e end.

End Client.
End Client.
