(* ===== verification/ClientSpec.v ===== *)
(** What the client does, in terms of the standards: it derives the keys that the enclave derives,
    its query is one that the enclave takes, and it reads the reply that the enclave seals. *)
From S2P Require Import Prelude Codec Hmac Curve25519 SgxsdCrypto Sgxsd SgxsdSafety SgxsdProtocol Service Client.
From Stdlib Require Import ZArith List Lia Bool.
Import Codec SgxsdCrypto Sgxsd SgxsdSafety SgxsdProtocol Service Client.

Module ClientSpec.

#[local] Opaque Curve25519.curve25519_donna sha256 hmac_sha256 hkdf_T aes_gcm_seal aes_gcm_open br_enc64be.

(** What the crates document: AES-256-GCM up to its longest message, SHA-256, HKDF with SHA-256, and
    X25519 on the bytes of a secret. *)
Class CratesLaws (Secret R : Type) {HC : Crates Secret R} := {
  secret_bytes : Secret -> list Z;
  fill_bytes n r : blob n (fst (fill n r));
  public_key_x25519 s : public_key s = Curve25519.curve25519_donna (secret_bytes s) BASEPOINT;
  diffie_hellman_x25519 s p : blob 32 p -> diffie_hellman s p = Curve25519.curve25519_donna (secret_bytes s) p;
  seal_gcm key iv aad p : blob 32 key -> blob 12 iv -> Z.of_nat (length p) <= 2 ^ 36 - 32 ->
    seal_in_place_separate_tag key iv aad p = Some (aes_gcm_seal key iv aad p);
  open_gcm key iv aad c t : blob 32 key -> blob 12 iv -> length t = 16%nat -> Z.of_nat (length c) <= 2 ^ 36 - 32 ->
    match aes_gcm_open key iv aad c t with
    | Some p => exists rest, open_in_place key iv aad (c ++ t) = Some (p ++ rest)
    | None => open_in_place key iv aad (c ++ t) = None
    end;
  digest_sha256 l : digest l = sha256 l;
  extract_hmac salt ikm : hkdf_extract salt ikm = Rfc5869.extract hmac_sha256 salt ikm;
  expand_64 prk : hkdf_expand prk [] 64 = Some (hkdf_T prk 1 ++ hkdf_T prk 2) }.

(** A salt that is longer than a block is hashed. *)
Lemma long_salt salt m : (64 < length salt)%nat -> hmac_sha256 salt m = hmac_sha256 (sha256 salt) m.
Proof.
  intros H. Transparent hmac_sha256. unfold hmac_sha256, Rfc2104.hmac, Rfc2104.pad_key, Rfc2104.block_key. pose proof (sha256_shape salt) as [L _].
  rewrite (proj2 (Nat.ltb_lt _ _) H), L. reflexivity.
Qed.
#[local] Opaque hmac_sha256.

Section Client.
Context {Secret R : Type} {HC : Crates Secret R} {HL : CratesLaws Secret R}.

(** ** Keys *)

(** The client and the enclave have the same keys, if they agree on the two secrets. *)
Lemma key_agreement_keys s eph static eph_dh static_dh : blob 32 eph -> blob 32 static -> length (public_key s) = 32%nat ->
  Curve25519.curve25519_donna (secret_bytes s) eph = eph_dh -> Curve25519.curve25519_donna (secret_bytes s) static = static_dh ->
  let prk := request_key (public_key s) eph static eph_dh static_dh in
  key_agreement s (public_key s) eph static = Ok (client_key prk, server_key prk).
Proof.
  intros He Hs Lp <- <- prk. unfold key_agreement. rewrite !diffie_hellman_x25519, extract_hmac, expand_64 by assumption. unfold Rfc5869.extract.
  rewrite long_salt by (rewrite !length_app; destruct He, Hs; lia). fold (request_key (public_key s) eph static
    (Curve25519.curve25519_donna (secret_bytes s) eph) (Curve25519.curve25519_donna (secret_bytes s) static)). fold prk.
  destruct (hkdf_T_shape prk 0) as [L1 _]. destruct (hkdf_T_shape prk 1) as [L2 _].
  rewrite firstn_app, skipn_app, L1, Nat.sub_diag, firstn_O, app_nil_r, firstn_all2, skipn_all2, app_nil_l, skipn_O, firstn_all2 by lia. reflexivity.
Qed.

(** ** Messages *)

Lemma unbound_key_32 key : blob 32 key -> unbound_key key = Some key.
Proof. intros [L _]. unfold unbound_key. now rewrite L. Qed.

Lemma seal_spec key iv aad p : blob 32 key -> blob 12 iv -> Z.of_nat (length p) <= 2 ^ 36 - 32 ->
  seal key iv aad p = let '(c, t) := aes_gcm_seal key iv aad p in Ok {| Client.iv := iv; mac := t; data := c |}.
Proof. intros Hk Hiv Hp. unfold seal. rewrite unbound_key_32, seal_gcm by assumption. now destruct (aes_gcm_seal key iv aad p). Qed.

(** What is not sealed under the key is refused. *)
Lemma client_decrypt key iv c t : blob 32 key -> blob 12 iv -> length t = 16%nat -> Z.of_nat (length c) <= 2 ^ 36 - 32 ->
  decrypt key iv c t = match aes_gcm_open key iv [] c t with Some p => Ok p | None => Err DecryptionError end.
Proof.
  intros Hk Hiv Ht Hc. unfold decrypt, open. rewrite unbound_key_32 by assumption. pose proof (open_gcm key iv [] c t Hk Hiv Ht Hc) as H.
  destruct (aes_gcm_open key iv [] c t) as [p|] eqn:E; [|now rewrite H]. destruct H as [rest ->].
  pose proof (open_sound (Aead := aes_gcm_aead) key iv [] c t p Hk (proj2 Hiv) E) as Es.
  pose proof (seal_length (Aead := aes_gcm_aead) key iv [] p Hk (proj2 Hiv)) as L. rewrite Es in L. cbn [fst] in L.
  rewrite firstn_app, L, Nat.sub_diag, firstn_O, app_nil_r, firstn_all2 by lia. reflexivity.
Qed.

(** ** The query *)

(** The random bytes of a query: nonce, key and two vectors. *)
Definition draws (r : R) : list Z * list Z * list Z * list Z * R :=
  let '(nonce, r) := fill 32 r in let '(key, r) := fill 32 r in let '(msg_iv, r) := fill 12 r in let '(query_iv, r) := fill 12 r in
  (nonce, key, msg_iv, query_iv, r).

Definition query_plain (nonce : list Z) (ks : list Z) : list Z := nonce ++ concat (map br_enc64be ks).

(** The request for the numbers [ks], for a client and an enclave that agreed on [prk]. *)
Definition request_for (prk : list Z) (pid : sgxsd_pending_request_id_t) (name : String.string) (ks nonce key msg_iv query_iv : list Z) : DiscoveryRequest :=
  let '(c, t) := aes_gcm_seal key query_iv [] (query_plain nonce ks) in
  let '(header, msg) := seal_message prk msg_iv key pid in
  {| addressCount := u32 (Z.of_nat (length ks)); commitment := sha256 (query_plain nonce ks); req_data := c; req_iv := query_iv; req_mac := t;
     envelopes := [(name, {| env_requestId := pid_bytes pid; env_data := msg; env_iv := mh_iv header; env_mac := mh_mac header |})] |}.

Lemma draws_blobs r nonce key msg_iv query_iv r' : draws r = (nonce, key, msg_iv, query_iv, r') ->
  blob 32 nonce /\ blob 32 key /\ blob 12 msg_iv /\ blob 12 query_iv.
Proof.
  unfold draws. pose proof (fill_bytes 32 r) as H1. destruct (fill 32 r) as [a r1]. pose proof (fill_bytes 32 r1) as H2. destruct (fill 32 r1) as [b r2].
  pose proof (fill_bytes 12 r2) as H3. destruct (fill 12 r2) as [c r3]. pose proof (fill_bytes 12 r3) as H4. destruct (fill 12 r3) as [d r4].
  intros [= <- <- <- <- _]. exact (conj H1 (conj H2 (conj H3 H4))).
Qed.

Lemma phones_length ks : length (concat (map br_enc64be ks)) = (8 * length ks)%nat.
Proof. induction ks as [|k ks IH]; [reflexivity|]. cbn [map concat length]. rewrite length_app, IH. change (length (br_enc64be k)) with 8%nat. lia. Qed.

Lemma phones_bytes ks : bytes_ok (concat (map br_enc64be ks)).
Proof. induction ks as [|k ks IH]; cbn [map concat]; [constructor|]. apply Forall_app. split; [apply br_enc64be_bytes|exact IH]. Qed.

(** The client makes of the enclave's response the request that the enclave expects. *)
Lemma discovery_request_spec s r name n prk pid ks nonce key msg_iv query_iv r' :
  key_agreement s (public_key s) (Client.server_ephemeral_pubkey n) (Client.server_static_pubkey n) = Ok (client_key prk, server_key prk) ->
  let enc := encrypted_pending_request_id n in
  blob 12 (iv enc) -> length (mac enc) = 16%nat -> Z.of_nat (length (data enc)) <= 2 ^ 36 - 32 ->
  aes_gcm_open (server_key prk) (iv enc) [] (data enc) (mac enc) = Some (pid_bytes pid) ->
  draws r = (nonce, key, msg_iv, query_iv, r') -> 32 + 8 * Z.of_nat (length ks) <= 2 ^ 36 - 32 ->
  discovery_request {| client_privkey := s; client_pubkey := public_key s |} r name n ks = (Ok (server_key prk, request_for prk pid name ks nonce key msg_iv query_iv), r').
Proof.
  intros Ek enc Hiv Hmac Hlen Eo Ed Hn. subst enc. destruct (draws_blobs _ _ _ _ _ _ Ed) as (Hnonce & Hkey & Hmi & Hqi). unfold discovery_request. cbn [client_privkey client_pubkey].
  rewrite Ek, client_decrypt, Eo by (assumption || apply hkdf_T_shape). unfold draws in Ed. destruct (fill 32 r) as [a r1]. destruct (fill 32 r1) as [b r2].
  unfold encrypt_data. destruct (fill 12 r2) as [c r3]. destruct (fill 12 r3) as [d r4]. injection Ed as -> -> -> -> ->.
  rewrite seal_spec by (assumption || apply hkdf_T_shape || (destruct Hkey; lia)). unfold request_for, seal_message.
  destruct (aes_gcm_seal (client_key prk) msg_iv (pid_bytes pid) key) as [mc mt].
  rewrite seal_spec; [|assumption..|rewrite length_app, phones_length; destruct Hnonce; lia].
  unfold query_plain. destruct (aes_gcm_seal key query_iv [] (nonce ++ concat (map br_enc64be ks))) as [qc qt]. cbn [mh_iv mh_mac data iv mac]. now rewrite digest_sha256.
Qed.

(** ** The reply *)

Lemma uuid_chunks_concat us : Forall (fun u => length u = 16%nat) us -> forall fuel, (length us <= fuel)%nat -> uuid_chunks fuel (concat us) = us.
Proof.
  induction 1 as [|u us Hu _ IH]; intros [|fuel] Hf; cbn [length concat uuid_chunks] in *; try lia; try reflexivity.
  rewrite length_app, Hu. cbn [Nat.ltb Nat.leb Nat.add]. rewrite firstn_app, skipn_app, Hu, Nat.sub_diag, firstn_O, app_nil_r, firstn_all2, skipn_all2, skipn_O, app_nil_l, IH by lia.
  reflexivity.
Qed.

Lemma firstn_split {A} a b (l : list A) : firstn (a + b) l = firstn a l ++ firstn b (skipn a l).
Proof. revert l. induction a as [|a IH]; intros [|x l]; cbn; [reflexivity..|now rewrite firstn_nil|now rewrite IH]. Qed.

Lemma uuid_chunks_spec fuel : forall l, (length l <= fuel)%nat -> let us := uuid_chunks fuel l in
  concat us = firstn (16 * length us) l /\ (length l < 16 * S (length us))%nat /\ Forall (fun u => length u = 16%nat) us.
Proof.
  induction fuel as [|fuel IH]; intros l Hl; cbn [uuid_chunks]; [now destruct l; [|cbn in Hl; lia]; repeat split; cbn; lia || constructor|].
  destruct (Nat.ltb_spec (length l) 16) as [H|H]; [repeat split; cbn; lia || constructor|].
  destruct (IH (skipn 16 l)) as (E1 & E2 & E3); [rewrite length_skipn; lia|]. rewrite length_skipn in E2. cbn [length concat]. rewrite E1. split; [|split].
  - replace (16 * S (length (uuid_chunks fuel (skipn 16 l))))%nat with (16 + 16 * length (uuid_chunks fuel (skipn 16 l)))%nat by lia.
    symmetry. apply firstn_split.
  - lia.
  - constructor; [rewrite length_firstn; lia|exact E3].
Qed.

Lemma concat_count us : Forall (fun u : list Z => length u = 16%nat) us -> (length us <= length (concat us))%nat.
Proof. induction 1 as [|u us Hu _ IH]; cbn [concat length]; [lia|]. rewrite length_app. lia. Qed.

(** The client decodes what the enclave sealed under the server key. *)
Lemma decode_reply key iv us id : blob 32 key -> blob 12 iv -> Forall (fun u => length u = 16%nat) us -> Z.of_nat (length (concat us)) <= 2 ^ 36 - 32 ->
  let '(c, t) := aes_gcm_seal key iv [] (concat us) in
  decode_discovery_response key {| resp_requestId := id; resp_data := c; resp_iv := iv; resp_mac := t |} = Ok us.
Proof.
  intros Hk Hiv Hus Hn. pose proof (open_seal (Aead := aes_gcm_aead) key iv [] (concat us) Hk (proj2 Hiv)) as Eo.
  pose proof (seal_length (Aead := aes_gcm_aead) key iv [] (concat us) Hk (proj2 Hiv)) as L.
  pose proof (seal_tag (Aead := aes_gcm_aead) key iv [] (concat us) Hk (proj2 Hiv)) as [Lt _].
  destruct (aes_gcm_seal key iv [] (concat us)) as [c t]. cbn [fst snd] in *. unfold decode_discovery_response. cbn [resp_iv resp_data resp_mac].
  rewrite client_decrypt, Eo by (assumption || lia). now rewrite uuid_chunks_concat by (trivial; now apply concat_count).
Qed.

(** C27. The client accepts only what was sealed under the server key: whatever the host sends it as a
    response, it errs or gets the UUIDs of the one plaintext whose ciphertext and tag these are. *)
Theorem reply_authentic key response (Hk : blob 32 key) (Hiv : blob 12 (resp_iv response)) (Ht : length (resp_mac response) = 16%nat)
  (Hn : Z.of_nat (length (resp_data response)) <= 2 ^ 36 - 32) :
  match decode_discovery_response key response with
  | Ok us => exists p, aes_gcm_seal key (resp_iv response) [] p = (resp_data response, resp_mac response) /\ us = uuid_chunks (length p) p /\
      concat us = firstn (16 * length us) p /\ (length p < 16 * S (length us))%nat /\ Forall (fun u => length u = 16%nat) us
  | Err e => e = DecryptionError /\ forall p, aes_gcm_seal key (resp_iv response) [] p <> (resp_data response, resp_mac response)
  end.
Proof.
  unfold decode_discovery_response. rewrite client_decrypt by assumption. destruct (aes_gcm_open _ _ _ _ _) as [p|] eqn:E.
  - exists p. split; [exact (open_sound (Aead := aes_gcm_aead) _ _ _ _ _ _ Hk (proj2 Hiv) E)|]. split; [reflexivity|]. apply uuid_chunks_spec. lia.
  - split; [reflexivity|]. intros p Es. pose proof (open_seal (Aead := aes_gcm_aead) key (resp_iv response) [] p Hk (proj2 Hiv)) as Eo.
    rewrite Es in Eo. cbn [fst snd] in Eo. congruence.
Qed.

End Client.
End ClientSpec.
