(* ===== verification/JniEnclave.v ===== *)
(** What the JNI library makes of the calls of the Java side,
    src/service/src/main/jni/cds_jni/src/sgx_enclave.rs: the arrays of Java as buffers of the enclave,
    and back. *)
From S2P Require Import Prelude Codec Sgxsd SgxsdSafety Edge Service.

From Stdlib Require Import String ZArith List Lia Bool.
Import Codec Sgxsd SgxsdSafety Edge Service.

Module JniEnclave.

(** The exceptions by their class, and an error of the enclave by its name and code (lib.rs). *)
Inductive exception_class : Type := NullPointerException | RuntimeException.
Inductive PossibleError : Type := Generic (class : exception_class) | SgxError (name : string) (code : Z).

Definition SGX_ERROR_INVALID_PARAMETER_CODE : Z := 2.

(** A Java byte is signed. *)
Definition to_u8 (x : Z) : Z := wrap 8 x.
Definition to_i8 (x : Z) : Z := sint 8 x.

Definition jni_array_to_vec (jni_array : list Z) : list Z := map to_u8 jni_array.
Definition slice_to_jni_array (data : list Z) : list Z := map to_i8 data.

Definition get_nonnull_byte_array_field (field : option (list Z)) : Result (list Z) PossibleError :=
  match field with None => Err (Generic NullPointerException) | Some a => Ok a end.

Definition jni_array_to_fixed_buffer (jni_array : list Z) (n : nat) : Result (list Z) PossibleError :=
  if negb (length jni_array =? n)%nat then Err (Generic RuntimeException) else Ok (map to_u8 jni_array).

Definition get_nonnull_fixed_size_array_field (field : option (list Z)) (n : nat) : Result (list Z) PossibleError :=
  match get_nonnull_byte_array_field field with
  | Err e => Err e
  | Ok array => jni_array_to_fixed_buffer array n
  end.

(** The Java class, with NULL as [None]. *)
Record NativeServerCallArgs : Type := {
  n_query_phone_count : Z;
  n_query_data : option (list Z); n_query_iv : option (list Z); n_query_mac : option (list Z); n_query_commitment : option (list Z);
  n_msg_data : option (list Z); n_msg_iv : option (list Z); n_msg_mac : option (list Z); n_pending_request_id : option (list Z) }.

Local Notation "'let!' x := e 'in' k" := (match e with Ok x => k | Err err => Err err end)
  (at level 10, x pattern, e at level 200, k at level 200).

(** [server_call] up to the call: the arguments, the header and the data of the message, and the data
    of the query, which is at the address [query_ptr]. *)
Definition server_call (args : NativeServerCallArgs) (query_ptr : Z)
  : Result (sgxsd_server_handle_call_args_t * sgxsd_msg_header_t * list Z * list Z) PossibleError :=
  let! msg_array := get_nonnull_byte_array_field (n_msg_data args) in
  let msg_data := jni_array_to_vec msg_array in
  if (length msg_data =? 0)%nat then Err (SgxError "bad_msg_data"%string 0)
  else
    let! query_array := get_nonnull_byte_array_field (n_query_data args) in
    let query_data := jni_array_to_vec query_array in
    if (length query_data =? 0)%nat then Err (SgxError "bad_query_data"%string 0)
    else
      let! msg_iv := get_nonnull_fixed_size_array_field (n_msg_iv args) 12 in
      let! msg_mac := get_nonnull_fixed_size_array_field (n_msg_mac args) 16 in
      let! query_iv := get_nonnull_fixed_size_array_field (n_query_iv args) 12 in
      let! query_mac := get_nonnull_fixed_size_array_field (n_query_mac args) 16 in
      let! query_commitment := get_nonnull_fixed_size_array_field (n_query_commitment args) 32 in
      let! pending_request_id_bytes := get_nonnull_fixed_size_array_field (n_pending_request_id args) 36 in
      let sgxcallargs := {|
        query_phone_count := u32 (n_query_phone_count args); ratelimit_state_size := 0; ratelimit_state_uuid := zeros 16; ratelimit_state_data := 0;
        query := {| em_iv := query_iv; em_mac := query_mac; em_size := u32 (Z.of_nat (length query_data)); em_data := query_ptr |};
        query_commitment := query_commitment |} in
      let msg_header := {|
        mh_iv := msg_iv; mh_mac := msg_mac;
        mh_pending_request_id := {| pid_data := firstn 8 pending_request_id_bytes; pid_iv := firstn 12 (skipn 8 pending_request_id_bytes);
                                    pid_mac := firstn 16 (skipn 20 pending_request_id_bytes) |} |} in
      Ok (sgxcallargs, msg_header, msg_data, query_data).

(** [negotiate_request] before the call, and the arrays of the response after it, in the order of the
    constructor of SgxRequestNegotiationResponse. *)
Definition negotiate_pubkey (client_pubkey : list Z) : Result (list Z) PossibleError :=
  let pubkey := jni_array_to_vec client_pubkey in
  if negb (u32 (Z.of_nat (length pubkey)) =? 32) then Err (SgxError "negotiate_request_client_pubkey_copy"%string SGX_ERROR_INVALID_PARAMETER_CODE)
  else Ok pubkey.
Definition negotiate_response (resp : sgxsd_request_negotiation_response_t) : list (list Z) :=
  map slice_to_jni_array
    [server_static_pubkey resp; server_ephemeral_pubkey resp; enc_pid_data resp; enc_pid_iv resp; enc_pid_mac resp].

Definition server_start_args (max_query_phones_ : Z) : sgxsd_server_init_args_t :=
  {| max_query_phones := u32 max_query_phones_; max_ratelimit_states := 0 |}.

(** [complete_future_successfully]: the arrays of the SgxsdMessage: data, vector and tag. *)
Definition complete_future_successfully (iv mac data : list Z) : list (list Z) := map slice_to_jni_array [data; iv; mac].

(** * What is lost on the way: nothing *)

Lemma u8_i8 x : in_range 8 x -> to_u8 (to_i8 x) = x.
Proof. intros H. unfold to_u8, to_i8, sint, wrap, in_range in *. change (2 ^ 8) with 256 in *. destruct (_ <? _); dlia. Qed.

Lemma vec_array l : bytes_ok l -> jni_array_to_vec (slice_to_jni_array l) = l.
Proof. unfold jni_array_to_vec, slice_to_jni_array. rewrite map_map. induction 1 as [|x l Hx _ IH]; cbn [map]; [reflexivity|]. now rewrite u8_i8, IH. Qed.

Lemma fixed_array n l : blob n l -> get_nonnull_fixed_size_array_field (Some (slice_to_jni_array l)) n = Ok l.
Proof.
  intros [L B]. unfold get_nonnull_fixed_size_array_field, jni_array_to_fixed_buffer. cbn [get_nonnull_byte_array_field].
  unfold slice_to_jni_array at 1. rewrite length_map, L, Nat.eqb_refl. cbn [negb]. f_equal. exact (vec_array l B).
Qed.

End JniEnclave.
