(* ===== verification/Java.v ===== *)
(** What the Java service is built on: the integer types, the exceptions it tells apart, and
    futures. *)
From S2P Require Import Prelude.
From Stdlib Require Import String ZArith List Lia Bool.

Module Java.

(** [int] and [long], with the wrap-around of their operations. *)
Definition int (x : Z) : Z := sint 32 (u32 x).
Definition long (x : Z) : Z := sint 64 (u64 x).
Definition MAX_VALUE : Z := 2 ^ 31 - 1.

Lemma int_small x : - 2 ^ 31 <= x < 2 ^ 31 -> int x = x.
Proof.
  intros H. unfold int, sint, wrap. change (2 ^ (32 - 1)) with 2147483648. change (2 ^ 32) with 4294967296. change (2 ^ 31) with 2147483648 in H.
  destruct (Z.ltb_spec (x mod 4294967296) 2147483648); dlia.
Qed.

Lemma int_int_add x y : int (int x + y) = int (x + y).
Proof.
  unfold int. f_equal. unfold sint, wrap. change (2 ^ (32 - 1)) with 2147483648. change (2 ^ 32) with 4294967296.
  destruct (Z.ltb_spec (x mod 4294967296) 2147483648); dlia.
Qed.

Lemma int_range x : - 2 ^ 31 <= int x < 2 ^ 31.
Proof.
  unfold int, sint, wrap. change (2 ^ (32 - 1)) with 2147483648. change (2 ^ 32) with 4294967296. change (2 ^ 31) with 2147483648.
  destruct (Z.ltb_spec (x mod 4294967296) 2147483648); dlia.
Qed.

Lemma long_small x : - 2 ^ 63 <= x < 2 ^ 63 -> long x = x.
Proof.
  intros H. unfold long, sint, wrap. change (2 ^ (64 - 1)) with 9223372036854775808. change (2 ^ 64) with 18446744073709551616. change (2 ^ 63) with 9223372036854775808 in H.
  destruct (Z.ltb_spec (x mod 18446744073709551616) 9223372036854775808); dlia.
Qed.

(** The exceptions of the service; [OtherThrowable] is any other class. *)
Inductive throwable : Type :=
| SgxException (name : string) (code : Z)
| NoSuchPendingRequestException | InvalidRequestSizeException | AEADBadTagException
| IllegalArgumentException | IllegalStateException | NullPointerException
| DirectoryUnavailableException | InvalidAddressException | NoSuchEnclaveException | RequestManagerFullException
| PendingRequestFlushException | RateLimitExceededException
| OtherThrowable (class : string).

(** The outcome of a computation that may throw, and of a future that has completed. *)
Inductive outcome (A : Type) : Type := Returned (a : A) | Thrown (t : throwable).
Arguments Returned {A} a.
Arguments Thrown {A} t.

(** Code on a state that may throw. *)
Definition M (S A : Type) : Type := S -> outcome A * S.
Definition ret {S A} (a : A) : M S A := fun s => (Returned a, s).
Definition throw {S A} (t : throwable) : M S A := fun s => (Thrown t, s).
Definition bind {S A B} (m : M S A) (k : A -> M S B) : M S B :=
  fun s => match m s with (Returned a, s) => k a s | (Thrown t, s) => (Thrown t, s) end.

Declare Scope java_scope.
Delimit Scope java_scope with java.
Notation "'let!' x := m 'in' k" := (bind m (fun x => k)) (at level 10, x pattern, m at level 200, k at level 200) : java_scope.
Notation "m ;; k" := (bind m (fun _ => k)) (at level 100, k at level 200, right associativity) : java_scope.

(** [for (A a : l) body]. *)
Fixpoint for_each {S A} (l : list A) (body : A -> M S unit) : M S unit :=
  match l with
  | [] => ret tt
  | a :: l => (body a ;; for_each l body)%java
  end.

(** [Stream.reduce] without an identity. *)
Definition reduce {A} (accumulator : A -> A -> A) (l : list A) : option A :=
  match l with [] => None | x :: l => Some (fold_left accumulator l x) end.

Lemma reduce_some {A} f (l : list A) : (forall x y, f x y = x \/ f x y = y) -> l <> [] -> exists x, reduce f l = Some x /\ In x l.
Proof.
  intros Hf. destruct l as [|x l]; [easy|]. intros _. cbn [reduce]. eexists. split; [reflexivity|].
  revert x. induction l as [|y l IH]; intros x; cbn [fold_left]; [now left|]. specialize (IH (f x y)). destruct (Hf x y) as [E|E]; rewrite E in *; cbn in *; tauto.
Qed.

(** The accumulator that keeps the one with the greater key, and the later one of two with the same. *)
Lemma reduce_max {A} (key : A -> Z) (l : list A) m : reduce (fun x y => if key y <? key x then x else y) l = Some m ->
  In m l /\ Forall (fun x => key x <= key m) l.
Proof.
  destruct l as [|x l]; [easy|]. cbn [reduce]. intros [= <-]. revert x. induction l as [|y l IH]; intros x; cbn [fold_left].
  - split; [now left|]. repeat constructor. lia.
  - destruct (IH (if key y <? key x then x else y)) as [Hi Hf]. apply Forall_cons_iff in Hf as [H0 Hf].
    destruct (Z.ltb_spec (key y) (key x)); (split; [cbn in *; tauto|]); repeat constructor; trivial; lia.
Qed.

End Java.
