(* ===== verification/Users.v ===== *)
(** Users as the Java service writes them down: numbers, UUIDs, and the members of the set of users that
    directory/DirectoryCache.java keeps in Redis. Strings are strings of bytes. *)
From S2P Require Import Prelude Java.
From Stdlib Require Import String Ascii ZArith List Lia Bool.
Open Scope string_scope.
Open Scope Z_scope.

Module Users.

(** * Strings of the Java library *)

(** The value of a digit ([Character.digit]). *)
Definition digit (radix : Z) (c : ascii) : option Z :=
  let n := Z.of_N (N_of_ascii c) in
  let v := if (48 <=? n) && (n <=? 57) then n - 48 else if (97 <=? n) && (n <=? 122) then n - 87 else if (65 <=? n) && (n <=? 90) then n - 55 else radix in
  if v <? radix then Some v else None.

Fixpoint parse_digits (radix : Z) (s : string) (result : Z) : option Z :=
  match s with
  | EmptyString => Some result
  | String c s => match digit radix c with Some d => parse_digits radix s (result * radix + d) | None => None end
  end.

(** [Long.parseLong]; [None] is NumberFormatException. *)
Definition parseLong (radix : Z) (s : string) : option Z :=
  let '(negative, digits) :=
    match s with
    | String "-" s => (true, s)
    | String "+" s => (false, s)
    | _ => (false, s)
    end in
  match digits with
  | EmptyString => None
  | _ =>
      match parse_digits radix digits 0 with
      | None => None
      | Some n => let n := if negative : bool then - n else n in if (- 2 ^ 63 <=? n) && (n <? 2 ^ 63) then Some n else None
      end
  end.

(** What comes before the first [c], and what comes after it if there is one. *)
Fixpoint split_first (c : ascii) (s : string) : string * option string :=
  match s with
  | EmptyString => (EmptyString, None)
  | String c' s => if Ascii.eqb c' c then (EmptyString, Some s) else let '(a, b) := split_first c s in (String c' a, b)
  end.

(** The parts between the occurrences of [c]. *)
Fixpoint split_on (c : ascii) (s : string) : list string :=
  match s with
  | EmptyString => [EmptyString]
  | String c' s =>
      if Ascii.eqb c' c then EmptyString :: split_on c s
      else match split_on c s with [] => [] | a :: l => String c' a :: l end
  end.

(** The [n] lower hexadecimal digits of a number. *)
Definition hex_digit (d : Z) : ascii := ascii_of_N (Z.to_N (if d <? 10 then d + 48 else d + 87)).
Fixpoint hex (n : nat) (x : Z) : string :=
  match n with
  | O => EmptyString
  | S n => String (hex_digit (x / 16 ^ Z.of_nat n mod 16)) (hex n x)
  end.

(** * UUIDs *)

(** The two halves, as the directory takes them. *)
Definition UUID : Type := Z * Z.
Definition getMostSignificantBits (u : UUID) : Z := fst u.
Definition getLeastSignificantBits (u : UUID) : Z := snd u.

Definition toString (u : UUID) : string :=
  let '(mostSigBits, leastSigBits) := u in
  hex 8 (mostSigBits / 2 ^ 32) ++ "-" ++ hex 4 (mostSigBits / 2 ^ 16) ++ "-" ++ hex 4 mostSigBits ++ "-" ++
  hex 4 (leastSigBits / 2 ^ 48) ++ "-" ++ hex 12 leastSigBits.

(** [None] is IllegalArgumentException. *)
Definition fromString (name : string) : option UUID :=
  if (36 <? String.length name)%nat then None
  else
    match map (parseLong 16) (split_on "-" name) with
    | [Some a; Some b; Some c; Some d; Some e] =>
        Some (((a mod 2 ^ 32 * 2 ^ 16 + b mod 2 ^ 16) * 2 ^ 16 + c mod 2 ^ 16)%Z, (d mod 2 ^ 16 * 2 ^ 48 + e mod 2 ^ 48)%Z)
    | _ => None
    end.

(** * Members of the set *)

Definition USER_SEPARATOR : ascii := ":".
Definition USER_SEPARATOR_PLUS_ONE : ascii := ";".

Definition encodeUser (uuid : UUID) (address : string) : string := toString uuid ++ String USER_SEPARATOR address.
Definition uuidBoundAfter (uuid : UUID) : string := toString uuid ++ String USER_SEPARATOR_PLUS_ONE EmptyString.

(** [None]: [UUID.fromString] throws. *)
Definition decodeUser (encodedUser : string) : option (UUID * string) :=
  let '(uuid, address) := split_first USER_SEPARATOR encodedUser in
  match fromString uuid with
  | Some uuid => Some (uuid, match address with Some address => address | None => EmptyString end)
  | None => None
  end.

(** * Addresses (DirectoryManager.java) *)

Fixpoint filter_string (f : ascii -> bool) (s : string) : string :=
  match s with
  | EmptyString => EmptyString
  | String c s => if f c then String c (filter_string f s) else filter_string f s
  end.

(** [replaceAll] with the class of what is neither a digit nor a dot. *)
Definition digits_and_dots (c : ascii) : bool := let n := N_of_ascii c in ((48 <=? n) && (n <=? 57) || (n =? 46))%N.
Definition parseAddress (address : string) : Java.outcome Z :=
  match parseLong 10 (filter_string digits_and_dots address) with
  | Some n => Java.Returned n
  | None => Java.Thrown Java.InvalidAddressException
  end.

(** * What is written down is read back *)

Definition uuid_ok (u : UUID) : Prop := in_range 64 (fst u) /\ in_range 64 (snd u).

(** A property of the sixteen digits. *)
Lemma hex_digit_all (P : Z -> bool) d : 0 <= d < 16 -> forallb P (map Z.of_nat (seq 0 16)) = true -> P d = true.
Proof.
  intros Hd H. rewrite forallb_forall in H. apply H. apply in_map_iff. exists (Z.to_nat d). split; [lia|]. apply in_seq. lia.
Qed.

Lemma digit_hex d : 0 <= d < 16 -> digit 16 (hex_digit d) = Some d.
Proof.
  intros Hd. pose proof (hex_digit_all (fun d => match digit 16 (hex_digit d) with Some d' => d' =? d | None => false end) d Hd eq_refl) as H. cbn beta in H.
  destruct (digit 16 (hex_digit d)) as [d'|]; [|easy]. apply Z.eqb_eq in H. now subst.
Qed.

Lemma hex_digit_is d c : 0 <= d < 16 -> forallb (fun d => negb (Ascii.eqb (hex_digit d) c)) (map Z.of_nat (seq 0 16)) = true -> Ascii.eqb (hex_digit d) c = false.
Proof. intros Hd H. apply negb_true_iff. exact (hex_digit_all (fun d => negb (Ascii.eqb (hex_digit d) c)) d Hd H). Qed.

Lemma pow16_S n : 16 ^ Z.of_nat (S n) = 16 ^ Z.of_nat n * 16.
Proof. rewrite Nat2Z.inj_succ, Z.pow_succ_r by lia. lia. Qed.

Lemma parse_hex n x : forall r, parse_digits 16 (hex n x) r = Some (r * 16 ^ Z.of_nat n + x mod 16 ^ Z.of_nat n).
Proof.
  induction n as [|n IH]; intros r; cbn [hex parse_digits]; [rewrite Z.mod_1_r; f_equal; cbn; lia|].
  rewrite digit_hex, IH, pow16_S by (apply Z.mod_pos_bound; lia). f_equal. rewrite Z.rem_mul_r by lia. lia.
Qed.

Lemma parseLong_hex n x : (0 < n <= 15)%nat -> parseLong 16 (hex n x) = Some (x mod 16 ^ Z.of_nat n).
Proof.
  intros Hn. unfold parseLong. destruct n as [|n]; [lia|]. cbn [hex]. set (d := x / _ mod 16). assert (Hd : 0 <= d < 16) by (apply Z.mod_pos_bound; lia).
  assert (E : match String (hex_digit d) (hex n x) with String "-" s => (true, s) | String "+" s => (false, s) | _ => (false, String (hex_digit d) (hex n x)) end = (false, String (hex_digit d) (hex n x))).
  { pose proof (hex_digit_is d "-" Hd eq_refl) as H1. pose proof (hex_digit_is d "+" Hd eq_refl) as H2. destruct (hex_digit d) as [[] [] [] [] [] [] [] []]; easy. }
  rewrite E. change (String (hex_digit d) (hex n x)) with (hex (S n) x). rewrite parse_hex. cbn [Z.mul Z.add].
  pose proof (Z.mod_pos_bound x (16 ^ Z.of_nat (S n)) ltac:(apply Z.pow_pos_nonneg; lia)) as Hb.
  assert (16 ^ Z.of_nat (S n) <= 16 ^ 15) by (apply Z.pow_le_mono_r; lia). change (16 ^ 15) with 1152921504606846976 in *. change (2 ^ 63) with 9223372036854775808.
  rewrite (proj2 (Z.leb_le _ _)), (proj2 (Z.ltb_lt _ _)) by lia. reflexivity.
Qed.

Lemma append_empty s : s ++ "" = s.
Proof. induction s as [|c s IH]; cbn [append]; congruence. Qed.

(** A string without a separator. *)
Fixpoint without (c : ascii) (s : string) : bool := match s with EmptyString => true | String c' s => negb (Ascii.eqb c' c) && without c s end.

Lemma hex_without n x c : forallb (fun d => negb (Ascii.eqb (hex_digit d) c)) (map Z.of_nat (seq 0 16)) = true -> without c (hex n x) = true.
Proof.
  intros H. induction n as [|n IH]; cbn [hex without]; [reflexivity|]. rewrite (hex_digit_is _ c) by (exact H || apply Z.mod_pos_bound; lia). exact IH.
Qed.

Lemma without_app c s t : without c (s ++ t) = without c s && without c t.
Proof. induction s as [|a s IH]; cbn [append without]; [reflexivity|]. now rewrite IH, andb_assoc. Qed.

Lemma split_on_part c s t : without c s = true -> split_on c (s ++ String c t) = s :: split_on c t.
Proof.
  induction s as [|a s IH]; cbn [append without split_on]; [now rewrite Ascii.eqb_refl|]. intros [Ha Hs]%andb_true_iff. apply negb_true_iff in Ha. now rewrite Ha, IH.
Qed.

Lemma split_on_last c s : without c s = true -> split_on c s = [s].
Proof. induction s as [|a s IH]; cbn [without split_on]; [reflexivity|]. intros [Ha Hs]%andb_true_iff. apply negb_true_iff in Ha. now rewrite Ha, IH. Qed.

Lemma split_first_part c s t : without c s = true -> split_first c (s ++ String c t) = (s, Some t).
Proof.
  induction s as [|a s IH]; cbn [append without split_first]; [now rewrite Ascii.eqb_refl|]. intros [Ha Hs]%andb_true_iff. apply negb_true_iff in Ha. now rewrite Ha, IH.
Qed.

Lemma hex_length n x : String.length (hex n x) = n.
Proof. induction n as [|n IH]; cbn; congruence. Qed.

Lemma length_append s t : String.length (s ++ t) = (String.length s + String.length t)%nat.
Proof. induction s as [|a s IH]; cbn; congruence. Qed.

Lemma toString_length u : String.length (toString u) = 36%nat.
Proof. destruct u as [a b]. unfold toString. rewrite !length_append, !hex_length. reflexivity. Qed.

Lemma fromString_toString u : uuid_ok u -> fromString (toString u) = Some u.
Proof.
  intros [Ha Hb]. unfold fromString. rewrite toString_length. cbn [Nat.ltb Nat.leb]. destruct u as [a b]. cbn [fst snd] in *. unfold toString. cbn [append].
  rewrite !split_on_part, split_on_last by (now apply hex_without). cbn [map]. rewrite !parseLong_hex by lia.
  change (16 ^ Z.of_nat 8) with (2 ^ 32). change (16 ^ Z.of_nat 4) with (2 ^ 16). change (16 ^ Z.of_nat 12) with (2 ^ 48).
  unfold in_range in *. change (2 ^ 64) with 18446744073709551616 in *. change (2 ^ 32) with 4294967296. change (2 ^ 16) with 65536. change (2 ^ 48) with 281474976710656.
  apply (f_equal Some). apply (f_equal2 pair); dlia.
Qed.

(** ** The order of the members *)

Definition num (u : UUID) : Z := fst u * 2 ^ 64 + snd u.

Lemma hex_digit_compare a b : 0 <= a < 16 -> 0 <= b < 16 -> Ascii.compare (hex_digit a) (hex_digit b) = (a ?= b).
Proof.
  intros Ha Hb. pose proof (hex_digit_all (fun a => forallb (fun b => match Ascii.compare (hex_digit a) (hex_digit b), a ?= b with Eq, Eq | Lt, Lt | Gt, Gt => true | _, _ => false end)
    (map Z.of_nat (seq 0 16))) a Ha eq_refl) as H. cbn beta in H. apply (hex_digit_all _ b Hb) in H. cbn beta in H. now destruct (Ascii.compare _ _), (a ?= b).
Qed.

(** Numbers of two digits in base [B]. *)
Lemma compare_digits B a1 b1 a2 b2 : 0 <= b1 < B -> 0 <= b2 < B -> (a1 * B + b1 ?= a2 * B + b2) = match a1 ?= a2 with Eq => b1 ?= b2 | c => c end.
Proof.
  intros H1 H2. destruct (Z.compare_spec a1 a2) as [->|H|H].
  - destruct (Z.compare_spec b1 b2); [apply Z.compare_eq_iff|apply Z.compare_lt_iff|apply Z.compare_gt_iff]; lia.
  - apply Z.compare_lt_iff. nia.
  - apply Z.compare_gt_iff. nia.
Qed.

Lemma compare_hex n x y s t : String.compare (hex n x ++ s) (hex n y ++ t) = match x mod 16 ^ Z.of_nat n ?= y mod 16 ^ Z.of_nat n with Eq => String.compare s t | c => c end.
Proof.
  induction n as [|n IH]; cbn [hex append]; [now rewrite !Z.mod_1_r|]. cbn [String.compare]. rewrite hex_digit_compare, IH by (apply Z.mod_pos_bound; lia).
  rewrite pow16_S, !Z.rem_mul_r by lia. set (B := 16 ^ Z.of_nat n). assert (0 < B) by (apply Z.pow_pos_nonneg; lia).
  rewrite !(Z.add_comm (_ mod B)), !(Z.mul_comm B), compare_digits by (apply Z.mod_pos_bound; lia).
  repeat match goal with |- context [?x ?= ?y] => destruct (x ?= y); try reflexivity end.
Qed.

Lemma compare_toString u v s t : uuid_ok u -> uuid_ok v -> String.compare (toString u ++ s) (toString v ++ t) = match num u ?= num v with Eq => String.compare s t | c => c end.
Proof.
  intros [Ha Hb] [Hc Hd]. destruct u as [a b], v as [c d]. cbn [fst snd] in *. unfold toString, num. cbn [fst snd].
  assert (Assoc : forall x y z : string, ((x ++ y) ++ z = x ++ (y ++ z))%string) by (intros x y z; induction x; cbn; congruence).
  assert (Dash : forall x y : string, String.compare ("-" ++ x) ("-" ++ y) = String.compare x y) by reflexivity.
  rewrite !Assoc. rewrite !compare_hex, !Dash, !compare_hex, !Dash, !compare_hex, !Dash, !compare_hex, !Dash, !compare_hex.
  change (16 ^ Z.of_nat 8) with (2 ^ 32). change (16 ^ Z.of_nat 4) with (2 ^ 16). change (16 ^ Z.of_nat 12) with (2 ^ 48).
  unfold in_range in *. change (2 ^ 64) with 18446744073709551616 in *. change (2 ^ 32) with 4294967296. change (2 ^ 16) with 65536. change (2 ^ 48) with 281474976710656.
  rewrite compare_digits by lia.
  replace (a ?= c) with ((a / 4294967296 * 65536 + a / 65536 mod 65536) * 65536 + a mod 65536 ?= (c / 4294967296 * 65536 + c / 65536 mod 65536) * 65536 + c mod 65536) by (f_equal; dlia).
  replace (b ?= d) with (b / 281474976710656 * 281474976710656 + b mod 281474976710656 ?= d / 281474976710656 * 281474976710656 + d mod 281474976710656) by (f_equal; dlia).
  rewrite !compare_digits by (apply Z.mod_pos_bound; lia).
  rewrite (Z.mod_small (a / 4294967296)), (Z.mod_small (c / 4294967296)), (Z.mod_small (b / 281474976710656)), (Z.mod_small (d / 281474976710656)) by dlia.
  repeat match goal with |- context [?x ?= ?y] => destruct (x ?= y); try reflexivity end.
Qed.

Lemma user_decoded uuid address : uuid_ok uuid -> decodeUser (encodeUser uuid address) = Some (uuid, address).
Proof.
  intros Hu. unfold decodeUser, encodeUser. rewrite split_first_part; [now rewrite fromString_toString|]. destruct uuid as [a b]. unfold toString. rewrite !without_app.
  now rewrite !hex_without.
Qed.

(** What the service writes in the set of users for a user is read back as that user, whatever the
    address; and the order of the members is that of the UUIDs. *)
Theorem user_roundtrip u v a b (Hu : uuid_ok u) (Hv : uuid_ok v) : decodeUser (encodeUser u a) = Some (u, a) /\
  (num u < num v -> String.compare (encodeUser u a) (encodeUser v b) = Lt) /\ String.compare (encodeUser u a) (uuidBoundAfter v) = if num u <=? num v then Lt else Gt.
Proof.
  split; [now apply user_decoded|]. unfold encodeUser, uuidBoundAfter. rewrite !compare_toString by assumption. split; [now intros ->%Z.compare_lt_iff|].
  destruct (Z.compare_spec (num u) (num v)) as [->|H|H]; [now rewrite Z.leb_refl|now rewrite (proj2 (Z.leb_le _ _)) by lia|now rewrite (proj2 (Z.leb_gt _ _)) by lia].
Qed.

End Users.
