(* ===== verification/Auth.v ===== *)
(** Who may ask: auth/AuthorizationTokenVerifier.java and auth/UserAuthenticator.java. A token is the
    number of a user, a time in seconds and ten bytes of their HMAC, with colons between them. *)
From S2P Require Import Prelude SgxsdCrypto Java Users.
From Stdlib Require Import String Ascii ZArith List Lia Bool.
Import SgxsdCrypto Java Users.
Open Scope string_scope.
Open Scope Z_scope.
#[local] Opaque hmac_sha256.

Module Auth.

(** * The Java library *)

(** [String.split] with one character: the empty strings at the end are left out. *)
Fixpoint trim (l : list string) : list string :=
  match l with
  | [] => []
  | x :: l => match trim l with [] => match x with EmptyString => [] | _ => [x] end | l' => x :: l' end
  end.
Definition split (c : ascii) (s : string) : list string := match split_on c s with [x] => [x] | l => trim l end.

(** [String.getBytes]. *)
Definition getBytes (s : string) : list Z := map (fun c => Z.of_N (N_of_ascii c)) (list_ascii_of_string s).

(** [Math.abs] and [TimeUnit]. *)
Definition abs (x : Z) : Z := if x <? 0 then long (- x) else x.
Definition toSeconds (millis : Z) : Z := Z.quot millis 1000.
Definition toHours (seconds : Z) : Z := Z.quot seconds 3600.

(** [MessageDigest.isEqual]. *)
Definition isEqual (a b : list Z) : bool := if list_eq_dec Z.eq_dec a b then true else false.

(** [ByteUtils.truncate]. *)
Definition truncate (element : list Z) (length : nat) : outcome (list Z) :=
  if (length <=? List.length element)%nat then Returned (firstn length element) else Thrown (OtherThrowable "ArrayIndexOutOfBoundsException").

(** * The verifier *)

Section Verifier.
(** [Hex.decodeHex] of Apache Commons Codec; [None] is DecoderException. *)
Context (decodeHex : string -> option (list Z)).

Definition isValidTime (timeString : string) (currentTimeMillis : Z) : bool :=
  match parseLong 10 timeString with
  | Some tokenTime => let ourTime := toSeconds currentTimeMillis in toHours (abs (long (ourTime - tokenTime))) <? 24
  | None => false
  end.

Definition isValidSignature (key : list Z) (prefix suffix : string) : outcome bool :=
  match truncate (hmac_sha256 key (getBytes prefix)) 10 with
  | Thrown t => Thrown t
  | Returned ourSuffix => match decodeHex suffix with Some theirSuffix => Returned (isEqual ourSuffix theirSuffix) | None => Returned false end
  end.

Definition isValid (key : list Z) (token number : string) (currentTimeMillis : Z) : outcome bool :=
  match split ":" token with
  | [part0; part1; part2] =>
      if negb (String.eqb number part0) then Returned false
      else if negb (isValidTime part1 currentTimeMillis) then Returned false
      else isValidSignature key (part0 ++ ":" ++ part1) part2
  | _ => Returned false
  end.

(** [UserAuthenticator.authenticate]: the number of the user. *)
Definition authenticate (userAuthenticationToken : list Z) (username password : string) (currentTimeMillis : Z) : outcome (option string) :=
  match isValid userAuthenticationToken password username currentTimeMillis with
  | Returned true => Returned (Some username)
  | Returned false => Returned None
  | Thrown t => Thrown t
  end.

(** * What a valid token is *)

(** A run of colons. *)
Fixpoint colons (k : nat) : string := match k with O => EmptyString | S k => String ":" (colons k) end.

(** The parts of a string joined. *)
Fixpoint join (l : list string) : string := match l with [] => "" | [x] => x | x :: l => x ++ String ":" (join l) end.

Lemma split_on_join s : join (split_on ":" s) = s /\ Forall (fun x => without ":" x = true) (split_on ":" s) /\ split_on ":" s <> [].
Proof.
  induction s as [|c s (Hj & Hf & Hn)]; cbn [split_on]; [split; [reflexivity|]; split; [now repeat constructor|discriminate]|].
  destruct (Ascii.eqb_spec c ":") as [->|Hc].
  - split; [|split; [now constructor|discriminate]]. destruct (split_on ":" s) as [|x l]; [easy|]. cbn [join append] in *. now rewrite Hj.
  - destruct (split_on ":" s) as [|x l]; [easy|]. apply Forall_cons_iff in Hf as [Hx Hl]. split; [|split; [|discriminate]].
    + destruct l; cbn [join append] in *; now rewrite Hj.
    + constructor; [|exact Hl]. cbn [without]. rewrite Hx. apply Ascii.eqb_neq in Hc. now rewrite Hc.
Qed.

Lemma trim_spec l : exists k, l = (trim l ++ repeat ""%string k)%list /\ (trim l = [] \/ last (trim l) "" <> "").
Proof.
  induction l as [|x l (k & E & H)]; [exists O; split; [reflexivity|now left]|]. cbn [trim]. destruct (trim l) as [|y l'] eqn:Et.
  - cbn [app] in E. destruct x as [|c x]; [exists (S k)|exists k]; cbn [app repeat]; rewrite E at 1; (split; [reflexivity|]); [now left|now right].
  - exists k. cbn [app] in *. rewrite E at 1. split; [reflexivity|right]. destruct H as [H|H]; [discriminate|]. exact H.
Qed.

Lemma join_colons d k : join (d :: repeat "" k) = d ++ colons k.
Proof.
  revert d. induction k as [|k IH]; intros d; cbn [repeat join colons]; [now rewrite append_empty|]. f_equal. f_equal. exact (IH "").
Qed.

Lemma split_on_colons k : split_on ":" (colons k) = repeat "" (S k).
Proof. induction k as [|k IH]; [reflexivity|]. cbn [colons split_on]. rewrite Ascii.eqb_refl, IH. reflexivity. Qed.

Lemma trim_repeat k : trim (repeat "" k) = [].
Proof. induction k as [|k IH]; [reflexivity|]. cbn [repeat trim]. now rewrite IH. Qed.

(** Three parts, the last one not empty. *)
Lemma split_three s a b d : split ":" s = [a; b; d] <->
  without ":" a = true /\ without ":" b = true /\ without ":" d = true /\ d <> "" /\ exists k, s = a ++ ":" ++ b ++ ":" ++ d ++ colons k.
Proof.
  split.
  - intros H. destruct (split_on_join s) as (Hj & Hf & Hn). unfold split in H. assert (Ht : trim (split_on ":" s) = [a; b; d]) by (destruct (split_on ":" s) as [|x [|y l]]; [exact H|discriminate|exact H]).
    destruct (trim_spec (split_on ":" s)) as (k & E & Hl). rewrite Ht in E, Hl. rewrite E in Hf, Hj. cbn [app] in Hf, Hj. apply Forall_cons_iff in Hf as [Ha [Hb [Hd _]%Forall_cons_iff]%Forall_cons_iff].
    split; [exact Ha|]. split; [exact Hb|]. split; [exact Hd|]. split; [destruct Hl as [Hl|Hl]; [discriminate|exact Hl]|]. exists k. rewrite <- join_colons, <- Hj. reflexivity.
  - intros (Ha & Hb & Hd & Hne & k & ->). unfold split. cbn [append]. rewrite !split_on_part by assumption. destruct k as [|k].
    + cbn [colons]. rewrite append_empty, split_on_last by exact Hd. destruct d; [easy|reflexivity].
    + cbn [colons]. rewrite split_on_part, split_on_colons by exact Hd. cbn [trim]. rewrite trim_repeat. destruct d; [easy|reflexivity].
Qed.

Lemma toHours_day x : 0 <= x -> (toHours x <? 24) = (x <? 86400).
Proof.
  intros H. unfold toHours. rewrite Z.quot_div_nonneg by lia. destruct (Z.ltb_spec x 86400), (Z.ltb_spec (x / 3600) 24); try reflexivity; exfalso; Z.to_euclidean_division_equations; lia.
Qed.

Lemma parseLong_range radix s n : parseLong radix s = Some n -> - 2 ^ 63 <= n < 2 ^ 63.
Proof.
  unfold parseLong. destruct (match s with String "-" s0 => (true, s0) | String "+" s0 => (false, s0) | _ => (false, s) end) as [negative digits]. destruct digits; [discriminate|].
  destruct (parse_digits radix _ 0) as [m|]; [|discriminate]. destruct (_ && _) eqn:E; [|discriminate]. intros [= <-]. lia.
Qed.

Lemma long_over x : 2 ^ 63 <= x < 2 ^ 64 -> long x = x - 2 ^ 64.
Proof.
  intros H. unfold long, sint, wrap. change (2 ^ (64 - 1)) with 9223372036854775808. change (2 ^ 64) with 18446744073709551616 in *. change (2 ^ 63) with 9223372036854775808 in H.
  rewrite !Z.mod_small by lia. destruct (Z.ltb_spec x 9223372036854775808); lia.
Qed.

(** A time within a day of the clock, or 2^63 seconds before it: there the difference is the least
    [long], which [Math.abs] leaves as it is. *)
Definition fresh (clock t : Z) : Prop := Z.abs (clock - t) < 86400 \/ t = clock - 2 ^ 63.

Lemma day_spec clock t : 0 <= clock <= 2 ^ 62 -> - 2 ^ 63 <= t < 2 ^ 63 -> (toHours (abs (long (clock - t))) <? 24) = true <-> fresh clock t.
Proof.
  intros Hc Ht. unfold fresh. change (2 ^ 62) with 4611686018427387904 in Hc. pose proof (eq_refl : 2 ^ 63 = 9223372036854775808) as E63. destruct (Z.lt_trichotomy (clock - t) (2 ^ 63)) as [H|[H|H]].
  - rewrite (long_small (clock - t)) by lia. unfold abs. destruct (Z.ltb_spec (clock - t) 0); [rewrite long_small by lia|]; rewrite toHours_day by lia; lia.
  - rewrite H. split; [intros _; right; lia|]. intros _. reflexivity.
  - rewrite long_over by lia. change (2 ^ 64) with 18446744073709551616. unfold abs. destruct (Z.ltb_spec (clock - t - 18446744073709551616) 0); [|lia].
    rewrite long_small, toHours_day by lia. lia.
Qed.

Lemma isValidTime_spec s now : 0 <= now < 2 ^ 63 -> isValidTime s now = true <-> exists t, parseLong 10 s = Some t /\ fresh (now / 1000) t.
Proof.
  intros Hn. unfold isValidTime, toSeconds. rewrite Z.quot_div_nonneg by lia. destruct (parseLong 10 s) as [t|] eqn:E; [|split; [discriminate|now intros (t & [=] & _)]].
  apply parseLong_range in E. assert (Hs : 0 <= now / 1000 <= 2 ^ 62) by (change (2 ^ 63) with 9223372036854775808 in *; change (2 ^ 62) with 4611686018427387904; Z.to_euclidean_division_equations; lia).
  pose proof (day_spec (now / 1000) t Hs E) as Hd. split; [intros H; exists t; split; [reflexivity|now apply Hd]|intros (t' & [= <-] & H); now apply Hd].
Qed.

Lemma isValidSignature_spec key prefix suffix : isValidSignature key prefix suffix =
  Returned match decodeHex suffix with Some theirs => isEqual (firstn 10 (hmac_sha256 key (getBytes prefix))) theirs | None => false end.
Proof.
  unfold isValidSignature, truncate. rewrite (proj1 (hmac_shape key (getBytes prefix))). cbn [Nat.leb]. now destruct (decodeHex suffix).
Qed.

(** The token of a user at a time: the number, a time and a suffix with colons between them, perhaps
    with more at the end. *)
Definition good_token (key : list Z) (number : string) (now : Z) (token : string) : Prop :=
  exists time suffix t k, token = number ++ ":" ++ time ++ ":" ++ suffix ++ colons k /\
    without ":" number = true /\ without ":" time = true /\ without ":" suffix = true /\ suffix <> "" /\
    parseLong 10 time = Some t /\ fresh (now / 1000) t /\
    decodeHex suffix = Some (firstn 10 (hmac_sha256 key (getBytes (number ++ ":" ++ time)))).

Lemma isValid_spec key token number now : 0 <= now < 2 ^ 63 -> exists b, isValid key token number now = Returned b /\ (b = true <-> good_token key number now token).
Proof.
  intros Hn. assert (Hs : good_token key number now token -> exists time suffix, split ":" token = [number; time; suffix] /\ isValidTime time now = true /\
    decodeHex suffix = Some (firstn 10 (hmac_sha256 key (getBytes (number ++ ":" ++ time))))).
  { intros (time & suffix & t & k & -> & H1 & H2 & H3 & H4 & H5 & H6 & H7). exists time, suffix. split; [apply split_three; repeat split; trivial; now exists k|]. split; [|exact H7].
    apply isValidTime_spec; [exact Hn|]. now exists t. }
  unfold isValid. destruct (split ":" token) as [|a [|b [|d [|e l]]]] eqn:E; try (exists false; split; [reflexivity|]; split; [discriminate|]; now intros (? & ? & [=] & _)%Hs).
  destruct (String.eqb_spec number a) as [->|Ha]; cbn [negb]; [|exists false; split; [reflexivity|]; split; [discriminate|]; intros (? & ? & [=] & _)%Hs; congruence].
  destruct (isValidTime b now) eqn:Eb; cbn [negb]; [|exists false; split; [reflexivity|]; split; [discriminate|]; intros (? & ? & [= <- <-] & H & _)%Hs; congruence].
  rewrite isValidSignature_spec. eexists. split; [reflexivity|]. split.
  - destruct (decodeHex d) as [theirs|] eqn:Ed; [|discriminate]. unfold isEqual. destruct (list_eq_dec _ _ _) as [<-|]; [|discriminate]. intros _.
    apply split_three in E as (H1 & H2 & H3 & H4 & k & ->). apply isValidTime_spec in Eb as (t & Et & Hf); [|exact Hn]. now exists b, d, t, k.
  - intros (time & suffix & [= <- <-] & _ & ->)%Hs. unfold isEqual. now destruct (list_eq_dec _ _ _).
Qed.

(** C21. A user is who they say. As long as the clock is a [long] that is not negative, [authenticate] never
    throws, and it lets a user in under a number exactly when their token is that number, a time and a
    suffix, where the time is within a day of the clock (or the one time 2^63 seconds before it) and the
    suffix decodes to the first ten bytes of the HMAC-SHA256 of the number and the time under the key
    that is shared with the main service. *)
Theorem authenticates key username password now : 0 <= now < 2 ^ 63 ->
  (authenticate key username password now = Returned (Some username) /\ good_token key username now password) \/
  (authenticate key username password now = Returned None /\ ~ good_token key username now password).
Proof.
  intros Hn. destruct (isValid_spec key password username now Hn) as (b & E & Hb). unfold authenticate. rewrite E. destruct b; [left|right]; (split; [reflexivity|]); [now apply Hb|].
  intros H%Hb. discriminate.
Qed.
End Verifier.
End Auth.
