(* ===== verification/HostRanges.v ===== *)
(** The hosts that limit the rate of a user: phonelimiter/PhoneLimiterPartitioner.java, which checks the
    ranges of a configuration, and phonelimiter/RateLimitServicePartitioner.java, which finds the range
    of a number. *)
From S2P Require Import Prelude SgxsdCrypto Java Users Auth.
From Stdlib Require Import String Ascii ZArith List Lia Bool.
From stdpp Require Import gmap strings.
Import SgxsdCrypto Java Users.
Open Scope Z_scope.
#[local] Opaque sha256.

Module HostRanges.

(** RateLimitServiceConfiguration.HostRangeConfig, and the order of the configurations. *)
Record HostRangeConfig : Type := { config_addrs : list string; config_start : string; config_end : string }.
Definition compareTo (a b : HostRangeConfig) : comparison :=
  match String.compare (config_start a) (config_start b) with Eq => String.compare (config_end a) (config_end b) | c => c end.

(** [List.sort]: stable. *)
Fixpoint insert_config (c : HostRangeConfig) (l : list HostRangeConfig) : list HostRangeConfig :=
  match l with
  | [] => [c]
  | c' :: l' => match compareTo c c' with Gt => c' :: insert_config c l' | _ => c :: l end
  end.
Definition sort (l : list HostRangeConfig) : list HostRangeConfig := foldr insert_config [] l.

(** [toLowerCase] and [new BigInteger(s, 16)]. *)
Definition lower (c : ascii) : ascii := let n := N_of_ascii c in if ((65 <=? n) && (n <=? 90))%N then ascii_of_N (n + 32) else c.
Fixpoint toLowerCase (s : string) : string := match s with EmptyString => EmptyString | String c s => String (lower c) (toLowerCase s) end.
Definition BigInteger (s : string) : option Z := match s with EmptyString => None | _ => parse_digits 16 s 0 end.

Record HostRange : Type := { hostIdToAddrs : gmap string string; start : string; end_ : string }.

Section Partitioner.
(** [Hex.encode] and [Hex.decode] of Bouncy Castle, the second as whether it decodes, and the hash of
    Guava that the partitioner is made with, as a string. *)
Context (encode : list Z -> string) (decodes : string -> bool) (hashFunc : string -> string).

Definition new_HostRange (addrs : list string) (start end_ : string) : HostRange :=
  {| hostIdToAddrs := foldl (fun hosts addr => <[encode (sha256 (Auth.Auth.getBytes addr)) := addr]> hosts) ∅ addrs; start := start; end_ := end_ |}.

Definition validateHex (s : string) : bool := decodes s.

Definition to_range (config : HostRangeConfig) : outcome HostRange :=
  if negb (validateHex (config_start config) && validateHex (config_end config)) then Thrown (OtherThrowable "RuntimeException")
  else match String.compare (config_start config) (config_end config) with
       | Lt => Returned (new_HostRange (config_addrs config) (toLowerCase (config_start config)) (toLowerCase (config_end config)))
       | _ => Thrown IllegalArgumentException
       end.

Fixpoint to_ranges (configs : list HostRangeConfig) : outcome (list HostRange) :=
  match configs with
  | [] => Returned []
  | config :: configs =>
      match to_range config with
      | Thrown t => Thrown t
      | Returned range => match to_ranges configs with Returned ranges => Returned (range :: ranges) | Thrown t => Thrown t end
      end
  end.

Definition zero : string := "00000000000000000000000000000000".
Definition max : string := "ffffffffffffffffffffffffffffffff".

(** The loop over the ranges: [None] when it ends. *)
Fixpoint check_adjacent (prev : HostRange) (ranges : list HostRange) : option throwable :=
  match ranges with
  | [] => None
  | curr :: ranges =>
      match String.compare (start curr) (end_ curr) with
      | Lt =>
          match BigInteger (end_ prev), BigInteger (start curr) with
          | Some prevEnd, Some currStart => if prevEnd + 1 =? currStart then check_adjacent curr ranges else Some IllegalArgumentException
          | _, _ => Some (OtherThrowable "NumberFormatException")
          end
      | _ => Some IllegalArgumentException
      end
  end.

Definition configToHostRanges (immutableConfigs : list HostRangeConfig) : outcome (list HostRange) :=
  match to_ranges (sort immutableConfigs) with
  | Thrown t => Thrown t
  | Returned [] => Thrown IllegalArgumentException
  | Returned ((prev :: it) as ranges) =>
      if negb (String.eqb (start prev) zero) then Thrown IllegalArgumentException
      else if negb (String.eqb (end_ (List.last it prev)) max) then Thrown IllegalArgumentException
      else match String.compare (start prev) (end_ prev) with
           | Lt => match check_adjacent prev it with None => Returned ranges | Some t => Thrown t end
           | _ => Thrown IllegalArgumentException
           end
  end.

(** [TreeMap.ceilingEntry]: the entry with the least key from [key] on; of two with the same key the
    later one was put over the other. *)
Fixpoint ceilingEntry (key : string) (entries : list (string * HostRange)) : option (string * HostRange) :=
  match entries with
  | [] => None
  | (k, r) :: entries =>
      let above := match String.compare key k with Gt => false | _ => true end in
      match ceilingEntry key entries with
      | Some (k', r') => if above && match String.compare k k' with Lt => true | _ => false end then Some (k, r) else Some (k', r')
      | None => if above then Some (k, r) else None
      end
  end.

(** The constructor of RateLimitServicePartitioner, and [lookup]. *)
Definition new_partitioner (rangeList : list HostRange) : outcome (list (string * HostRange)) :=
  match rangeList with
  | [] => Thrown IllegalArgumentException
  | _ =>
      if forallb (fun range => negb (bool_decide (hostIdToAddrs range = ∅))) rangeList then Returned (List.map (fun range => (end_ range, range)) rangeList)
      else Thrown IllegalArgumentException
  end.

Definition lookup (ranges : list (string * HostRange)) (userNumber : string) : outcome (gmap string string) :=
  match ceilingEntry (hashFunc userNumber) ranges with
  | None => Thrown (OtherThrowable "RuntimeException")
  | Some (_, rangeEntry) => Returned (hostIdToAddrs rangeEntry)
  end.

(** * The ranges partition the hashes *)

(** The bounds of a range as numbers of 32 digits. *)
Definition spans (r : HostRange) (a b : Z) : Prop := start r = hex 32 a /\ end_ r = hex 32 b /\ 0 <= a < 2 ^ 128 /\ 0 <= b < 2 ^ 128.

Lemma compare_hex32 a b : 0 <= a < 2 ^ 128 -> 0 <= b < 2 ^ 128 -> String.compare (hex 32 a) (hex 32 b) = (a ?= b).
Proof.
  intros Ha Hb. rewrite <- (append_empty (hex 32 a)), <- (append_empty (hex 32 b)), compare_hex. change (16 ^ Z.of_nat 32) with (2 ^ 128). rewrite !Z.mod_small by assumption. now destruct (a ?= b).
Qed.

Lemma BigInteger_hex32 a : 0 <= a < 2 ^ 128 -> BigInteger (hex 32 a) = Some a.
Proof. intros Ha. change (BigInteger (hex 32 a)) with (parse_digits 16 (hex 32 a) 0). rewrite parse_hex. change (16 ^ Z.of_nat 32) with (2 ^ 128). now rewrite Z.mod_small. Qed.

Lemma last_from {A} (x : A) l d : List.last (x :: l) d = List.last l x.
Proof. revert x d. induction l as [|y l IH]; intros x d; [reflexivity|]. change (List.last (y :: l) d = List.last (y :: l) x). now rewrite !IH. Qed.

(** Ranges that follow each other up to the greatest hash. *)
Fixpoint adjoin (from : Z) (ranges : list HostRange) : Prop :=
  match ranges with
  | [] => from = 2 ^ 128
  | r :: ranges => exists b, spans r from b /\ from < b /\ adjoin (b + 1) ranges
  end.

Lemma check_adjacent_spec : forall ranges prev a b, spans prev a b -> Forall (fun r => exists a b, spans r a b) ranges -> check_adjacent prev ranges = None ->
  end_ (List.last ranges prev) = max -> adjoin (b + 1) ranges.
Proof.
  induction ranges as [|r ranges IH]; intros prev a b Hp Hf Hc Hl; cbn [adjoin].
  - destruct Hp as (_ & Ee & _ & Hb). cbn [List.last] in Hl. rewrite Ee in Hl. apply (f_equal BigInteger) in Hl. rewrite BigInteger_hex32 in Hl by exact Hb. injection Hl as ->. reflexivity.
  - apply Forall_cons in Hf as [(a' & b' & Hr) Hf]. cbn [check_adjacent] in Hc. pose proof Hp as (_ & Ep & _ & Hb). pose proof Hr as (Es & Ee & Ha' & Hb').
    rewrite Es, Ee, compare_hex32 in Hc by assumption. destruct (Z.compare_spec a' b') as [|Hlt|]; [discriminate| |discriminate]. rewrite Ep, !BigInteger_hex32 in Hc by assumption.
    destruct (Z.eqb_spec (b + 1) a') as [<-|]; [|discriminate]. exists b'. split; [exact Hr|]. split; [exact Hlt|]. apply (IH r (b + 1) b' Hr Hf Hc). now rewrite <- Hl, last_from.
Qed.

Lemma accepted_adjoin configs ranges : configToHostRanges configs = Returned ranges -> Forall (fun r => exists a b, spans r a b) ranges -> adjoin 0 ranges.
Proof.
  unfold configToHostRanges. destruct (to_ranges (sort configs)) as [[|prev it]|]; try discriminate. destruct (String.eqb_spec (start prev) zero) as [Ez|]; [|discriminate]. cbn [negb].
  destruct (String.eqb_spec (end_ (List.last it prev)) max) as [El|]; [|discriminate]. cbn [negb]. destruct (String.compare (start prev) (end_ prev)) eqn:Ec; try discriminate.
  destruct (check_adjacent prev it) eqn:Ea; [discriminate|]. intros [= <-] Hf. apply Forall_cons in Hf as [(a & b & Hp) Hf]. pose proof Hp as (Es & Ee & Ha & Hb). rewrite Es, Ee, compare_hex32 in Ec by assumption.
  assert (a = 0) as -> by (rewrite Es in Ez; apply (f_equal BigInteger) in Ez; rewrite BigInteger_hex32 in Ez by exact Ha; now injection Ez). exists b. split; [exact Hp|].
  apply Z.compare_lt_iff in Ec. split; [exact Ec|]. exact (check_adjacent_spec it prev 0 b Hp Hf Ea El).
Qed.

Lemma ceiling_above : forall ranges from h k r, adjoin from ranges -> ceilingEntry (hex 32 h) (List.map (fun r => (end_ r, r)) ranges) = Some (k, r) -> exists a b, spans r a b /\ k = hex 32 b /\ from <= a < b.
Proof.
  induction ranges as [|r0 ranges IH]; intros from h k r; [discriminate|]. cbn [adjoin List.map ceilingEntry]. intros (b & Hs & Hlt & Ha) E. assert (Hhead : exists a b, spans r0 a b /\ end_ r0 = hex 32 b /\ from <= a < b) by (exists from, b; split; [exact Hs|]; split; [apply Hs|lia]).
  destruct (ceilingEntry (hex 32 h) (List.map (fun r => (end_ r, r)) ranges)) as [[k' r']|] eqn:Ec.
  - destruct (_ && _); injection E as <- <-; [exact Hhead|]. destruct (IH (b + 1) h k' r' Ha Ec) as (a' & b' & H1 & H2 & H3). exists a', b'. split; [exact H1|]. split; [exact H2|lia].
  - destruct (match String.compare _ _ with Gt => false | _ => true end); [|discriminate]. injection E as <- <-. exact Hhead.
Qed.

Lemma ceiling_spec : forall ranges from h, adjoin from ranges -> 0 <= from -> from <= h < 2 ^ 128 ->
  exists r a b, ceilingEntry (hex 32 h) (List.map (fun r => (end_ r, r)) ranges) = Some (end_ r, r) /\ r ∈ ranges /\ spans r a b /\ a <= h <= b.
Proof.
  induction ranges as [|r0 ranges IH]; intros from h; cbn [adjoin List.map ceilingEntry]; [lia|]. intros (b & Hs & Hlt & Ha) H0 Hh. pose proof Hs as (Es & Ee & Hf & Hb).
  rewrite Ee, compare_hex32 by (assumption || lia). destruct (Z.le_gt_cases h b) as [Hle|Hgt].
  - exists r0, from, b. split; [|split; [apply list_elem_of_here|split; [exact Hs|lia]]]. replace (match h ?= b with Gt => false | _ => true end) with true by (destruct (Z.compare_spec h b); lia || reflexivity).
    destruct (ceilingEntry (hex 32 h) (List.map (fun r => (end_ r, r)) ranges)) as [[k' r']|] eqn:Ec; [|now rewrite Ee]. destruct (ceiling_above ranges (b + 1) h k' r' Ha Ec) as (a' & b' & Hs' & -> & Hr).
    rewrite compare_hex32 by (assumption || apply Hs'). rewrite (proj2 (Z.compare_lt_iff b b')) by lia. now rewrite Ee.
  - destruct (IH (b + 1) h Ha) as (r & a & b' & -> & Hin & Hs' & Hr); [lia|lia|]. exists r, a, b'. replace (match h ?= b with Gt => false | _ => true end) with false by (destruct (Z.compare_spec h b); lia || reflexivity).
    cbn [andb]. split; [reflexivity|]. split; [now apply list_elem_of_further|]. now split.
Qed.

(** C28. The ranges partition the users. When a configuration whose ranges have bounds of 32 digits is
    accepted, every user is looked up in a range whose bounds their hash lies between: no hash falls
    between two ranges, and [lookup] does not throw. *)
Theorem lookup_finds_range configs ranges entries userNumber h :
  configToHostRanges configs = Returned ranges -> new_partitioner ranges = Returned entries -> Forall (fun r => exists a b, spans r a b) ranges ->
  hashFunc userNumber = hex 32 h -> 0 <= h < 2 ^ 128 ->
  exists r a b, lookup entries userNumber = Returned (hostIdToAddrs r) /\ r ∈ ranges /\ spans r a b /\ a <= h <= b /\ hostIdToAddrs r <> ∅.
Proof.
  intros Hc Hp Hf Hh Hr. pose proof (accepted_adjoin configs ranges Hc Hf) as Ha. unfold new_partitioner in Hp. destruct (ceiling_spec ranges 0 h Ha ltac:(lia) Hr) as (r & a & b & E & Hin & Hs & Hb).
  destruct (forallb _ ranges) eqn:Ef; [|now destruct ranges]. assert (entries = List.map (fun range => (end_ range, range)) ranges) as -> by (destruct ranges; [discriminate|congruence]).
  exists r, a, b. unfold lookup. rewrite Hh, E. split; [reflexivity|]. split; [exact Hin|]. split; [exact Hs|]. split; [exact Hb|]. rewrite forallb_forall in Ef. apply list_elem_of_In in Hin. specialize (Ef r Hin).
  apply negb_true_iff, bool_decide_eq_false in Ef. exact Ef.
Qed.

End Partitioner.
End HostRanges.
