(* ===== verification/RequestQueue.v ===== *)
(** The queues of the Java service, src/service/src/main/java/org/whispersystems/contactdiscovery/requests:
    requests wait in a queue for each enclave until a thread takes a batch of them. *)
From S2P Require Import Prelude Client Java.
From Stdlib Require Import String ZArith List Lia Bool.
Import Java.

Module RequestQueue.

(** entities/DiscoveryRequest.java: what the client sends, with its context. *)
Record DiscoveryRequest : Type := { body : Client.DiscoveryRequest; context : string }.
Definition getAddressCount (r : DiscoveryRequest) : Z := Client.addressCount (body r).

(** The response is a future, known by its number. *)
Record PendingRequest : Type := { request : DiscoveryRequest; response : nat }.
Definition count (r : PendingRequest) : Z := getAddressCount (request r).

(** * PendingRequestQueue *)

Record PendingRequestQueue : Type := { queue : list PendingRequest; addressCount : Z; lastGet : Z }.
Definition PendingRequestQueue_new : PendingRequestQueue := {| queue := []; addressCount := 0; lastGet := 0 |}.

Definition put (now : Z) (pendingRequest : PendingRequest) (q : PendingRequestQueue) : PendingRequestQueue :=
  {| queue := queue q ++ [pendingRequest]; addressCount := int (addressCount q + count pendingRequest);
     lastGet := if lastGet q =? 0 then now else lastGet q |}.

(** The second loop of [get]: what it adds to the results, the rest of the queue and the addresses
    that are left. *)
Fixpoint get_loop (maxAddressCount : Z) (queue : list PendingRequest) (resultAddressCount addressCount : Z)
  : list PendingRequest * list PendingRequest * Z :=
  match queue with
  | [] => ([], [], addressCount)
  | request :: queue' =>
      if int (count request + resultAddressCount) <=? maxAddressCount then
        let '(results, rest, addressCount) :=
          get_loop maxAddressCount queue' (int (resultAddressCount + count request)) (int (addressCount - count request)) in
        (request :: results, rest, addressCount)
      else ([], queue, addressCount)
  end.

(** [None]: the thread waits for the queue not to be empty. *)
Definition get (now maxAddressCount : Z) (q : PendingRequestQueue) : option (list PendingRequest * PendingRequestQueue) :=
  match queue q with
  | [] => None
  | first :: queue' =>
      let '(results, rest, addressCount) := get_loop maxAddressCount queue' (int (count first)) (int (addressCount q - count first)) in
      Some (first :: results, {| queue := rest; addressCount := addressCount; lastGet := now |})
  end.

Definition getPendingAddresses (q : PendingRequestQueue) : Z := addressCount q.
Definition isEmpty (q : PendingRequestQueue) : bool := addressCount q <=? 0.
Definition getElapsedTimeMillis (currentTime : Z) (q : PendingRequestQueue) : Z := long (currentTime - lastGet q).

(** The requests whose response is completed with an exception, and the count that is returned. *)
Definition flush (q : PendingRequestQueue) : list PendingRequest * Z * PendingRequestQueue :=
  (queue q, addressCount q, {| queue := []; addressCount := 0; lastGet := 0 |}).

(** * PendingRequestQueueSet *)

Definition MAX_WAIT : Z := 7 * 1000.

(** The map from enclaves to queues, as the list of its entries, and [maxWait]. *)
Record PendingRequestQueueSet : Type := { queues : list (string * PendingRequestQueue); maxWait : Z }.

Fixpoint find_queue (enclaveId : string) (l : list (string * PendingRequestQueue)) : option PendingRequestQueue :=
  match l with
  | [] => None
  | (k, q) :: l => if String.eqb k enclaveId then Some q else find_queue enclaveId l
  end.

Definition set_queue (enclaveId : string) (q : PendingRequestQueue) (l : list (string * PendingRequestQueue)) : list (string * PendingRequestQueue) :=
  map (fun e => if String.eqb (fst e) enclaveId then (fst e, q) else e) l.

Definition with_queues (l : list (string * PendingRequestQueue)) (s : PendingRequestQueueSet) : PendingRequestQueueSet :=
  {| queues := l; maxWait := maxWait s |}.

(** [None]: NoSuchEnclaveException. *)
Definition set_put (now : Z) (enclaveId : string) (pendingRequest : PendingRequest) (s : PendingRequestQueueSet) : option PendingRequestQueueSet :=
  match find_queue enclaveId (queues s) with
  | None => None
  | Some q => Some (with_queues (set_queue enclaveId (put now pendingRequest q) (queues s)) s)
  end.

(** One round of the loop of [get] on the shuffled entries: the entry that is chosen, if one is. *)
Definition choose (entries : list (string * PendingRequestQueue)) (maxWait currentTime maxAddressCount : Z) : option (string * PendingRequestQueue) :=
  let elapsed e := getElapsedTimeMillis currentTime (snd e) in
  let pending e := getPendingAddresses (snd e) in
  let oldestQueue :=
    reduce (fun oldest candidate => if elapsed candidate <? elapsed oldest then oldest else candidate)
      (filter (fun e => maxWait <? elapsed e) (filter (fun e => negb (isEmpty (snd e))) entries)) in
  match oldestQueue with
  | Some e => Some e
  | None =>
      let batchSizeReadyQueue := find (fun e => maxAddressCount <=? pending e) entries in
      match batchSizeReadyQueue with
      | Some e => Some e
      | None =>
          reduce (fun firstQueue secondQueue => if pending secondQueue <? pending firstQueue then firstQueue else secondQueue)
            (filter (fun e => negb (isEmpty (snd e))) entries)
      end
  end.

(** [get]: it returns, it waits to be notified, or it waits in a queue with the set locked. *)
Inductive got : Type := Got (enclaveId : string) (requests : list PendingRequest) (s : PendingRequestQueueSet) | Waits | Stuck.

Definition set_get (entries : list (string * PendingRequestQueue)) (currentTime now maxAddressCount : Z) (s : PendingRequestQueueSet) : got :=
  match choose entries (maxWait s) currentTime maxAddressCount with
  | None => Waits
  | Some (enclaveId, q) =>
      match get now maxAddressCount q with
      | None => Stuck
      | Some (requests, q) => Got enclaveId requests (with_queues (set_queue enclaveId q (queues s)) s)
      end
  end.

(** The requests that are flushed, with the enclave they were for, and the count that is returned. *)
Definition flushQueues (s : PendingRequestQueueSet) : list (string * PendingRequest) * Z * PendingRequestQueueSet :=
  (flat_map (fun e => map (pair (fst e)) (fst (fst (flush (snd e))))) (queues s),
   fold_left (fun subtotal e => int (subtotal + snd (fst (flush (snd e))))) (queues s) 0,
   with_queues (map (fun e => (fst e, snd (flush (snd e)))) (queues s)) s).

End RequestQueue.
