(* ===== verification/RequestQueueSpec.v ===== *)
(** What the queues of the service promise: no request is lost, handed out twice or overtaken, a batch
    is as large as it may be, and no enclave is left waiting. *)
From S2P Require Import Prelude Client Java RequestQueue.
From Stdlib Require Import String ZArith List Lia Bool Permutation.
Import Java RequestQueue.

Module RequestQueueSpec.

Definition total (l : list PendingRequest) : Z := fold_right (fun r n => count r + n) 0 l.

(** Requests have at least one address ([@Min(1)] of DiscoveryRequest.java), and the addresses in a
    queue are counted without overflow. *)
Record queue_ok (q : PendingRequestQueue) : Prop := {
  qo_counts : Forall (fun r => 1 <= count r) (queue q);
  qo_total : total (queue q) < 2 ^ 31;
  qo_count : addressCount q = total (queue q) }.

(** * A queue *)

Lemma total_concat l1 l2 : total (l1 ++ l2) = total l1 + total l2.
Proof. induction l1 as [|r l1 IH]; cbn [app total fold_right]; [reflexivity|]. fold (total (l1 ++ l2)) (total l1). lia. Qed.

Lemma total_length l : Forall (fun r => 1 <= count r) l -> Z.of_nat (length l) <= total l.
Proof. induction 1 as [|r l Hr _ IH]; cbn [length total fold_right]; [lia|]. fold (total l). lia. Qed.

Lemma new_queue_ok : queue_ok PendingRequestQueue_new.
Proof. split; cbn; [constructor|lia|reflexivity]. Qed.

Lemma put_ok now r q : queue_ok q -> 1 <= count r -> total (queue q) + count r < 2 ^ 31 -> queue_ok (put now r q).
Proof.
  intros [Hc Ht Ha] Hr Hs. pose proof (total_length _ Hc). split; cbn [put queue addressCount].
  - apply Forall_app. split; [exact Hc|now repeat constructor].
  - rewrite total_concat. cbn. lia.
  - rewrite Ha, int_small, total_concat by lia. cbn. lia.
Qed.

Lemma get_loop_spec max l : forall res, Forall (fun r => 1 <= count r) l -> 0 <= res -> res + total l < 2 ^ 31 ->
  exists taken rest, get_loop max l res (total l) = (taken, rest, total rest) /\ l = taken ++ rest /\
    (taken = [] \/ res + total taken <= max) /\ match rest with [] => True | r :: _ => max < res + total taken + count r end.
Proof.
  induction l as [|r l IH]; intros res Hl Hr Ht; cbn [get_loop total fold_right] in *.
  - exists [], []. repeat split. now left.
  - fold (total l) in *. apply Forall_cons_iff in Hl as [Hc Hl]. pose proof (total_length _ Hl). rewrite !int_small by lia. replace (count r + total l - count r) with (total l) by lia.
    rewrite (Z.add_comm (count r) res). destruct (Z.leb_spec (res + count r) max) as [H1|H1].
    + destruct (IH (res + count r) Hl ltac:(lia) ltac:(lia)) as (taken & rest & -> & -> & Hm & Hn). exists (r :: taken), rest.
      split; [reflexivity|]. split; [reflexivity|]. cbn [total fold_right]. fold (total taken).
      split; [right; destruct Hm as [->|]; cbn; lia|]. destruct rest; [exact I|lia].
    + exists [], (r :: l). split; [reflexivity|]. split; [reflexivity|]. split; [now left|]. cbn. lia.
Qed.

(** A batch is the front of the queue: its first request and all that fit with it. *)
Record batch_of (max : Z) (q : PendingRequestQueue) (requests : list PendingRequest) (q' : PendingRequestQueue) : Prop := {
  bo_front : queue q = requests ++ queue q';
  bo_some : requests <> [];
  bo_fits : length requests = 1%nat \/ total requests <= max;
  bo_full : match queue q' with [] => True | r :: _ => max < total requests + count r end }.

Lemma get_spec now max q : queue_ok q -> queue q <> [] -> exists requests q', get now max q = Some (requests, q') /\ batch_of max q requests q' /\ queue_ok q'.
Proof.
  intros [Hc Ht Ha] Hn. unfold get. destruct (queue q) as [|first l] eqn:Eq; [easy|]. apply Forall_cons_iff in Hc as [H1 Hc]. pose proof (total_length _ Hc).
  cbn [total fold_right] in Ht, Ha. fold (total l) in Ht, Ha. rewrite !int_small by lia. replace (addressCount q - count first) with (total l) by lia.
  destruct (get_loop_spec max l (count first) Hc ltac:(lia) Ht) as (taken & rest & -> & -> & Hm & Hf). eexists _, _. split; [reflexivity|].
  rewrite total_concat in *. apply Forall_app in Hc as [Hc1 Hc2]. pose proof (total_length _ Hc1). split; split; cbn [queue addressCount]; trivial.
  - easy.
  - destruct Hm as [->|Hm]; [now left|right]. cbn. exact Hm.
  - lia.
Qed.

Lemma isEmpty_spec q : queue_ok q -> isEmpty q = true <-> queue q = [].
Proof.
  intros [Hc _ Ha]. unfold isEmpty. rewrite Ha, Z.leb_le. destruct (queue q) as [|r l]; [split; cbn; [reflexivity|lia]|].
  pose proof (total_length _ Hc). cbn [length] in *. split; [lia|easy].
Qed.

(** * The set *)

Definition set_ok (s : PendingRequestQueueSet) : Prop := NoDup (map fst (queues s)) /\ Forall (fun e => queue_ok (snd e)) (queues s).

Lemma find_queue_in k q l : NoDup (map fst l) -> In (k, q) l -> find_queue k l = Some q.
Proof.
  induction l as [|[k' q'] l IH]; cbn [map In find_queue]; [easy|]. intros Hd [[= -> ->]|Hi]; [now rewrite String.eqb_refl|].
  apply NoDup_cons_iff in Hd as [Hn Hd]. destruct (String.eqb_spec k' k) as [->|_]; [|now apply IH]. destruct Hn. exact (in_map fst _ _ Hi).
Qed.

Lemma find_queue_some k q l : find_queue k l = Some q -> In (k, q) l.
Proof.
  induction l as [|[k' q'] l IH]; cbn [find_queue In]; [easy|]. destruct (String.eqb_spec k' k) as [->|_]; [intros [= ->]; now left|auto].
Qed.

Lemma set_queue_other k q l : find_queue k l = None -> set_queue k q l = l.
Proof.
  induction l as [|[k' q'] l IH]; cbn [set_queue map find_queue fst]; [reflexivity|]. fold (set_queue k q l).
  destruct (String.eqb k' k); [easy|]. intros H. now rewrite IH.
Qed.

Lemma find_set_queue k k' q l : find_queue k' l <> None -> find_queue k (set_queue k' q l) = if String.eqb k' k then Some q else find_queue k l.
Proof.
  induction l as [|[k2 q2] l IH]; cbn [set_queue map find_queue fst]; [easy|]. fold (set_queue k' q l).
  destruct (String.eqb_spec k2 k') as [->|Hn]; cbn [find_queue]; intros H.
  - destruct (String.eqb_spec k' k) as [->|Hn']; [reflexivity|]. destruct (find_queue k' l) eqn:E; [now rewrite IH|now rewrite set_queue_other].
  - destruct (String.eqb_spec k2 k) as [->|_]; [|now apply IH]. now destruct (String.eqb_spec k' k) as [->|].
Qed.

Lemma set_queue_keys k q l : map fst (set_queue k q l) = map fst l.
Proof. unfold set_queue. rewrite map_map. apply map_ext. intros e. now destruct (String.eqb _ _). Qed.

Section Choice.
Context (entries : list (string * PendingRequestQueue)) (wait currentTime max : Z).

Abbreviation elapsed e := (getElapsedTimeMillis currentTime (snd e)).
Abbreviation pending e := (getPendingAddresses (snd e)).
Abbreviation waiting e := (queue (snd e) <> []).

Lemma choose_in e : choose entries wait currentTime max = Some e -> In e entries.
Proof.
  unfold choose. destruct (reduce _ (filter _ _)) as [e'|] eqn:E; [|destruct (find _ entries) as [e'|] eqn:Ef].
  - intros [= <-]. apply (reduce_max (fun e => elapsed e)) in E as [Hi _]. now apply filter_In in Hi as [Hi%filter_In _].
  - intros [= <-]. now apply find_some in Ef.
  - intros H. apply (reduce_max (fun e => pending e)) in H as [Hi%filter_In _]. apply Hi.
Qed.

(** The enclave that has waited longest, if one has waited too long; else one with a full batch; else
    the one with the most addresses. *)
Record fair_choice (e : string * PendingRequestQueue) : Prop := {
  fc_overdue : forall e', In e' entries -> waiting e' -> wait < elapsed e' -> wait < elapsed e /\ elapsed e' <= elapsed e;
  fc_ready : (forall e', In e' entries -> waiting e' -> elapsed e' <= wait) -> forall e', In e' entries -> max <= pending e' -> max <= pending e;
  fc_largest : (forall e', In e' entries -> waiting e' -> elapsed e' <= wait /\ pending e' < max) -> forall e', In e' entries -> pending e' <= pending e }.

Hypothesis entries_ok : Forall (fun e => queue_ok (snd e)) entries.
Hypothesis max_pos : 0 < max.

Lemma nonempty_spec e : In e entries -> negb (isEmpty (snd e)) = true <-> waiting e.
Proof.
  intros Hi. pose proof (isEmpty_spec _ (proj1 (Forall_forall _ _) entries_ok e Hi)). destruct (isEmpty (snd e)); cbn; split; intros; intuition congruence.
Qed.

Lemma waiting_pending e : In e entries -> waiting e <-> 0 < pending e.
Proof.
  intros Hi. rewrite <- nonempty_spec by exact Hi. unfold isEmpty, getPendingAddresses. destruct (Z.leb_spec (addressCount (snd e)) 0); cbn; split; intros; lia || easy.
Qed.

Lemma overdue_in e : In e (filter (fun e => wait <? elapsed e) (filter (fun e => negb (isEmpty (snd e))) entries)) <->
  In e entries /\ waiting e /\ wait < elapsed e.
Proof. rewrite !filter_In, Z.ltb_lt. split; [intros [[Hi Hw] He]|intros (Hi & Hw & He)]; repeat split; trivial; now apply nonempty_spec. Qed.

Lemma choose_fair e : choose entries wait currentTime max = Some e -> waiting e /\ fair_choice e.
Proof.
  unfold choose. destruct (reduce _ (filter _ _)) as [e'|] eqn:E; [|destruct (find _ entries) as [e'|] eqn:Ef].
  - intros [= <-]. apply (reduce_max (fun e => elapsed e)) in E as [Hi Hm]. rewrite Forall_forall in Hm. apply overdue_in in Hi as (Hi & Hw & He). split; [exact Hw|]. split.
    + intros e2 H1 H2 H3. split; [exact He|]. apply Hm. now apply overdue_in.
    + intros Hn. specialize (Hn _ Hi Hw). lia.
    + intros Hn. specialize (Hn _ Hi Hw). lia.
  - intros [= <-]. apply find_some in Ef as [Hi He]. apply Z.leb_le in He. assert (Hw : waiting e') by (apply waiting_pending; [exact Hi|lia]). split; [exact Hw|].
    split; [|intros _ e2 _ _; exact He|intros Hn; specialize (Hn _ Hi Hw); lia]. intros e2 H1 H2 H3. exfalso.
    assert (Hin := proj2 (overdue_in e2) (conj H1 (conj H2 H3))). destruct (filter (fun e => wait <? elapsed e) _); [exact Hin|easy].
  - intros H. apply (reduce_max (fun e => pending e)) in H as [Hi Hm]. apply filter_In in Hi as [Hi Hw%nonempty_spec]; [|exact Hi].
    rewrite Forall_forall in Hm. split; [exact Hw|]. split.
    + intros e2 H1 H2 H3. exfalso. assert (Hin := proj2 (overdue_in e2) (conj H1 (conj H2 H3))). destruct (filter (fun e => wait <? elapsed e) _); [exact Hin|easy].
    + intros _ e2 H1 H2. exfalso. apply (find_none _ _ Ef) in H1. apply Z.leb_gt in H1. lia.
    + intros _ e2 H1. destruct (negb (isEmpty (snd e2))) eqn:Ew; [apply Hm; now apply filter_In|]. apply waiting_pending in Hw; [|exact Hi].
      unfold isEmpty in Ew. apply negb_false_iff, Z.leb_le in Ew. unfold getPendingAddresses in *. lia.
Qed.

Lemma choose_none : choose entries wait currentTime max = None -> Forall (fun e => queue (snd e) = []) entries.
Proof.
  unfold choose. destruct (reduce _ (filter (fun e => wait <? _) _)); [easy|]. destruct (find _ entries); [easy|].
  destruct (filter _ entries) as [|e l] eqn:E; [|easy]. intros _. apply Forall_forall. intros e He. destruct (queue (snd e)) eqn:Eq; [reflexivity|].
  assert (Hi : In e (filter (fun e => negb (isEmpty (snd e))) entries)) by (apply filter_In; split; [exact He|]; apply nonempty_spec; [exact He|congruence]).
  rewrite E in Hi. destruct Hi.
Qed.

End Choice.

(** C12. Taking a batch from the queues never gets stuck, waits only when all queues are empty, and
    otherwise takes from an enclave that it chooses fairly the front of its queue: the first request
    with all that fit with it. *)
Theorem get_takes_batch s entries currentTime now max (Hs : set_ok s) (He : Permutation entries (queues s)) (Hm : 0 < max) :
  match set_get entries currentTime now max s with
  | Stuck => False
  | Waits => Forall (fun e => queue (snd e) = []) (queues s)
  | Got k requests s' => set_ok s' /\ exists q q', find_queue k (queues s) = Some q /\
      fair_choice entries (maxWait s) currentTime max (k, q) /\ batch_of max q requests q' /\
      forall k', find_queue k' (queues s') = if String.eqb k k' then Some q' else find_queue k' (queues s)
  end.
Proof.
  destruct Hs as [Hd Hq]. pose proof (Permutation_Forall (Permutation_sym He) Hq) as Hq'. unfold set_get.
  destruct (choose entries _ _ _) as [[k q]|] eqn:Ec.
  - destruct (choose_fair entries _ _ _ Hq' Hm _ Ec) as [Hw Hf]. apply choose_in in Ec. apply (Permutation_in _ He) in Ec.
    pose proof (proj1 (Forall_forall _ _) Hq _ Ec) as Hk. destruct (get_spec now max q Hk Hw) as (rs & q' & -> & Hb & Hok).
    pose proof (find_queue_in _ _ _ Hd Ec) as Ef. split; [split; cbn [queues with_queues]; [now rewrite set_queue_keys|]|].
    + unfold set_queue. apply Forall_map. apply (Forall_impl _ (P := fun e => queue_ok (snd e))); [|exact Hq]. intros e H. now destruct (String.eqb _ _).
    + exists q, q'. split; [exact Ef|]. split; [exact Hf|]. split; [exact Hb|]. intros k'. cbn [queues with_queues]. apply find_set_queue. congruence.
  - apply choose_none in Ec; [|exact Hq']. exact (Permutation_Forall He Ec).
Qed.

(** * The life of a request *)

(** The set with what has entered it and what has left it, each for its enclave. *)
Record history : Type := { set : PendingRequestQueueSet; entered : list (string * PendingRequest); handed : list (string * PendingRequest) }.

Inductive step : history -> history -> Prop :=
| step_put h now k r s : set_put now k r (set h) = Some s ->
    step h {| set := s; entered := entered h ++ [(k, r)]; handed := handed h |}
| step_get h entries currentTime now max k requests s : Permutation entries (queues (set h)) ->
    set_get entries currentTime now max (set h) = Got k requests s ->
    step h {| set := s; entered := entered h; handed := handed h ++ map (pair k) requests |}
| step_flush h : step h {| set := snd (flushQueues (set h)); entered := entered h; handed := handed h ++ fst (fst (flushQueues (set h))) |}.

Inductive lives : history -> Prop :=
| lives_new keys wait : NoDup keys ->
    lives {| set := {| queues := map (fun k => (k, PendingRequestQueue_new)) keys; maxWait := wait |}; entered := []; handed := [] |}
| lives_step h h' : lives h -> step h h' -> lives h'.

(** What of a log is for an enclave. *)
Definition for_enclave (k : string) (l : list (string * PendingRequest)) : list PendingRequest := map snd (filter (fun e => String.eqb (fst e) k) l).

Lemma for_enclave_app k l1 l2 : for_enclave k (l1 ++ l2) = for_enclave k l1 ++ for_enclave k l2.
Proof. unfold for_enclave. now rewrite filter_app, map_app. Qed.

Lemma for_enclave_pair k k' l : for_enclave k (map (pair k') l) = if String.eqb k' k then l else [].
Proof. unfold for_enclave. destruct (String.eqb k' k) eqn:E; induction l as [|r l IH]; cbn [map filter fst]; rewrite ?E; cbn [map snd]; congruence. Qed.

Definition content (k : string) (s : PendingRequestQueueSet) : list PendingRequest := match find_queue k (queues s) with Some q => queue q | None => [] end.

Lemma flush_content k l : NoDup (map fst l) -> for_enclave k (flat_map (fun e => map (pair (fst e)) (queue (snd e))) l) = match find_queue k l with Some q => queue q | None => [] end.
Proof.
  induction l as [|[k' q] l IH]; cbn [map flat_map find_queue fst snd]; [reflexivity|]. intros [Hn Hd]%NoDup_cons_iff.
  rewrite for_enclave_app, for_enclave_pair, IH by exact Hd. destruct (String.eqb_spec k' k) as [->|]; [|reflexivity].
  destruct (find_queue k l) eqn:E; [|apply app_nil_r]. apply find_queue_some in E. destruct Hn. exact (in_map fst _ _ E).
Qed.

Lemma flushed_empty k l : match find_queue k (map (fun e => (fst e, snd (flush (snd e)))) l) with Some q => queue q | None => [] end = [].
Proof. induction l as [|[k' q] l IH]; cbn [map find_queue fst snd flush]; [reflexivity|]. now destruct (String.eqb k' k). Qed.

Lemma get_front now max q requests q' : get now max q = Some (requests, q') -> queue q = requests ++ queue q'.
Proof.
  unfold get. destruct (queue q) as [|first l]; [easy|]. generalize (int (count first)) (int (addressCount q - count first)). revert requests q'.
  assert (H : forall a b, let '(x, y, _) := get_loop max l a b in l = x ++ y).
  { induction l as [|r l IH]; intros a b; cbn [get_loop]; [reflexivity|]. destruct (_ <=? _); [|reflexivity].
    specialize (IH (int (a + count r)) (int (b - count r))). destruct (get_loop _ _ _ _) as [[x y] c]. cbn. now rewrite <- IH. }
  intros rs q2 a b. specialize (H a b). destruct (get_loop _ _ _ _) as [[x y] c]. intros [= <- <-]. cbn. now rewrite <- H.
Qed.

Lemma lives_keys h : lives h -> NoDup (map fst (queues (set h))).
Proof.
  induction 1 as [keys wait Hk|h h' _ IH Hs]; [cbn; now rewrite map_map, map_id|]. destruct Hs as [h now k r s E|h entries t now max k rs s _ E|h]; cbn [set].
  - unfold set_put in E. destruct (find_queue _ _); [|easy]. injection E as <-. cbn. now rewrite set_queue_keys.
  - unfold set_get in E. destruct (choose _ _ _ _) as [[k' q]|]; [|easy]. destruct (get _ _ _) as [[rs' q']|]; [|easy]. injection E as <- <- <-. cbn. now rewrite set_queue_keys.
  - cbn. now rewrite map_map.
Qed.

(** C11. Whatever is put into the queues, taken from them and flushed: what has left the queue of an
    enclave and what is still in it are, in order, the requests that were put there. No request is lost,
    handed out twice or overtaken. *)
Theorem requests_in_order h k (Hl : lives h) : for_enclave k (entered h) = for_enclave k (handed h) ++ content k (set h).
Proof.
  induction Hl as [keys wait Hk|h h' Hl IH Hs].
  - cbn. unfold content. cbn. clear Hk. induction keys as [|k' keys IHk]; cbn; [reflexivity|]. now destruct (String.eqb k' k).
  - pose proof (lives_keys _ Hl) as Hd. destruct Hs as [h now k' r s E|h entries t now max k' rs s Hp E|h]; cbn [set entered handed].
    + unfold set_put in E. destruct (find_queue k' _) as [q|] eqn:Ef; [|easy]. injection E as <-. rewrite for_enclave_app, IH, <- app_assoc. f_equal.
      change [(k', r)] with (map (pair k') [r]). rewrite for_enclave_pair. unfold content. cbn [queues with_queues]. rewrite find_set_queue by congruence.
      destruct (String.eqb_spec k' k) as [->|]; [now rewrite Ef|apply app_nil_r].
    + unfold set_get in E. destruct (choose _ _ _ _) as [[k2 q]|] eqn:Ec; [|easy]. destruct (get _ _ _) as [[rs' q']|] eqn:Eg; [|easy]. injection E as <- <- <-.
      apply choose_in, (Permutation_in _ Hp), (find_queue_in _ _ _ Hd) in Ec. apply get_front in Eg. rewrite for_enclave_app, for_enclave_pair, <- app_assoc, IH. f_equal.
      unfold content. cbn [queues with_queues]. rewrite find_set_queue by congruence. destruct (String.eqb_spec k2 k) as [->|]; [now rewrite Ec|reflexivity].
    + unfold content at 1. cbn [flushQueues fst snd queues with_queues flush]. rewrite for_enclave_app, flush_content, <- app_assoc by exact Hd.
      unfold content. cbn [queues with_queues]. pose proof (flushed_empty k (queues (set h))) as F. cbn [flush snd] in F. rewrite F, app_nil_r. exact IH.
Qed.

End RequestQueueSpec.
