(* ===== verification/RequestBatch.v ===== *)
(** How the Java service has a batch of requests answered:
    src/service/src/main/java/org/whispersystems/contactdiscovery/enclave/SgxEnclave.java (SgxsdBatch)
    and requests/RequestManager.java (processBatch). *)
From S2P Require Import Prelude Client JniEnclave Java RequestQueue.
From Stdlib Require Import String ZArith List Lia Bool.
From stdpp Require Import gmap.
Import Java RequestQueue.
Open Scope Z_scope.
Open Scope java_scope.

Module RequestBatch.

(** SgxsdMessage.java: its arrays. *)
Record SgxsdMessage : Type := { msg_data : list Z; msg_iv : list Z; msg_mac : list Z }.

(** The response that is made of a reply; the client gets its bytes. *)
Definition discovery_response (requestId : list Z) (m : SgxsdMessage) : Client.DiscoveryResponse :=
  {| Client.resp_requestId := requestId; Client.resp_data := JniEnclave.jni_array_to_vec (msg_data m);
     Client.resp_iv := JniEnclave.jni_array_to_vec (msg_iv m); Client.resp_mac := JniEnclave.jni_array_to_vec (msg_mac m) |}.

(** [callArgs] of [add]. *)
Definition callArgs (envelope : SgxsdMessage) (requestId : list Z) (query : SgxsdMessage) (queryPhoneCount : Z) (queryCommitment : list Z)
  : JniEnclave.NativeServerCallArgs :=
  {| JniEnclave.n_query_phone_count := queryPhoneCount;
     JniEnclave.n_query_data := Some (msg_data query); JniEnclave.n_query_iv := Some (msg_iv query); JniEnclave.n_query_mac := Some (msg_mac query);
     JniEnclave.n_query_commitment := Some queryCommitment;
     JniEnclave.n_msg_data := Some (msg_data envelope); JniEnclave.n_msg_iv := Some (msg_iv envelope); JniEnclave.n_msg_mac := Some (msg_mac envelope);
     JniEnclave.n_pending_request_id := Some requestId |}.

(** What [processBatch] makes of a request and its envelope: the array of each of the byte strings. *)
Definition envelopeMessage (env : Client.DiscoveryRequestEnvelope) : SgxsdMessage :=
  {| msg_data := JniEnclave.slice_to_jni_array (Client.env_data env); msg_iv := JniEnclave.slice_to_jni_array (Client.env_iv env);
     msg_mac := JniEnclave.slice_to_jni_array (Client.env_mac env) |}.
Definition queryMessage (req : Client.DiscoveryRequest) : SgxsdMessage :=
  {| msg_data := JniEnclave.slice_to_jni_array (Client.req_data req); msg_iv := JniEnclave.slice_to_jni_array (Client.req_iv req);
     msg_mac := JniEnclave.slice_to_jni_array (Client.req_mac req) |}.
Definition native_args (req : Client.DiscoveryRequest) (env : Client.DiscoveryRequestEnvelope) : JniEnclave.NativeServerCallArgs :=
  callArgs (envelopeMessage env) (JniEnclave.slice_to_jni_array (Client.env_requestId env)) (queryMessage req) (Client.addressCount req)
    (JniEnclave.slice_to_jni_array (Client.commitment req)).

(** What the batch is built on: the enclave with its state, the native methods, which may throw and
    complete futures, known by their number in the batch, and [DirectoryManager.borrow], which gives the
    handle of the directory or throws. *)
Class Natives (W : Type) := {
  enclaveState : W -> option Z;
  killEnclave : W -> W;
  nativeServerStart : Z -> Z -> Z -> W -> option throwable * W;
  nativeServerCall : Z -> Z -> JniEnclave.NativeServerCallArgs -> nat -> W -> option throwable * list (nat * outcome SgxsdMessage) * W;
  nativeServerStop : Z -> Z -> Z -> W -> option throwable * list (nat * outcome SgxsdMessage) * W;
  borrow : W -> outcome Z * W }.

(** A stage that [add] returned: its outcome, and the response, with the id of the request, that
    [processBatch] completes with it. *)
Record stage : Type := { done : option (outcome SgxsdMessage); dependent : option (nat * list Z) }.

Record SgxsdBatch : Type := {
  stateHandle : Z; maxPhoneCount : Z; batchFuture : option throwable; phoneCount : Z; processed : bool; stages : list stage }.

Definition SGX_ERROR_INVALID_PARAMETER : Z := 0x0002.
Definition SGX_ERROR_ENCLAVE_LOST : Z := 0x0004.
Definition SGX_ERROR_INVALID_STATE : Z := 0x0005.
Definition SGX_ERROR_ENCLAVE_CRASHED : Z := 0x1006.
Definition SGX_ERROR_INVALID_ENCLAVE : Z := 0x2001.
Definition SGX_ERROR_INVALID_ENCLAVE_ID : Z := 0x2002.
Definition SGX_ERROR_MAC_MISMATCH : Z := 0x3001.
Definition SGXSD_ERROR_PENDING_REQUEST_NOT_FOUND : Z := 0x10001.
Definition SABD_ERROR_INVALID_REQUEST_SIZE : Z := 0x20001.

Definition convertSgxException (t : throwable) : throwable :=
  match t with
  | SgxException _ code =>
      if code <=? MAX_VALUE then
        let code := int code in
        if code =? SGXSD_ERROR_PENDING_REQUEST_NOT_FOUND then NoSuchPendingRequestException
        else if code =? SABD_ERROR_INVALID_REQUEST_SIZE then InvalidRequestSizeException
        else if code =? SGX_ERROR_MAC_MISMATCH then AEADBadTagException
        else if code =? SGX_ERROR_INVALID_PARAMETER then IllegalArgumentException
        else if code =? SGX_ERROR_INVALID_STATE then IllegalStateException
        else t
      else t
  | _ => t
  end.

(** The function given to [exceptionally] in [add]. *)
Definition converted (c : outcome SgxsdMessage) : outcome SgxsdMessage :=
  match c with Returned m => Returned m | Thrown t => Thrown (convertSgxException t) end.

(** * Futures *)

Abbreviation responses_t := (gmap nat (outcome Client.DiscoveryResponse)).

(** A future completes once. *)
Definition complete_response (r : nat) (o : outcome Client.DiscoveryResponse) (m : responses_t) : responses_t :=
  match m !! r with Some _ => m | None => <[r := o]> m end.

(** [thenApply] and [exceptionally] of [processBatch]. *)
Definition answer (requestId : list Z) (c : outcome SgxsdMessage) : outcome Client.DiscoveryResponse :=
  match c with Returned m => Returned (discovery_response requestId m) | Thrown t => Thrown t end.

Definition notify (d : option (nat * list Z)) (c : outcome SgxsdMessage) (m : responses_t) : responses_t :=
  match d with Some (r, requestId) => complete_response r (answer requestId c) m | None => m end.

Definition settle (c : outcome SgxsdMessage) (s : stage) (m : responses_t) : stage * responses_t :=
  match done s with
  | Some _ => (s, m)
  | None => ({| done := Some c; dependent := dependent s |}, notify (dependent s) c m)
  end.

Fixpoint settle_all (c : outcome SgxsdMessage) (l : list stage) (m : responses_t) : list stage * responses_t :=
  match l with
  | [] => ([], m)
  | s :: l => let '(s, m) := settle c s m in let '(l, m) := settle_all c l m in (s :: l, m)
  end.

(** * The batch *)

Section Batch.
Context {W : Type} {HN : Natives W}.

Record env : Type := { world : W; responses : responses_t; batch : SgxsdBatch }.

Abbreviation M := (M env).

(** [try { m } catch (SgxException ex) { h }]. *)
Definition catch_sgx {A} (m : M A) (h : string -> Z -> M A) : M A :=
  fun e => match m e with (Thrown (SgxException name code), e) => h name code e | r => r end.

(** [try (resource) { m }] with [close] of the resource. *)
Definition try_with {A} (m : M A) (close : M unit) : M A :=
  fun e => match m e with
  | (Returned a, e) => match close e with (Returned _, e) => (Returned a, e) | (Thrown t, e) => (Thrown t, e) end
  | (Thrown t, e) => (Thrown t, snd (close e))
  end.

Definition get_batch : M SgxsdBatch := fun e => (Returned (batch e), e).
Definition put_batch (b : SgxsdBatch) : M unit := fun e => (Returned tt, {| world := world e; responses := responses e; batch := b |}).
Definition on_world {A} (f : W -> outcome A * W) : M A :=
  fun e => let '(r, w) := f (world e) in (r, {| world := w; responses := responses e; batch := batch e |}).

Definition with_stages (l : list stage) (b : SgxsdBatch) : SgxsdBatch :=
  {| stateHandle := stateHandle b; maxPhoneCount := maxPhoneCount b; batchFuture := batchFuture b; phoneCount := phoneCount b;
     processed := processed b; stages := l |}.

(** The future of number [i] completes. *)
Definition complete_future (i : nat) (c : outcome SgxsdMessage) (e : env) : env :=
  match stages (batch e) !! i with
  | None => e
  | Some s =>
      let '(s, m) := settle (converted c) s (responses e) in
      {| world := world e; responses := m; batch := with_stages (<[i := s]> (stages (batch e))) (batch e) |}
  end.

Definition complete_futures (events : list (nat * outcome SgxsdMessage)) (e : env) : env :=
  fold_left (fun e event => complete_future (fst event) (snd event) e) events e.

(** [batchFuture.completeExceptionally]: it also completes the stages that are not complete. *)
Definition completeExceptionally (t : throwable) : M unit :=
  fun e =>
    match batchFuture (batch e) with
    | Some _ => (Returned tt, e)
    | None =>
        let b := batch e in
        let '(l, m) := settle_all (Thrown t) (stages b) (responses e) in
        (Returned tt, {| world := world e; responses := m;
          batch := {| stateHandle := stateHandle b; maxPhoneCount := maxPhoneCount b; batchFuture := Some t; phoneCount := phoneCount b;
                      processed := processed b; stages := l |} |})
    end.

(** [killEnclave] or an exception of another class. *)
Definition handleSgxException (code : Z) : M unit :=
  if code <=? MAX_VALUE then
    let code := int code in
    if code =? SGX_ERROR_INVALID_PARAMETER then throw IllegalArgumentException
    else if code =? SGX_ERROR_INVALID_STATE then throw IllegalStateException
    else if (code =? SGX_ERROR_ENCLAVE_LOST) || (code =? SGX_ERROR_ENCLAVE_CRASHED)
            || (code =? SGX_ERROR_INVALID_ENCLAVE) || (code =? SGX_ERROR_INVALID_ENCLAVE_ID)
    then on_world (fun w => (Returned tt, killEnclave w))
    else ret tt
  else ret tt.

Definition getEnclaveState : M Z :=
  on_world (fun w => (match enclaveState w with Some id => Returned id | None => Thrown (SgxException "enclave_dead" 0) end, w)).

(** The call in the constructor, and the constructor. *)
Definition start_server (threadNo maxBatchSize : Z) : M unit :=
  catch_sgx
    (let! id := getEnclaveState in
     on_world (fun w => let '(t, w) := nativeServerStart id threadNo maxBatchSize w in (match t with None => Returned tt | Some t => Thrown t end, w)))
    (fun name code => handleSgxException code ;; throw (SgxException name code)).
Definition newBatch (threadNo maxBatchSize : Z) : M unit :=
  put_batch {| stateHandle := threadNo; maxPhoneCount := maxBatchSize; batchFuture := None; phoneCount := 0; processed := false; stages := [] |} ;;
  start_server threadNo maxBatchSize.

(** The native call of [add]: what it throws, and the outcome of the future of this call if the call
    completes it. *)
Definition call (args : JniEnclave.NativeServerCallArgs) (future : nat) : M (option throwable * option (outcome SgxsdMessage)) :=
  fun e =>
    match enclaveState (world e) with
    | None => (Returned (Some (SgxException "enclave_dead" 0), None), e)
    | Some id =>
        let '(t, events, w) := nativeServerCall id (stateHandle (batch e)) args future (world e) in
        let own := match List.find (fun event => (fst event =? future)%nat) events with Some (_, c) => Some c | None => None end in
        (Returned (t, own), complete_futures events {| world := w; responses := responses e; batch := batch e |})
    end.

(** The [catch] of [add]: an exception completes the future unless the call has. *)
Definition caught (thrown : option throwable) (own : option (outcome SgxsdMessage)) : M (option (outcome SgxsdMessage)) :=
  match thrown with
  | None => ret own
  | Some (SgxException name code) => handleSgxException code ;; ret (Some (default (Thrown (SgxException name code)) own))
  | Some t => throw t
  end.

Definition add (envelope : SgxsdMessage) (requestId : list Z) (query : SgxsdMessage) (queryPhoneCount : Z) (queryCommitment : list Z) : M nat :=
  let! b := get_batch in
  if processed b then throw IllegalStateException
  else if int (maxPhoneCount b - phoneCount b) <? queryPhoneCount then throw IllegalArgumentException
  else
    let future := length (stages b) in
    let! (thrown, own) := call (callArgs envelope requestId query queryPhoneCount queryCommitment) future in
    let! own := caught thrown own in
    let! b := get_batch in
    let done := match batchFuture b with Some t => Some (Thrown t) | None => option_map converted own end in
    put_batch {| stateHandle := stateHandle b; maxPhoneCount := maxPhoneCount b; batchFuture := batchFuture b;
                 phoneCount := int (phoneCount b + queryPhoneCount); processed := processed b;
                 stages := stages b ++ [{| done := done; dependent := None |}] |} ;;
    ret future.

Definition process (directoryMapNative : option Z) : M unit :=
  let! b := get_batch in
  if processed b then throw IllegalStateException
  else
    put_batch {| stateHandle := stateHandle b; maxPhoneCount := maxPhoneCount b; batchFuture := batchFuture b; phoneCount := phoneCount b;
                 processed := true; stages := stages b |} ;;
    catch_sgx
      (let! id := getEnclaveState in
       fun e =>
         let '(t, events, w) := nativeServerStop id (stateHandle b) (default 0 directoryMapNative) (world e) in
         (match t with None => Returned tt | Some t => Thrown t end,
          complete_futures events {| world := w; responses := responses e; batch := batch e |}))
      (fun name code =>
        completeExceptionally (convertSgxException (SgxException name code)) ;;
        handleSgxException code ;;
        throw (SgxException name code)) ;;
    completeExceptionally (SgxException "reply_missing" 0).

Definition close : M unit :=
  let! b := get_batch in
  if processed b then ret tt
  else completeExceptionally (SgxException "batch_closed" 0) ;; process None.

(** * RequestManager *)

(** [thenApply] and [exceptionally] on the stage of number [i]. *)
Definition then_complete (i : nat) (response : nat) (requestId : list Z) : M unit :=
  fun e =>
    match stages (batch e) !! i with
    | None => (Returned tt, e)
    | Some s =>
        (Returned tt,
         {| world := world e;
            responses := match done s with Some c => complete_response response (answer requestId c) (responses e) | None => responses e end;
            batch := with_stages (<[i := {| done := done s; dependent := Some (response, requestId) |}]> (stages (batch e))) (batch e) |})
    end.

Fixpoint envelope_for (hostId : string) (envelopes : list (string * Client.DiscoveryRequestEnvelope)) : option Client.DiscoveryRequestEnvelope :=
  match envelopes with
  | [] => None
  | (k, e) :: envelopes => if String.eqb k hostId then Some e else envelope_for hostId envelopes
  end.

Context (LOCAL_ENCLAVE_HOST_ID : string).

(** The loop over the requests. *)
Fixpoint add_all (requests : list PendingRequest) : M unit :=
  match requests with
  | [] => ret tt
  | r :: requests =>
      let req := body (request r) in
      match envelope_for LOCAL_ENCLAVE_HOST_ID (Client.envelopes req) with
      | None => throw NullPointerException
      | Some env =>
          let requestId := Client.env_requestId env in
          let! i := add (envelopeMessage env) (JniEnclave.slice_to_jni_array requestId) (queryMessage req) (count r)
                      (JniEnclave.slice_to_jni_array (Client.commitment req)) in
          then_complete i (response r) requestId ;;
          add_all requests
      end
  end.

Definition batch_size (requests : list PendingRequest) : Z := fold_left (fun n r => int (n + count r)) requests 0.

(** The outer [try], and the method. *)
Definition attempt (threadId : Z) (requests : list PendingRequest) : M unit :=
  newBatch threadId (batch_size requests) ;;
  try_with (add_all requests ;; (let! directoryMap := on_world borrow in process (Some directoryMap))) close.
Definition processBatch (threadId : Z) (requests : list PendingRequest) (e : env) : env :=
  match attempt threadId requests e with
  | (Returned _, e) => e
  | (Thrown t, e) =>
      {| world := world e; responses := fold_left (fun m r => complete_response (response r) (Thrown t) m) requests (responses e); batch := batch e |}
  end.

End Batch.

End RequestBatch.
