(* ===== verification/RequestBatchSpec.v ===== *)
(** What the service promises for a batch: every request is answered, and with its own reply. *)
From S2P Require Import Prelude Client JniEnclave Java RequestQueue RequestQueueSpec RequestBatch.
From Stdlib Require Import String ZArith List Lia Bool.
From stdpp Require Import gmap.
Import Java RequestQueue RequestQueueSpec RequestBatch.
Open Scope Z_scope.

Module RequestBatchSpec.

Section Batch.
Context {W : Type} {HN : Natives W} (LOCAL_ENCLAVE_HOST_ID : string).

Abbreviation env := (env (W := W)).
Abbreviation add_all := (add_all LOCAL_ENCLAVE_HOST_ID).
Abbreviation processBatch := (processBatch LOCAL_ENCLAVE_HOST_ID).

(** * Every request is answered *)

(** A stage that is complete has completed its response. *)
Definition notified (e : env) : Prop :=
  forall s r id, s ∈ stages (batch e) -> dependent s = Some (r, id) -> is_Some (done s) -> is_Some (responses e !! r).

(** What no operation undoes. *)
Record grows (e e' : env) : Prop := {
  gr_responses : responses e ⊆ responses e';
  gr_stages : forall i s d, stages (batch e) !! i = Some s -> dependent s = Some d -> exists s', stages (batch e') !! i = Some s' /\ dependent s' = Some d;
  gr_notified : notified e -> notified e' }.

#[global] Instance grows_preorder : PreOrder grows.
Proof.
  split.
  - intros e. split; [reflexivity| |auto]. intros i s d H1 H2. now exists s.
  - intros e1 e2 e3 [A1 B1 C1] [A2 B2 C2]. split; [now transitivity (responses e2)| |auto]. intros i s d H1 H2. destruct (B1 i s d H1 H2) as (s' & H3 & H4). eauto.
Qed.

Definition growing {A} (m : M env A) : Prop := forall e, grows e (snd (m e)).

Lemma complete_response_sub r o m : m ⊆ complete_response r o m.
Proof. unfold complete_response. destruct (m !! r) eqn:E; [reflexivity|]. now apply insert_subseteq. Qed.

Lemma complete_response_some r o m : is_Some (complete_response r o m !! r).
Proof. unfold complete_response. destruct (m !! r) eqn:E; [rewrite E; eauto|]. rewrite lookup_insert_eq. eauto. Qed.

Lemma notify_sub d c m : m ⊆ notify d c m.
Proof. destruct d as [[r id]|]; cbn; [apply complete_response_sub|reflexivity]. Qed.

Lemma settle_spec c s m : let '(s', m') := settle c s m in
  dependent s' = dependent s /\ is_Some (done s') /\ m ⊆ m' /\ (is_Some (done s) \/ forall r id, dependent s = Some (r, id) -> is_Some (m' !! r)).
Proof.
  unfold settle. destruct (done s) as [c'|] eqn:E; [rewrite E; repeat split; eauto; reflexivity|]. cbn. repeat split; eauto; [apply notify_sub|].
  right. intros r id ->. cbn. apply complete_response_some.
Qed.

Lemma is_Some_sub {A} (m m' : gmap nat A) r : m ⊆ m' -> is_Some (m !! r) -> is_Some (m' !! r).
Proof. intros Hs [x Hx]. exists x. now apply (lookup_weaken m). Qed.

Lemma complete_future_grows i c e : grows e (complete_future i c e).
Proof.
  unfold complete_future. destruct (stages (batch e) !! i) as [s|] eqn:Es; [|reflexivity]. pose proof (settle_spec (converted c) s (responses e)) as H.
  destruct (settle _ _ _) as [s' m']. destruct H as (Hd & Hdone & Hm & Hn). split; cbn [responses batch with_stages stages].
  - exact Hm.
  - intros j s2 d H1 H2. destruct (decide (i = j)) as [->|Hne]; [|rewrite list_lookup_insert_ne by exact Hne; eauto].
    rewrite list_lookup_insert_eq by (now apply lookup_lt_Some in Es). replace s2 with s in * by congruence. exists s'. split; [reflexivity|congruence].
  - intros Hno s2 r id Hi H1 H2. cbn in *. apply list_elem_of_lookup in Hi as [j Hj]. destruct (decide (i = j)) as [->|Hne].
    + rewrite list_lookup_insert_eq in Hj by (now apply lookup_lt_Some in Es). injection Hj as <-. rewrite Hd in H1. destruct Hn as [Hn|Hn]; [|exact (Hn _ _ H1)].
      apply (is_Some_sub _ _ _ Hm). apply (Hno s r id); trivial. now apply list_elem_of_lookup_2 in Es.
    + rewrite list_lookup_insert_ne in Hj by exact Hne. apply (is_Some_sub _ _ _ Hm). apply (Hno s2 r id); trivial. now apply list_elem_of_lookup_2 in Hj.
Qed.

Lemma complete_futures_grows events : forall e, grows e (complete_futures events e).
Proof.
  induction events as [|[i c] events IH]; intros e; cbn; [reflexivity|]. etrans; [apply complete_future_grows|apply IH].
Qed.

Lemma settle_all_spec c l : forall m, let '(l', m') := settle_all c l m in
  length l' = length l /\ m ⊆ m' /\
  forall i s, l !! i = Some s -> exists s', l' !! i = Some s' /\ dependent s' = dependent s /\ is_Some (done s') /\
    (is_Some (done s) \/ forall r id, dependent s = Some (r, id) -> is_Some (m' !! r)).
Proof.
  induction l as [|s l IH]; intros m; cbn [settle_all]; [repeat split; [reflexivity|intros i s; now rewrite lookup_nil]|].
  pose proof (settle_spec c s m) as H. destruct (settle c s m) as [s1 m1]. destruct H as (H1 & H2 & H3 & H4). specialize (IH m1).
  destruct (settle_all c l m1) as [l2 m2]. destruct IH as (IL & IM & IS). split; [cbn; congruence|]. split; [now transitivity m1|].
  intros [|i] s2; cbn; [|apply IS]. intros [= <-]. exists s1. repeat split; trivial. destruct H4 as [H4|H4]; [now left|right]. intros r id Hd. apply (is_Some_sub _ _ _ IM). eauto.
Qed.

(** ** The operations *)

Lemma ret_growing {A} (a : A) : growing (ret (S := env) a).
Proof. intros e. reflexivity. Qed.

Lemma throw_growing {A} t : growing (throw (S := env) (A := A) t).
Proof. intros e. reflexivity. Qed.

Lemma bind_growing {A B} (m : M env A) (k : A -> M env B) : growing m -> (forall a, growing (k a)) -> growing (bind m k).
Proof. intros Hm Hk e. unfold bind. specialize (Hm e). destruct (m e) as [[a|t] e1]; cbn in *; [|exact Hm]. etrans; [exact Hm|apply Hk]. Qed.

Lemma catch_growing {A} (m : M env A) h : growing m -> (forall n c, growing (h n c)) -> growing (catch_sgx m h).
Proof.
  intros Hm Hh e. unfold catch_sgx. specialize (Hm e). destruct (m e) as [[a|[]] e1]; cbn in *; trivial. etrans; [exact Hm|apply Hh].
Qed.

Lemma get_batch_growing : growing get_batch.
Proof. intros e. reflexivity. Qed.

Lemma on_world_growing {A} (f : W -> outcome A * W) : growing (on_world f).
Proof. intros e. unfold on_world. destruct (f (world e)) as [r w]. split; cbn; [reflexivity| |auto]. eauto. Qed.

Lemma completeExceptionally_growing t : growing (completeExceptionally t).
Proof.
  intros e. unfold completeExceptionally. destruct (batchFuture (batch e)); [reflexivity|]. pose proof (settle_all_spec (Thrown t) (stages (batch e)) (responses e)) as H.
  destruct (settle_all _ _ _) as [l' m']. destruct H as (HL & HM & HS). split; cbn.
  - exact HM.
  - intros i s d H1 H2. destruct (HS i s H1) as (s' & H3 & H4 & _). exists s'. split; [exact H3|congruence].
  - intros Hno s' r id Hi H1 H2. cbn in *. apply list_elem_of_lookup in Hi as [i Hi]. destruct (lookup_lt_is_Some_2 (stages (batch e)) i) as [s Hs].
    { rewrite <- HL. now apply lookup_lt_Some in Hi. } destruct (HS i s Hs) as (s2 & H3 & H4 & H5 & H6). replace s2 with s' in * by congruence. rewrite H4 in H1.
    destruct H6 as [H6|H6]; [|eauto]. apply (is_Some_sub _ _ _ HM). apply (Hno s r id); trivial. now apply list_elem_of_lookup_2 in Hs.
Qed.

Lemma handle_growing code : growing (handleSgxException code).
Proof.
  unfold handleSgxException. destruct (_ <=? _); [|apply ret_growing]. destruct (_ =? _); [apply throw_growing|]. destruct (_ =? _); [apply throw_growing|].
  destruct (_ || _); [apply on_world_growing|apply ret_growing].
Qed.

Lemma call_growing args future : growing (call args future).
Proof.
  intros e. unfold call. destruct (enclaveState (world e)); [|reflexivity]. destruct (nativeServerCall _ _ _ _ _) as [[t events] w]. cbn [snd].
  etrans; [|apply complete_futures_grows]. split; cbn; eauto.
Qed.

(** The same stages, or more of them. *)
Lemma put_batch_grows b e : (exists l, stages b = stages (batch e) ++ l /\ Forall (fun s => dependent s = None) l) -> grows e (snd (put_batch b e)).
Proof.
  intros (l & E & Hl). split; cbn; [reflexivity| |].
  - intros i s d H1 H2. exists s. split; [|exact H2]. rewrite E, lookup_app_l by (now apply lookup_lt_Some in H1). exact H1.
  - intros Hno s r id Hi H1 H2. cbn in *. rewrite E in Hi. apply elem_of_app in Hi as [Hi|Hi]; [now apply (Hno s r id)|].
    rewrite Forall_forall in Hl. rewrite (Hl _ Hi) in H1. easy.
Qed.

Lemma complete_futures_length events : forall e : env, length (stages (batch (complete_futures events e))) = length (stages (batch e)).
Proof.
  induction events as [|[i c] events IH]; intros e; [reflexivity|]. change (complete_futures ((i, c) :: events) e) with (complete_futures events (complete_future i c e)).
  rewrite IH. unfold complete_future. destruct (stages (batch e) !! i); [|reflexivity].
  destruct (settle _ _ _). cbn. apply length_insert.
Qed.

Lemma handle_batch code (e : env) : batch (snd (handleSgxException code e)) = batch e.
Proof.
  unfold handleSgxException. destruct (_ <=? _); [|reflexivity]. destruct (_ =? _); [reflexivity|]. destruct (_ =? _); [reflexivity|]. now destruct (_ || _).
Qed.

Lemma caught_spec thrown own (e : env) : grows e (snd (caught thrown own e)) /\ batch (snd (caught thrown own e)) = batch e.
Proof.
  destruct thrown as [t|]; [|now split]. destruct t; try now split. unfold caught, bind. pose proof (handle_growing code e) as Gh. pose proof (handle_batch code e) as Bh.
  destruct (handleSgxException code e) as [[]]; now split.
Qed.

Lemma batch_add_spec envelope id query n commitment (e : env) : let '(r, e') := add envelope id query n commitment e in grows e e' /\
  match r with Returned i => exists s, stages (batch e') !! i = Some s /\ dependent s = None | Thrown _ => True end.
Proof.
  unfold add, bind at 1. cbn [get_batch]. destruct (processed (batch e)); [now split|]. destruct (_ <? n); [now split|].
  set (future := length (stages (batch e))). unfold bind at 1. pose proof (call_growing (callArgs envelope id query n commitment) future e) as G.
  assert (L : length (stages (batch (snd (call (callArgs envelope id query n commitment) future e)))) = future).
  { unfold call. destruct (enclaveState (world e)); [|reflexivity]. destruct (nativeServerCall _ _ _ _ _) as [[t events] w]. cbn. apply complete_futures_length. }
  destruct (call _ future e) as [[[thrown own]|t] e1] eqn:Ec; cbn [snd] in *; [|now split]. unfold bind at 1.
  destruct (caught_spec thrown own e1) as [G2 B2]. destruct (caught thrown own e1) as [[own'|t] e2]; cbn [snd] in *; [|split; [now transitivity e1|exact I]].
  unfold bind at 1. cbn [get_batch]. unfold bind at 1. cbn [put_batch ret fst snd]. split.
  - transitivity e1; [exact G|]. transitivity e2; [exact G2|]. apply (put_batch_grows _ e2). cbn [stages]. eexists. split; [reflexivity|]. now repeat constructor.
  - cbn [batch stages]. rewrite B2. eexists. rewrite list_lookup_middle by (symmetry; exact L). now split.
Qed.

Lemma then_complete_spec i r id (e : env) s : stages (batch e) !! i = Some s -> dependent s = None -> let e' := snd (then_complete i r id e) in
  fst (then_complete i r id e) = Returned tt /\ grows e e' /\ exists s', stages (batch e') !! i = Some s' /\ dependent s' = Some (r, id).
Proof.
  intros Hs Hd. unfold then_complete. rewrite Hs. cbn. split; [reflexivity|]. assert (Hl := lookup_lt_Some _ _ _ Hs). split; [split; cbn|].
  - destruct (done s); [apply complete_response_sub|reflexivity].
  - intros j s2 d H1 H2. destruct (decide (i = j)) as [->|Hne]; [congruence|]. rewrite list_lookup_insert_ne by exact Hne. eauto.
  - intros Hno s2 r2 id2 Hi H1 H2. cbn in *. apply list_elem_of_lookup in Hi as [j Hj]. destruct (decide (i = j)) as [->|Hne].
    + rewrite list_lookup_insert_eq in Hj by exact Hl. injection Hj as <-. cbn in *. injection H1 as <- <-. destruct H2 as [c ->]. apply complete_response_some.
    + rewrite list_lookup_insert_ne in Hj by exact Hne. apply list_elem_of_lookup_2 in Hj. specialize (Hno _ _ _ Hj H1 H2).
      destruct (done s); [|exact Hno]. apply (is_Some_sub _ _ _ (complete_response_sub _ _ _) Hno).
  - rewrite list_lookup_insert_eq by exact Hl. now eexists.
Qed.

(** Some stage completes the response of a request. *)
Definition attended (e : env) (r : PendingRequest) : Prop := exists s id, s ∈ stages (batch e) /\ dependent s = Some (response r, id).

Lemma attended_grows e e' r : grows e e' -> attended e r -> attended e' r.
Proof. intros G (s & id & [i Hi]%list_elem_of_lookup & Hd). destruct (gr_stages _ _ G i s _ Hi Hd) as (s' & Hi' & Hd'). exists s', id. split; [now apply list_elem_of_lookup_2 in Hi'|exact Hd']. Qed.

Lemma add_all_spec requests : forall e : env, let '(r, e') := add_all requests e in grows e e' /\
  match r with Returned _ => Forall (attended e') requests | Thrown _ => True end.
Proof.
  induction requests as [|r requests IH]; intros e; cbn [RequestBatch.add_all]; [split; [reflexivity|constructor]|].
  destruct (envelope_for _ _) as [env|]; [|now split]. unfold bind at 1.
  match goal with |- context [add ?a ?b ?c ?d ?f e] => pose proof (batch_add_spec a b c d f e) as Ha; destruct (add a b c d f e) as [[i|t] e1] end; [|now split].
  destruct Ha as [Ga (s & Hs & Hd)]. unfold bind at 1. destruct (then_complete_spec i (response r) (Client.env_requestId env) e1 s Hs Hd) as (E & G & s' & Hs' & Hd').
  destruct (then_complete _ _ _ e1) as [u e2]. cbn [fst snd] in *. subst u. specialize (IH e2). destruct (add_all requests e2) as [o e3]. destruct IH as [G3 IH].
  split; [transitivity e1; [exact Ga|]; transitivity e2; [exact G|exact G3]|]. destruct o; [|exact I]. constructor; [|exact IH].
  apply (attended_grows e2); [exact G3|]. exists s', (Client.env_requestId env). split; [now apply list_elem_of_lookup_2 in Hs'|exact Hd'].
Qed.

(** ** The batch as a whole *)

Abbreviation future_of e := (batchFuture (batch e)).

Lemma complete_futures_future events : forall e : env, future_of (complete_futures events e) = future_of e.
Proof.
  induction events as [|[i c] events IH]; intros e; [reflexivity|]. change (complete_futures ((i, c) :: events) e) with (complete_futures events (complete_future i c e)).
  rewrite IH. unfold complete_future. destruct (stages (batch e) !! i); [|reflexivity]. now destruct (settle _ _ _).
Qed.

Lemma add_future envelope id query n commitment (e : env) : future_of (snd (add envelope id query n commitment e)) = future_of e.
Proof.
  unfold add, bind at 1. cbn [get_batch]. destruct (processed (batch e)); [reflexivity|]. destruct (_ <? n); [reflexivity|]. unfold bind at 1.
  set (future := length (stages (batch e))). assert (L : future_of (snd (call (callArgs envelope id query n commitment) future e)) = future_of e).
  { unfold call. destruct (enclaveState (world e)); [|reflexivity]. destruct (nativeServerCall _ _ _ _ _) as [[t events] w]. cbn [snd]. now rewrite complete_futures_future. }
  destruct (call _ future e) as [[[thrown own]|t] e1]; cbn [snd] in *; [|exact L]. unfold bind at 1. destruct (caught_spec thrown own e1) as [_ B].
  destruct (caught thrown own e1) as [[own'|t] e2]; cbn [snd] in *; [|now rewrite B]. cbn. now rewrite B.
Qed.

Lemma add_all_future requests : forall e : env, future_of (snd (add_all requests e)) = future_of e.
Proof.
  induction requests as [|r requests IH]; intros e; cbn [RequestBatch.add_all]; [reflexivity|]. destruct (envelope_for _ _) as [env|]; [|reflexivity]. unfold bind at 1.
  match goal with |- context [add ?a ?b ?c ?d ?f e] => pose proof (add_future a b c d f e) as Ha; destruct (add a b c d f e) as [[i|t] e1] end; cbn [snd] in Ha; [|exact Ha].
  unfold bind at 1, then_complete. destruct (stages (batch e1) !! i); rewrite IH; exact Ha.
Qed.

Lemma all_done t (e : env) : future_of e = None -> Forall (fun s => is_Some (done s)) (stages (batch (snd (completeExceptionally t e)))).
Proof.
  intros E. unfold completeExceptionally. rewrite E. pose proof (settle_all_spec (Thrown t) (stages (batch e)) (responses e)) as H.
  destruct (settle_all _ _ _) as [l m]. destruct H as (HL & _ & HS). cbn. apply Forall_lookup. intros i s' Hi.
  destruct (lookup_lt_is_Some_2 (stages (batch e)) i) as [s Hs]; [rewrite <- HL; now apply lookup_lt_Some in Hi|].
  destruct (HS i s Hs) as (s2 & H1 & _ & H2 & _). congruence.
Qed.

(** The call that stops the server. *)
Definition stop (handle : Z) (directoryMapNative : option Z) (id : Z) : M env unit :=
  fun e : env =>
    let '(t, events, w) := nativeServerStop id handle (default 0 directoryMapNative) (world e) in
    (match t with None => Returned tt | Some t => Thrown t end, complete_futures events {| world := w; responses := responses e; batch := batch e |}).

Lemma stop_growing handle d id : growing (stop handle d id).
Proof.
  intros e. unfold stop. destruct (nativeServerStop _ _ _ _) as [[t events] w]. cbn [snd]. etrans; [|apply complete_futures_grows]. split; cbn; eauto.
Qed.

Lemma refused_growing name code : growing (bind (completeExceptionally (convertSgxException (SgxException name code)))
  (fun _ => bind (handleSgxException code) (fun _ => throw (A := unit) (SgxException name code)))).
Proof. apply bind_growing; [apply completeExceptionally_growing|]. intros _. apply bind_growing; [apply handle_growing|]. intros _. apply throw_growing. Qed.

Lemma process_growing d : growing (process d).
Proof.
  intros e. unfold process, bind at 1. cbn [get_batch]. destruct (processed (batch e)); [reflexivity|]. unfold bind at 1. cbn [put_batch].
  match goal with |- grows e (snd (bind ?m ?k ?e1)) => transitivity e1; [apply (put_batch_grows _ e); exists []; cbn; split; [now rewrite app_nil_r|constructor]|];
    refine (bind_growing m k _ _ e1); [|intros _; apply completeExceptionally_growing] end.
  apply catch_growing; [|apply refused_growing]. apply bind_growing; [apply on_world_growing|]. exact (stop_growing (stateHandle (batch e)) d).
Qed.

Lemma process_done d e e' : future_of e = None -> process d e = (Returned tt, e') -> Forall (fun s => is_Some (done s)) (stages (batch e')).
Proof.
  intros E. unfold process, bind at 1. cbn [get_batch]. destruct (processed (batch e)); [easy|]. unfold bind at 1. cbn [put_batch]. unfold bind at 1, catch_sgx, bind at 1, getEnclaveState, on_world.
  cbn [world]. destruct (enclaveState (world e)) as [id|]; cbn [fst snd].
  - destruct (nativeServerStop _ _ _ _) as [[[t|] events] w].
    + destruct t; try easy. unfold bind. destruct (completeExceptionally _ _) as [[]]; [|easy]. now destruct (handleSgxException code _) as [[]].
    + intros H. rewrite <- (f_equal snd H : _ = e'). apply all_done. now rewrite complete_futures_future.
  - unfold bind. destruct (completeExceptionally _ _) as [[]]; [|easy]. now destruct (handleSgxException 0 _) as [[]].
Qed.

Lemma close_growing : growing close.
Proof.
  unfold close. apply bind_growing; [apply get_batch_growing|]. intros b. destruct (processed b); [apply ret_growing|].
  apply bind_growing; [apply completeExceptionally_growing|]. intros _. apply process_growing.
Qed.

Lemma start_growing threadNo size : growing (start_server threadNo size).
Proof.
  apply catch_growing.
  - apply bind_growing; [apply on_world_growing|]. intros id. apply on_world_growing.
  - intros n c. apply bind_growing; [apply handle_growing|]. intros _. apply throw_growing.
Qed.

Lemma start_batch threadNo size (e : env) : batch (snd (start_server threadNo size e)) = batch e.
Proof.
  unfold start_server, catch_sgx, bind, getEnclaveState, on_world.
  assert (H : forall n c (e : env), batch (snd (let '(o, e1) := handleSgxException c e in match o with Returned _ => throw (A := unit) (SgxException n c) e1 | Thrown t => (Thrown t, e1) end)) = batch e).
  { intros n c e1. pose proof (handle_batch c e1) as B. now destruct (handleSgxException c e1) as [[]]. }
  destruct (enclaveState (world e)) as [id|]; cbn [fst snd world].
  - destruct (nativeServerStart _ _ _ _) as [[t|] w]; [|reflexivity]. destruct t; try reflexivity. rewrite H. reflexivity.
  - rewrite H. reflexivity.
Qed.

Lemma newBatch_spec threadNo size (e : env) : let e' := snd (newBatch threadNo size e) in responses e ⊆ responses e' /\ notified e' /\ future_of e' = None.
Proof.
  set (e0 := snd (put_batch {| stateHandle := threadNo; maxPhoneCount := size; batchFuture := None; phoneCount := 0; processed := false; stages := [] |} e)).
  change (newBatch threadNo size e) with (start_server threadNo size e0). destruct (start_growing threadNo size e0) as [G1 _ G3]. pose proof (start_batch threadNo size e0) as B. cbv zeta.
  split; [exact G1|]. split; [|now rewrite B]. apply G3. intros s r id Hi. now apply not_elem_of_nil in Hi.
Qed.

Lemma complete_all_sub t requests : forall m : responses_t, m ⊆ fold_left (fun m r => complete_response (response r) (Thrown t) m) requests m.
Proof. induction requests as [|r requests IH]; intros m; cbn; [reflexivity|]. etrans; [apply complete_response_sub|apply IH]. Qed.

Lemma complete_all_some t requests : forall m : responses_t,
  Forall (fun r => is_Some (fold_left (fun m r => complete_response (response r) (Thrown t) m) requests m !! response r)) requests.
Proof.
  induction requests as [|r requests IH]; intros m; cbn; constructor; [|apply IH]. apply (is_Some_sub _ _ _ (complete_all_sub t requests _)). apply complete_response_some.
Qed.

(** The body of the inner [try]. *)
Lemma body_spec requests (e : env) : notified e -> future_of e = None ->
  let '(r, e') := bind (add_all requests) (fun _ => bind (on_world borrow) (fun d => process (Some d))) e in grows e e' /\
  match r with Returned _ => Forall (fun r => is_Some (responses e' !! response r)) requests | Thrown _ => True end.
Proof.
  intros N F. unfold bind at 1. pose proof (add_all_spec requests e) as Ha. pose proof (add_all_future requests e) as Fa.
  destruct (add_all requests e) as [[u2|t] e2]; cbn [snd] in Fa; destruct Ha as [G2 A2]; [|now split].
  unfold bind at 1, on_world. destruct (borrow (world e2)) as [[d|t] w]; set (e3 := {| world := w |}); assert (G3 : grows e2 e3) by (split; cbn; eauto).
  2: { split; [now transitivity e2|exact I]. }
  pose proof (process_growing (Some d) e3) as G4. pose proof (process_done (Some d) e3) as D4. destruct (process (Some d) e3) as [o e4]. cbn [snd] in G4.
  assert (G : grows e e4) by (transitivity e2; [exact G2|]; now transitivity e3). split; [exact G|]. destruct o as [[]|t]; [|exact I].
  specialize (D4 e4 ltac:(cbn; congruence) eq_refl). pose proof (gr_notified _ _ G N) as N4. apply (Forall_impl _ _ _ A2). intros r Hr.
  apply (attended_grows e2 e4) in Hr as (s & id & Hi & Hd); [|now transitivity e3]. apply (N4 s _ id Hi Hd). rewrite Forall_forall in D4. exact (D4 s Hi).
Qed.

Lemma attempt_spec threadId requests (e : env) : let '(r, e') := attempt LOCAL_ENCLAVE_HOST_ID threadId requests e in responses e ⊆ responses e' /\
  match r with Returned _ => Forall (fun r => is_Some (responses e' !! response r)) requests | Thrown _ => True end.
Proof.
  unfold attempt. unfold bind at 1. destruct (newBatch_spec threadId (batch_size requests) e) as (S1 & N1 & F1).
  destruct (newBatch threadId (batch_size requests) e) as [[u|t] e1]; cbn [snd] in *; [|now split].
  unfold try_with. pose proof (body_spec requests e1 N1 F1) as Hb. destruct (bind (add_all requests) _ e1) as [o e2]. destruct Hb as [G2 A2].
  pose proof (close_growing e2) as G3. destruct o as [u2|t]; [|split; [|exact I]; cbn; etrans; [exact S1|]; etrans; [apply G2|apply G3]].
  destruct (close e2) as [o e3]. cbn [snd] in G3. assert (S3 : responses e ⊆ responses e3) by (etrans; [exact S1|]; etrans; [apply G2|apply G3]).
  destruct o; split; trivial. apply (Forall_impl _ _ _ A2). intros r. apply is_Some_sub. apply G3.
Qed.

(** C13. Whatever the enclave and the directory do, and whichever of the calls throw, every request of a
    batch has its response completed when the batch has been processed, and no response that was
    complete before is changed. *)
Theorem batch_settles threadId requests (e : env) :
  Forall (fun r => is_Some (responses (processBatch threadId requests e) !! response r)) requests /\
  responses e ⊆ responses (processBatch threadId requests e).
Proof.
  unfold RequestBatch.processBatch. pose proof (attempt_spec threadId requests e) as H. destruct (attempt _ threadId requests e) as [[u|t] e1]; destruct H as [H1 H2]; [easy|].
  cbn [responses]. split; [apply complete_all_some|]. etrans; [exact H1|apply complete_all_sub].
Qed.

End Batch.

(** * Every request gets its own reply *)

(** What an enclave that serves a batch promises: it accepts or refuses each call, as [verdict] says
    of its arguments, and when it is stopped it completes the future of each call that it accepted with
    the reply to that call. A refusal completes the future, and then throws. *)
Class Serves (W : Type) {HN : Natives W} := {
  pending : W -> list (nat * JniEnclave.NativeServerCallArgs);
  verdict : JniEnclave.NativeServerCallArgs -> option Z;
  reply : JniEnclave.NativeServerCallArgs -> SgxsdMessage;
  start_serves id handle n w : enclaveState w = Some id ->
    exists w', nativeServerStart id handle n w = (None, w') /\ enclaveState w' = Some id /\ pending w' = [];
  call_serves id handle args future w : enclaveState w = Some id -> exists w', enclaveState w' = Some id /\
    match verdict args with
    | None => nativeServerCall id handle args future w = (None, [], w') /\ pending w' = pending w ++ [(future, args)]
    | Some code => pending w' = pending w /\ exists name name',
        nativeServerCall id handle args future w = (Some (SgxException name code), [(future, Thrown (SgxException name' code))], w')
    end;
  stop_serves id handle d w : enclaveState w = Some id -> d <> 0 ->
    exists w', nativeServerStop id handle d w = (None, map (fun c => (c.1, Returned (reply c.2))) (pending w), w');
  borrow_serves w : exists d w', borrow w = (Returned d, w') /\ d <> 0 /\ enclaveState w' = enclaveState w /\ pending w' = pending w }.

(** Codes that neither end the enclave nor are thrown as another exception. *)
Definition harmless (code : Z) : Prop :=
  code <= MAX_VALUE -> Forall (fun c => int code <> c)
    [SGX_ERROR_INVALID_PARAMETER; SGX_ERROR_INVALID_STATE; SGX_ERROR_ENCLAVE_LOST; SGX_ERROR_ENCLAVE_CRASHED; SGX_ERROR_INVALID_ENCLAVE; SGX_ERROR_INVALID_ENCLAVE_ID].

Section Serves.
Context {W : Type} {HN : Natives W} {HS : Serves W} (LOCAL_ENCLAVE_HOST_ID : string).

Abbreviation env := (env (W := W)).
Abbreviation envelope r := (envelope_for LOCAL_ENCLAVE_HOST_ID (Client.envelopes (body (request r)))).
Abbreviation args_of r e := (native_args (body (request r)) e).

Lemma harmless_handled code (e : env) : harmless code -> handleSgxException code e = (Returned tt, e).
Proof.
  intros H. unfold handleSgxException. destruct (Z.leb_spec code MAX_VALUE) as [Hc|]; [|reflexivity]. specialize (H Hc).
  repeat match goal with H : Forall _ (_ :: _) |- _ => apply Forall_cons in H as [? H] end.
  repeat match goal with H : int code <> ?c |- _ => rewrite (proj2 (Z.eqb_neq (int code) c) H); clear H end. reflexivity.
Qed.

(** The answer to a request. *)
Definition answered (r : PendingRequest) (o : option (outcome Client.DiscoveryResponse)) : Prop :=
  match envelope r with
  | None => False
  | Some env =>
      match verdict (args_of r env) with
      | None => o = Some (Returned (discovery_response (Client.env_requestId env) (reply (args_of r env))))
      | Some code => exists name, o = Some (Thrown (convertSgxException (SgxException name code)))
      end
  end.

Definition in_order (r : PendingRequest) : Prop :=
  match envelope r with
  | None => False
  | Some env => match verdict (args_of r env) with None => True | Some code => harmless code end
  end.

(** The stage of a request before the server is stopped. *)
Definition stage_for (r : PendingRequest) (s : stage) : Prop :=
  match envelope r with
  | None => False
  | Some env => dependent s = Some (response r, Client.env_requestId env) /\
      match verdict (args_of r env) with
      | None => done s = None
      | Some code => exists name, done s = Some (Thrown (convertSgxException (SgxException name code)))
      end
  end.

(** The response of a request before the server is stopped. *)
Definition waits (r : PendingRequest) (o : option (outcome Client.DiscoveryResponse)) : Prop :=
  match envelope r with
  | None => False
  | Some env => match verdict (args_of r env) with None => o = None | Some _ => answered r o end
  end.

(** The calls that are accepted, the first request having number [k]. *)
Fixpoint accepted (k : nat) (requests : list PendingRequest) : list (nat * JniEnclave.NativeServerCallArgs) :=
  match requests with
  | [] => []
  | r :: requests =>
      match envelope r with
      | Some env => match verdict (args_of r env) with None => [(k, args_of r env)] | Some _ => [] end
      | None => []
      end ++ accepted (S k) requests
  end.

Lemma accepted_app k l1 l2 : accepted k (l1 ++ l2) = accepted k l1 ++ accepted (k + length l1) l2.
Proof.
  revert k. induction l1 as [|r l1 IH]; intros k; cbn [app accepted length]; [now rewrite Nat.add_0_r|]. rewrite IH, <- app_assoc. now rewrite Nat.add_succ_r.
Qed.

Record adding (id : Z) (all before : list PendingRequest) (e : env) : Prop := {
  ad_alive : enclaveState (world e) = Some id;
  ad_future : batchFuture (batch e) = None;
  ad_open : processed (batch e) = false;
  ad_max : maxPhoneCount (batch e) = total all;
  ad_count : phoneCount (batch e) = total before;
  ad_stages : Forall2 stage_for before (stages (batch e));
  ad_pending : pending (world e) = accepted 0 before;
  ad_waits : Forall (fun r => waits r (responses e !! response r)) before }.

(** What [add] does on an open batch with room for the request. *)
Lemma add_served id envelope requestId query n commitment (e : env) :
  enclaveState (world e) = Some id -> batchFuture (batch e) = None -> processed (batch e) = false -> n <= int (maxPhoneCount (batch e) - phoneCount (batch e)) ->
  let args := callArgs envelope requestId query n commitment in let b := batch e in
  match verdict args with Some code => harmless code | None => True end ->
  exists w' done, enclaveState w' = Some id /\ add envelope requestId query n commitment e = (Returned (length (stages b)), {| world := w'; responses := responses e; batch :=
    {| stateHandle := stateHandle b; maxPhoneCount := maxPhoneCount b; batchFuture := None; phoneCount := int (phoneCount b + n); processed := false;
       stages := stages b ++ [{| done := done; dependent := None |}] |} |}) /\
  match verdict args with
  | None => done = None /\ pending w' = pending (world e) ++ [(length (stages b), args)]
  | Some code => pending w' = pending (world e) /\ exists name, done = Some (Thrown (convertSgxException (SgxException name code)))
  end.
Proof.
  intros Ha Hf Hp Hn args b Hv. unfold add, bind at 1. cbn [get_batch]. rewrite Hp. destruct (Z.ltb_spec (int (maxPhoneCount (batch e) - phoneCount (batch e))) n) as [|_]; [lia|].
  unfold bind at 1, call. fold args. rewrite Ha. destruct (call_serves id (stateHandle (batch e)) args (length (stages (batch e))) (world e) Ha) as (w' & Hw & Hc).
  exists w'. destruct (verdict args) as [code|].
  - destruct Hc as (Hpe & name & name' & ->). cbn [List.find fst]. rewrite Nat.eqb_refl. unfold complete_futures. cbn [fold_left fst snd]. unfold complete_future. cbn [batch].
    rewrite lookup_ge_None_2 by lia. unfold bind at 1, caught, bind at 1. rewrite harmless_handled by exact Hv. cbn. rewrite Hf. eexists. split; [exact Hw|].
    split; [unfold b; rewrite Hp; reflexivity|]. split; [exact Hpe|]. eexists. reflexivity.
  - destruct Hc as [-> Hpe]. cbn. rewrite Hf. eexists. split; [exact Hw|]. split; [unfold b; rewrite Hp; reflexivity|]. now split.
Qed.

Lemma complete_response_new r o (m : responses_t) : m !! r = None -> complete_response r o m = <[r := o]> m.
Proof. intros E. unfold complete_response. now rewrite E. Qed.

Lemma stages_length before l : Forall2 stage_for before l -> length l = length before.
Proof. intros H. symmetry. exact (Forall2_length _ _ _ H). Qed.

Lemma add_one id all before r after (e : env) env : adding id all before e -> all = before ++ r :: after -> Forall (fun r => 1 <= count r) all -> total all < 2 ^ 31 ->
  envelope r = Some env -> in_order r -> responses e !! response r = None -> ~ In (response r) (map response before) ->
  exists e', bind (add (envelopeMessage env) (JniEnclave.slice_to_jni_array (Client.env_requestId env)) (queryMessage (body (request r))) (count r)
                    (JniEnclave.slice_to_jni_array (Client.commitment (body (request r)))))
               (fun i => then_complete i (response r) (Client.env_requestId env)) e = (Returned tt, e') /\
    adding id all (before ++ [r]) e' /\ forall k, k <> response r -> responses e' !! k = responses e !! k.
Proof.
  intros [Ha Hf Ho Hm Hc Hs Hp Hw] Eall Hpos Htot Ee Hr Hnew Hno. unfold in_order in Hr. rewrite Ee in Hr.
  assert (Hb : 1 <= count r /\ 0 <= total before /\ 0 <= total after /\ total all = total before + (count r + total after)).
  { subst all. apply Forall_app in Hpos as [H1 H2]. apply Forall_cons in H2 as [H2 H3]. rewrite total_concat. cbn [total fold_right]. fold (total after).
    pose proof (total_length _ H1). pose proof (total_length _ H3). lia. }
  destruct (add_served id (envelopeMessage env) (JniEnclave.slice_to_jni_array (Client.env_requestId env)) (queryMessage (body (request r))) (count r)
    (JniEnclave.slice_to_jni_array (Client.commitment (body (request r)))) e Ha Hf Ho) as (w' & dn & Hw' & Ead & Hv).
  { rewrite Hm, Hc, int_small; lia. } { exact Hr. }
  change (callArgs _ _ _ _ _) with (args_of r env) in Hv. unfold bind. rewrite Ead. unfold then_complete. cbn [batch stages]. pose proof (stages_length _ _ Hs) as Ls.
  rewrite list_lookup_middle by reflexivity. eexists. split; [reflexivity|]. rewrite insert_app_r_alt, Nat.sub_diag by lia. cbn [list_insert insert done].
  assert (Hw2 : Forall (fun r0 => response r0 <> response r) before) by (apply Forall_forall; intros r0 H0 E0; apply Hno; rewrite <- E0; apply in_map; now apply list_elem_of_In).
  split; [split; cbn [world batch responses with_stages batchFuture processed maxPhoneCount phoneCount stages]; trivial|].
  - rewrite Hc, int_small, total_concat by lia. cbn. lia.
  - apply Forall2_app; [exact Hs|]. constructor; [|constructor]. unfold stage_for. rewrite Ee. split; [reflexivity|]. destruct (verdict _); [destruct Hv as [_ Hv]; exact Hv|now destruct Hv].
  - rewrite accepted_app. cbn [accepted plus]. rewrite Ee, app_nil_r. destruct (verdict _); destruct Hv as [Hv1 Hv2]; [now rewrite app_nil_r, Hv1|now rewrite Hv2, Hp, Ls].
  - apply Forall_app. split.
    + assert (Hw3 := conj Hw Hw2). apply Forall_and in Hw3. apply (Forall_impl _ _ _ Hw3). intros r0 [H1 H2]. destruct dn; [|exact H1]. rewrite complete_response_new, lookup_insert_ne by congruence. exact H1.
    + constructor; [|constructor]. unfold waits, answered. rewrite Ee. destruct (verdict _); [|destruct Hv as [-> _]; exact Hnew].
      destruct Hv as [_ [name ->]]. exists name. rewrite complete_response_new, lookup_insert_eq by exact Hnew. reflexivity.
  - intros k Hk. cbn. destruct dn; [|reflexivity]. rewrite complete_response_new, lookup_insert_ne by congruence. reflexivity.
Qed.

Lemma add_all_served id all after : forall before (e : env), adding id all before e -> all = before ++ after -> Forall (fun r => 1 <= count r) all -> total all < 2 ^ 31 ->
  Forall in_order after -> List.NoDup (map response all) -> Forall (fun r => responses e !! response r = None) after ->
  exists e', add_all LOCAL_ENCLAVE_HOST_ID after e = (Returned tt, e') /\ adding id all all e'.
Proof.
  induction after as [|r after IH]; intros before e Ha Eall Hpos Htot Hio Hd Hn.
  - rewrite app_nil_r in Eall. subst before. now exists e.
  - apply Forall_cons in Hio as [Hr Hio]. apply Forall_cons in Hn as [Hr' Hn]. cbn [add_all]. destruct (envelope r) as [env|] eqn:Ee; [|unfold in_order in Hr; now rewrite Ee in Hr].
    pose proof Hd as Hd'. rewrite Eall, map_app in Hd'. cbn [map] in Hd'. apply NoDup_remove in Hd' as [_ Hd']. rewrite in_app_iff in Hd'.
    destruct (add_one id all before r after e env Ha Eall Hpos Htot Ee Hr Hr' ltac:(tauto)) as (e1 & E1 & Ha1 & Hk).
    destruct (IH (before ++ [r]) e1 Ha1) as (e2 & E2 & Ha2); trivial; [now rewrite <- app_assoc| |].
    + rewrite Forall_forall in Hn |- *. intros r2 H2. rewrite Hk; [now apply Hn|]. intros E. apply Hd'. right. rewrite <- E. apply in_map. now apply list_elem_of_In.
    + exists e2. split; [|exact Ha2]. unfold bind in E1 |- *. destruct (add _ _ _ _ _ e) as [[i|t] e0]; [|easy]. now rewrite E1.
Qed.

(** ** The stop *)

Lemma settle_done c s (m : responses_t) : is_Some (done s) -> settle c s m = (s, m).
Proof. intros [x E]. unfold settle. now rewrite E. Qed.

Lemma settle_all_done c l : Forall (fun s => is_Some (done s)) l -> forall m : responses_t, settle_all c l m = (l, m).
Proof. induction 1 as [|s l Hs _ IH]; intros m; cbn [settle_all]; [reflexivity|]. now rewrite settle_done, IH. Qed.

(** The replies, the first of which is for the stage of number [length before]. *)
Lemma replies_complete requests : forall before l (e : env), stages (batch e) = before ++ l -> Forall2 stage_for requests l ->
  Forall (fun r => waits r (responses e !! response r)) requests -> List.NoDup (map response requests) ->
  exists l' m, complete_futures (map (fun c => (c.1, Returned (reply c.2))) (accepted (length before) requests)) e =
      {| world := world e; responses := m; batch := with_stages (before ++ l') (batch e) |} /\
    Forall (fun s => is_Some (done s)) l' /\ Forall (fun r => answered r (m !! response r)) requests /\
    forall k, ~ In k (map response requests) -> m !! k = responses e !! k.
Proof.
  induction requests as [|r requests IH]; intros before l e El Hs Hw Hd; inversion Hs as [|? s ? l0 Hs1 Hs2]; subst l.
  - exists [], (responses e). cbn [accepted map]. split; [|split; [constructor|split; [constructor|reflexivity]]]. unfold complete_futures, with_stages. cbn. rewrite <- El. now destruct e as [? ? []].
  - apply Forall_cons in Hw as [Hw1 Hw2]. cbn [map] in Hd. apply NoDup_cons_iff in Hd as [Hd1 Hd2]. unfold stage_for in Hs1. unfold waits, answered in Hw1. cbn [accepted]. 
    destruct (envelope r) as [env|] eqn:Ee; [|easy]. destruct Hs1 as [Hs1 Hs3]. destruct (verdict (args_of r env)) as [code|] eqn:Ev.
    + destruct (IH (before ++ [s]) l0 e) as (l' & m & E & H1 & H2 & H3); trivial; [now rewrite <- app_assoc|]. rewrite length_app, Nat.add_1_r, <- app_assoc in E.
      exists (s :: l'), m. split; [exact E|]. split; [constructor; [|exact H1]; destruct Hs3 as [? ->]; eauto|]. split; [constructor; [|exact H2]|].
      * unfold answered. rewrite Ee, Ev, H3 by exact Hd1. exact Hw1.
      * intros k Hk. cbn in Hk. apply H3. tauto.
    + set (a := args_of r env) in *. set (s1 := {| done := Some (Returned (reply a)); dependent := Some (response r, Client.env_requestId env) |}).
      set (e1 := {| world := world e; responses := <[response r := Returned (discovery_response (Client.env_requestId env) (reply a))]> (responses e); batch := with_stages (before ++ s1 :: l0) (batch e) |}).
      assert (E0 : complete_future (length before) (Returned (reply a)) e = e1).
      { unfold complete_future. rewrite El, list_lookup_middle by reflexivity. unfold settle. rewrite Hs3, Hs1. cbn [notify converted answer]. rewrite complete_response_new by exact Hw1.
        rewrite insert_app_r_alt, Nat.sub_diag by lia. reflexivity. }
      destruct (IH (before ++ [s1]) l0 e1) as (l' & m & E & H1 & H2 & H3); trivial; [cbn; now rewrite <- app_assoc| |].
      * rewrite Forall_forall in Hw2 |- *. intros r2 Hr2. cbn [e1 responses]. rewrite lookup_insert_ne; [now apply Hw2|]. intros Eq. apply Hd1. rewrite Eq. apply in_map. now apply list_elem_of_In.
      * rewrite length_app, Nat.add_1_r, <- app_assoc in E. exists (s1 :: l'), m. split; [|split; [|split]].
        -- cbn [map app]. unfold complete_futures in *. cbn [fold_left fst snd]. rewrite E0. exact E.
        -- constructor; [eexists; reflexivity|exact H1].
        -- constructor; [|exact H2]. unfold answered. rewrite Ee. fold a. rewrite Ev, H3 by exact Hd1. cbn [e1 responses]. now rewrite lookup_insert_eq.
        -- intros k Hk. cbn in Hk. rewrite H3 by tauto. cbn [e1 responses]. now rewrite lookup_insert_ne by tauto.
Qed.

Lemma batch_size_total requests : forall n, Forall (fun r => 1 <= count r) requests -> 0 <= n -> n + total requests < 2 ^ 31 ->
  fold_left (fun n r => int (n + count r)) requests n = n + total requests.
Proof.
  induction requests as [|r requests IH]; intros n Hp Hn Ht; cbn [fold_left total fold_right] in *; [lia|]. fold (total requests) in *.
  apply Forall_cons in Hp as [H1 H2]. pose proof (total_length _ H2). rewrite int_small, IH by (trivial; lia). lia.
Qed.

Lemma process_served id all d (e : env) : adding id all all e -> d <> 0 -> List.NoDup (map response all) ->
  exists e', process (Some d) e = (Returned tt, e') /\ processed (batch e') = true /\ Forall (fun r => answered r (responses e' !! response r)) all.
Proof.
  intros [Ha Hf Ho Hm Hc Hs Hp Hw] Hd Hnd. unfold process, bind at 1. cbn [get_batch]. rewrite Ho. unfold bind at 1. cbn [put_batch].
  unfold bind at 1, catch_sgx, bind at 1, getEnclaveState, on_world. cbn [world]. rewrite Ha. cbn [fst snd world]. change (default 0 (Some d)) with d.
  destruct (stop_serves id (stateHandle (batch e)) d (world e) Ha Hd) as (w' & ->). rewrite Hp. set (e1 := {| world := w' |}).
  destruct (replies_complete all [] (stages (batch e)) e1) as (l' & m & E & H1 & H2 & _); trivial. cbn [length] in E. rewrite E.
  unfold completeExceptionally. cbn [batch with_stages batchFuture e1 stages app responses]. rewrite Hf, settle_all_done by exact H1.
  eexists. split; [reflexivity|]. now split.
Qed.


End Serves.
End RequestBatchSpec.
