(* ===== verification/Intake.v ===== *)
(** How a request for discovery gets into a queue: resources/ContactDiscoveryResource.java, the limits that it
    asks first (limits/LeakyBucket.java, limits/RateLimiter.java, phonelimiter/RateLimitServiceClient.java)
    and [submit] of requests/RequestManager.java, which sheds load. *)
From S2P Require Import Prelude Client Java RequestQueue RequestQueueSpec RequestBatch.
From Stdlib Require Import String ZArith List Lia Bool Floats.SpecFloat.
Import Java RequestQueue RequestQueueSpec.
Open Scope Z_scope.

Module Intake.

(** * Doubles *)

Definition double (n : Z) : spec_float := binary_normalize 53 1024 n 0 false.
Definition dadd : spec_float -> spec_float -> spec_float := SFadd 53 1024.
Definition dmul : spec_float -> spec_float -> spec_float := SFmul 53 1024.
Definition ddiv : spec_float -> spec_float -> spec_float := SFdiv 53 1024.

(** [Math.max] on numbers that are not zeros of different signs. *)
Definition dmax (x y : spec_float) : spec_float :=
  match x, y with S754_nan, _ => S754_nan | _, S754_nan => S754_nan | _, _ => if SFltb x y then y else x end.

(** [(int) Math.floor(x)] and [(long) x]: the nearest number where there is none, 0 for NaN. *)
Definition floor_int (x : spec_float) : Z :=
  match x with
  | S754_nan | S754_zero _ => 0
  | S754_infinity s => if s then - 2 ^ 31 else MAX_VALUE
  | S754_finite s m e => Z.max (- 2 ^ 31) (Z.min MAX_VALUE (Z.shiftl (if s then Zneg m else Zpos m) e))
  end.
Definition to_long (x : spec_float) : Z :=
  match x with
  | S754_nan | S754_zero _ => 0
  | S754_infinity s => if s then - 2 ^ 63 else 2 ^ 63 - 1
  | S754_finite s m e => let n := Z.min (2 ^ 63 - 1) (Z.shiftl (Zpos m) e) in if s then - Z.min (2 ^ 63) (Z.shiftl (Zpos m) e) else n
  end.

(** * The leaky bucket *)

Record LeakyBucket : Type := { bucketSize : Z; leakRatePerMillis : spec_float; spaceRemaining : Z; lastUpdateTimeMillis : Z }.
Definition new_LeakyBucket (bucketSize : Z) (leakRatePerMillis : spec_float) (now : Z) : LeakyBucket :=
  {| bucketSize := bucketSize; leakRatePerMillis := leakRatePerMillis; spaceRemaining := bucketSize; lastUpdateTimeMillis := now |}.

Definition getUpdatedSpaceRemaining (currentTimeMillis : Z) (b : LeakyBucket) : Z :=
  let elapsedTime := long (currentTimeMillis - lastUpdateTimeMillis b) in
  Z.min (bucketSize b) (floor_int (dadd (double (spaceRemaining b)) (dmul (double elapsedTime) (leakRatePerMillis b)))).

Definition bucket_add (currentTimeMillis amount : Z) (b : LeakyBucket) : bool * LeakyBucket :=
  let spaceRemaining := getUpdatedSpaceRemaining currentTimeMillis b in
  let with_space n := {| bucketSize := bucketSize b; leakRatePerMillis := leakRatePerMillis b; spaceRemaining := n; lastUpdateTimeMillis := currentTimeMillis |} in
  if amount <=? spaceRemaining then (true, with_space (int (spaceRemaining - amount))) else (false, with_space spaceRemaining).

(** A limiter, and [validate] on what Redis has for the user: what is thrown, and what it has then. *)
Record RateLimiter : Type := { limiter_bucketSize : Z; limiter_leakRatePerMillis : spec_float }.
Definition validate (limiter : RateLimiter) (now amount : Z) (stored : option LeakyBucket) : outcome unit * option LeakyBucket :=
  let bucket := match stored with Some b => b | None => new_LeakyBucket (limiter_bucketSize limiter) (limiter_leakRatePerMillis limiter) now end in
  let '(added, bucket) := bucket_add now amount bucket in
  if added then (Returned tt, Some bucket) else (Thrown RateLimitExceededException, stored).

(** * The rate limit service *)

(** What the request to a host comes to: a status, or an exception such as a timeout. *)
Definition handleDiscoveryAllowedResponse (response : outcome Z) : outcome bool :=
  match response with
  | Thrown t => Thrown t
  | Returned statusCode => if 500 <=? statusCode then Thrown (OtherThrowable "RuntimeException") else Returned (statusCode =? 200)
  end.

(** [firstNormalOf] on the stages in the order in which they complete. *)
Fixpoint firstNormalOf {T} (stages : list (outcome T)) : outcome T :=
  match stages with
  | [] => Thrown (OtherThrowable "CompletionException")
  | Returned a :: _ => Returned a
  | Thrown _ :: stages => firstNormalOf stages
  end.

(** [discoveryAllowed] with the hosts of the user and what their answers are in the order in which they
    come: [None] is the exception that the call itself throws. *)
Definition discoveryAllowed (hosts : list string) (request : DiscoveryRequest) (answers : list (string * outcome Z)) : option (outcome bool) :=
  let entries := filter (fun e => existsb (String.eqb (fst e)) hosts) (Client.envelopes (body request)) in
  match entries with
  | [] => None
  | _ => Some (firstNormalOf (map (fun a => handleDiscoveryAllowedResponse (snd a)) (filter (fun a => existsb (fun e => String.eqb (fst a) (fst e)) entries) answers)))
  end.

(** * RequestManager.submit *)

Record RequestManager : Type := { pending : PendingRequestQueueSet; pendingPhoneNumbers : Z }.

Definition MIN_BACKLOG_SIZE_DEFAULT : Z := 10000.
Definition MIN_BACKLOG_SIZE_PRIORITY : Z := 12000.
Definition MAX_BACKLOG_TIME : Z := 15.
Definition MAX_BACKLOG_TIME_PRIORITY : Z := 20.

(** In seconds; the rate is that of the last minute. *)
Definition estimateTimeToProcessBacklog (oneMinuteRate : spec_float) (backlog : Z) : Z :=
  let backlogItemsPerSecond := dmax oneMinuteRate (double 1000) in
  to_long (ddiv (double backlog) backlogItemsPerSecond).

Definition shouldLoadShedRequest (oneMinuteRate : spec_float) (request : DiscoveryRequest) (m : RequestManager) : bool :=
  let priorityContext := String.eqb "Initial" (context request) || String.eqb "Interactive" (context request) in
  let backlogSizeThreshold := if priorityContext then MIN_BACKLOG_SIZE_PRIORITY else MIN_BACKLOG_SIZE_DEFAULT in
  let maxBacklogDuration := if priorityContext then MAX_BACKLOG_TIME_PRIORITY else MAX_BACKLOG_TIME in
  let backlog := long (getAddressCount request + pendingPhoneNumbers m) in
  (backlogSizeThreshold <=? backlog) && (maxBacklogDuration <=? estimateTimeToProcessBacklog oneMinuteRate backlog).

(** [submit]; the response is the future that is numbered so. *)
Definition submit (oneMinuteRate : spec_float) (now : Z) (enclaveId : string) (request : DiscoveryRequest) (response : nat) (m : RequestManager) : outcome nat * RequestManager :=
  if shouldLoadShedRequest oneMinuteRate request m then (Thrown RequestManagerFullException, m)
  else
    let m := {| pending := pending m; pendingPhoneNumbers := long (pendingPhoneNumbers m + getAddressCount request) |} in
    match set_put now enclaveId {| request := request; response := response |} (pending m) with
    | None => (Thrown NoSuchEnclaveException, m)
    | Some queues => (Returned response, {| pending := queues; pendingPhoneNumbers := pendingPhoneNumbers m |})
    end.

(** * The resource *)

(** What becomes of the AsyncResponse: it waits for the response of a request, is resumed with a
    status or an exception, or nobody holds it any more. *)
Inductive AsyncResponse : Type := Awaits (response : nat) | Status (code : Z) | Resumed (t : throwable) | Never.

Definition getRegisteredContacts (limiter : RateLimiter) (enclaves : list string) (LOCAL_ENCLAVE_HOST_ID : string) (oneMinuteRate : spec_float) (now : Z)
  (hosts : list string) (answers : list (string * outcome Z)) (enclaveId : string) (request : DiscoveryRequest) (response : nat)
  (stored : option LeakyBucket) (m : RequestManager) : AsyncResponse * option LeakyBucket * RequestManager :=
  if negb (existsb (String.eqb enclaveId) enclaves) then (Resumed NoSuchEnclaveException, stored, m)
  else
    match validate limiter now (getAddressCount request) stored with
    | (Thrown t, stored) => (Resumed t, stored, m)
    | (Returned _, stored) =>
        match RequestBatch.RequestBatch.envelope_for LOCAL_ENCLAVE_HOST_ID (Client.envelopes (body request)) with
        | None => (Status 400, stored, m)
        | Some _ =>
            match discoveryAllowed hosts request answers with
            | None => (Resumed IllegalArgumentException, stored, m)
            | Some (Thrown _) => (Never, stored, m)
            | Some (Returned false) => (Status 429, stored, m)
            | Some (Returned true) =>
                match submit oneMinuteRate now enclaveId request response m with
                | (Returned r, m) => (Awaits r, stored, m)
                | (Thrown t, m) => (Resumed t, stored, m)
                end
            end
        end
    end.

(** * What gets in *)

(** A host of the user, to which the request has an envelope, allows it. *)
Definition allowed_by (hosts : list string) (request : DiscoveryRequest) (answers : list (string * outcome Z)) : Prop :=
  exists host envelope, In (host, Returned 200) answers /\ In host hosts /\ In (host, envelope) (Client.envelopes (body request)).

Lemma firstNormalOf_in {T} (stages : list (outcome T)) a : firstNormalOf stages = Returned a -> In (Returned a) stages.
Proof. induction stages as [|[b|t] stages IH]; cbn [firstNormalOf]; [discriminate|now intros [= ->]; left|now right; apply IH]. Qed.

Lemma firstNormalOf_none {T} (stages : list (outcome T)) : Forall (fun s => match s with Thrown _ => True | Returned _ => False end) stages -> exists t, firstNormalOf stages = Thrown t.
Proof. induction 1 as [|[b|t] stages H _ IH]; cbn [firstNormalOf]; [now eexists|easy|exact IH]. Qed.

Lemma existsb_eqb {A} (f : A -> string) x l : existsb (fun e => String.eqb x (f e)) l = true <-> exists e, In e l /\ f e = x.
Proof. rewrite existsb_exists. split; intros (e & H1 & H2); exists e; (split; [exact H1|]); [symmetry; now apply String.eqb_eq|subst; apply String.eqb_refl]. Qed.

Lemma discoveryAllowed_spec hosts request answers : discoveryAllowed hosts request answers = Some (Returned true) -> allowed_by hosts request answers.
Proof.
  unfold discoveryAllowed. set (entries := filter _ (Client.envelopes (body request))). assert (He : forall e, In e entries -> In (fst e) hosts /\ In e (Client.envelopes (body request))).
  { intros e [H1 H2]%filter_In. split; [|exact H1]. apply (existsb_eqb (fun x => x)) in H2 as (h & Hh & <-). exact Hh. }
  destruct entries as [|e0 entries]; [discriminate|]. intros [= H]. apply firstNormalOf_in, in_map_iff in H as ([host r] & H & [Hin Hb]%filter_In). cbn [fst snd] in H, Hin.
  apply (existsb_eqb fst host (e0 :: entries)) in Hb as ([host' envelope] & Hin' & <-). apply He in Hin' as [H1 H2]. exists host', envelope. split; [|now split]. cbn [fst] in *. destruct r as [c|]; [|discriminate]. cbn [handleDiscoveryAllowedResponse] in H.
  destruct (500 <=? c); [discriminate|]. injection H as H. apply Z.eqb_eq in H. now subst c.
Qed.

Lemma submit_spec rate now k request response m : match submit rate now k request response m with
  | (Returned r, m') => r = response /\ shouldLoadShedRequest rate request m = false /\ pendingPhoneNumbers m' = long (pendingPhoneNumbers m + getAddressCount request) /\
      forall k', content k' (pending m') = content k' (pending m) ++ if String.eqb k k' then [{| request := request; response := response |}] else []
  | (Thrown _, m') => pending m' = pending m
  end.
Proof.
  unfold submit. destruct (shouldLoadShedRequest rate request m); [reflexivity|]. unfold set_put. cbn [pending]. destruct (find_queue k (queues (pending m))) as [q|] eqn:Ef; [|reflexivity].
  split; [reflexivity|]. split; [reflexivity|]. split; [reflexivity|]. intros k'. unfold content. cbn [pending queues with_queues]. rewrite find_set_queue by congruence.
  destruct (String.eqb_spec k k') as [<-|]; [now rewrite Ef|]. now rewrite app_nil_r.
Qed.

Lemma validate_spec limiter now amount stored : match validate limiter now amount stored with
  | (Returned _, stored') => exists b b', stored' = Some b' /\ b = match stored with Some b => b | None => new_LeakyBucket (limiter_bucketSize limiter) (limiter_leakRatePerMillis limiter) now end /\
      amount <= bucketSize b /\ spaceRemaining b' = int (getUpdatedSpaceRemaining now b - amount) /\ lastUpdateTimeMillis b' = now /\ bucketSize b' = bucketSize b
  | (Thrown t, stored') => stored' = stored /\ t = RateLimitExceededException
  end.
Proof.
  unfold validate. set (b := match stored with Some b => b | None => _ end). unfold bucket_add. destruct (Z.leb_spec amount (getUpdatedSpaceRemaining now b)) as [H|H]; [|now split].
  eexists _, _. split; [reflexivity|]. split; [reflexivity|]. split; [|now split]. unfold getUpdatedSpaceRemaining in H. lia.
Qed.


(** C40. A request whose limiters fail is never answered. When the request passes the limits of the
    service itself but every host of its user that it has an envelope for fails or answers with a server
    error, the response of the request is never resumed. *)
Theorem limiter_failure_unanswered limiter enclaves local rate now hosts answers k request response stored m host envelope b stored' :
  In k enclaves -> validate limiter now (getAddressCount request) stored = (Returned tt, stored') -> RequestBatch.RequestBatch.envelope_for local (Client.envelopes (body request)) = Some b ->
  In host hosts -> In (host, envelope) (Client.envelopes (body request)) -> Forall (fun a => match snd a with Returned c => 500 <= c | Thrown _ => True end) answers ->
  getRegisteredContacts limiter enclaves local rate now hosts answers k request response stored m = (Never, stored', m).
Proof.
  intros Hk Hv He Hh Hi Hf. unfold getRegisteredContacts. assert (existsb (String.eqb k) enclaves = true) as -> by (apply (existsb_eqb (fun x => x)); now exists k). cbn [negb]. rewrite Hv, He. unfold discoveryAllowed.
  set (entries := filter _ (Client.envelopes (body request))). assert (Hin : In (host, envelope) entries) by (apply filter_In; split; [exact Hi|]; apply (existsb_eqb (fun x => x)); now exists host).
  destruct entries as [|e0 entries]; [easy|]. edestruct (firstNormalOf_none (map (fun a => handleDiscoveryAllowedResponse (snd a)) (filter (fun a => existsb (fun e => String.eqb (fst a) (fst e)) (e0 :: entries)) answers))) as [t ->]; [|reflexivity].
  apply Forall_map, Forall_forall. intros a [Ha _]%filter_In. rewrite Forall_forall in Hf. specialize (Hf a Ha). destruct (snd a) as [c|]; [|exact I]. cbn [handleDiscoveryAllowedResponse]. now rewrite (proj2 (Z.leb_le _ _) Hf).
Qed.

End Intake.
