(* ===== verification/JniIo.v ===== *)
(** Streams of the Java side as the native code reads and writes them,
    src/service/src/main/jni/cds_jni/src/directory_map_native/io.rs, with the loops of the Rust
    standard library that fill a buffer and write one out. *)
From S2P Require Import Prelude Service.
From Stdlib Require Import ZArith List Lia Bool.
Import Service.

Module JniIo.

Inductive io_error : Type := Interrupted | UnexpectedEof | WriteZero | Other.

Definition MAX_BUFFER_SIZE : Z := 32 * 1024.

Section Streams.
(** The world outside; [java_read n], the call [read(buffer, 0, n)] of an [InputStream]: what it
    returns and what the buffer holds then, or [None] when it or the making of the buffer throws;
    [java_write l], the call [write(buffer, 0, n)] of an [OutputStream] with [l] in the buffer:
    whether nothing throws. *)
Context {W : Type} (java_read : Z -> W -> option (Z * list Z) * W) (java_write : list Z -> W -> bool * W).

(** [JNIRead::read]: the bytes read. *)
Definition read (buf_len : Z) (w : W) : Result (list Z) io_error * W :=
  let max_to_read := Z.min buf_len MAX_BUFFER_SIZE in
  if max_to_read =? 0 then (Ok [], w)
  else
    match java_read max_to_read w with
    | (None, w) => (Err Other, w)
    | (Some (read, buffer), w) =>
        if read =? 0 then (Err Interrupted, w)
        else if read =? -1 then (Ok [], w)
        else if max_to_read <? u64 read then (Err Other, w)
        else (Ok (firstn (Z.to_nat read) buffer), w)
    end.

(** [JNIWrite::write]: how many bytes were written. *)
Definition write (buf : list Z) (w : W) : Result Z io_error * W :=
  let max_to_write := Z.min (Z.of_nat (length buf)) MAX_BUFFER_SIZE in
  if max_to_write =? 0 then (Ok 0, w)
  else
    match java_write (firstn (Z.to_nat max_to_write) buf) w with
    | (false, w) => (Err Other, w)
    | (true, w) => (Ok max_to_write, w)
    end.

(** [Read::read_exact] for a buffer of [n] bytes: what was read, and the error if there was one.
    [None]: it has not returned after [fuel] rounds. *)
Fixpoint read_exact (fuel : nat) (n : Z) (w : W) : option (list Z * option io_error * W) :=
  if n <=? 0 then Some ([], None, w)
  else
    match fuel with
    | O => None
    | S fuel' =>
        match read n w with
        | (Ok [], w) => Some ([], Some UnexpectedEof, w)
        | (Ok bytes, w) =>
            let? (rest, e, w) := read_exact fuel' (n - Z.of_nat (length bytes)) w in Some (bytes ++ rest, e, w)
        | (Err Interrupted, w) => read_exact fuel' n w
        | (Err e, w) => Some ([], Some e, w)
        end
    end.

(** [Write::write_all]. *)
Fixpoint write_all (fuel : nat) (buf : list Z) (w : W) : option (option io_error * W) :=
  match buf with
  | [] => Some (None, w)
  | _ =>
      match fuel with
      | O => None
      | S fuel' =>
          match write buf w with
          | (Ok n, w) => if n =? 0 then Some (Some WriteZero, w) else write_all fuel' (skipn (Z.to_nat n) buf) w
          | (Err Interrupted, w) => write_all fuel' buf w
          | (Err e, w) => Some (Some e, w)
          end
      end
  end.

(** * What the streams promise *)

(** [content]: what an [InputStream] still has. Its [read] returns -1 at the end, and otherwise
    reads at least one byte and at most as many as it was asked for. *)
Definition input_stream (content : W -> list Z) : Prop :=
  forall n w, 0 < n -> match java_read n w with
  | (Some (r, buffer), w') =>
      (r = -1 /\ content w = [] /\ content w' = []) \/
      (1 <= r <= n /\ r <= Z.of_nat (length (content w)) /\ firstn (Z.to_nat r) buffer = firstn (Z.to_nat r) (content w) /\
       content w' = skipn (Z.to_nat r) (content w))
  | (None, _) => False
  end.

(** [written]: what an [OutputStream] was given. *)
Definition output_stream (written : W -> list Z) : Prop :=
  forall l w, fst (java_write l w) = true /\ written (snd (java_write l w)) = written w ++ l.

End Streams.

Section Read.
Context {W : Type} (java_read : Z -> W -> option (Z * list Z) * W).
Abbreviation read := (read java_read).
Abbreviation read_exact := (read_exact java_read).
Abbreviation input_stream := (input_stream java_read).

Lemma read_stream content n w : input_stream content -> 0 < n ->
  (content w = [] /\ exists w', read n w = (Ok [], w') /\ content w' = []) \/
  exists k w', (1 <= k <= length (content w))%nat /\ Z.of_nat k <= n /\ read n w = (Ok (firstn k (content w)), w') /\ content w' = skipn k (content w).
Proof.
  intros Hs Hn. unfold JniIo.read. set (m := Z.min n MAX_BUFFER_SIZE). assert (Hm : 0 < m <= n /\ m <= 32768) by (unfold m, MAX_BUFFER_SIZE; lia).
  destruct (Z.eqb_spec m 0) as [|_]; [lia|]. specialize (Hs m w ltac:(lia)). destruct (java_read m w) as [[[r buffer]|] w']; [|destruct Hs].
  destruct Hs as [(-> & E & E')|(Hr & Hl & Eb & Ec)].
  - left. split; [exact E|]. exists w'. split; [reflexivity|exact E'].
  - right. exists (Z.to_nat r), w'. split; [lia|]. split; [lia|]. destruct (Z.eqb_spec r 0) as [|_]; [lia|]. destruct (Z.eqb_spec r (-1)) as [|_]; [lia|].
    rewrite (proj2 (Z.ltb_ge m (u64 r))), Eb; [now split|]. rewrite wrap_small by (unfold in_range; lia). lia.
Qed.

(** A buffer is filled from a stream that has enough, however it is cut, and otherwise the stream
    is used up. *)
Lemma read_exact_stream content fuel : input_stream content -> forall n w, 0 <= n -> n <= Z.of_nat fuel ->
  exists w', read_exact fuel n w = Some (firstn (Z.to_nat n) (content w),
      if n <=? Z.of_nat (length (content w)) then None else Some UnexpectedEof, w') /\ content w' = skipn (Z.to_nat n) (content w).
Proof.
  intros Hs. induction fuel as [|fuel IH]; intros n w Hn Hf; cbn [JniIo.read_exact]; destruct (Z.leb_spec n 0) as [H|H].
  1,3: assert (n = 0) by lia; subst n; exists w; split; [|reflexivity]; rewrite (proj2 (Z.leb_le 0 _)) by lia; reflexivity.
  - lia.
  - destruct (read_stream content n w Hs H) as [(E & w' & -> & E')|(k & w' & Hk & Hkn & -> & Ec)].
    + exists w'. rewrite E, E'. split; [|now rewrite skipn_nil]. rewrite firstn_nil. cbn [length Z.of_nat]. now rewrite (proj2 (Z.leb_gt n 0)).
    + destruct (firstn k (content w)) as [|x l] eqn:El; [apply (f_equal (@length Z)) in El; rewrite length_firstn in El; cbn in El; lia|]. rewrite <- El.
      assert (Lk : length (firstn k (content w)) = k) by (rewrite length_firstn; lia). rewrite Lk.
      destruct (IH (n - Z.of_nat k) w' ltac:(lia) ltac:(lia)) as (w2 & -> & E2). exists w2. rewrite Ec, skipn_skipn in E2. rewrite Ec, length_skipn.
      split; [|rewrite E2; f_equal; lia]. f_equal. f_equal. f_equal.
      * replace (Z.to_nat (n - Z.of_nat k)) with (Z.to_nat n - k)%nat by lia. rewrite <- (firstn_skipn k (firstn (Z.to_nat n) (content w))).
        rewrite firstn_firstn, skipn_firstn_comm. now rewrite Nat.min_l by lia.
      * destruct (Z.leb_spec (n - Z.of_nat k) (Z.of_nat (length (content w) - k))), (Z.leb_spec n (Z.of_nat (length (content w)))); lia || reflexivity.
Qed.

End Read.

Lemma write_all_stream {W} (java_write : list Z -> W -> bool * W) written fuel : output_stream java_write written -> forall l w, (length l <= fuel)%nat ->
  exists w', write_all java_write fuel l w = Some (None, w') /\ written w' = written w ++ l.
Proof.
  intros Hs. induction fuel as [|fuel IH]; intros [|x l] w Hf; cbn [write_all]; try (exists w; now rewrite app_nil_r); [cbn in Hf; lia|].
  set (buf := x :: l) in *. unfold write. set (m := Z.min _ MAX_BUFFER_SIZE). assert (Hm : 1 <= m <= Z.of_nat (length buf)) by (unfold m, MAX_BUFFER_SIZE; subst buf; cbn [length]; lia).
  destruct (Z.eqb_spec m 0) as [|_]; [lia|]. destruct (Hs (firstn (Z.to_nat m) buf) w) as [E1 E2]. destruct (java_write _ w) as [o w1]. cbn [fst snd] in *. subst o.
  destruct (Z.eqb_spec m 0) as [|_]; [lia|]. destruct (IH (skipn (Z.to_nat m) buf) w1) as (w2 & -> & E3); [rewrite length_skipn; lia|].
  exists w2. split; [reflexivity|]. rewrite E3, E2, <- app_assoc. now rewrite firstn_skipn.
Qed.

End JniIo.
