(* ===== verification/DirectoryMap.v ===== *)
(** The directory that the host keeps for the enclave,
    src/service/src/main/jni/cds_jni/src/directory_map_native.rs and
    directory_map_native/internal_buffers.rs: two hash tables with linear probing, one that is
    built and one that is served. *)
From S2P Require Import Prelude Codec Edge Service HashLookup JniIo.
From Stdlib Require Import ZArith List Lia Bool SpecFloat.
From stdpp Require Import gmap.
Import Codec Edge Service HashLookup JniIo.
Open Scope Z_scope.

(** * Numbers *)

(** [u64::to_be] and [u64::from_be] on a little-endian machine. *)
Definition swap_bytes (x : Z) : Z := br_dec64be (br_enc64le x).
Definition swap_uuid (u : uuid_t) : uuid_t := (swap_bytes (fst u), swap_bytes (snd u)).

(** [f32] and [f64] are the formats of 24 and 53 bits; [as] between them and from [usize] rounds to
    the nearest, and to [usize] cuts, with the nearest number where there is none. *)
Module Float.

Definition one : spec_float := S754_finite false 8388608 (-23).
Definition zero : spec_float := S754_zero false.

Definition of_usize (n : Z) : spec_float := binary_normalize 53 1024 n 0 false.
Definition of_f32 (x : spec_float) : spec_float :=
  match x with
  | S754_finite s m e => binary_normalize 53 1024 (if s then Zneg m else Zpos m) e s
  | _ => x
  end.
Definition mul : spec_float -> spec_float -> spec_float := SFmul 53 1024.
Definition div : spec_float -> spec_float -> spec_float := SFdiv 53 1024.
Definition usize_max : Z := 2 ^ 64 - 1.
Definition to_usize (x : spec_float) : Z :=
  match x with
  | S754_finite false m e => Z.min usize_max (Z.shiftl (Zpos m) e)
  | S754_infinity false => usize_max
  | _ => 0
  end.

End Float.

(** * The table *)

Module InternalBuffers.

Definition FREE_E164 : Z := 0.
Definition DELETED_E164 : Z := 0xFFFFFFFFFFFFFFFF.
Definition FREE_UUID : uuid_t := (0, 0).

Inductive InternalBuffersError : Type :=
| InvalidE164 (e164 : Z)
| BufferFull (element_count capacity : Z)
| InvalidMinimumLoadFactor (f : spec_float)
| InvalidMaximumLoadFactor (f : spec_float)
| InvalidLoadFactorTuple (f g : spec_float)
| IoError (e : io_error).

Record InternalBuffers : Type := {
  min_load_factor : spec_float;
  max_load_factor : spec_float;
  element_count : Z;
  used_slot_count : Z;
  e164s_buffer : list Z;
  uuids_buffer : list uuid_t }.

(** A [Vec] made with the capacity [n] and filled with copies of [x], of [size] bytes each; the
    capacity that the allocator gives is the one asked for. [None]: the panic of [Vec] at more than
    [isize::MAX] bytes. *)
Definition vec_resized {A} (size n : Z) (x : A) : option (list A) :=
  if size * n <? 2 ^ 63 then Some (replicate (Z.to_nat n) x) else None.

Definition new (capacity : Z) (min_load_factor max_load_factor : spec_float) : option (Result InternalBuffers InternalBuffersError) :=
  if SFltb Float.one min_load_factor || SFltb min_load_factor Float.zero then Some (Err (InvalidMinimumLoadFactor min_load_factor))
  else if SFltb Float.one max_load_factor || SFltb max_load_factor Float.zero then Some (Err (InvalidMaximumLoadFactor max_load_factor))
  else if SFleb max_load_factor min_load_factor then Some (Err (InvalidLoadFactorTuple min_load_factor max_load_factor))
  else
    let? e164s := vec_resized 8 capacity FREE_E164 in
    let? uuids := vec_resized 16 capacity FREE_UUID in
    Some (Ok {| min_load_factor := min_load_factor; max_load_factor := max_load_factor; element_count := 0; used_slot_count := 0;
                e164s_buffer := e164s; uuids_buffer := uuids |}).

Definition size (b : InternalBuffers) : Z := element_count b.
Definition capacity (b : InternalBuffers) : Z := Z.of_nat (length (e164s_buffer b)).

(** [None]: the remainder by zero. *)
Definition hash_element (slot_count : nat) (e164 : Z) : option nat :=
  if (slot_count =? 0)%nat then None else Some (Z.to_nat (e164 mod Z.of_nat slot_count)).

Definition next_slot (slot_count slot_index : nat) : nat :=
  if (S slot_index =? slot_count)%nat then 0%nat else S slot_index.

(** The slot with the key, or the first one that is free or deleted. [None]: the panic on a full
    table. The loop comes back to [start_slot_index] in as many rounds as there are slots. *)
Fixpoint search_loop (fuel : nat) (e164s : list Z) (e164 : Z) (start_slot_index slot_index : nat) : option (nat + nat) :=
  match fuel with
  | O => None
  | S fuel' =>
      let? x := e164s !! slot_index in
      if negb (x =? FREE_E164) && negb (x =? DELETED_E164) then
        if x =? e164 then Some (inl slot_index)
        else
          let slot_index := next_slot (length e164s) slot_index in
          if (slot_index =? start_slot_index)%nat then None else search_loop fuel' e164s e164 start_slot_index slot_index
      else Some (inr slot_index)
  end.

(** The slot with the key up to the next free one; [stop] is where the loop gives up. *)
Fixpoint match_loop (fuel : nat) (e164s : list Z) (e164 : Z) (stop slot_index : nat) : option (option nat) :=
  match fuel with
  | O => None
  | S fuel' =>
      let? x := e164s !! slot_index in
      if negb (x =? FREE_E164) then
        if x =? e164 then Some (Some slot_index)
        else
          let slot_index := next_slot (length e164s) slot_index in
          if (slot_index =? stop)%nat then Some None else match_loop fuel' e164s e164 stop slot_index
      else Some None
  end.

(** The old key of the slot, and the buffers. *)
Definition add_to_buffer (e164s : list Z) (uuids : list uuid_t) (e164 : Z) (uuid : uuid_t) (convert_uuid : bool)
  : option (Z * list Z * list uuid_t) :=
  let slot_count := length e164s in
  if negb (slot_count =? length uuids)%nat then None
  else
    let? slot_index := hash_element slot_count e164 in
    let e164 := swap_bytes e164 in
    let uuid := if convert_uuid then swap_uuid uuid else uuid in
    let? found := search_loop slot_count e164s e164 slot_index slot_index in
    match found with
    | inl slot_index => Some (swap_bytes e164, e164s, <[slot_index := uuid]> uuids)
    | inr free_slot_index =>
        let? found := match_loop slot_count e164s e164 free_slot_index free_slot_index in
        match found with
        | Some slot_index => Some (swap_bytes e164, e164s, <[slot_index := uuid]> uuids)
        | None =>
            let? e164_at_free_slot_index := e164s !! free_slot_index in
            Some (swap_bytes e164_at_free_slot_index, <[free_slot_index := e164]> e164s, <[free_slot_index := uuid]> uuids)
        end
    end.

Definition remove_from_buffer (e164s : list Z) (uuids : list uuid_t) (e164 : Z) : option (bool * list Z * list uuid_t) :=
  let slot_count := length e164s in
  if negb (slot_count =? length uuids)%nat then None
  else
    let? slot_index := hash_element slot_count e164 in
    let e164 := swap_bytes e164 in
    let? found := match_loop slot_count e164s e164 slot_index slot_index in
    match found with
    | Some slot_index => Some (true, <[slot_index := DELETED_E164]> e164s, <[slot_index := FREE_UUID]> uuids)
    | None => Some (false, e164s, uuids)
    end.

(** The loop of [rehash] over the slots of the old table. *)
Fixpoint rehash_loop (old_e164s : list Z) (old_uuids : list uuid_t) (e164s : list Z) (uuids : list uuid_t) (used_slot_count : Z)
  : option (list Z * list uuid_t * Z) :=
  match old_e164s, old_uuids with
  | [], _ => Some (e164s, uuids, used_slot_count)
  | x :: old_e164s', uuid :: old_uuids' =>
      let e164 := swap_bytes x in
      if negb (e164 =? FREE_E164) && negb (e164 =? DELETED_E164) then
        let? (old_e164, e164s, uuids) := add_to_buffer e164s uuids e164 uuid false in
        rehash_loop old_e164s' old_uuids' e164s uuids (if old_e164 =? FREE_E164 then used_slot_count + 1 else used_slot_count)
      else rehash_loop old_e164s' old_uuids' e164s uuids used_slot_count
  | _ :: _, [] => None
  end.

Definition new_slot_count (b : InternalBuffers) : Z :=
  Z.max (Float.to_usize (Float.div (Float.of_usize (element_count b)) (Float.of_f32 (min_load_factor b)))) (capacity b).

Definition rehash (b : InternalBuffers) : option InternalBuffers :=
  let? e164s := vec_resized 8 (new_slot_count b) FREE_E164 in
  let? uuids := vec_resized 16 (new_slot_count b) FREE_UUID in
  let? (e164s, uuids, used) := rehash_loop (e164s_buffer b) (uuids_buffer b) e164s uuids 0 in
  Some {| min_load_factor := min_load_factor b; max_load_factor := max_load_factor b; element_count := element_count b;
          used_slot_count := used; e164s_buffer := e164s; uuids_buffer := uuids |}.

Definition max_load_factor_slot_count (b : InternalBuffers) : Z :=
  Float.to_usize (Float.mul (Float.of_usize (capacity b)) (Float.of_f32 (max_load_factor b))).

Definition insert (b : InternalBuffers) (e164 : Z) (uuid : uuid_t) : option (Result bool InternalBuffersError * InternalBuffers) :=
  if (e164 =? DELETED_E164) || (e164 =? FREE_E164) then Some (Err (InvalidE164 e164), b)
  else
    let capacity := capacity b in
    let? b := if element_count b =? capacity then rehash b else Some b in
    if capacity <? element_count b then Some (Err (BufferFull (element_count b) capacity), b)
    else
      let? (old_e164, e164s, uuids) := add_to_buffer (e164s_buffer b) (uuids_buffer b) e164 uuid true in
      let added := negb (old_e164 =? e164) in
      let b := {| min_load_factor := min_load_factor b; max_load_factor := max_load_factor b;
                  element_count := if added then u64 (element_count b + 1) else element_count b;
                  used_slot_count := if old_e164 =? FREE_E164 then u64 (used_slot_count b + 1) else used_slot_count b;
                  e164s_buffer := e164s; uuids_buffer := uuids |} in
      let? b := if max_load_factor_slot_count b <=? used_slot_count b then rehash b else Some b in
      Some (Ok added, b).

Definition remove (b : InternalBuffers) (e164 : Z) : option (Result bool InternalBuffersError * InternalBuffers) :=
  if (e164 =? DELETED_E164) || (e164 =? FREE_E164) then Some (Err (InvalidE164 e164), b)
  else
    let? (removed, e164s, uuids) := remove_from_buffer (e164s_buffer b) (uuids_buffer b) e164 in
    Some (Ok removed,
      {| min_load_factor := min_load_factor b; max_load_factor := max_load_factor b;
         element_count := if removed : bool then u64 (element_count b - 1) else element_count b; used_slot_count := used_slot_count b;
         e164s_buffer := e164s; uuids_buffer := uuids |}).

(** [resize] of a [Vec]. *)
Definition vec_resize {A} (n : nat) (x : A) (l : list A) : list A := take n l ++ replicate (n - length l) x.

(** [None]: the panic of [copy_from_slice] on different lengths. *)
Definition copy_from_slice {A} (dst src : list A) : option (list A) := if (length dst =? length src)%nat then Some src else None.

Definition copy_from (self src : InternalBuffers) : option InternalBuffers :=
  let src_capacity := length (e164s_buffer src) in
  let self_capacity := length (e164s_buffer self) in
  let e164s := if negb (self_capacity =? src_capacity)%nat then vec_resize src_capacity FREE_E164 (e164s_buffer self) else e164s_buffer self in
  let uuids := if negb (self_capacity =? src_capacity)%nat then vec_resize src_capacity FREE_UUID (uuids_buffer self) else uuids_buffer self in
  let? e164s := copy_from_slice e164s (e164s_buffer src) in
  let? uuids := copy_from_slice uuids (uuids_buffer src) in
  Some {| min_load_factor := min_load_factor src; max_load_factor := max_load_factor src; element_count := element_count src;
          used_slot_count := used_slot_count src; e164s_buffer := e164s; uuids_buffer := uuids |}.

(** The bytes of the buffers in memory, and the buffers of [n] slots with these bytes. *)
Definition e164_bytes (e164s : list Z) : list Z := concat (map br_enc64le e164s).
Definition uuids_bytes (uuids : list uuid_t) : list Z := concat (map uuid_bytes uuids).
Fixpoint e164s_of (n : nat) (bytes : list Z) : list Z :=
  match n with O => [] | S n' => br_dec64le (take 8 bytes) :: e164s_of n' (drop 8 bytes) end.
Fixpoint uuids_of (n : nat) (bytes : list Z) : list uuid_t :=
  match n with O => [] | S n' => (br_dec64le (take 8 bytes), br_dec64le (take 8 (drop 8 bytes))) :: uuids_of n' (drop 16 bytes) end.

Definition clear_to_capacity (b : InternalBuffers) (capacity : Z) : InternalBuffers :=
  {| min_load_factor := min_load_factor b; max_load_factor := max_load_factor b; element_count := element_count b;
     used_slot_count := used_slot_count b; e164s_buffer := replicate (Z.to_nat capacity) FREE_E164;
     uuids_buffer := replicate (Z.to_nat capacity) FREE_UUID |}.

Section Streams.
Context {W : Type} (java_read : Z -> W -> option (Z * list Z) * W) (java_write : list Z -> W -> bool * W) (fuel : nat).

(** What was read over the bytes of a buffer. *)
Definition overwrite (old got : list Z) : list Z := got ++ drop (length got) old.

Definition read_from (b : InternalBuffers) (w : W) : option (Result unit InternalBuffersError * InternalBuffers * W) :=
  let? (x, e, w) := read_exact java_read fuel 4 w in
  if e is Some e then Some (Err (IoError e), b, w)
  else
    let capacity := br_dec32be x in
    let? (x, e, w) := read_exact java_read fuel 4 w in
    if e is Some e then Some (Err (IoError e), b, w)
    else
      let element_count := br_dec32be x in
      let? (x, e, w) := read_exact java_read fuel 4 w in
      if e is Some e then Some (Err (IoError e), b, w)
      else
        let used_slot_count := br_dec32be x in
        let b := clear_to_capacity b capacity in
        let n := Z.to_nat capacity in
        let? (got, e, w) := read_exact java_read fuel (capacity * 8) w in
        let b := {| min_load_factor := min_load_factor b; max_load_factor := max_load_factor b; element_count := element_count;
                    used_slot_count := used_slot_count; e164s_buffer := e164s_of n (overwrite (e164_bytes (e164s_buffer b)) got);
                    uuids_buffer := uuids_buffer b |} in
        if e is Some e then Some (Err (IoError e), b, w)
        else
          let? (got, e, w) := read_exact java_read fuel (capacity * 16) w in
          let b := {| min_load_factor := min_load_factor b; max_load_factor := max_load_factor b; element_count := element_count;
                      used_slot_count := used_slot_count; e164s_buffer := e164s_buffer b;
                      uuids_buffer := uuids_of n (overwrite (uuids_bytes (uuids_buffer b)) got) |} in
          if e is Some e then Some (Err (IoError e), b, w) else Some (Ok tt, b, w).

(** The byte strings that [write_to] writes, in turn. *)
Fixpoint write_parts (parts : list (list Z)) (w : W) : option (Result unit InternalBuffersError * W) :=
  match parts with
  | [] => Some (Ok tt, w)
  | l :: parts' =>
      let? (e, w) := write_all java_write fuel l w in
      if e is Some e then Some (Err (IoError e), w) else write_parts parts' w
  end.

Definition write_to (b : InternalBuffers) (w : W) : option (Result unit InternalBuffersError * W) :=
  write_parts [br_enc32be (u32 (capacity b)); br_enc32be (u32 (element_count b)); br_enc32be (u32 (used_slot_count b));
               e164_bytes (e164s_buffer b); uuids_bytes (uuids_buffer b)] w.

End Streams.

End InternalBuffers.

(** * The directory *)

Module DirectoryMap.
Import InternalBuffers.

(** [building] with its [Mutex], [changed] its first field, and [serving]. A thread that panics with
    the mutex poisons it. The lock of [serving] is never poisoned: it is held for writing only for the
    exchange in [commit], and a panic poisons no lock that is held for reading. *)
Record DirectoryMap : Type := { poisoned : bool; changed : bool; building : InternalBuffers; serving : InternalBuffers }.

(** A call panics or returns. *)
Inductive outcome (A : Type) : Type := Panics | Returns (r : Result A InternalBuffersError).
Arguments Panics {A}.
Arguments Returns {A}.

Definition new (starting_capacity : Z) (min_load_factor max_load_factor : spec_float) : outcome DirectoryMap :=
  match InternalBuffers.new starting_capacity min_load_factor max_load_factor with
  | None => Panics
  | Some (Err e) => Returns (Err e)
  | Some (Ok b) => Returns (Ok {| poisoned := false; changed := false; building := b; serving := b |})
  end.

(** A panic with the mutex; no call reads [building] and [changed] after it. *)
Definition poison (d : DirectoryMap) : DirectoryMap :=
  {| poisoned := true; changed := changed d; building := building d; serving := serving d |}.

(** With the mutex locked: [changed] is set when [f] answers [true]. *)
Definition update (f : InternalBuffers -> option (Result bool InternalBuffersError * InternalBuffers)) (d : DirectoryMap)
  : outcome bool * DirectoryMap :=
  if poisoned d then (Panics, d)
  else
    match f (building d) with
    | None => (Panics, poison d)
    | Some (r, b) =>
        (Returns r, {| poisoned := false; changed := if r is Ok true then true else changed d; building := b; serving := serving d |})
    end.
Definition insert (d : DirectoryMap) (e164 : Z) (uuid : uuid_t) : outcome bool * DirectoryMap := update (fun b => InternalBuffers.insert b e164 uuid) d.
Definition remove (d : DirectoryMap) (e164 : Z) : outcome bool * DirectoryMap := update (fun b => InternalBuffers.remove b e164) d.

Definition commit (d : DirectoryMap) : outcome bool * DirectoryMap :=
  if poisoned d then (Panics, d)
  else if negb (changed d) then (Returns (Ok false), d)
  else
    let d := {| poisoned := false; changed := changed d; building := serving d; serving := building d |} in
    match copy_from (building d) (serving d) with
    | None => (Panics, poison d)
    | Some b => (Returns (Ok true), {| poisoned := false; changed := false; building := b; serving := serving d |})
    end.

Definition size (d : DirectoryMap) : Z := InternalBuffers.size (serving d).
Definition capacity (d : DirectoryMap) : Z := InternalBuffers.capacity (serving d).

(** [server_stop] of sgx_enclave.rs: the arguments for the enclave, given where the two buffers that
    are served lie. *)
Definition server_stop_args (d : DirectoryMap) (e164s_ptr uuids_ptr : Z) : option (Result sgxsd_server_terminate_args_t unit) :=
  let e164s := e164s_buffer (serving d) in
  if negb (length e164s =? length (uuids_buffer (serving d)))%nat then Some (Err tt)
  else if (length e164s =? 0)%nat then None
  else Some (Ok {| Edge.in_phones := e164s_ptr; Edge.in_phone_count := Z.of_nat (length e164s); Edge.in_uuids := uuids_ptr |}).

Definition server_stop_no_directory_map_args : sgxsd_server_terminate_args_t :=
  {| Edge.in_phones := 0; Edge.in_phone_count := 0; Edge.in_uuids := 0 |}.

Section Streams.
Context {W : Type} (java_read : Z -> W -> option (Z * list Z) * W) (java_write : list Z -> W -> bool * W) (fuel : nat).

Definition read_from (d : DirectoryMap) (w : W) : option (outcome unit * DirectoryMap * W) :=
  if poisoned d then Some (Panics, d, w)
  else
    let? (r, b, w) := InternalBuffers.read_from java_read fuel (building d) w in
    Some (Returns r, {| poisoned := false; changed := if r is Ok _ then true else changed d; building := b; serving := serving d |}, w).

Definition write_to (d : DirectoryMap) (w : W) : option (outcome unit * W) :=
  let? (r, w) := InternalBuffers.write_to java_write fuel (serving d) w in Some (Returns r, w).

End Streams.
End DirectoryMap.
