(* ===== verification/DirectoryTable.v ===== *)
(** The hash table of the directory implements a finite map. *)
From S2P Require Import Prelude Codec Service HashLookup HashTable DirectoryMap.
From Stdlib Require Import ZArith List Lia Bool SpecFloat.
From stdpp Require Import gmap.
Import Codec Service HashLookup HashTable InternalBuffers.
Open Scope Z_scope.

Module DirectoryTable.

(** * Bytes in reverse *)

Lemma enc64le_rev x : br_enc64le x = rev (br_enc64be x).
Proof. reflexivity. Qed.

Lemma enc64le_bytes x : bytes_ok (br_enc64le x).
Proof. apply Forall_app. split; apply br_enc32le_bytes. Qed.

Lemma dec64be_range l : bytes_ok l -> in_range 64 (br_dec64be l).
Proof.
  intros H. unfold br_dec64be. apply lor_range; [lia|now apply wrap_range|]. apply (range_weaken 32); [lia|]. apply br_dec32be_range. now apply Forall_skipn.
Qed.

Lemma enc64be_dec l : bytes_ok l -> length l = 8%nat -> br_enc64be (br_dec64be l) = l.
Proof.
  intros H L. explode l. unfold br_enc64be, br_dec64be. set (hi := br_dec32be _). set (lo := br_dec32be (skipn 4 _)).
  assert (Hhi : in_range 32 hi) by (now apply br_dec32be_range).
  assert (Hlo : in_range 32 lo) by (apply br_dec32be_range; now apply Forall_skipn).
  replace (u32 ((u64 (hi << 32) .| lo) >> 32)) with hi by zbits. replace (u32 (u64 (hi << 32) .| lo)) with lo by zbits.
  subst hi lo. cbn [skipn]. rewrite !br_enc32be_dec by (inv_Forall; unfold bytes_ok; repeat apply Forall_cons_2; trivial; apply Forall_nil_2). reflexivity.
Qed.

Lemma swap_range x : in_range 64 (swap_bytes x).
Proof. apply dec64be_range, enc64le_bytes. Qed.

(** The bytes of a number in one order are those of its reverse in the other. *)
Lemma enc64le_swap x : br_enc64le (swap_bytes x) = br_enc64be x.
Proof.
  rewrite enc64le_rev. unfold swap_bytes. rewrite enc64be_dec by (apply enc64le_bytes || reflexivity). rewrite enc64le_rev. apply rev_involutive.
Qed.

Lemma swap_swap x : in_range 64 x -> swap_bytes (swap_bytes x) = x.
Proof. intros H. unfold swap_bytes at 1. rewrite enc64le_swap, <- (app_nil_r (br_enc64be x)). now apply br_dec64be_enc. Qed.

Lemma dec64le_enc64be x : br_dec64le (br_enc64be x) = swap_bytes x.
Proof. rewrite <- enc64le_swap, <- (app_nil_r (br_enc64le _)). apply br_dec64le_enc, swap_range. Qed.

(** A key in use. *)
Definition live (x : Z) : bool := negb (x =? FREE_E164) && negb (x =? DELETED_E164).

Lemma swap_eqb x y : in_range 64 x -> swap_bytes y = y -> (swap_bytes x =? y) = (x =? y).
Proof.
  intros Hx Hy. destruct (Z.eqb_spec x y) as [->|Hn]; [now apply Z.eqb_eq|]. apply Z.eqb_neq. intros E. apply Hn. now rewrite <- (swap_swap x Hx), E.
Qed.

Lemma live_swap x : in_range 64 x -> live (swap_bytes x) = live x.
Proof. intros Hx. unfold live. now rewrite !swap_eqb. Qed.

(** * Probing *)

(** The slot [d] places after [q], around the end. *)
Definition pos (n q d : nat) : nat := if (q + d <? n)%nat then (q + d)%nat else (q + d - n)%nat.

Lemma pos_lt n q d : (q < n -> d < n -> pos n q d < n)%nat.
Proof. unfold pos. destruct (Nat.ltb_spec (q + d) n); lia. Qed.

Lemma pos_0 n q : (q < n -> pos n q 0 = q)%nat.
Proof. unfold pos. destruct (Nat.ltb_spec (q + 0) n); lia. Qed.

Lemma next_pos n q d : (q < n -> d < n -> next_slot n (pos n q d) = pos n q (S d))%nat.
Proof.
  unfold next_slot, pos. intros Hq Hd. destruct (Nat.ltb_spec (q + d) n), (Nat.ltb_spec (q + S d) n); case Nat.eqb_spec; lia.
Qed.

Lemma pos_back n q d : (q < n -> S d <= n -> pos n q (S d) = q <-> S d = n)%nat.
Proof. unfold pos. intros. destruct (Nat.ltb_spec (q + S d) n); lia. Qed.

Lemma pos_inj n q d d' : (q < n -> d < n -> d' < n -> pos n q d = pos n q d' -> d = d')%nat.
Proof. unfold pos. intros. destruct (Nat.ltb_spec (q + d) n), (Nat.ltb_spec (q + d') n); lia. Qed.

Lemma pos_pos n q d d' : (q < n -> d < n -> d + d' < n -> pos n (pos n q d) d' = pos n q (d + d'))%nat.
Proof.
  unfold pos. intros. destruct (Nat.ltb_spec (q + d) n), (Nat.ltb_spec (q + (d + d')) n);
    match goal with |- context [if (?a <? ?b)%nat then _ else _] => destruct (Nat.ltb_spec a b) end; lia.
Qed.

Lemma pos_surj n q i : (q < n -> i < n -> exists d, d < n /\ pos n q d = i)%nat.
Proof.
  intros. exists (if (q <=? i)%nat then (i - q)%nat else (i + n - q)%nat). unfold pos.
  destruct (Nat.leb_spec q i); match goal with |- context [if (?a <? ?b)%nat then _ else _] => destruct (Nat.ltb_spec a b) end; lia.
Qed.

Section Loops.
Context (es : list Z) (s : Z) (q : nat) (Hq : (q < length es)%nat).
Abbreviation n := (length es).

(** The slots before [d] satisfy [P]. *)
Definition before (P : Z -> Prop) (d : nat) : Prop := forall d', (d' < d)%nat -> exists y, es !! pos n q d' = Some y /\ P y.

Lemma before_S P d y : before P d -> es !! pos n q d = Some y -> P y -> before P (S d).
Proof. intros H Hy Py d' Hd. destruct (decide (d' = d)) as [->|]; [eauto|]. apply H. lia. Qed.

Lemma pos_some d : (d < n)%nat -> exists y, es !! pos n q d = Some y.
Proof. intros Hd. apply lookup_lt_is_Some_2, pos_lt; lia. Qed.

Definition other (y : Z) : Prop := live y = true /\ y <> s.
Definition taken (y : Z) : Prop := y <> FREE_E164 /\ y <> s.

Lemma search_loop_from fuel : forall d, (d < n)%nat -> (n - d <= fuel)%nat -> before other d ->
  let r := search_loop fuel es s q (pos n q d) in
  (r = None /\ before other n) \/
  exists d' y, (d' < n)%nat /\ before other d' /\ es !! pos n q d' = Some y /\
    ((r = Some (inl (pos n q d')) /\ y = s /\ live s = true) \/ (r = Some (inr (pos n q d')) /\ live y = false)).
Proof.
  induction fuel as [|fuel IH]; intros d Hd Hf Hb; [lia|]. cbn [search_loop]. destruct (pos_some d Hd) as [y Hy]. rewrite Hy.
  fold (live y). destruct (live y) eqn:El; [|right; exists d, y; auto 6]. destruct (Z.eqb_spec y s) as [->|Hn]; [right; exists d, s; auto 8|].
  pose proof (before_S other d y Hb Hy (conj El Hn)) as Hb'. rewrite next_pos by lia. destruct (Nat.eqb_spec (pos n q (S d)) q) as [E|E].
  - left. apply pos_back in E; [|lia..]. now rewrite <- E.
  - apply IH; [|lia|exact Hb']. enough (S d <> n) by lia. intros E'. apply E. apply pos_back; lia.
Qed.

Lemma match_loop_from fuel : forall d, (d < n)%nat -> (n - d <= fuel)%nat -> before taken d ->
  let r := match_loop fuel es s q (pos n q d) in
  (r = Some None /\ before taken n) \/
  exists d' y, (d' < n)%nat /\ before taken d' /\ es !! pos n q d' = Some y /\
    ((r = Some (Some (pos n q d')) /\ y = s /\ s <> FREE_E164) \/ (r = Some None /\ y = FREE_E164)).
Proof.
  induction fuel as [|fuel IH]; intros d Hd Hf Hb; [lia|]. cbn [match_loop]. destruct (pos_some d Hd) as [y Hy]. rewrite Hy.
  destruct (Z.eqb_spec y FREE_E164) as [->|H0]; cbn [negb]; [right; exists d, FREE_E164; auto 8|].
  destruct (Z.eqb_spec y s) as [->|Hn]; [right; exists d, s; auto 8|].
  pose proof (before_S taken d y Hb Hy (conj H0 Hn)) as Hb'. rewrite next_pos by lia. destruct (Nat.eqb_spec (pos n q (S d)) q) as [E|E].
  - left. apply pos_back in E; [|lia..]. now rewrite <- E.
  - apply IH; [|lia|exact Hb']. enough (S d <> n) by lia. intros E'. apply E. apply pos_back; lia.
Qed.

End Loops.

(** * The map a table holds *)

Definition entry (x : Z) (v : uuid_t) : list (Z * uuid_t) := if live x then [(swap_bytes x, swap_uuid v)] else [].
Fixpoint entries (es : list Z) (us : list uuid_t) : list (Z * uuid_t) :=
  match es, us with
  | x :: es', v :: us' => entry x v ++ entries es' us'
  | _, _ => []
  end.
Definition table (es : list Z) (us : list uuid_t) : gmap Z uuid_t := list_to_map (entries es us).

Lemma entries_app es1 : forall us1 es2 us2, length es1 = length us1 -> entries (es1 ++ es2) (us1 ++ us2) = entries es1 us1 ++ entries es2 us2.
Proof.
  induction es1 as [|x es1 IH]; intros [|v us1] es2 us2 L; cbn in *; try discriminate; [reflexivity|]. rewrite IH by congruence. apply app_assoc.
Qed.

(** The entries around slot [i]. *)
Definition rest (i : nat) (es : list Z) (us : list uuid_t) : list (Z * uuid_t) :=
  entries (take i es) (take i us) ++ entries (drop (S i) es) (drop (S i) us).

Lemma entries_at es us i x v : length es = length us -> es !! i = Some x -> us !! i = Some v ->
  entries es us ≡ₚ entry x v ++ rest i es us.
Proof.
  intros L Hx Hv. rewrite <- (take_drop_middle es i x Hx) at 1. rewrite <- (take_drop_middle us i v Hv) at 1.
  rewrite entries_app by (rewrite !length_take; lia). cbn [entries]. unfold rest. rewrite Permutation_app_comm, <- app_assoc.
  apply Permutation_app_head, Permutation_app_comm.
Qed.

Lemma entries_insert es us i x v : length es = length us -> (i < length es)%nat ->
  entries (<[i := x]> es) (<[i := v]> us) ≡ₚ entry x v ++ rest i es us.
Proof.
  intros L Hi. rewrite (entries_at _ _ i x v) by (rewrite ?length_insert; trivial; apply list_lookup_insert_eq; lia).
  unfold rest. now rewrite !take_insert_ge, !drop_insert_lt by lia.
Qed.

Lemma entries_keys es : forall us, length es = length us -> (entries es us).*1 = swap_bytes <$> filter (fun x => live x = true) es.
Proof.
  induction es as [|x es IH]; intros [|v us] L; try discriminate; [reflexivity|]. cbn [entries]. injection L as L. rewrite fmap_app, IH by exact L.
  unfold entry. rewrite filter_cons. destruct (live x) eqn:E; [rewrite decide_True by trivial|rewrite decide_False by easy]; reflexivity.
Qed.

(** Where the probing for a stored key starts. *)
Definition home (es : list Z) (x : Z) : nat := Z.to_nat (swap_bytes x mod Z.of_nat (length es)).

Lemma home_lt es x i y : es !! i = Some y -> (home es x < length es)%nat.
Proof.
  intros Hy. apply lookup_lt_Some in Hy. unfold home. pose proof (Z.mod_pos_bound (swap_bytes x) (Z.of_nat (length es)) ltac:(lia)). lia.
Qed.

Definition not_free (y : Z) : Prop := y <> FREE_E164.
#[local] Instance not_free_dec y : Decision (not_free y).
Proof. unfold not_free. apply _. Defined.

(** Every key is in one place, which probing reaches before a free slot. *)
Record table_ok (es : list Z) (us : list uuid_t) : Prop := {
  tb_length : length es = length us;
  tb_keys : Forall (in_range 64) es;
  tb_uuids : Forall uuid_ok us;
  tb_reach i x : es !! i = Some x -> live x = true ->
    exists d, (d < length es)%nat /\ i = pos (length es) (home es x) d /\ before es (home es x) not_free d;
  tb_unique i j x : es !! i = Some x -> es !! j = Some x -> live x = true -> i = j }.

Lemma nodup_filter (P : Z -> Prop) {HP : forall x, Decision (P x)} l :
  (forall i j x, l !! i = Some x -> l !! j = Some x -> P x -> i = j) -> NoDup (filter P l).
Proof.
  induction l as [|x l IH]; intros H; [constructor|]. assert (Hl : NoDup (filter P l)).
  { apply IH. intros i j y Hi Hj Py. enough (S i = S j) by lia. now apply (H (S i) (S j) y). }
  rewrite filter_cons. destruct (decide (P x)) as [Px|]; [|exact Hl]. constructor; [|exact Hl].
  rewrite list_elem_of_filter. intros [_ Hx]. apply list_elem_of_lookup in Hx as [j Hj]. now specialize (H 0%nat (S j) x eq_refl Hj Px).
Qed.

Lemma filter_all (P : Z -> Prop) {HP : forall x, Decision (P x)} l : Forall P l -> filter P l = l.
Proof. induction 1 as [|x l Hx _ IH]; [reflexivity|]. rewrite filter_cons, decide_True by exact Hx. now rewrite IH. Qed.

Lemma entries_nodup es us : table_ok es us -> NoDup (entries es us).*1.
Proof.
  intros [L R _ _ U]. rewrite entries_keys by exact L. apply NoDup_fmap_2_strong; [|now apply nodup_filter].
  intros x y Hx Hy E. apply list_elem_of_filter in Hx as [_ Hx]. apply list_elem_of_filter in Hy as [_ Hy]. rewrite Forall_forall in R.
  now rewrite <- (swap_swap x), E, swap_swap by (now apply R).
Qed.

Lemma elem_of_entries es : forall us k u, length es = length us ->
  (k, u) ∈ entries es us <-> exists i x v, es !! i = Some x /\ us !! i = Some v /\ live x = true /\ k = swap_bytes x /\ u = swap_uuid v.
Proof.
  induction es as [|x es IH]; intros [|v us] k u L; try discriminate; cbn [entries].
  - split; [now intros H%elem_of_nil|]. intros (i & x & v & H & _). now rewrite lookup_nil in H.
  - injection L as L. rewrite elem_of_app, (IH us k u L). unfold entry. split.
    + intros [H|(i & y & w & H)]; [|now exists (S i), y, w]. destruct (live x) eqn:E; [|now apply elem_of_nil in H].
      apply list_elem_of_singleton in H as [= -> ->]. now exists 0%nat, x, v.
    + intros ([|i] & y & w & Hy & Hw & H); [|right; now exists i, y, w]. left. injection Hy as <-. injection Hw as <-. destruct H as (-> & -> & ->).
      now apply list_elem_of_singleton.
Qed.

Lemma table_lookup es us k u : table_ok es us ->
  table es us !! k = Some u <-> exists i x v, es !! i = Some x /\ us !! i = Some v /\ live x = true /\ k = swap_bytes x /\ u = swap_uuid v.
Proof. intros H. unfold table. rewrite <- elem_of_list_to_map by (now apply entries_nodup). apply elem_of_entries, H. Qed.

(** A key that is in use is in the map exactly when it is in a slot. *)
Lemma table_stored es us k : table_ok es us -> in_range 64 k -> live k = true ->
  is_Some (table es us !! k) <-> exists i, es !! i = Some (swap_bytes k).
Proof.
  intros H Hk Hl. split.
  - intros [u Hu]. apply table_lookup in Hu as (i & x & v & Hx & _ & _ & -> & _); [|exact H]. exists i. rewrite swap_swap; [exact Hx|].
    destruct H as [_ R _ _ _]. rewrite Forall_lookup in R. exact (R i x Hx).
  - intros [i Hi]. destruct (lookup_lt_is_Some_2 us i) as [v Hv]; [rewrite <- (tb_length _ _ H); now apply lookup_lt_Some in Hi|].
    exists (swap_uuid v). apply table_lookup; [exact H|]. exists i, (swap_bytes k), v. now rewrite swap_swap, live_swap.
Qed.

Lemma table_size es us : table_ok es us -> base.size (table es us) = length (filter (fun x => live x = true) es).
Proof.
  intros H. unfold table. rewrite map_size_list_to_map by (now apply entries_nodup). rewrite <- (length_fmap fst), entries_keys by apply H.
  apply length_fmap.
Qed.

(** How many slots are not free. *)
Definition used (es : list Z) : nat := length (filter not_free es).

Lemma used_insert es i x y : es !! i = Some y ->
  Z.of_nat (used (<[i := x]> es)) + (if y =? FREE_E164 then 0 else 1) = Z.of_nat (used es) + (if x =? FREE_E164 then 0 else 1).
Proof.
  intros Hy. pose proof (lookup_lt_Some _ _ _ Hy) as Hi. unfold used. rewrite <- (take_drop_middle es i y Hy) at 2. rewrite insert_take_drop by exact Hi.
  rewrite !filter_app, !filter_cons, !length_app.
  destruct (decide (not_free x)) as [Hx|Hx], (decide (not_free y)) as [Hy'|Hy'], (Z.eqb_spec x FREE_E164), (Z.eqb_spec y FREE_E164);
    unfold not_free in *; cbn [length]; lia.
Qed.

(** * Updates of one slot *)

(** Probing for [x] reaches slot [i]. *)
Definition reach (es : list Z) (x : Z) (i : nat) : Prop :=
  exists d, (d < length es)%nat /\ i = pos (length es) (home es x) d /\ before es (home es x) not_free d.

Lemma before_impl es q (P Q : Z -> Prop) d : (forall y, P y -> Q y) -> before es q P d -> before es q Q d.
Proof. intros H Hb d' Hd. destruct (Hb d' Hd) as (y & Hy & Py). eauto. Qed.

Lemma reach_insert es x i j z : not_free z -> reach es x i -> reach (<[j := z]> es) x i.
Proof.
  intros Hz (d & Hd & Hi & Hb). exists d. unfold home, before in *. rewrite length_insert. split; [exact Hd|]. split; [exact Hi|].
  intros d' Hd'. destruct (Hb d' Hd') as (y & Hy & Hf). set (r := pos _ _ d') in *. destruct (decide (r = j)) as [->|Hn].
  - exists z. split; [|exact Hz]. apply list_lookup_insert_eq. now apply lookup_lt_Some in Hy.
  - exists y. now rewrite list_lookup_insert_ne.
Qed.

Section Update.
Context (es : list Z) (us : list uuid_t) (Hok : table_ok es us) (i : nat) (x y : Z) (v : uuid_t) (Hy : es !! i = Some y).

Lemma update_ok : not_free x -> in_range 64 x -> uuid_ok v ->
  (live x = true -> (forall j, es !! j = Some x -> j = i) /\ reach es x i) -> table_ok (<[i := x]> es) (<[i := v]> us).
Proof.
  intros Hf Hx Hv Hl. destruct Hok as [L R V Re U]. split.
  - now rewrite !length_insert.
  - apply Forall_insert; [exact R|exact Hx].
  - apply Forall_insert; [exact V|exact Hv].
  - intros j z Hj Hz. apply (reach_insert es z j i x Hf). apply list_lookup_insert_Some in Hj as [(-> & -> & _)|[_ Hj]]; [now apply Hl|].
    now apply Re.
  - intros j k z Hj Hk Hz. apply list_lookup_insert_Some in Hj, Hk. destruct Hj as [(-> & -> & _)|[Hj1 Hj]], Hk as [(-> & E & _)|[Hk1 Hk]].
    + reflexivity.
    + symmetry. now apply Hl.
    + subst z. now apply Hl.
    + now apply (U j k z).
Qed.

Lemma update_entries w : us !! i = Some w -> entries es us ≡ₚ entry y w ++ rest i es us.
Proof. intros Hw. apply entries_at; [apply Hok|exact Hy|exact Hw]. Qed.

Lemma update_entries' : entries (<[i := x]> es) (<[i := v]> us) ≡ₚ entry x v ++ rest i es us.
Proof. apply entries_insert; [apply Hok|]. now apply lookup_lt_Some in Hy. Qed.

Abbreviation updated := (table (<[i := x]> es) (<[i := v]> us)).

Lemma uuid_at : exists w, us !! i = Some w.
Proof. apply lookup_lt_is_Some_2. rewrite <- (tb_length _ _ Hok). now apply lookup_lt_Some in Hy. Qed.

Lemma table_perm l : entries es us ≡ₚ l -> NoDup l.*1 /\ table es us = list_to_map l.
Proof.
  intros Hp. pose proof (entries_nodup _ _ Hok) as Hn. split; [now rewrite <- Hp|]. unfold table. now apply list_to_map_proper.
Qed.

(** The keys of the updated table are distinct. *)
Context (Hnew : table_ok (<[i := x]> es) (<[i := v]> us)).

Lemma updated_perm l : entries (<[i := x]> es) (<[i := v]> us) ≡ₚ l -> NoDup l.*1 /\ updated = list_to_map l.
Proof.
  intros Hp. pose proof (entries_nodup _ _ Hnew) as Hn. split; [now rewrite <- Hp|]. unfold table. now apply list_to_map_proper.
Qed.

Lemma update_add : live x = true -> live y = false \/ y = x -> updated = <[swap_bytes x := swap_uuid v]> (table es us).
Proof.
  intros Hx Hyx. destruct uuid_at as [w Hw]. destruct (table_perm _ (update_entries w Hw)) as [_ ->]. destruct (updated_perm _ update_entries') as [_ ->].
  unfold entry. rewrite Hx. cbn [app list_to_map]. destruct (live y) eqn:Ey; [|reflexivity]. destruct Hyx as [|E]; [discriminate|].
  rewrite E. cbn [app list_to_map foldr fst snd]. now rewrite insert_insert_eq.
Qed.

Lemma update_delete : live x = false -> live y = true -> updated = delete (swap_bytes y) (table es us).
Proof.
  intros Hx Hl. destruct uuid_at as [w Hw]. destruct (table_perm _ (update_entries w Hw)) as [Hn ->]. destruct (updated_perm _ update_entries') as [_ ->].
  unfold entry in *. rewrite Hx, Hl in *. cbn [app list_to_map foldr fst snd fmap list_fmap] in *. rewrite delete_insert_id; [reflexivity|].
  apply not_elem_of_list_to_map_1. now inversion Hn.
Qed.

End Update.

(** * The operations *)

Lemma live_not_free x : live x = true -> not_free x.
Proof. unfold live, not_free. intros [H _]%andb_true_iff E. subst x. discriminate. Qed.

Section Key.
Context (es : list Z) (us : list uuid_t) (Hok : table_ok es us) (k : Z) (Hk : in_range 64 k) (Hl : live k = true).
Abbreviation s := (swap_bytes k).
Abbreviation n := (length es).
Abbreviation q := (home es s).

Lemma live_s : live s = true.
Proof. now rewrite live_swap. Qed.

Lemma hash_home : (0 < n)%nat -> hash_element n k = Some q /\ (q < n)%nat.
Proof.
  intros Hn. unfold hash_element, home. rewrite swap_swap by exact Hk. destruct (Nat.eqb_spec n 0) as [E|_]; [lia|].
  pose proof (Z.mod_pos_bound k (Z.of_nat n) ltac:(lia)). split; [reflexivity|lia].
Qed.

Lemma match_finds r i d : (r < n)%nat -> (d < n)%nat -> es !! i = Some s -> i = pos n r d -> before es r not_free d ->
  match_loop n es s r r = Some (Some i).
Proof.
  intros Hr Hd Hi Hp Hb. pose proof (match_loop_from es s r Hr n 0 ltac:(lia) ltac:(lia)) as H. rewrite pos_0 in H by exact Hr.
  destruct H as [[_ Ht]|(d' & y & Hd' & Ht & Hy & [(-> & -> & _)|(_ & ->)])]; [intros d0 H0; lia|..].
  - destruct (Ht d Hd) as (y & Hy & _ & Hn). rewrite <- Hp, Hi in Hy. now injection Hy as <-.
  - do 2 f_equal. exact (tb_unique _ _ Hok _ _ _ Hy Hi live_s).
  - exfalso. destruct (lt_eq_lt_dec d d') as [[Hlt| ->]|Hlt].
    + destruct (Ht d Hlt) as (y & Hy' & _ & Hn). rewrite <- Hp, Hi in Hy'. now injection Hy' as <-.
    + rewrite <- Hp, Hi in Hy. injection Hy as Hy. now apply (live_not_free s live_s).
    + destruct (Hb d' Hlt) as (y & Hy' & Hf). rewrite Hy in Hy'. injection Hy' as <-. now apply Hf.
Qed.

Lemma match_misses r : (r < n)%nat -> (forall i, es !! i <> Some s) -> match_loop n es s r r = Some None.
Proof.
  intros Hr Hno. pose proof (match_loop_from es s r Hr n 0 ltac:(lia) ltac:(lia)) as H. rewrite pos_0 in H by exact Hr.
  destruct H as [[-> _]|(d' & y & _ & _ & Hy & [(_ & -> & _)|(-> & _)])]; [intros d0 H0; lia|reflexivity| |reflexivity].
  now apply Hno in Hy.
Qed.

(** The search for the key where it is stored. *)
Lemma search_stored i : es !! i = Some s ->
  search_loop n es s q q = Some (inl i) \/ exists f, search_loop n es s q q = Some (inr f) /\ match_loop n es s f f = Some (Some i).
Proof.
  intros Hi. pose proof (home_lt es s i s Hi) as Hq. destruct (tb_reach _ _ Hok i s Hi live_s) as (d & Hd & Hp & Hb).
  pose proof (search_loop_from es s q Hq n 0 ltac:(lia) ltac:(lia)) as H. rewrite pos_0 in H by exact Hq.
  destruct H as [[_ Ht]|(d' & y & Hd' & Ht & Hy & [(-> & -> & _)|(-> & Hy')])]; [intros d0 H0; lia|..].
  - destruct (Ht d Hd) as (y & Hy & _ & Hn). rewrite <- Hp, Hi in Hy. now injection Hy as <-.
  - left. do 2 f_equal. exact (tb_unique _ _ Hok _ _ _ Hy Hi live_s).
  - right. exists (pos n q d'). split; [reflexivity|]. destruct (lt_eq_lt_dec d d') as [[Hlt| ->]|Hlt].
    + destruct (Ht d Hlt) as (z & Hz & _ & Hn). rewrite <- Hp, Hi in Hz. now injection Hz as <-.
    + rewrite <- Hp, Hi in Hy. injection Hy as <-. now rewrite live_s in Hy'.
    + apply (match_finds _ i (d - d')); [now apply pos_lt|lia|exact Hi|rewrite pos_pos by lia; rewrite Hp; f_equal; lia|].
      intros e He. rewrite pos_pos by lia. apply Hb. lia.
Qed.

(** And where it is not. *)
Lemma search_absent : (forall i, es !! i <> Some s) -> (base.size (table es us) < n)%nat ->
  exists f y, search_loop n es s q q = Some (inr f) /\ match_loop n es s f f = Some None /\ es !! f = Some y /\ live y = false /\ reach es s f.
Proof.
  intros Hno Hsz. rewrite (table_size es us Hok) in Hsz. destruct (hash_home ltac:(lia)) as [_ Hq].
  pose proof (search_loop_from es s q Hq n 0 ltac:(lia) ltac:(lia)) as H. rewrite pos_0 in H by exact Hq.
  destruct H as [[_ Ht]|(d' & y & Hd' & Ht & Hy & [(_ & -> & _)|(-> & Hy')])]; [intros d0 H0; lia|..].
  - exfalso. rewrite filter_all in Hsz; [lia|]. apply Forall_lookup. intros i x Hx.
    destruct (pos_surj n q i Hq (lookup_lt_Some _ _ _ Hx)) as (d & Hd & <-). destruct (Ht d Hd) as (y & Hy & Hly & _). congruence.
  - now apply Hno in Hy.
  - exists (pos n q d'), y. split; [reflexivity|]. split; [apply match_misses; [now apply pos_lt|exact Hno]|]. split; [exact Hy|]. split; [exact Hy'|].
    exists d'. split; [exact Hd'|]. split; [reflexivity|]. eapply before_impl; [|exact Ht]. intros z [Hz _]. now apply live_not_free.
Qed.

(** What [add_to_buffer] leaves. *)
Record added (u : uuid_t) (old : Z) (es' : list Z) (us' : list uuid_t) : Prop := {
  ad_ok : table_ok es' us';
  ad_table : table es' us' = <[k := u]> (table es us);
  ad_length : length es' = length es;
  ad_old : (old =? k) = bool_decide (is_Some (table es us !! k));
  ad_used : Z.of_nat (used es') = if old =? FREE_E164 then Z.of_nat (used es) + 1 else Z.of_nat (used es) }.

Lemma free_live : (k =? FREE_E164) = false.
Proof. apply Z.eqb_neq. now apply live_not_free. Qed.

Lemma overwrite_added i v : es !! i = Some s -> uuid_ok v -> added (swap_uuid v) k es (<[i := v]> us).
Proof.
  intros Hi Hv. assert (Hes : <[i := s]> es = es) by (now apply list_insert_id). rewrite <- Hes at 1.
  assert (Hok' : table_ok (<[i := s]> es) (<[i := v]> us)).
  { apply update_ok with (y := s); trivial; [apply live_not_free, live_s|apply swap_range|]. intros _. split; [|now apply (tb_reach _ _ Hok i), live_s].
    intros j Hj. exact (tb_unique _ _ Hok _ _ _ Hj Hi live_s). }
  split; [exact Hok'| |now rewrite Hes| |].
  - rewrite (update_add es us Hok i s s v Hi Hok' live_s (or_intror eq_refl)). now rewrite swap_swap.
  - rewrite Z.eqb_refl. symmetry. apply bool_decide_eq_true. apply table_stored; trivial. now exists i.
  - rewrite Hes, free_live. lia.
Qed.

Lemma fresh_added f y v : (forall i, es !! i <> Some s) -> es !! f = Some y -> live y = false -> reach es s f -> uuid_ok v ->
  added (swap_uuid v) (swap_bytes y) (<[f := s]> es) (<[f := v]> us).
Proof.
  intros Hno Hy Hl' Hr Hv. assert (Ry : in_range 64 y) by (destruct Hok as [_ R _ _ _]; rewrite Forall_lookup in R; exact (R f y Hy)).
  assert (Hok' : table_ok (<[f := s]> es) (<[f := v]> us)).
  { apply update_ok with (y := y); trivial; [apply live_not_free, live_s|apply swap_range|]. intros _. split; [|exact Hr]. intros j Hj. now apply Hno in Hj. }
  split; [exact Hok'| |apply length_insert| |].
  - rewrite (update_add es us Hok f s y v Hy Hok' live_s (or_introl Hl')). now rewrite swap_swap.
  - rewrite bool_decide_eq_false_2; [|rewrite table_stored by trivial; intros [i Hi]; now apply Hno in Hi].
    apply Z.eqb_neq. intros E. rewrite <- E, live_swap in Hl by exact Ry. congruence.
  - pose proof (used_insert es f s y Hy) as Hu. rewrite (proj2 (Z.eqb_neq s FREE_E164)) in Hu by (apply live_not_free, live_s).
    rewrite (swap_eqb y FREE_E164 Ry eq_refl). destruct (y =? FREE_E164); lia.
Qed.

Lemma add_spec u conv : let v := if conv : bool then swap_uuid u else u in uuid_ok v ->
  is_Some (table es us !! k) \/ (base.size (table es us) < length es)%nat ->
  exists old es' us', add_to_buffer es us k u conv = Some (old, es', us') /\ added (swap_uuid v) old es' us'.
Proof.
  intros v Hv Hroom. unfold add_to_buffer. rewrite (proj2 (Nat.eqb_eq n (length us))) by apply Hok. cbn [negb]. fold v.
  destruct (decide (is_Some (table es us !! k))) as [Hin|Hout].
  - apply table_stored in Hin as [i Hi]; trivial. destruct (hash_home ltac:(now apply lookup_lt_Some in Hi; lia)) as [-> _].
    destruct (search_stored i Hi) as [->|(f & -> & ->)]; rewrite swap_swap by exact Hk; eexists _, _, _; (split; [reflexivity|now apply overwrite_added]).
  - destruct Hroom as [|Hroom]; [contradiction|]. destruct (hash_home ltac:(lia)) as [-> _].
    assert (Hno : forall i, es !! i <> Some s) by (intros i Hi; apply Hout, table_stored; trivial; now exists i).
    destruct (search_absent Hno Hroom) as (f & y & -> & -> & Hy & Hly & Hr). rewrite Hy. eexists _, _, _. split; [reflexivity|now apply fresh_added].
Qed.

(** A table that is full panics on a new key. *)
Lemma add_full u conv : (forall i, es !! i <> Some s) -> base.size (table es us) = n -> add_to_buffer es us k u conv = None.
Proof.
  intros Hno Hsz. unfold add_to_buffer. rewrite (proj2 (Nat.eqb_eq n (length us))) by apply Hok. cbn [negb].
  destruct (Nat.eq_dec n 0%nat) as [E|E]; [unfold hash_element; now rewrite E|]. destruct (hash_home ltac:(lia)) as [-> Hq].
  pose proof (search_loop_from es s q Hq n 0 ltac:(lia) ltac:(lia)) as H. rewrite pos_0 in H by exact Hq.
  destruct H as [[-> _]|(d' & y & Hd' & Ht & Hy & [(_ & -> & _)|(-> & Hy')])]; [intros d0 H0; lia|reflexivity|now apply Hno in Hy|].
  exfalso. rewrite (table_size es us Hok) in Hsz.
  pose proof (length_filter_lt (fun x => live x = true) es y ltac:(now apply list_elem_of_lookup_2 in Hy) ltac:(intros Hc; congruence)). lia.
Qed.

(** What [remove_from_buffer] leaves. *)
Record removed (r : bool) (es' : list Z) (us' : list uuid_t) : Prop := {
  rm_ok : table_ok es' us';
  rm_table : table es' us' = delete k (table es us);
  rm_length : length es' = length es;
  rm_removed : r = bool_decide (is_Some (table es us !! k));
  rm_used : used es' = used es }.

Lemma remove_spec : (0 < n)%nat -> exists r es' us', remove_from_buffer es us k = Some (r, es', us') /\ removed r es' us'.
Proof.
  intros Hn. unfold remove_from_buffer. rewrite (proj2 (Nat.eqb_eq n (length us))) by apply Hok. cbn [negb]. destruct (hash_home Hn) as [-> Hq].
  destruct (decide (is_Some (table es us !! k))) as [Hin|Hout].
  - pose proof (proj1 (table_stored es us k Hok Hk Hl) Hin) as [i Hi]. destruct (tb_reach _ _ Hok i s Hi live_s) as (d & Hd & Hp & Hb).
    rewrite (match_finds q i d) by assumption. eexists _, _, _. split; [reflexivity|].
    assert (Hok' : table_ok (<[i := DELETED_E164]> es) (<[i := FREE_UUID]> us)).
    { apply update_ok with (y := s); trivial; [discriminate|unfold in_range, DELETED_E164; lia|split; unfold in_range; cbn; lia|discriminate]. }
    split; [exact Hok'| |apply length_insert|now rewrite bool_decide_eq_true_2|].
    + rewrite (update_delete es us Hok i DELETED_E164 s FREE_UUID Hi Hok' eq_refl live_s). now rewrite swap_swap.
    + pose proof (used_insert es i DELETED_E164 s Hi) as Hu. rewrite (proj2 (Z.eqb_neq s FREE_E164)) in Hu by (apply live_not_free, live_s).
      change (DELETED_E164 =? FREE_E164) with false in Hu. lia.
  - assert (Hno : forall i, es !! i <> Some s) by (intros i Hi; apply Hout, table_stored; trivial; now exists i).
    rewrite (match_misses q Hq Hno). eexists _, _, _. split; [reflexivity|].
    split; trivial; [|now rewrite bool_decide_eq_false_2]. symmetry. apply delete_id. now apply eq_None_not_Some.
Qed.

End Key.

End DirectoryTable.
