(* ===== verification/DirectoryGrowth.v ===== *)
(** How far a table of the directory grows: the division in [rehash], in floating point, by the
    load factor of three quarters. *)
From S2P Require Import Prelude DirectoryMap.
From Stdlib Require Import ZArith Lia Bool SpecFloat.
Open Scope Z_scope.

Module DirectoryGrowth.

(** The slots that [rehash] asks for with [c] elements. *)
Definition slots (f : spec_float) (c : Z) : Z := Float.to_usize (Float.div (Float.of_usize c) (Float.of_f32 f)).

(** * Rounding *)

Lemma digits2_bounds p : 2 ^ (Zpos (digits2_pos p) - 1) <= Zpos p < 2 ^ Zpos (digits2_pos p).
Proof.
  induction p as [p IH|p IH|]; cbn [digits2_pos]; [| |cbn; lia]; rewrite Pos2Z.inj_succ;
    replace (Z.succ (Zpos (digits2_pos p)) - 1) with (Z.succ (Zpos (digits2_pos p) - 1)) by lia; rewrite !Z.pow_succ_r by lia; lia.
Qed.

Lemma digits2_unique p d : 0 < d -> 2 ^ (d - 1) <= Zpos p < 2 ^ d -> Zpos (digits2_pos p) = d.
Proof.
  intros Hd H. pose proof (digits2_bounds p) as B. pose proof (Pos2Z.is_pos (digits2_pos p)).
  assert (d - 1 < Zpos (digits2_pos p)) by (apply (Z.pow_lt_mono_r_iff 2); lia). assert (Zpos (digits2_pos p) - 1 < d) by (apply (Z.pow_lt_mono_r_iff 2); lia). lia.
Qed.

Lemma fexp_normal e : -900 <= e -> fexp 53 1024 e = e - 53.
Proof. unfold fexp, emin. lia. Qed.

Lemma shr_1_half m r s : 0 <= m -> shr_m (shr_1 (Build_shr_record m r s)) = m / 2.
Proof. intros H. destruct m as [|[p|p|]|p]; try lia; cbn [shr_1 shr_m]; [reflexivity|..|reflexivity]; [apply (Z.div_unique_pos _ _ _ 1); lia|apply (Z.div_unique_pos _ _ _ 0); lia]. Qed.

Lemma round_le m l : m <= round_nearest_even m l <= m + 1.
Proof. destruct l as [|[]]; cbn [round_nearest_even]; try destruct (Z.even m); lia. Qed.

(** A mantissa of 53 bits needs no shift, one of 54 is halved. *)
Lemma shr_fexp_53 q e l : 2 ^ 52 <= q < 2 ^ 53 -> -800 <= e -> shr_fexp 53 1024 q e l = (shr_record_of_loc q l, e).
Proof.
  intros Hq He. destruct q as [|p|p]; try lia. unfold shr_fexp. cbn [Zdigits2]. rewrite (digits2_unique p 53), fexp_normal by lia.
  replace (53 + e - 53 - e) with 0 by lia. reflexivity.
Qed.

Lemma shr_fexp_54 q e l : 2 ^ 53 <= q < 2 ^ 54 -> -800 <= e -> shr_fexp 53 1024 q e l = (shr_1 (shr_record_of_loc q l), e + 1).
Proof.
  intros Hq He. destruct q as [|p|p]; try lia. unfold shr_fexp. cbn [Zdigits2]. rewrite (digits2_unique p 54), fexp_normal by lia.
  replace (54 + e - 53 - e) with 1 by lia. reflexivity.
Qed.

Lemma of_loc_m q l : shr_m (shr_record_of_loc q l) = q.
Proof. now destruct l as [|[]]. Qed.

Lemma of_loc_half q l : 0 <= q -> shr_m (shr_1 (shr_record_of_loc q l)) = q / 2.
Proof. intros H. destruct l as [|[]]; now apply shr_1_half. Qed.

(** The second half of the rounding, for a mantissa that was rounded up at most to [2 ^ 53]. *)
Lemma finish m e : 2 ^ 52 <= m <= 2 ^ 53 -> -800 <= e <= 800 -> exists M j,
  (let '(mrs, e) := shr_fexp 53 1024 m e loc_Exact in
   match shr_m mrs with
   | Z0 => S754_zero false
   | Zpos m => if e <=? 1024 - 53 then S754_finite false m e else S754_infinity false
   | _ => S754_nan
   end) = S754_finite false M (e + j) /\ 0 <= j <= 1 /\ Zpos M * 2 ^ j = m.
Proof.
  intros Hm He. destruct (Z.eq_dec m (2 ^ 53)) as [->|Hn].
  - exists (2 ^ 52)%positive, 1. rewrite shr_fexp_54 by lia. rewrite of_loc_half by lia. split; [|now split].
    change (2 ^ 53 / 2) with (Zpos (2 ^ 52)). cbn beta iota. now rewrite (proj2 (Z.leb_le _ _)) by lia.
  - rewrite shr_fexp_53 by lia. rewrite of_loc_m. destruct m as [|M|]; try lia. exists M, 0. rewrite Z.add_0_r.
    rewrite (proj2 (Z.leb_le _ _)) by lia. split; [reflexivity|]. split; lia.
Qed.

(** What is rounded to 53 bits from 53 or 54 is off by at most 2, and not below the even number. *)
Lemma round_aux q e l : 2 ^ 52 <= q < 2 ^ 54 -> -700 <= e <= 700 -> exists M j,
  binary_round_aux 53 1024 false q e l = S754_finite false M (e + j) /\ 0 <= j <= 2 /\ 2 * (q / 2) <= Zpos M * 2 ^ j <= q + 2.
Proof.
  intros Hq He. unfold binary_round_aux. pose proof (Z.div_mod q 2 ltac:(lia)) as Dq. pose proof (Z.mod_pos_bound q 2 ltac:(lia)) as Bq.
  destruct (Z.lt_ge_cases q (2 ^ 53)) as [H|H].
  - rewrite shr_fexp_53 by lia. set (lo := loc_of_shr_record _). rewrite of_loc_m. pose proof (round_le q lo) as R.
    destruct (finish (round_nearest_even q lo) e) as (M & j & -> & Hj & E); [lia|lia|]. exists M, j. rewrite E. repeat split; lia.
  - rewrite shr_fexp_54 by lia. set (lo := loc_of_shr_record _). rewrite of_loc_half by lia. pose proof (round_le (q / 2) lo) as R.
    destruct (finish (round_nearest_even (q / 2) lo) (e + 1)) as (M & j & -> & Hj & E); [lia|lia|]. exists M, (j + 1).
    rewrite Z.pow_add_r, Z.mul_assoc, E by lia. split; [f_equal; lia|]. split; lia.
Qed.

(** * Three quarters *)

Definition three_quarters : spec_float := S754_finite false 12582912 (-24).

Lemma of_usize_normal c : 1 <= c < 2 ^ 51 -> exists m t, Float.of_usize c = S754_finite false m (- t) /\ 2 <= t <= 52 /\ Zpos m = c * 2 ^ t /\ 2 ^ 52 <= Zpos m < 2 ^ 53.
Proof.
  intros Hc. destruct c as [|p|p]; try lia. unfold Float.of_usize, binary_normalize, binary_round. pose proof (digits2_bounds p) as B.
  set (d := Zpos (digits2_pos p)) in *. assert (Hd : 1 <= d <= 51).
  { split; [unfold d; lia|]. enough (d - 1 < 51) by lia. apply (Z.pow_lt_mono_r_iff 2); lia. }
  rewrite Z.add_0_r, fexp_normal by lia. unfold shl_align. replace (d - 53 - 0) with (Z.neg (Z.to_pos (53 - d))) by lia.
  assert (Em : Zpos (Pos.iter xO p (Z.to_pos (53 - d))) = Zpos p * 2 ^ (53 - d)).
  { rewrite <- (Z2Pos.id (53 - d)) at 2 by lia. rewrite <- Z.shiftl_mul_pow2 by lia. cbn [Z.shiftl]. 
    apply (Pos.iter_swap_gen _ _ Z.pos xO (Z.mul 2)). reflexivity. }
  assert (Hm : 2 ^ 52 <= Zpos (Pos.iter xO p (Z.to_pos (53 - d))) < 2 ^ 53).
  { rewrite Em. replace (2 ^ 52) with (2 ^ (d - 1) * 2 ^ (53 - d)) by (rewrite <- Z.pow_add_r by lia; f_equal; lia).
    replace (2 ^ 53) with (2 ^ d * 2 ^ (53 - d)) by (rewrite <- Z.pow_add_r by lia; f_equal; lia). nia. }
  exists (Pos.iter xO p (Z.to_pos (53 - d))), (53 - d). split; [|split; [lia|now split]].
  unfold binary_round_aux. rewrite !shr_fexp_53 by lia. cbn [shr_record_of_loc loc_of_shr_record round_nearest_even shr_m].
  rewrite shr_fexp_53 by lia. cbn [shr_record_of_loc shr_m]. rewrite (proj2 (Z.leb_le _ _)) by lia. f_equal. lia.
Qed.

(** From three elements on a table with this load factor always gets a free slot, and never more
    than two slots for an element. *)
Lemma three_quarters_slots c : 3 <= c < 2 ^ 51 -> c < slots three_quarters c <= 2 * c.
Proof.
  intros Hc. unfold slots. destruct (of_usize_normal c) as (m & t & -> & Ht & Em & Hm); [lia|].
  change (Float.of_f32 three_quarters) with (S754_finite false 6755399441055744 (-53)). unfold Float.div, SFdiv, SFdiv_core_binary. cbn [Zdigits2].
  rewrite (digits2_unique m 53) by lia. change (Zpos (digits2_pos 6755399441055744)) with 53. rewrite fexp_normal by lia.
  replace (Z.min _ _) with (- t) by lia. replace (- t - -53 - - t) with 53 by lia. rewrite Z.shiftl_mul_pow2, Em by lia.
  pose proof (Z.div_mod (c * 2 ^ t * 2 ^ 53) 6755399441055744 ltac:(lia)) as Dq. pose proof (Z.mod_pos_bound (c * 2 ^ t * 2 ^ 53) 6755399441055744 ltac:(lia)) as Bq.
  unfold Z.div, Z.modulo in Dq, Bq. destruct (Z.div_eucl _ _) as [q r]. cbn [xorb].
  destruct (round_aux q (- t) (new_location 6755399441055744 r)) as (M & j & -> & Hj & B); [lia|lia|]. cbn [Float.to_usize].
  assert (P : 2 ^ t = 2 * 2 ^ (t - 1)) by (rewrite <- Z.pow_succ_r by lia; f_equal; lia). assert (0 < 2 ^ (t - 1)) by lia.
  assert (Pj : 2 ^ t = 2 ^ j * 2 ^ (t - j)) by (rewrite <- Z.pow_add_r by lia; f_equal; lia). assert (0 < 2 ^ j /\ 0 < 2 ^ (t - j)) by lia.
  replace (- t + j) with (- (t - j)) by lia. rewrite Z.shiftl_opp_r, Z.shiftr_div_pow2 by lia.
  assert (Tc : 3 * 2 ^ t <= c * 2 ^ t) by (apply Z.mul_le_mono_nonneg_r; lia).
  assert (Lq : (c + 1) * 2 ^ (t - 1) <= q / 2) by (apply Z.div_le_lower_bound; lia).
  assert (c + 1 <= Zpos M / 2 ^ (t - j)).
  { apply Z.div_le_lower_bound; [lia|]. apply (Z.mul_le_mono_pos_r _ _ (2 ^ j)); [lia|]. transitivity ((c + 1) * 2 ^ t); [rewrite Pj|]; lia. }
  assert (Zpos M / 2 ^ (t - j) <= 2 * c).
  { apply Z.div_le_upper_bound; [lia|]. apply (Z.mul_le_mono_pos_r _ _ (2 ^ j)); [lia|]. transitivity (2 * (c * 2 ^ t)); [|rewrite Pj]; lia. }
  unfold Float.usize_max. lia.
Qed.

End DirectoryGrowth.
