(* ===== verification/DirectorySpec.v ===== *)
(** What the directory does: its buffers implement a finite map, and the enclave finds in them
    what was committed. *)
From S2P Require Import Prelude Codec Service HashLookup HashTable DirectoryMap DirectoryTable DirectoryGrowth.
From Stdlib Require Import ZArith List Lia Bool SpecFloat.
From stdpp Require Import gmap.
Import Codec Service HashLookup HashTable InternalBuffers DirectoryTable DirectoryGrowth.
Open Scope Z_scope.

Module DirectorySpec.

Abbreviation map := (gmap Z uuid_t).
Abbreviation count m := (Z.of_nat (base.size (m : gmap Z uuid_t))).

(** The buffers hold the map [m], and their counters are right. *)
Record buffers_ok (b : InternalBuffers) (m : map) : Prop := {
  bo_table : table_ok (e164s_buffer b) (uuids_buffer b);
  bo_map : table (e164s_buffer b) (uuids_buffer b) = m;
  bo_count : element_count b = count m;
  bo_used : used_slot_count b = Z.of_nat (used (e164s_buffer b));
  bo_bytes : 16 * capacity b < 2 ^ 63 }.

(** * Empty buffers *)

Lemma fresh_table n : table_ok (replicate n FREE_E164) (replicate n FREE_UUID) /\
  table (replicate n FREE_E164) (replicate n FREE_UUID) = ∅ /\ used (replicate n FREE_E164) = 0%nat.
Proof.
  assert (Hnone : forall i x, replicate n FREE_E164 !! i = Some x -> live x = false) by (now intros i x [-> _]%lookup_replicate).
  split; [split|split].
  - now rewrite !length_replicate.
  - apply Forall_replicate. unfold in_range, FREE_E164. lia.
  - apply Forall_replicate. split; unfold in_range; cbn; lia.
  - intros i x Hx Hl. now rewrite (Hnone i x Hx) in Hl.
  - intros i j x Hx _ Hl. now rewrite (Hnone i x Hx) in Hl.
  - clear Hnone. induction n as [|n IH]; [reflexivity|]. exact IH.
  - unfold used. clear Hnone. induction n as [|n IH]; [reflexivity|]. cbn [replicate]. rewrite filter_cons, decide_False by (now intros H; apply H). exact IH.
Qed.

Lemma vec_resized_some {A} size n (x : A) : 0 <= n -> 0 < size <= 16 -> 16 * n < 2 ^ 63 -> vec_resized size n x = Some (replicate (Z.to_nat n) x).
Proof. intros. unfold vec_resized. rewrite (proj2 (Z.ltb_lt _ _)) by nia. reflexivity. Qed.

(** * Growing *)

Section Rehash.
Context (old_es : list Z) (old_us : list uuid_t) (Hold : table_ok old_es old_us).

Lemma rehash_loop_spec suf : forall sufu pre preu es us, old_es = pre ++ suf -> old_us = preu ++ sufu -> length pre = length preu ->
  table_ok es us -> table es us = list_to_map (entries pre preu) -> (length (entries old_es old_us) <= length es)%nat ->
  exists es' us', rehash_loop suf sufu es us (Z.of_nat (used es)) = Some (es', us', Z.of_nat (used es')) /\
    table_ok es' us' /\ table es' us' = table old_es old_us /\ length es' = length es.
Proof.
  induction suf as [|x suf IH]; intros sufu pre preu es us E1 E2 L Hok Ht Hroom; cbn [rehash_loop].
  - exists es, us. split; [reflexivity|]. split; [exact Hok|]. split; [|reflexivity]. rewrite Ht. unfold table. rewrite app_nil_r in E1. subst pre.
    pose proof (tb_length _ _ Hold) as Hl. rewrite E2, length_app in Hl. assert (sufu = []) as -> by (apply length_zero_iff_nil; lia).
    now rewrite E2, app_nil_r.
  - pose proof (tb_length _ _ Hold) as Hl. destruct sufu as [|v sufu]; [rewrite E1, E2, !length_app in Hl; cbn in Hl; lia|].
    assert (Hx : old_es !! length pre = Some x) by (rewrite E1; now apply list_lookup_middle).
    assert (Rx : in_range 64 x) by (destruct Hold as [_ R _ _ _]; rewrite Forall_lookup in R; exact (R _ _ Hx)).
    assert (Vv : uuid_ok v) by (destruct Hold as [_ _ V _ _]; rewrite Forall_lookup in V; apply (V (length preu)); rewrite E2; now apply list_lookup_middle).
    fold (live (swap_bytes x)). rewrite live_swap by exact Rx.
    assert (Epre : entries (pre ++ [x]) (preu ++ [v]) = entries pre preu ++ entry x v) by (rewrite entries_app by exact L; cbn [entries]; now rewrite app_nil_r).
    assert (Eall : entries old_es old_us = entries pre preu ++ entry x v ++ entries suf sufu) by (rewrite E1, E2, entries_app by exact L; reflexivity).
    pose proof (entries_nodup _ _ Hold) as Hn. rewrite Eall, !fmap_app in Hn. unfold entry in *.
    destruct (live x) eqn:El.
    + apply NoDup_app in Hn as (Hn1 & Hn2 & _). assert (Hk : swap_bytes x ∉ (entries pre preu).*1) by (intros Hin; apply (Hn2 _ Hin); now left).
      assert (Hsz : (base.size (table es us) < length es)%nat).
      { rewrite Ht, map_size_list_to_map by exact Hn1. rewrite Eall, !length_app in Hroom. cbn [length] in Hroom. lia. }
      destruct (add_spec es us Hok (swap_bytes x) (swap_range x) ltac:(now rewrite live_swap) v false Vv (or_intror Hsz)) as (o & es' & us' & -> & [A1 A2 A3 _ A5]).
      rewrite <- A5, <- A3 in *. apply (IH sufu (pre ++ [x]) (preu ++ [v])); trivial.
      * now rewrite <- app_assoc.
      * now rewrite <- app_assoc.
      * rewrite !length_app. cbn. lia.
      * rewrite A2, Ht, Epre. symmetry. now apply list_to_map_snoc.
    + apply (IH sufu (pre ++ [x]) (preu ++ [v])); trivial.
      * now rewrite <- app_assoc.
      * now rewrite <- app_assoc.
      * rewrite !length_app. cbn. lia.
      * now rewrite Epre, app_nil_r.
Qed.

End Rehash.

(** What [rehash] leaves. *)
Record rehashed (b b' : InternalBuffers) : Prop := {
  rh_min : min_load_factor b' = min_load_factor b;
  rh_max : max_load_factor b' = max_load_factor b;
  rh_capacity : capacity b' = new_slot_count b }.

Lemma capacity_room b m : buffers_ok b m -> count m <= capacity b.
Proof. intros [Ht Hm _ _ _]. rewrite <- Hm, (table_size _ _ Ht). unfold capacity. pose proof (length_filter (fun x => live x = true) (e164s_buffer b)). lia. Qed.

Lemma rehash_spec b m : buffers_ok b m -> 16 * new_slot_count b < 2 ^ 63 -> exists b', rehash b = Some b' /\ buffers_ok b' m /\ rehashed b b'.
Proof.
  intros H Hfit. pose proof (capacity_room b m H) as Hc. destruct H as [Ht Hm Hn Hu Hb]. unfold rehash. set (n := new_slot_count b) in *.
  assert (Hn0 : capacity b <= n) by (unfold n, new_slot_count; lia). assert (0 <= capacity b) by (unfold capacity; lia).
  rewrite !vec_resized_some by lia. destruct (fresh_table (Z.to_nat n)) as (F1 & F2 & F3).
  destruct (rehash_loop_spec _ _ Ht (e164s_buffer b) (uuids_buffer b) [] [] _ _ eq_refl eq_refl eq_refl F1 F2) as (es & us & E & T1 & T2 & T3).
  - rewrite <- (length_fmap fst), entries_keys, length_fmap by apply Ht. rewrite length_replicate.
    pose proof (length_filter (fun x => live x = true) (e164s_buffer b)). unfold capacity in *. lia.
  - rewrite F3 in E. change (Z.of_nat 0) with 0 in E. rewrite E. eexists. split; [reflexivity|]. rewrite length_replicate in T3.
    split; split; cbn [e164s_buffer uuids_buffer element_count used_slot_count min_load_factor max_load_factor]; trivial.
    + now rewrite T2.
    + unfold capacity. cbn [e164s_buffer]. rewrite T3. lia.
    + unfold capacity at 1. cbn [e164s_buffer]. rewrite T3. lia.
Qed.

(** * Inserting and removing *)

Lemma new_slots b : new_slot_count b = Z.max (slots (min_load_factor b) (element_count b)) (capacity b).
Proof. reflexivity. Qed.

Lemma invalid_key k : (k =? DELETED_E164) || (k =? FREE_E164) = negb (live k).
Proof. unfold live. destruct (k =? FREE_E164), (k =? DELETED_E164); reflexivity. Qed.

Lemma swap_uuid_ok u : uuid_ok (swap_uuid u).
Proof. split; apply swap_range. Qed.

Lemma swap_swap_uuid u : uuid_ok u -> swap_uuid (swap_uuid u) = u.
Proof. intros [H1 H2]. destruct u. unfold swap_uuid. cbn [fst snd] in *. now rewrite !swap_swap. Qed.

Lemma count_insert (m : map) k u : count (<[k := u]> m) = if bool_decide (is_Some (m !! k)) then count m else count m + 1.
Proof.
  case_bool_decide as H; [now rewrite map_size_insert_Some|]. rewrite map_size_insert_None by (now apply eq_None_not_Some). lia.
Qed.

Lemma u64_small x : 0 <= x < 2 ^ 64 -> u64 x = x.
Proof. intros H. apply wrap_small. exact H. Qed.

Lemma used_le es : (used es <= length es)%nat.
Proof. apply length_filter. Qed.

Section Insert.
Context (b : InternalBuffers) (m : map) (Hb : buffers_ok b m) (k : Z) (Hk : in_range 64 k) (u : uuid_t) (Hu : uuid_ok u).
Context (Hfit : forall c, count m <= c <= count m + 1 -> 16 * slots (min_load_factor b) c < 2 ^ 63).

(** The table before the key is added. *)
Lemma make_room : exists b1, (if element_count b =? capacity b then rehash b else Some b) = Some b1 /\ buffers_ok b1 m /\
  min_load_factor b1 = min_load_factor b /\ capacity b1 = (if element_count b =? capacity b then new_slot_count b else capacity b).
Proof.
  destruct (Z.eqb_spec (element_count b) (capacity b)) as [E|E]; [|now exists b].
  assert (Hn : 16 * new_slot_count b < 2 ^ 63).
  { rewrite new_slots. pose proof (Hfit (element_count b)) as H. pose proof (bo_count _ _ Hb). pose proof (bo_bytes _ _ Hb). lia. }
  destruct (rehash_spec b m Hb Hn) as (b1 & -> & H1 & [R1 R2 R3]). now exists b1.
Qed.

Lemma insert_added : live k = true -> (element_count b = capacity b -> is_Some (m !! k) \/ capacity b < new_slot_count b) ->
  exists b', insert b k u = Some (Ok (bool_decide (m !! k = None)), b') /\ buffers_ok b' (<[k := u]> m) /\
    min_load_factor b' = min_load_factor b /\ capacity b <= capacity b'.
Proof.
  intros Hl Hgrow. unfold insert. rewrite invalid_key, Hl. cbn [negb]. destruct make_room as (b1 & -> & H1 & Hmin & Hcap).
  pose proof (capacity_room b m Hb) as Hroom. rewrite (proj2 (Z.ltb_ge _ _)) by (rewrite (bo_count _ _ H1); exact Hroom).
  assert (Hle : capacity b <= capacity b1) by (rewrite Hcap; unfold new_slot_count; destruct (_ =? _); lia).
  assert (Hr : is_Some (table (e164s_buffer b1) (uuids_buffer b1) !! k) \/
    (base.size (table (e164s_buffer b1) (uuids_buffer b1)) < length (e164s_buffer b1))%nat).
  { rewrite (bo_map _ _ H1). pose proof (bo_count _ _ Hb) as Hc. destruct (Z.eqb_spec (element_count b) (capacity b)) as [E|E].
    - destruct (Hgrow E) as [|Hg]; [now left|right]. unfold capacity in *. lia.
    - right. unfold capacity in *. lia. }
  destruct H1 as [T1 T2 T3 T4 T5]. destruct (add_spec _ _ T1 k Hk Hl u true (swap_uuid_ok u) Hr) as (o & es & us & -> & [A1 A2 A3 A4 A5]).
  rewrite swap_swap_uuid, T2 in A2 by exact Hu. rewrite T2 in A4. rewrite A4. set (b2 := Build_InternalBuffers _ _ _ _ es us).
  assert (H2 : buffers_ok b2 (<[k := u]> m)).
  { subst b2. split; cbn [e164s_buffer uuids_buffer element_count used_slot_count]; trivial.
    - rewrite count_insert, T3. destruct (bool_decide _); [reflexivity|]. cbn [negb]. rewrite u64_small; [reflexivity|lia].
    - rewrite A5, T4. destruct (o =? FREE_E164); [|reflexivity]. rewrite u64_small; [lia|]. pose proof (used_le (e164s_buffer b1)). unfold capacity in T5. lia.
    - unfold capacity in *. cbn [e164s_buffer]. now rewrite A3. }
  assert (E2 : negb (bool_decide (is_Some (m !! k))) = bool_decide (m !! k = None)) by (destruct (m !! k); reflexivity). rewrite E2.
  assert (C2 : capacity b2 = capacity b1) by (unfold capacity; cbn [e164s_buffer b2]; now rewrite A3).
  destruct (_ <=? _); [|exists b2; split; [reflexivity|]; split; [exact H2|]; split; [exact Hmin|lia]].
  destruct (rehash_spec b2 _ H2) as (b3 & -> & H3 & [R1 R2 R3]).
  - rewrite new_slots, (bo_count _ _ H2), count_insert, C2. cbn [min_load_factor b2]. rewrite Hmin.
    destruct (bool_decide _); [pose proof (Hfit (count m))|pose proof (Hfit (count m + 1))]; lia.
  - exists b3. split; [reflexivity|]. split; [exact H3|]. split; [now rewrite R1|]. rewrite R3, new_slots. lia.
Qed.

(** A table that cannot grow panics when it is full. *)
Lemma insert_panics : live k = true -> m !! k = None -> element_count b = capacity b -> new_slot_count b = capacity b -> insert b k u = None.
Proof.
  intros Hl Hno Hc Hn. unfold insert. rewrite invalid_key, Hl. cbn [negb]. destruct make_room as (b1 & -> & H1 & Hmin & Hcap).
  pose proof (capacity_room b m Hb) as Hroom. rewrite (proj2 (Z.ltb_ge _ _)) by (rewrite (bo_count _ _ H1); exact Hroom).
  rewrite Hc, Z.eqb_refl, Hn in Hcap. destruct H1 as [T1 T2 T3 T4 T5]. rewrite add_full; trivial.
  - intros i Hi. enough (is_Some (m !! k)) by (rewrite Hno in *; now apply is_Some_None in H). rewrite <- T2. apply table_stored; trivial. now exists i.
  - rewrite T2. rewrite (bo_count _ _ Hb) in Hc. unfold capacity in *. lia.
Qed.

End Insert.

Lemma remove_removed b m k : buffers_ok b m -> in_range 64 k -> live k = true -> 0 < capacity b ->
  exists b', remove b k = Some (Ok (bool_decide (is_Some (m !! k))), b') /\ buffers_ok b' (delete k m) /\
    min_load_factor b' = min_load_factor b /\ capacity b' = capacity b.
Proof.
  intros Hb Hk Hl Hc. pose proof (capacity_room b m Hb) as Hroom. destruct Hb as [T1 T2 T3 T4 T5]. unfold remove. rewrite invalid_key, Hl. cbn [negb].
  destruct (remove_spec _ _ T1 k Hk Hl) as (r & es & us & -> & [A1 A2 A3 A4 A5]); [unfold capacity in Hc; lia|]. rewrite T2 in A2, A4.
  eexists. rewrite <- A4. split; [reflexivity|]. split; [|split; [reflexivity|]]; [split|]; cbn [e164s_buffer uuids_buffer element_count used_slot_count]; trivial.
  - rewrite T3, A4. case_bool_decide as Hs; [|rewrite map_size_delete_None; [lia|now apply eq_None_not_Some]].
    rewrite map_size_delete_Some by exact Hs. destruct Hs as [x Hx]. assert (base.size m <> 0%nat); [|rewrite u64_small; lia].
    intros E. apply map_size_empty_inv in E. now rewrite E in Hx.
  - now rewrite A5.
  - unfold capacity in *. cbn [e164s_buffer]. now rewrite A3.
  - unfold capacity. cbn [e164s_buffer]. now rewrite A3.
Qed.

(** * The directory is a pair of maps *)

Lemma copy_from_spec b src m n : buffers_ok b m -> buffers_ok src n -> copy_from b src = Some src.
Proof.
  intros [Hb _ _ _ _] [Hs _ _ _ _]. pose proof (tb_length _ _ Hb). pose proof (tb_length _ _ Hs). unfold copy_from, copy_from_slice, vec_resize.
  destruct (Nat.eqb_spec (length (e164s_buffer b)) (length (e164s_buffer src))); cbn [negb].
  - rewrite !(proj2 (Nat.eqb_eq _ _)) by congruence. now destruct src.
  - rewrite !length_app, !length_take, !length_replicate, !(proj2 (Nat.eqb_eq _ _)) by lia. now destruct src.
Qed.

(** The calls of the Java side. *)
Inductive call : Type := Insert (e164 : Z) (uuid : uuid_t) | Remove (e164 : Z) | Commit.
Definition perform (c : call) (d : DirectoryMap.DirectoryMap) : DirectoryMap.outcome bool * DirectoryMap.DirectoryMap :=
  match c with
  | Insert k u => DirectoryMap.insert d k u
  | Remove k => DirectoryMap.remove d k
  | Commit => DirectoryMap.commit d
  end.
Definition call_ok (c : call) : Prop :=
  match c with Insert k u => in_range 64 k /\ uuid_ok u | Remove k => in_range 64 k | Commit => True end.

(** What they promise: a map that is built, one that is served, and whether a number was added to
    the one or taken out of it since it was last served. *)
Record directory : Type := { d_changed : bool; d_building : map; d_serving : map }.
Definition promise (c : call) (s : directory) : Result bool InternalBuffersError * directory :=
  match c with
  | Insert k u =>
      if live k then
        let added := bool_decide (d_building s !! k = None) in
        (Ok added, {| d_changed := if added then true else d_changed s; d_building := <[k := u]> (d_building s); d_serving := d_serving s |})
      else (Err (InvalidE164 k), s)
  | Remove k =>
      if live k then
        let removed := bool_decide (is_Some (d_building s !! k)) in
        (Ok removed, {| d_changed := if removed then true else d_changed s; d_building := delete k (d_building s); d_serving := d_serving s |})
      else (Err (InvalidE164 k), s)
  | Commit => if d_changed s then (Ok true, {| d_changed := false; d_building := d_building s; d_serving := d_building s |}) else (Ok false, s)
  end.

(** The results of calls in turn. *)
Fixpoint in_turn {S R} (f : call -> S -> R * S) (cs : list call) (s : S) : list R * S :=
  match cs with
  | [] => ([], s)
  | c :: cs' => let '(r, s) := f c s in let '(rs, s) := in_turn f cs' s in (r :: rs, s)
  end.

Section Refinement.
(** Tables of [lo] slots and more with up to [hi] elements grow when they are full, to what can be
    allocated. *)
Context (f : spec_float) (lo hi : Z) (Hlo : 0 < lo).
Context (Hgrow : forall c, lo <= c <= hi -> c < slots f c) (Hfit : forall c, 0 <= c <= hi -> 16 * slots f c < 2 ^ 63).

Record buffers_at (b : InternalBuffers) (m : map) : Prop := {
  ba_ok : buffers_ok b m; ba_min : min_load_factor b = f; ba_lo : lo <= capacity b }.
Record implements (d : DirectoryMap.DirectoryMap) (s : directory) : Prop := {
  im_lock : DirectoryMap.poisoned d = false;
  im_changed : DirectoryMap.changed d = d_changed s;
  im_building : buffers_at (DirectoryMap.building d) (d_building s);
  im_serving : buffers_at (DirectoryMap.serving d) (d_serving s) }.

Lemma insert_at b m k u : buffers_at b m -> in_range 64 k -> uuid_ok u -> live k = true -> count m < hi ->
  exists b', insert b k u = Some (Ok (bool_decide (m !! k = None)), b') /\ buffers_at b' (<[k := u]> m).
Proof.
  intros [Hb Hf Hc] Hk Hu Hl Hn. destruct (insert_added b m Hb k Hk u Hu) as (b' & -> & Hb' & Hm & Hc'); [|exact Hl| |].
  - intros c Hr. rewrite Hf. apply Hfit. lia.
  - intros E. right. rewrite new_slots, Hf, E. pose proof (bo_count _ _ Hb). pose proof (Hgrow (capacity b)). lia.
  - exists b'. split; [reflexivity|]. split; [exact Hb'|congruence|lia].
Qed.

Lemma remove_at b m k : buffers_at b m -> in_range 64 k -> live k = true ->
  exists b', remove b k = Some (Ok (bool_decide (is_Some (m !! k))), b') /\ buffers_at b' (delete k m).
Proof.
  intros [Hb Hf Hc] Hk Hl. destruct (remove_removed b m k Hb Hk Hl) as (b' & -> & Hb' & Hm & Hc'); [lia|].
  exists b'. split; [reflexivity|]. split; [exact Hb'|congruence|lia].
Qed.

Lemma perform_promise c d s : implements d s -> call_ok c -> count (d_building s) < hi ->
  exists d', perform c d = (DirectoryMap.Returns (fst (promise c s)), d') /\ implements d' (snd (promise c s)) /\
    count (d_building (snd (promise c s))) <= count (d_building s) + 1.
Proof.
  intros [Hp Hch Hb Hs] Hc Hn. destruct c as [k u|k|]; cbn [perform promise].
  - unfold DirectoryMap.insert, DirectoryMap.update. rewrite Hp. destruct (live k) eqn:El.
    + destruct (insert_at _ _ k u Hb (proj1 Hc) (proj2 Hc) El Hn) as (b' & -> & Hb'). eexists. split; [reflexivity|]. cbn [fst snd d_building].
      split; [|rewrite count_insert; destruct (bool_decide _); lia]. split; cbn; trivial. rewrite Hch. now destruct (bool_decide _).
    + unfold insert. rewrite invalid_key, El. eexists. split; [reflexivity|]. split; [now split|cbn; lia].
  - unfold DirectoryMap.remove, DirectoryMap.update. rewrite Hp. destruct (live k) eqn:El.
    + destruct (remove_at _ _ k Hb Hc El) as (b' & -> & Hb'). eexists. split; [reflexivity|]. cbn [fst snd d_building].
      split; [|rewrite map_size_delete; destruct (d_building s !! k); unfold id; lia]. split; cbn; trivial. rewrite Hch. now destruct (bool_decide _).
    + unfold remove. rewrite invalid_key, El. eexists. split; [reflexivity|]. split; [now split|cbn; lia].
  - unfold DirectoryMap.commit. rewrite Hp, Hch. destruct (d_changed s) eqn:Ed; cbn [negb].
    + cbn [DirectoryMap.building DirectoryMap.serving]. rewrite (copy_from_spec _ _ _ _ (ba_ok _ _ Hs) (ba_ok _ _ Hb)).
      eexists. split; [reflexivity|]. split; [now split|cbn; lia].
    + exists d. split; [reflexivity|]. split; [|cbn; lia]. split; cbn; trivial; congruence.
Qed.

Lemma in_turn_promises cs : forall d s, implements d s -> Forall call_ok cs -> count (d_building s) + Z.of_nat (length cs) <= hi ->
  exists d', in_turn perform cs d = (List.map DirectoryMap.Returns (fst (in_turn promise cs s)), d') /\ implements d' (snd (in_turn promise cs s)).
Proof.
  induction cs as [|c cs IH]; intros d s Hd Hok Hn; [now exists d|]. apply Forall_cons in Hok as [Hc Hcs]. cbn [in_turn length] in *.
  destruct (perform_promise c d s Hd Hc) as (d1 & -> & H1 & Hn1); [lia|]. destruct (promise c s) as [r s1]. cbn [fst snd] in *.
  destruct (IH d1 s1 H1 Hcs ltac:(lia)) as (d2 & -> & H2). destruct (in_turn promise cs s1) as [rs s2]. now exists d2.
Qed.

Lemma new_implements cap g d : lo <= cap -> DirectoryMap.new cap f g = DirectoryMap.Returns (Ok d) ->
  implements d {| d_changed := false; d_building := ∅; d_serving := ∅ |}.
Proof.
  intros Hc. unfold DirectoryMap.new, InternalBuffers.new. destruct (_ || _); [discriminate|]. destruct (_ || _); [discriminate|]. destruct (SFleb _ _); [discriminate|].
  unfold vec_resized. destruct (Z.ltb_spec (8 * cap) (2 ^ 63)); [|discriminate]. destruct (Z.ltb_spec (16 * cap) (2 ^ 63)) as [H16|]; [|discriminate].
  intros [= <-]. destruct (fresh_table (Z.to_nat cap)) as (F1 & F2 & F3).
  assert (buffers_at {| min_load_factor := f; max_load_factor := g; element_count := 0; used_slot_count := 0;
    e164s_buffer := replicate (Z.to_nat cap) FREE_E164; uuids_buffer := replicate (Z.to_nat cap) FREE_UUID |} ∅).
  { split; [|reflexivity|unfold capacity; cbn; rewrite length_replicate; lia]. split; cbn [e164s_buffer uuids_buffer element_count used_slot_count]; trivial; [now rewrite F3|].
    unfold capacity. cbn [e164s_buffer]. rewrite length_replicate. lia. }
  now split.
Qed.

End Refinement.

(** Load factors of three quarters and more slots than two. *)
Lemma three_quarters_grow c : 3 <= c <= 2 ^ 50 -> c < slots three_quarters c.
Proof. intros H. apply three_quarters_slots. lia. Qed.

Lemma three_quarters_fit c : 0 <= c <= 2 ^ 50 -> 16 * slots three_quarters c < 2 ^ 63.
Proof.
  intros H. destruct (Z.lt_ge_cases c 3) as [|Hge]; [|pose proof (three_quarters_slots c); lia].
  assert (c = 0 \/ c = 1 \/ c = 2) as [->|[->| ->]] by lia; vm_compute; reflexivity.
Qed.

(** C3. The directory refines a pair of finite maps: whatever numbers are inserted and removed, and
    whenever it is committed, every call answers what the maps say and none panics, as long as its
    load factor lets a full table grow; what is served is the map as it was at the last commit that
    had a change. *)
Theorem directory_refines f g lo hi cap d cs (Hlo : 0 < lo <= cap) (Hgrow : forall c, lo <= c <= hi -> c < slots f c)
  (Hfit : forall c, 0 <= c <= hi -> 16 * slots f c < 2 ^ 63) (Hnew : DirectoryMap.new cap f g = DirectoryMap.Returns (Ok d))
  (Hcs : Forall call_ok cs) (Hn : Z.of_nat (length cs) <= hi) :
  let '(rs, s) := in_turn promise cs {| d_changed := false; d_building := ∅; d_serving := ∅ |} in
  exists d', in_turn perform cs d = (List.map DirectoryMap.Returns rs, d') /\ implements f lo d' s /\
    DirectoryMap.size d' = count (d_serving s).
Proof.
  destruct (in_turn_promises f lo hi ltac:(lia) Hgrow Hfit cs d _ (new_implements f lo ltac:(lia) cap g d ltac:(lia) Hnew) Hcs Hn) as (d' & E & Hi).
  destruct (in_turn promise cs _) as [rs s]. exists d'. split; [exact E|]. split; [exact Hi|]. apply bo_count, ba_ok with f lo, Hi.
Qed.

(** C31. A new UUID for a number that is in the directory is not a change: [insert] answers [false] and
    the next [commit] serves the old UUID on. *)
Theorem update_not_published f lo hi d s k u v (Hlo : 0 < lo) (Hgrow : forall c, lo <= c <= hi -> c < slots f c)
  (Hfit : forall c, 0 <= c <= hi -> 16 * slots f c < 2 ^ 63) (Hd : implements f lo d s) (Hs : d_changed s = false) (Hk : in_range 64 k /\ live k = true)
  (Hv : uuid_ok v) (Hu : d_building s !! k = Some u) (Hn : count (d_building s) + 2 <= hi) :
  exists d', in_turn perform [Insert k v; Commit] d = ([DirectoryMap.Returns (Ok false); DirectoryMap.Returns (Ok false)], d') /\
    implements f lo d' {| d_changed := false; d_building := <[k := v]> (d_building s); d_serving := d_serving s |}.
Proof.
  destruct (in_turn_promises f lo hi Hlo Hgrow Hfit [Insert k v; Commit] d s Hd) as (d' & E & Hi);
    [repeat apply Forall_cons_2; [now split|exact I|apply Forall_nil_2]|exact Hn|].
  exists d'. cbn [in_turn promise fst snd List.map] in E, Hi. rewrite (proj2 Hk), Hu in E, Hi. cbn in E, Hi. rewrite Hs in E, Hi. cbn in E, Hi. now split.
Qed.

End DirectorySpec.
