(* ===== verification/DirectoryStream.v ===== *)
(** The directory on a stream: what [write_to] writes, [read_from] reads back. *)
From S2P Require Import Prelude Codec Service HashLookup HashTable JniIo DirectoryMap DirectoryTable DirectoryGrowth DirectorySpec.
From Stdlib Require Import ZArith List Lia Bool SpecFloat.
From stdpp Require Import gmap.
Import Codec Service HashLookup HashTable JniIo InternalBuffers DirectoryTable DirectorySpec.
Open Scope Z_scope.

Module DirectoryStream.

#[local] Opaque br_enc64le br_dec64le br_enc32be br_dec32be.

(** * The bytes of the buffers *)

Lemma enc64le_length x : length (br_enc64le x) = 8%nat.
Proof. reflexivity. Qed.

Lemma take_8 x l : take 8 (br_enc64le x ++ l) = br_enc64le x.
Proof. apply take_app_length'. now rewrite enc64le_length. Qed.

Lemma drop_8 x l : drop 8 (br_enc64le x ++ l) = l.
Proof. apply drop_app_length'. now rewrite enc64le_length. Qed.

Lemma drop_16 u l : drop 16 (uuid_bytes u ++ l) = l.
Proof. unfold uuid_bytes. now rewrite <- app_assoc, <- (drop_drop _ 8 8), !drop_8. Qed.

Lemma dec64le_enc64le x : in_range 64 x -> br_dec64le (br_enc64le x) = x.
Proof. intros H. rewrite <- (app_nil_r (br_enc64le x)). now apply br_dec64le_enc. Qed.

Lemma e164_bytes_length es : length (e164_bytes es) = (8 * length es)%nat.
Proof. induction es as [|x es IH]; [reflexivity|]. unfold e164_bytes in *. cbn [List.map concat length]. rewrite length_app, IH, enc64le_length. lia. Qed.

Lemma uuids_bytes_length us : length (uuids_bytes us) = (16 * length us)%nat.
Proof.
  induction us as [|u us IH]; [reflexivity|]. unfold uuids_bytes, uuid_bytes in *. cbn [List.map concat length].
  rewrite !length_app, IH, !enc64le_length. lia.
Qed.

Lemma e164s_of_bytes es : Forall (in_range 64) es -> e164s_of (length es) (e164_bytes es) = es.
Proof.
  induction 1 as [|x es Hx _ IH]; [reflexivity|]. unfold e164_bytes in *. cbn [List.map concat length e164s_of].
  now rewrite take_8, drop_8, dec64le_enc64le, IH.
Qed.

Lemma uuids_of_bytes us : Forall uuid_ok us -> uuids_of (length us) (uuids_bytes us) = us.
Proof.
  induction 1 as [|[x y] us [Hx Hy] _ IH]; [reflexivity|]. unfold uuids_bytes in *. cbn [List.map concat length uuids_of fst snd] in *.
  rewrite drop_16, IH. change (uuid_bytes (x, y)) with (br_enc64le x ++ br_enc64le y). now rewrite <- !app_assoc, drop_8, !take_8, !dec64le_enc64le.
Qed.

Lemma overwrite_all old got : length old = length got -> overwrite old got = got.
Proof. intros E. unfold overwrite. now rewrite drop_ge, app_nil_r by lia. Qed.

(** * The streams *)

Section Streams.
Context {W : Type} (java_read : Z -> W -> option (Z * list Z) * W) (content : W -> list Z) (Hin : input_stream java_read content).

Lemma read_exact_prefix fuel n l rest w : content w = l ++ rest -> n = Z.of_nat (length l) -> n <= Z.of_nat fuel ->
  exists w', read_exact java_read fuel n w = Some (l, None, w') /\ content w' = rest.
Proof.
  intros E -> Hf. destruct (read_exact_stream java_read content fuel Hin (Z.of_nat (length l)) w ltac:(lia) Hf) as (w' & -> & Ew). exists w'.
  rewrite Nat2Z.id, E in *. rewrite length_app, (proj2 (Z.leb_le _ _)) by lia. rewrite Ew. change firstn with (@take Z). change skipn with (@drop Z).
  now rewrite take_app_length, drop_app_length.
Qed.

Lemma read_u32 fuel x rest w : content w = br_enc32be x ++ rest -> in_range 32 x -> 4 <= Z.of_nat fuel ->
  exists w', read_exact java_read fuel 4 w = Some (br_enc32be x, None, w') /\ br_dec32be (br_enc32be x) = x /\ content w' = rest.
Proof.
  intros E Hx Hf. destruct (read_exact_prefix fuel 4 (br_enc32be x) rest w E eq_refl Hf) as (w' & -> & Ew). exists w'. split; [reflexivity|].
  split; [|exact Ew]. rewrite <- (app_nil_r (br_enc32be x)). now apply br_dec32be_enc.
Qed.

(** The bytes of buffers of less than [2 ^ 32] slots. *)
Definition stream_of (b : InternalBuffers) : list Z :=
  br_enc32be (capacity b) ++ br_enc32be (element_count b) ++ br_enc32be (used_slot_count b) ++ e164_bytes (e164s_buffer b) ++ uuids_bytes (uuids_buffer b).

Lemma counts_range b m : buffers_ok b m -> capacity b < 2 ^ 32 -> in_range 32 (capacity b) /\ in_range 32 (element_count b) /\ in_range 32 (used_slot_count b).
Proof.
  intros H Hc. pose proof (capacity_room b m H). pose proof (used_le (e164s_buffer b)). rewrite (bo_count _ _ H), (bo_used _ _ H). unfold in_range, capacity in *. lia.
Qed.

Lemma read_from_stream fuel src m b rest w : buffers_ok src m -> capacity src < 2 ^ 32 -> 16 * capacity src + 4 <= Z.of_nat fuel ->
  content w = stream_of src ++ rest ->
  exists w', InternalBuffers.read_from java_read fuel b w = Some (Ok tt,
    {| min_load_factor := min_load_factor b; max_load_factor := max_load_factor b; element_count := element_count src;
       used_slot_count := used_slot_count src; e164s_buffer := e164s_buffer src; uuids_buffer := uuids_buffer src |}, w') /\ content w' = rest.
Proof.
  intros Hs Hc Hf E. destruct (counts_range src m Hs Hc) as (R1 & R2 & R3). unfold stream_of in E. rewrite <- !app_assoc in E.
  assert (0 <= capacity src) by (unfold capacity; lia). unfold InternalBuffers.read_from.
  destruct (read_u32 fuel _ _ w E R1 ltac:(lia)) as (w1 & -> & D1 & E1). destruct (read_u32 fuel _ _ w1 E1 R2 ltac:(lia)) as (w2 & -> & D2 & E2).
  destruct (read_u32 fuel _ _ w2 E2 R3 ltac:(lia)) as (w3 & -> & D3 & E3). rewrite D1, D2, D3.
  destruct Hs as [Ht _ _ _ _]. pose proof (tb_length _ _ Ht) as Hl.
  destruct (read_exact_prefix fuel (capacity src * 8) _ _ w3 E3) as (w4 & -> & E4); [rewrite e164_bytes_length; unfold capacity; lia|lia|].
  destruct (read_exact_prefix fuel (capacity src * 16) _ _ w4 E4) as (w5 & -> & E5); [rewrite uuids_bytes_length, <- Hl; unfold capacity; lia|lia|].
  exists w5. split; [|exact E5]. cbn [clear_to_capacity e164s_buffer uuids_buffer min_load_factor max_load_factor].
  assert (En : Z.to_nat (capacity src) = length (e164s_buffer src)) by (unfold capacity; lia). rewrite En.
  rewrite !overwrite_all by (rewrite ?e164_bytes_length, ?uuids_bytes_length, length_replicate; lia).
  rewrite e164s_of_bytes by apply Ht. rewrite Hl, uuids_of_bytes by apply Ht. reflexivity.
Qed.

End Streams.

Section Write.
Context {W : Type} (java_write : list Z -> W -> bool * W) (written : W -> list Z) (Hout : output_stream java_write written).

Lemma write_parts_stream fuel parts : Forall (fun l => (length l <= fuel)%nat) parts -> forall w,
  exists w', write_parts java_write fuel parts w = Some (Ok tt, w') /\ written w' = written w ++ concat parts.
Proof.
  induction 1 as [|l parts Hl _ IH]; intros w; cbn [write_parts concat]; [exists w; now rewrite app_nil_r|].
  destruct (write_all_stream java_write written fuel Hout l w Hl) as (w1 & -> & E1). destruct (IH w1) as (w2 & -> & E2). exists w2.
  split; [reflexivity|]. now rewrite E2, E1, <- app_assoc.
Qed.

Lemma write_to_stream fuel b m w : buffers_ok b m -> capacity b < 2 ^ 32 -> 16 * capacity b + 4 <= Z.of_nat fuel ->
  exists w', InternalBuffers.write_to java_write fuel b w = Some (Ok tt, w') /\ written w' = written w ++ stream_of b.
Proof.
  intros Hb Hc Hf. destruct (counts_range b m Hb Hc) as (R1 & R2 & R3). pose proof (tb_length _ _ (bo_table _ _ Hb)) as Hl. unfold InternalBuffers.write_to.
  rewrite !wrap_small by assumption. edestruct write_parts_stream as (w' & -> & E); [|exists w'; split; [reflexivity|rewrite E]; unfold stream_of; cbn [concat]; now rewrite app_nil_r].
  unfold capacity in Hf. repeat apply Forall_cons_2; [change (4 <= fuel)%nat; lia..| | |apply Forall_nil_2].
  - rewrite e164_bytes_length. lia.
  - rewrite uuids_bytes_length, <- Hl. lia.
Qed.

End Write.


End DirectoryStream.
