(* ===== verification/DirectoryService.v ===== *)
(** The enclave with the directory of the host: the buffers that [server_stop] passes to the enclave
    are the map that was committed, and a client is answered from it. *)
From S2P Require Import Prelude Codec SgxsdCrypto Threads Sgxsd SgxsdSafety SgxsdSystem SgxsdProtocol SgxsdEntry Edge EdgeSafety Service SgxsdFfi HashLookup HashTable CdsLookup Cds CdsSafety CdsSpec DirectoryMap DirectoryTable DirectoryGrowth DirectorySpec DirectoryStream.
From Stdlib Require Import ZArith List Lia Bool.
From stdpp Require Import gmap.
Import Codec Threads Sgxsd SgxsdEntry Edge EdgeSafety SgxsdSafety SgxsdSystem SgxsdProtocol SgxsdCrypto Service HashLookup CdsLookup Cds CdsSafety CdsSpec InternalBuffers DirectoryTable DirectorySpec DirectoryStream.
Open Scope Z_scope.

Module DirectoryService.

#[local] Opaque br_enc64le br_dec64le br_enc64be br_dec64be.

(** * The buffers in memory *)

Section Memory.
Context {W : Type} {HM : HostMemory W}.

Lemma seq_from n m : seq n m = List.map (Nat.add n) (seq 0 m).
Proof.
  revert n. induction m as [|m IH]; intros n; [reflexivity|]. cbn [seq List.map]. rewrite Nat.add_0_r, (IH (S n)), (IH 1%nat), List.map_map. f_equal.
  apply List.map_ext. intros i. lia.
Qed.

Lemma peek_app w p a b : 0 <= a -> 0 <= b -> peek_bytes w p (a + b) = peek_bytes w p a ++ peek_bytes w (p + a) b.
Proof.
  intros Ha Hb. unfold peek_bytes, addresses. rewrite Z2Nat.inj_add, seq_app, !List.map_app by lia. f_equal.
  rewrite seq_from, !List.map_map. apply List.map_ext. intros i. f_equal. lia.
Qed.

Lemma peek_split w p a b l k : 0 <= a -> 0 <= b -> Z.of_nat (length l) = a -> peek_bytes w p (a + b) = l ++ k ->
  peek_bytes w p a = l /\ peek_bytes w (p + a) b = k.
Proof.
  intros Ha Hb Hl E. rewrite peek_app in E by assumption. apply app_inj_1 in E; [exact E|]. destruct (peek_blob w p a) as [L _]. lia.
Qed.

(** The enclave reads the slots. *)
Lemma directory_at_buffers w es : forall us p u, Forall (in_range 64) es -> Forall HashTable.uuid_ok us -> length es = length us ->
  peek_bytes w p (8 * Z.of_nat (length es)) = e164_bytes es -> peek_bytes w u (16 * Z.of_nat (length es)) = uuids_bytes us ->
  directory_at w p u (length es) = combine es us.
Proof.
  induction es as [|x es IH]; intros [|[y z] us] p u He Hu L Ep Eu; try discriminate; [reflexivity|]. injection L as L.
  apply Forall_cons in He as [Hx He]. apply Forall_cons in Hu as [[Hy Hz] Hu]. cbn [length directory_at combine fst snd] in *.
  replace (8 * Z.of_nat (S (length es))) with (8 + 8 * Z.of_nat (length es)) in Ep by lia.
  replace (16 * Z.of_nat (S (length es))) with (16 + 16 * Z.of_nat (length es)) in Eu by lia.
  destruct (peek_split w p 8 (8 * Z.of_nat (length es)) (br_enc64le x) (e164_bytes es) ltac:(lia) ltac:(lia) eq_refl Ep) as [Ep1 Ep2].
  destruct (peek_split w u 16 (16 * Z.of_nat (length es)) (uuid_bytes (y, z)) (uuids_bytes us) ltac:(lia) ltac:(lia) eq_refl Eu) as [Eu1 Eu2].
  rewrite (IH us) by assumption. f_equal. unfold entry_at. rewrite Ep1, Eu1. change firstn with (@take Z). change skipn with (@drop Z).
  change (uuid_bytes (y, z)) with (br_enc64le y ++ br_enc64le z). now rewrite take_8, drop_8, !dec64le_enc64le.
Qed.

End Memory.

(** * Looking a number up *)

Lemma lookup_from_absent es : forall us q r, (forall i, es !! i <> Some q) -> HashTable.lookup_from (combine es us) q r = r.
Proof.
  induction es as [|x es IH]; intros [|v us] q r H; try reflexivity. unfold HashTable.lookup_from. cbn [combine fold_left].
  destruct (Z.eqb_spec x q) as [->|_]; [now destruct (H 0%nat)|]. apply IH. intros i. exact (H (S i)).
Qed.

Lemma lookup_from_found es : forall us i q v r, es !! i = Some q -> us !! i = Some v -> (forall j, es !! j = Some q -> j = i) ->
  HashTable.lookup_from (combine es us) q r = v.
Proof.
  induction es as [|x es IH]; intros [|w us] i q v r Hq Hv Hu; try discriminate. unfold HashTable.lookup_from. cbn [combine fold_left]. destruct i as [|i].
  - injection Hq as ->. injection Hv as ->. rewrite Z.eqb_refl. apply lookup_from_absent. intros j Hj. now specialize (Hu (S j) Hj).
  - apply (IH us i); trivial. intros j Hj. specialize (Hu (S j) Hj). congruence.
Qed.

(** What the slots say of a number is what the map says. *)
Lemma lookup_table es us k : table_ok es us -> in_range 64 k -> live k = true ->
  HashTable.lookup (combine es us) (swap_bytes k) = from_option swap_uuid uuid_default (table es us !! k).
Proof.
  intros Ht Hk Hl. assert (Hls : live (swap_bytes k) = true) by now rewrite live_swap. destruct (table es us !! k) as [u|] eqn:E; cbn [from_option].
  - apply table_lookup in E as (i & x & v & Hx & Hv & Hlx & -> & ->); [|exact Ht]. pose proof (tb_keys _ _ Ht) as R. rewrite Forall_lookup in R.
    pose proof (tb_uuids _ _ Ht) as V. rewrite Forall_lookup in V. rewrite swap_swap, swap_swap_uuid by eauto.
    apply (lookup_from_found es us i); trivial. intros j Hj. now apply (tb_unique _ _ Ht j i x).
  - apply lookup_from_absent. intros i Hi. assert (is_Some (table es us !! k)) as [u Eu] by (apply table_stored; trivial; now exists i). congruence.
Qed.

(** * The answer to a client *)

(** A UUID as the client gets it, big-endian; zeros for a number that is not in the directory. *)
Definition wire_uuid (u : option uuid_t) : list Z := match u with Some u => br_enc64be (fst u) ++ br_enc64be (snd u) | None => zeros 16 end.

Lemma wire_bytes u : uuid_bytes (from_option swap_uuid uuid_default u) = wire_uuid u.
Proof. destruct u as [[x y]|]; [|reflexivity]. unfold uuid_bytes. cbn [from_option swap_uuid fst snd wire_uuid]. now rewrite !enc64le_swap. Qed.

(** The buffers that are served lie in the host's memory at these addresses. *)
Definition served_at {W} {HM : HostMemory W} (w : W) (d : DirectoryMap.DirectoryMap) (p u : Z) : Prop :=
  peek_bytes w p (8 * DirectoryMap.capacity d) = e164_bytes (e164s_buffer (DirectoryMap.serving d)) /\
  peek_bytes w u (16 * DirectoryMap.capacity d) = uuids_bytes (uuids_buffer (DirectoryMap.serving d)).

Section Answers.
Context {W : Type} {HM : HostMemory W} (d : DirectoryMap.DirectoryMap) (m : gmap Z uuid_t) (Hd : buffers_ok (DirectoryMap.serving d) m).
Context (w : W) (p u : Z) (b : sgxsd_server_terminate_args_t) (Eb : DirectoryMap.server_stop_args d p u = Some (Ok b)) (Hw : served_at w d p u).

(** The arguments of [server_stop] give the enclave the map. *)
Lemma served_lookup k : in_range 64 k -> live k = true ->
  HashTable.lookup (directory_of w b) (swap_bytes k) = from_option swap_uuid uuid_default (m !! k).
Proof.
  intros Hk Hl. destruct Hd as [Ht <- _ _ _]. destruct Hw as [Wp Wu]. unfold DirectoryMap.server_stop_args in Eb. destruct (negb _); [discriminate|].
  destruct (_ =? 0)%nat; [discriminate|]. injection Eb as <-. unfold directory_of. cbn [Edge.in_phones Edge.in_uuids Edge.in_phone_count]. rewrite Nat2Z.id.
  rewrite directory_at_buffers with (us := uuids_buffer (DirectoryMap.serving d)); [now apply lookup_table| | | |exact Wp|exact Wu]; apply Ht.
Qed.

Lemma served_answers ks us : Forall (fun k => in_range 64 k /\ live k = true) ks ->
  Forall2 (fun q x => q <> 0 -> x = HashTable.lookup (directory_of w b) q) (List.map swap_bytes ks) us ->
  concat (List.map uuid_bytes us) = concat (List.map (fun k => wire_uuid (m !! k)) ks).
Proof.
  revert us. induction ks as [|k ks IH]; intros us Hks H; inversion H as [|q x qs us' Hx H' E1 E2]; subst; [reflexivity|].
  apply Forall_cons in Hks as [[Hk Hl] Hks]. assert (swap_bytes k <> 0).
  { intros E0. pose proof (live_swap k Hk) as L. rewrite E0, Hl in L. discriminate L. }
  cbn [List.map concat]. rewrite (IH us' Hks H'), Hx, served_lookup by trivial. now rewrite wire_bytes.
Qed.

End Answers.

Section Client.
Context {W TargetInfo : Type} {HM : HostMemory W} (rdrand64_step : W -> bool * Z * W) (base limit : Z)
  (sgx_is_outside_enclave : Z -> Z -> Z) (stk : stack) (Hstk : stack_ok stk).
Context (Houtside : forall p n, in_range 64 p -> in_range 64 n -> sgx_is_outside_enclave p n = 1 -> outside_enclave base limit p n = true).
Context (Hbase : 0 <= base) (Hrd : forall w, same_memory w (snd (rdrand64_step w))).
Context (plat : @platform W TargetInfo) (Hplat : platform_ok plat) (hdr : sgxsd_msg_header_t) (Hhdr : blob 16 (mh_mac hdr)).
Abbreviation the_service := (Cds.cds_server rdrand64_step base limit sgx_is_outside_enclave stk).

(** A query for numbers of the directory, and the end of the batch. *)
Lemma directory_run fr handle s a header data size tag e msg st ks b key w1 d m p u
  (Hc : calling handle s a header data size e msg st) (He : requests s = [] /\ phones (query_phones s) = [])
  (Hv : verdict sgx_is_outside_enclave (world st) s a msg = inl (List.map swap_bytes ks)) (Hks : Forall (fun k => in_range 64 k /\ live k = true) ks)
  (Hd : buffers_ok (DirectoryMap.serving d) m) (Eb : DirectoryMap.server_stop_args d p u = Some (Ok b)) (Hm : served_at (world st) d p u)
  (Hb : host_directory sgx_is_outside_enclave b) (Hn : 1 <= Z.of_nat (length ks) <= 8192)
  (Eg : eval (generate rdrand64_step) (world st) = Some (Some key, w1))
  (Hs : forall i, (length (HashTable.sharing key (batch_order (List.map swap_bytes ks)) (List.map swap_bytes ks) i) <= 12)%nat) :
  exists st1, run (sgxsd_enclave_server_call plat the_service stk hdr fr (Some a) (Some header) (Some data) size tag handle) st =
      Done (SGX_SUCCESS, Some (splice data 0 (zeros (u32 size))), wiped_frame) st1 /\
    run (sgxsd_enclave_server_stop plat the_service stk hdr (Some b) handle) st1 =
    let '(status, w') := send plat hdr (sender (hkdf_prk e) tag) (concat (List.map (fun k => wire_uuid (m !! k)) ks)) w1 in
    Done status (set_world w' (stopped (Z.to_nat handle) st1)).
Proof.
  destruct (discovery_run rdrand64_step base limit sgx_is_outside_enclave stk Hstk Houtside Hbase Hrd plat Hplat hdr Hhdr fr handle s a header data size tag e msg st
    (List.map swap_bytes ks) b key w1 Hc He Hv Hb ltac:(now rewrite List.length_map) Eg Hs) as (st1 & us & E & Hus & E').
  exists st1. split; [exact E|]. now rewrite (served_answers d m Hd (world st) p u b Eb Hm ks us Hks Hus) in E'.
Qed.


End Client.

End DirectoryService.
