(* ===== verification/DirectoryManager.v ===== *)
(** The users of the service: directory/DirectoryCache.java, which keeps them in Redis, and
    directory/DirectoryManager.java, which keeps the directory of a node in step with them. *)
From S2P Require Import Prelude Service Java Users DirectoryMap DirectoryTable DirectoryGrowth DirectorySpec.
From Stdlib Require Import String Ascii ZArith List Lia Bool.
From stdpp Require Import gmap strings.
Import Service Java Users.
Open Scope Z_scope.
Open Scope java_scope.

Module DirectoryManager.

(** PubSubMessage of the protocol buffers. *)
Inductive PubSubMessage : Type := ADDED | ADDED_USER (content : string) | REMOVED (content : string) | KEEPALIVE (content : string).

(** What the service asks of Redis: the sorted set of users, in which all scores are equal, some keys
    and the channel. *)
Class Jedis (W : Type) := {
  zadd : string -> W -> Z * W;
  zrem : string -> W -> Z * W;
  zscore : string -> W -> option Z;
  zcard : W -> Z;
  zrangeByLex : string -> string -> W -> list string;
  zscan : string -> W -> list string * string;
  jedis_get : string -> W -> option string;
  jedis_set : string -> string -> W -> W;
  jedis_del : string -> W -> W;
  jedis_publish : PubSubMessage -> W -> W }.

(** A node: Redis, the directory if it has one, and whether it has seen that the set is built. *)
Record node (W : Type) : Type := { redis : W; currentDirectoryMap : option DirectorySpec.directory; built : bool }.
Arguments redis {W}.
Arguments currentDirectoryMap {W}.
Arguments built {W}.

Section DirectoryManager.
Context {W : Type} {HJ : Jedis W}.

Abbreviation M := (M (node W)).

Definition on_redis {A} (f : W -> A * W) : M A :=
  fun s => let '(a, w) := f (redis s) in (Returned a, {| redis := w; currentDirectoryMap := currentDirectoryMap s; built := built s |}).
Definition ask_redis {A} (f : W -> A) : M A := on_redis (fun w => (f w, w)).
Definition tell_redis (f : W -> W) : M unit := on_redis (fun w => (tt, f w)).

(** * DirectoryCache *)

Definition USER_SET_BUILT : string := "signal_users_built".
Definition USER_LAST_RECONCILED : string := "signal_users_last_reconciled".

Definition isUserSetBuilt : M bool := ask_redis (fun w => bool_decide (is_Some (jedis_get USER_SET_BUILT w))).
Definition markUserSetBuild : M unit := tell_redis (jedis_set USER_SET_BUILT "1").

(** The members that can be decoded. *)
Definition decode_users (encodedUsers : list string) : list (UUID * string) := omap decodeUser encodedUsers.

Definition getAllUsers (cursor : string) : M (list (UUID * string) * string) :=
  ask_redis (fun w => let '(scanResult, cursor) := zscan cursor w in (decode_users scanResult, cursor)).

Definition getUsersInRange (fromUuid toUuid : option UUID) : M (list (UUID * string)) :=
  let lowerBound := match fromUuid with Some uuid => String "(" (uuidBoundAfter uuid) | None => "-"%string end in
  let upperBound := match toUuid with Some uuid => String "(" (uuidBoundAfter uuid) | None => "+"%string end in
  ask_redis (fun w => decode_users (zrangeByLex lowerBound upperBound w)).

Definition getKnownUsers (users : list (UUID * string)) : M (list (UUID * string)) :=
  ask_redis (fun w => List.filter (fun user => bool_decide (is_Some (zscore (encodeUser (fst user) (snd user)) w))) users).

Definition cache_addUser (uuid : UUID) (address : string) : M bool := on_redis (fun w => let '(n, w) := zadd (encodeUser uuid address) w in (1 =? n, w)).
Definition cache_removeUser (uuid : UUID) (address : string) : M bool := on_redis (fun w => let '(n, w) := zrem (encodeUser uuid address) w in (1 =? n, w)).

Definition getUuidLastReconciled : M (option UUID) :=
  ask_redis (fun w => match jedis_get USER_LAST_RECONCILED w with Some s => fromString s | None => None end).

Definition setUuidLastReconciled (uuid : option UUID) : M unit :=
  match uuid with
  | Some uuid => tell_redis (jedis_set USER_LAST_RECONCILED (toString uuid))
  | None => tell_redis (fun w => jedis_set USER_SET_BUILT "1" (jedis_del USER_LAST_RECONCILED w))
  end.

(** * The directory of the node *)

(** A call of DirectoryMapNative on the directory, with the exception that its error becomes. *)
Definition call_map (c : DirectorySpec.call) (d : DirectorySpec.directory) : outcome bool * DirectorySpec.directory :=
  let '(r, d) := DirectorySpec.promise c d in (match r with Ok b => Returned b | Err _ => Thrown IllegalArgumentException end, d).

Definition getCurrentDirectoryMap : M unit :=
  fun s => match currentDirectoryMap s with Some _ => (Returned tt, s) | None => (Thrown DirectoryUnavailableException, s) end.

Definition on_map (c : DirectorySpec.call) : M bool :=
  fun s =>
    match currentDirectoryMap s with
    | None => (Thrown DirectoryUnavailableException, s)
    | Some d => let '(r, d) := call_map c d in (r, {| redis := redis s; currentDirectoryMap := Some d; built := built s |})
    end.

Definition parse (address : string) : M Z := fun s => (parseAddress address, s).

(** The private methods: a change that is new to the set is published to the other nodes. *)
Definition addUser (uuid : UUID) (address : string) : M unit :=
  let! directoryAddress := parse address in
  getCurrentDirectoryMap ;;
  let! added := cache_addUser uuid address in
  (if added : bool then tell_redis (jedis_publish (ADDED_USER (encodeUser uuid address))) else ret tt) ;;
  on_map (DirectorySpec.Insert (u64 directoryAddress) uuid) ;;
  ret tt.

Definition removeUser (uuid : UUID) (address : string) : M unit :=
  let! directoryAddress := parse address in
  getCurrentDirectoryMap ;;
  let! removedUser := cache_removeUser uuid address in
  (if removedUser : bool then tell_redis (jedis_publish (REMOVED address)) else ret tt) ;;
  on_map (DirectorySpec.Remove (u64 directoryAddress)) ;;
  ret tt.

(** [try { m } catch (InvalidAddressException ex) { h }]. *)
Definition catch_address (m h : M unit) : M unit :=
  fun s => match m s with (Thrown InvalidAddressException, s) => h s | r => r end.

Definition commitIfIsConnected : M unit :=
  fun s => match currentDirectoryMap s with None => (Returned tt, s) | Some _ => (on_map DirectorySpec.Commit ;; ret tt) s end.

(** [borrow] up to the call of the consumer. *)
Definition isBuilt : M bool :=
  fun s =>
    if built s then (Returned true, s)
    else (let! b := isUserSetBuilt in fun s => (Returned b, {| redis := redis s; currentDirectoryMap := currentDirectoryMap s; built := b |})) s.
Definition borrow : M unit :=
  let! b := isBuilt in if b : bool then getCurrentDirectoryMap else throw DirectoryUnavailableException.

(** ** Reconciliation *)

(** The order in which a HashSet is iterated. *)
Context (iterate : gset (UUID * string) -> list (UUID * string)).

Definition reconcile (isReconciliationEnabled : bool) (fromUuid toUuid : option UUID) (users : list (UUID * string)) : M bool :=
  if negb isReconciliationEnabled then ret true
  else
    let! skipped :=
      match fromUuid with
      | None => ret false
      | Some from =>
          let! lastUuidReconciled := getUuidLastReconciled in
          ret (match lastUuidReconciled with None => true | Some last => match String.compare (toString from) (toString last) with Gt => true | _ => false end end)
      end in
    if skipped : bool then ret false
    else
      match fromUuid, toUuid with
      | None, None => ret false
      | _, _ =>
          let! usersInRange := getUsersInRange fromUuid toUuid in
          let removeUsers := (list_to_set usersInRange : gset (UUID * string)) ∖ list_to_set users in
          let addUsers := (list_to_set users : gset (UUID * string)) ∖ list_to_set usersInRange in
          for_each (iterate removeUsers) (fun user => catch_address (removeUser (fst user) (snd user)) (ret tt)) ;;
          for_each (iterate addUsers) (fun user => addUser (fst user) (snd user)) ;;
          setUuidLastReconciled toUuid ;;
          ret true
      end.

Definition existsReconcile (users : list (UUID * string)) : M unit :=
  let! knownUsers := getKnownUsers users in
  for_each (iterate ((list_to_set users : gset (UUID * string)) ∖ list_to_set knownUsers)) (fun user => addUser (fst user) (snd user)).

Definition deletesReconcile (users : list (UUID * string)) : M unit :=
  let! knownUsers := getKnownUsers users in
  for_each (iterate (list_to_set knownUsers)) (fun user => removeUser (fst user) (snd user)).

Definition markReconcileComplete : M unit := markUserSetBuild.

(** ** Messages of other nodes *)

(** [PubSubConsumer.processMessage]; a keepalive only wakes threads that wait for it. *)
Definition processMessage (update : PubSubMessage) : M unit :=
  match update with
  | ADDED => ret tt
  | ADDED_USER content =>
      match decodeUser content with
      | None => ret tt
      | Some addedUser =>
          catch_address (getCurrentDirectoryMap ;; let! n := parse (snd addedUser) in on_map (DirectorySpec.Insert (u64 n) (fst addedUser)) ;; ret tt) (ret tt)
      end
  | REMOVED content => catch_address (getCurrentDirectoryMap ;; let! n := parse content in on_map (DirectorySpec.Remove (u64 n)) ;; ret tt) (ret tt)
  | KEEPALIVE _ => ret tt
  end.

(** ** Rebuilding *)

(** The loop over a page of users. *)
Definition insert_page (users : list (UUID * string)) (d : DirectorySpec.directory) : outcome unit * DirectorySpec.directory :=
  for_each users (fun user d =>
    match parseAddress (snd user) with
    | Thrown InvalidAddressException => (Returned tt, d)
    | Thrown t => (Thrown t, d)
    | Returned n => (call_map (DirectorySpec.Insert (u64 n) (fst user)) ;; ret tt) d
    end) d.

(** [rebuildLocalUsersFromRedis]: [None] when the cursor has not come back to 0 after [fuel] pages. *)
Fixpoint rebuildLocalUsersFromRedis (fuel : nat) (cursor : string) (w : W) (d : DirectorySpec.directory) : option (outcome unit * DirectorySpec.directory) :=
  match fuel with
  | O => None
  | S fuel =>
      let '(scanResult, cursor) := zscan cursor w in
      match insert_page (decode_users scanResult) d with
      | (Thrown t, d) => Some (Thrown t, d)
      | (Returned _, d) => if String.eqb cursor "0" then Some (Returned tt, d) else rebuildLocalUsersFromRedis fuel cursor w d
      end
  end.

Definition new_directory : DirectorySpec.directory := {| DirectorySpec.d_changed := false; DirectorySpec.d_building := ∅; DirectorySpec.d_serving := ∅ |}.

Definition rebuildLocalDataFromRedis (fuel : nat) (s : node W) : option (outcome unit * node W) :=
  let userSetBuilt := bool_decide (is_Some (jedis_get USER_SET_BUILT (redis s))) in
  let s := {| redis := redis s; currentDirectoryMap := currentDirectoryMap s; built := userSetBuilt |} in
  if userSetBuilt then
    match rebuildLocalUsersFromRedis fuel "0" (redis s) new_directory with
    | None => None
    | Some (Thrown t, _) => Some (Thrown t, s)
    | Some (Returned _, d) =>
        let '(_, d) := call_map DirectorySpec.Commit d in
        Some (Returned tt, {| redis := redis s; currentDirectoryMap := Some d; built := userSetBuilt |})
    end
  else Some (Returned tt, s).

(** ** The consumer of messages *)

(** [PubSubConsumer.connect] of a node that builds from Redis, for a number of attempts: whether one
    succeeded. *)
Fixpoint connect (attempts fuel : nat) (s : node W) : option (bool * node W) :=
  match attempts with
  | O => Some (false, s)
  | S attempts =>
      match rebuildLocalDataFromRedis fuel s with
      | None => None
      | Some (Returned _, s) => Some (true, s)
      | Some (Thrown _, s) => connect attempts fuel s
      end
  end.

(** A turn of [PubSubConsumer.run] with a message. *)
Definition consume (attempts fuel : nat) (update : PubSubMessage) (s : node W) : option (bool * node W) :=
  match processMessage update s with
  | (Returned _, s) => Some (true, s)
  | (Thrown _, s) => connect attempts fuel {| redis := redis s; currentDirectoryMap := None; built := built s |}
  end.

End DirectoryManager.
End DirectoryManager.
