(* ===== verification/DirectoryUsers.v ===== *)
(** What the directory manager promises: the directory that a node builds is the set of users in Redis,
    through every update, reconciliation, message of another node and rebuild. *)
From S2P Require Import Prelude Service Java Users DirectoryMap DirectoryTable DirectoryGrowth DirectorySpec DirectoryManager.
From Stdlib Require Import String Ascii ZArith List Lia Bool.
From stdpp Require Import gmap strings.
Import Service Java Users DirectorySpec DirectoryManager.
Open Scope Z_scope.
Open Scope java_scope.

Module DirectoryUsers.

(** * What Redis promises *)

(** The bounds of ZRANGEBYLEX. *)
Definition above (bound m : string) : bool :=
  match bound with String "-" EmptyString => true | String "(" x => String.ltb x m | _ => false end.
Definition below (bound m : string) : bool :=
  match bound with String "+" EmptyString => true | String "(" x => String.ltb m x | _ => false end.

(** The pages of a scan. *)
Fixpoint scan_all {W} {HJ : Jedis W} (fuel : nat) (cursor : string) (w : W) : option (list string) :=
  match fuel with
  | O => None
  | S fuel =>
      let '(page, cursor) := zscan cursor w in
      if String.eqb cursor "0" then Some page else match scan_all fuel cursor w with Some pages => Some (page ++ pages) | None => None end
  end.

Class JedisLaws (W : Type) {HJ : Jedis W} := {
  members : W -> gset string;
  keys : W -> gmap string string;
  channel : W -> list PubSubMessage;
  zadd_law m w : exists w', zadd m w = (if decide (m ∈ members w) then 0 else 1, w') /\ members w' = {[m]} ∪ members w /\ keys w' = keys w /\ channel w' = channel w;
  zrem_law m w : exists w', zrem m w = (if decide (m ∈ members w) then 1 else 0, w') /\ members w' = members w ∖ {[m]} /\ keys w' = keys w /\ channel w' = channel w;
  zscore_law m w : is_Some (zscore m w) <-> m ∈ members w;
  zrange_law lower upper w m : m ∈ zrangeByLex lower upper w <-> m ∈ members w /\ above lower m = true /\ below upper m = true;
  zscan_law w : exists fuel l, scan_all fuel "0" w = Some l /\ forall m, m ∈ l <-> m ∈ members w;
  get_law k w : jedis_get k w = keys w !! k;
  set_law k v w : members (jedis_set k v w) = members w /\ keys (jedis_set k v w) = <[k := v]> (keys w) /\ channel (jedis_set k v w) = channel w;
  del_law k w : members (jedis_del k w) = members w /\ keys (jedis_del k w) = delete k (keys w) /\ channel (jedis_del k w) = channel w;
  publish_law m w : members (jedis_publish m w) = members w /\ keys (jedis_publish m w) = keys w /\ channel (jedis_publish m w) = channel w ++ [m] }.

(** * Users *)

(** The number of an address as the directory has it. *)
Definition number (address : string) : option Z := match parseAddress address with Returned n => Some (u64 n) | Thrown _ => None end.

(** A user that can be in the directory. *)
Definition user_ok (user : UUID * string) : Prop := uuid_ok user.1 /\ exists k, number user.2 = Some k /\ DirectoryTable.live k = true.

Abbreviation enc user := (encodeUser user.1 user.2).

(** Only users are in the set, and no number belongs to two of them. *)
Record users_ok (ms : gset string) : Prop := {
  uo_users : forall m, m ∈ ms -> exists user, user_ok user /\ m = enc user;
  uo_unique : forall x y, user_ok x -> user_ok y -> enc x ∈ ms -> enc y ∈ ms -> number x.2 = number y.2 -> x = y }.

(** A directory has the users of the set. *)
Definition matches (ms : gset string) (m : map) : Prop :=
  forall k u, m !! k = Some u <-> exists a, user_ok (u, a) /\ number a = Some k /\ encodeUser u a ∈ ms.

Lemma enc_inj x y : user_ok x -> user_ok y -> enc x = enc y -> x = y.
Proof.
  intros [Hx _] [Hy _] E. apply (f_equal decodeUser) in E. rewrite !user_decoded in E by assumption. destruct x, y. now injection E as -> ->.
Qed.

Lemma users_ok_sub ms ms' : users_ok ms -> ms' ⊆ ms -> users_ok ms'.
Proof. intros [H1 H2] Hs. split; [intros m Hm; apply H1; now apply Hs|]. intros x y Hx Hy H3 H4. apply H2; trivial; now apply Hs. Qed.

Lemma matches_add ms m u a k : users_ok ({[encodeUser u a]} ∪ ms) -> user_ok (u, a) -> number a = Some k -> matches ms m -> matches ({[encodeUser u a]} ∪ ms) (<[k := u]> m).
Proof.
  unfold matches. intros [_ Hq] Hu Hk Hm k' u'. destruct (decide (k = k')) as [->|Hne].
  - rewrite lookup_insert_eq. split.
    + intros [= <-]. exists a. split; [exact Hu|]. split; [exact Hk|]. apply elem_of_union_l, elem_of_singleton_2. reflexivity.
    + intros (a' & H1 & H2 & H3). f_equal. assert (E : (u, a) = (u', a')) by (apply Hq; cbn; trivial; [apply elem_of_union_l; now apply elem_of_singleton|congruence]). congruence.
  - rewrite lookup_insert_ne by exact Hne. rewrite Hm. split; intros (a' & H1 & H2 & H3); exists a'; (split; [exact H1|]); (split; [exact H2|]); [now apply elem_of_union_r|].
    apply elem_of_union in H3 as [H3%elem_of_singleton|H3]; [|exact H3]. apply (enc_inj (u', a') (u, a)) in H3; trivial. congruence.
Qed.

Lemma matches_remove ms m u a k : users_ok ms -> user_ok (u, a) -> number a = Some k -> encodeUser u a ∈ ms -> matches ms m -> matches (ms ∖ {[encodeUser u a]}) (delete k m).
Proof.
  unfold matches. intros [_ Hq] Hu Hk Hin Hm k' u'. destruct (decide (k = k')) as [->|Hne].
  - rewrite lookup_delete_eq. split; [easy|]. intros (a' & H1 & H2 & H3). assert (E : (u, a) = (u', a')) by (apply Hq; cbn; trivial; [now apply elem_of_difference in H3|congruence]).
    injection E as <- <-. apply elem_of_difference in H3 as [_ H3]. destruct H3. now apply elem_of_singleton.
  - rewrite lookup_delete_ne by exact Hne. rewrite Hm. split; intros (a' & H1 & H2 & H3); exists a'; (split; [exact H1|]); (split; [exact H2|]); [|now apply elem_of_difference in H3].
    apply elem_of_difference. split; [exact H3|]. intros H4%elem_of_singleton. apply (enc_inj (u', a') (u, a)) in H4; trivial. congruence.
Qed.

(** * The node *)

Section Manager.
Context {W : Type} {HJ : Jedis W} {HL : JedisLaws W}.

Abbreviation set s := (members (redis s)).

(** A node has a directory, and it has the users of the set. *)
Definition has_users (ms : gset string) (s : node W) : Prop := exists d, currentDirectoryMap s = Some d /\ matches ms (d_building d).

(** A node that serves what it has built unless it knows that there is something to commit. *)
Definition up_to_date (d : directory) : Prop := d_changed d = false -> d_serving d = d_building d.
Definition serves_built (s : node W) : Prop := exists d, currentDirectoryMap s = Some d /\ up_to_date d.

(** The directory after changes of some of its numbers. *)
Definition overlay (e : gmap Z (option UUID)) (m : gmap Z UUID) : gmap Z UUID := merge (fun x y => match x with Some v => v | None => y end) e m.

Lemma overlay_lookup e m k : overlay e m !! k = match e !! k with Some v => v | None => m !! k end.
Proof. unfold overlay. rewrite lookup_merge. now destruct (e !! k), (m !! k). Qed.

Lemma overlay_overlay e1 e2 m : overlay e2 (overlay e1 m) = overlay (e2 ∪ e1) m.
Proof. apply map_eq. intros k. rewrite !overlay_lookup, lookup_union. now destruct (e2 !! k), (e1 !! k). Qed.

Lemma overlay_insert k (u : UUID) (m : gmap Z UUID) : overlay {[k := Some u]} m = <[k := u]> m.
Proof. apply map_eq. intros k'. rewrite overlay_lookup. destruct (decide (k = k')) as [->|Hne]; [now rewrite lookup_insert_eq, lookup_singleton_eq|now rewrite lookup_insert_ne, lookup_singleton_ne]. Qed.

Lemma overlay_delete k (m : gmap Z UUID) : overlay {[k := None]} m = delete k m.
Proof. apply map_eq. intros k'. rewrite overlay_lookup. destruct (decide (k = k')) as [->|Hne]; [now rewrite lookup_delete_eq, lookup_singleton_eq|now rewrite lookup_delete_ne, lookup_singleton_ne]. Qed.

(** What messages do to any node with a directory. *)
Definition have_effect (messages : list PubSubMessage) (e : gmap Z (option UUID)) : Prop :=
  forall (f : node W) d, currentDirectoryMap f = Some d -> exists f' d', for_each messages processMessage f = (Returned tt, f') /\ currentDirectoryMap f' = Some d' /\ d_building d' = overlay e (d_building d) /\ redis f' = redis f.

(** What a change of the set leads to: the node keeps up with it, and the messages that it publishes
    take the directory from the users that were in the set to those that are in it. *)
Record keeps_up (s s' : node W) (keys' : gmap string string) : Prop := {
  ku_users : has_users (set s') s';
  ku_keys : keys (redis s') = keys';
  ku_built : built s' = built s;
  ku_serves : serves_built s -> serves_built s';
  ku_messages : exists messages e, channel (redis s') = channel (redis s) ++ messages /\ have_effect messages e /\ forall m, matches (set s) m -> matches (set s') (overlay e m) }.

Lemma for_each_app {S A} (l1 l2 : list A) (body : A -> M S unit) s s1 : for_each l1 body s = (Returned tt, s1) -> for_each (l1 ++ l2) body s = for_each l2 body s1.
Proof.
  revert s. induction l1 as [|a l1 IH]; intros s; cbn [for_each app]; [now intros [= <-]|]. unfold bind. destruct (body a s) as [[]]; [apply IH|easy].
Qed.

Lemma have_effect_nil : have_effect [] ∅.
Proof. intros f d Hd. exists f, d. split; [reflexivity|]. split; [exact Hd|]. split; [|reflexivity]. apply map_eq. intros k. now rewrite overlay_lookup, lookup_empty. Qed.

Lemma have_effect_app l1 l2 e1 e2 : have_effect l1 e1 -> have_effect l2 e2 -> have_effect (l1 ++ l2) (e2 ∪ e1).
Proof.
  intros H1 H2 f d Hd. destruct (H1 f d Hd) as (f1 & d1 & E1 & Hd1 & M1 & R1). destruct (H2 f1 d1 Hd1) as (f2 & d2 & E2 & Hd2 & M2 & R2). exists f2, d2.
  rewrite (for_each_app _ _ _ _ _ E1). split; [exact E2|]. split; [exact Hd2|]. split; [now rewrite M2, M1, overlay_overlay|congruence].
Qed.

Lemma have_effect_one message e : (forall (f : node W) d, currentDirectoryMap f = Some d -> exists f' d', processMessage message f = (Returned tt, f') /\ currentDirectoryMap f' = Some d' /\ d_building d' = overlay e (d_building d) /\ redis f' = redis f) ->
  have_effect [message] e.
Proof. intros H f d Hd. destruct (H f d Hd) as (f' & d' & E & H'). exists f', d'. split; [|exact H']. cbn [for_each]. unfold bind. now rewrite E. Qed.

(** The messages bring every node up to date that had the users of the set before, or that has those
    of the set after already, as the node has that sent them. *)
Lemma followers_keep_up s s' k : keeps_up s s' k -> exists messages, channel (redis s') = channel (redis s) ++ messages /\
  forall f, has_users (set s) f \/ (exists m0, matches (set s) m0) /\ has_users (set s') f -> exists f', for_each messages processMessage f = (Returned tt, f') /\ has_users (set s') f'.
Proof.
  intros [_ _ _ _ (l & e & C & He & Hm)]. exists l. split; [exact C|]. intros f [(d & Hd & Hf)|[(m0 & H0) (d & Hd & Hf)]]; destruct (He f d Hd) as (f' & d' & E & Hd' & M & _); exists f'; (split; [exact E|]); exists d'; (split; [exact Hd'|]); rewrite M.
  - now apply Hm.
  - replace (overlay e (d_building d)) with (d_building d); [exact Hf|]. apply Hm in H0. apply map_eq. intros k'. rewrite overlay_lookup. destruct (e !! k') as [v|] eqn:Ev; [|reflexivity].
    apply option_eq. intros u. unfold matches in Hf, H0. rewrite Hf, <- H0, overlay_lookup, Ev. reflexivity.
Qed.

Lemma keeps_up_trans s s1 s2 keys1 keys2 : keeps_up s s1 keys1 -> keeps_up s1 s2 keys2 -> keeps_up s s2 keys2.
Proof.
  intros [U1 K1 B1 S1 (l1 & e1 & C1 & F1 & M1)] [U2 K2 B2 S2 (l2 & e2 & C2 & F2 & M2)]. split; trivial; [congruence|auto|]. exists (l1 ++ l2), (e2 ∪ e1). split; [rewrite C2, C1; now rewrite app_assoc|].
  split; [now apply have_effect_app|]. intros m Hm. rewrite <- overlay_overlay. now apply M2, M1.
Qed.

Lemma no_messages s s' : channel (redis s') = channel (redis s) -> set s' = set s ->
  exists messages e, channel (redis s') = channel (redis s) ++ messages /\ have_effect messages e /\ forall m, matches (set s) m -> matches (set s') (overlay e m).
Proof.
  intros C M. exists [], ∅. split; [now rewrite app_nil_r|]. split; [apply have_effect_nil|]. intros m Hm. rewrite M. replace (overlay ∅ m) with m; [exact Hm|]. apply map_eq. intros k. now rewrite overlay_lookup, lookup_empty.
Qed.

Lemma keeps_up_refl s : has_users (set s) s -> keeps_up s s (keys (redis s)).
Proof. intros H. split; trivial. now apply no_messages. Qed.

Lemma number_parse a k : number a = Some k -> exists n, parseAddress a = Returned n /\ u64 n = k.
Proof. unfold number. destruct (parseAddress a) as [n|]; [|easy]. intros [= <-]. now exists n. Qed.

(** An insertion or a removal on a directory. *)
Lemma insert_map k u (s : node W) d : currentDirectoryMap s = Some d -> DirectoryTable.live k = true -> exists b d',
  on_map (Insert k u) s = (Returned b, {| redis := redis s; currentDirectoryMap := Some d'; built := built s |}) /\ d_building d' = <[k := u]> (d_building d) /\
  (d_building d !! k = None \/ d_building d !! k = Some u -> up_to_date d -> up_to_date d').
Proof.
  intros E Hl. unfold on_map, call_map. rewrite E. cbn [promise]. rewrite Hl. eexists _, _. split; [reflexivity|]. split; [reflexivity|]. intros Hk Hd. unfold up_to_date. cbn [d_changed d_building d_serving].
  destruct Hk as [Hk|Hk]; rewrite Hk; [rewrite bool_decide_true by reflexivity; discriminate|]. rewrite bool_decide_false by discriminate. intros Hc. rewrite insert_id by exact Hk. exact (Hd Hc).
Qed.

Lemma remove_map k (s : node W) d : currentDirectoryMap s = Some d -> DirectoryTable.live k = true -> exists b d',
  on_map (Remove k) s = (Returned b, {| redis := redis s; currentDirectoryMap := Some d'; built := built s |}) /\ d_building d' = delete k (d_building d) /\
  (up_to_date d -> up_to_date d').
Proof.
  intros E Hl. unfold on_map, call_map. rewrite E. cbn [promise]. rewrite Hl. eexists _, _. split; [reflexivity|]. split; [reflexivity|]. intros Hd. unfold up_to_date. cbn [d_changed d_building d_serving].
  destruct (d_building d !! k) as [u|] eqn:Hk; [rewrite bool_decide_true by eauto; discriminate|]. rewrite bool_decide_false by (intros []; discriminate). intros Hc. rewrite delete_id by exact Hk. exact (Hd Hc).
Qed.

(** The number of a user who may be added is free, or their own. *)
Lemma free_or_own ms m u a k : users_ok ({[encodeUser u a]} ∪ ms) -> user_ok (u, a) -> number a = Some k -> matches ms m -> m !! k = None \/ m !! k = Some u.
Proof.
  intros [_ Hq] Hu Hk Hm. destruct (m !! k) as [u'|] eqn:E; [right|now left]. unfold matches in Hm. apply Hm in E as (a' & H1 & H2 & H3). f_equal.
  assert (E : (u', a') = (u, a)) by (apply Hq; cbn; trivial; [now apply elem_of_union_r|apply elem_of_union_l; now apply elem_of_singleton|congruence]). congruence.
Qed.

Lemma added_effect u a k : uuid_ok u -> number a = Some k -> DirectoryTable.live k = true -> have_effect [ADDED_USER (encodeUser u a)] {[k := Some u]}.
Proof.
  intros Hu Hk Hl. apply have_effect_one. intros f d Ed. destruct (number_parse a k Hk) as (n & En & Ek). cbn [processMessage]. rewrite user_decoded by exact Hu.
  cbn [fst snd]. unfold catch_address, bind at 1, getCurrentDirectoryMap. rewrite Ed. unfold bind at 1, parse. rewrite En. unfold bind at 1. rewrite Ek.
  destruct (insert_map k u f d Ed Hl) as (b & d' & -> & Eb & _). eexists _, d'. split; [reflexivity|]. split; [reflexivity|]. split; [|reflexivity]. now rewrite overlay_insert.
Qed.

Lemma removed_effect a k : number a = Some k -> DirectoryTable.live k = true -> have_effect [REMOVED a] {[k := None]}.
Proof.
  intros Hk Hl. apply have_effect_one. intros f d Ed. destruct (number_parse a k Hk) as (n & En & Ek). cbn [processMessage].
  unfold catch_address, bind at 1, getCurrentDirectoryMap. rewrite Ed. unfold bind at 1, parse. rewrite En. unfold bind at 1. rewrite Ek.
  destruct (remove_map k f d Ed Hl) as (b & d' & -> & Eb & _). eexists _, d'. split; [reflexivity|]. split; [reflexivity|]. split; [|reflexivity]. now rewrite overlay_delete.
Qed.

Lemma addUser_keeps_up u a s : users_ok ({[encodeUser u a]} ∪ set s) -> user_ok (u, a) -> has_users (set s) s ->
  exists s', addUser u a s = (Returned tt, s') /\ set s' = {[encodeUser u a]} ∪ set s /\ keeps_up s s' (keys (redis s)).
Proof.
  intros Hok Hu (d & Ed & Hm). pose proof Hu as [Hu' (k & Hk & Hl)]. destruct (number_parse a k Hk) as (n & En & Ek).
  assert (Hserves : forall s' d', currentDirectoryMap s' = Some d' -> (d_building d !! k = None \/ d_building d !! k = Some u -> up_to_date d -> up_to_date d') -> serves_built s -> serves_built s').
  { intros s' d' E' H' (d0 & E0 & H0). exists d'. split; [exact E'|]. apply H'; [exact (free_or_own (set s) _ u a k Hok Hu Hk Hm)|]. replace d with d0 by congruence. exact H0. }
  unfold addUser, bind at 1, parse. rewrite En. unfold bind at 1, getCurrentDirectoryMap. rewrite Ed. unfold bind at 1, cache_addUser, on_redis.
  destruct (zadd_law (encodeUser u a) (redis s)) as (w1 & -> & M1 & K1 & C1). destruct (decide (encodeUser u a ∈ set s)) as [Hin|Hnin]; [change (1 =? 0) with false|change (1 =? 1) with true]; cbn iota.
  - unfold bind at 1. cbn [ret]. unfold bind. set (s1 := {| redis := w1 |}). rewrite Ek. destruct (insert_map k u s1 d Ed Hl) as (b & d' & -> & Eb & Es). eexists. split; [reflexivity|].
    split; [exact M1|]. cbn [redis s1]. split; cbn [redis built]; trivial.
    + exists d'. split; [reflexivity|]. rewrite Eb, M1. now apply matches_add.
    + refine (Hserves _ d' _ Es). reflexivity.
    + apply (no_messages s s1); cbn [redis s1]; [exact C1|]. change (set s1) with (members w1). rewrite M1. apply leibniz_equiv. intros x. rewrite elem_of_union, elem_of_singleton. split; [intros [->|]; trivial|now right].
  - unfold bind at 1, tell_redis, on_redis. cbn [redis currentDirectoryMap built]. destruct (publish_law (ADDED_USER (encodeUser u a)) w1) as (M2 & K2 & C2). unfold bind.
    set (s1 := {| redis := jedis_publish (ADDED_USER (encodeUser u a)) w1 |}). rewrite Ek. destruct (insert_map k u s1 d Ed Hl) as (b & d' & -> & Eb & Es). eexists. split; [reflexivity|].
    cbn [redis s1]. rewrite M2, M1. split; [reflexivity|]. split; cbn [redis built]; rewrite ?M2, ?M1; trivial; [|congruence| |].
    + exists d'. split; [reflexivity|]. rewrite Eb. now apply matches_add.
    + refine (Hserves _ d' _ Es). reflexivity.
    + exists [ADDED_USER (encodeUser u a)], {[k := Some u]}. split; [now rewrite C2, C1|]. split; [now apply added_effect|]. intros m Hm'. rewrite overlay_insert. now apply matches_add.
Qed.

Lemma removeUser_keeps_up u a s : users_ok (set s) -> user_ok (u, a) -> encodeUser u a ∈ set s -> has_users (set s) s ->
  exists s', removeUser u a s = (Returned tt, s') /\ set s' = set s ∖ {[encodeUser u a]} /\ keeps_up s s' (keys (redis s)).
Proof.
  intros Hok Hu Hin (d & Ed & Hm). pose proof Hu as [Hu' (k & Hk & Hl)]. destruct (number_parse a k Hk) as (n & En & Ek).
  unfold removeUser, bind at 1, parse. rewrite En. unfold bind at 1, getCurrentDirectoryMap. rewrite Ed. unfold bind at 1, cache_removeUser, on_redis.
  destruct (zrem_law (encodeUser u a) (redis s)) as (w1 & -> & M1 & K1 & C1). rewrite decide_True by exact Hin. change (1 =? 1) with true. cbn iota.
  unfold bind at 1, tell_redis, on_redis. cbn [redis currentDirectoryMap built]. destruct (publish_law (REMOVED a) w1) as (M2 & K2 & C2). unfold bind.
  set (s1 := {| redis := jedis_publish (REMOVED a) w1 |}). rewrite Ek. destruct (remove_map k s1 d Ed Hl) as (b & d' & -> & Eb & Es). eexists. split; [reflexivity|].
  cbn [redis s1]. rewrite M2, M1. split; [reflexivity|]. split; cbn [redis built]; rewrite ?M2, ?M1; trivial; [|congruence| |].
  - exists d'. split; [reflexivity|]. rewrite Eb. now apply matches_remove.
  - intros (d0 & E0 & H0). exists d'. split; [reflexivity|]. apply Es. replace d with d0 by congruence. exact H0.
  - exists [REMOVED a], {[k := None]}. split; [now rewrite C2, C1|]. split; [now apply removed_effect|]. intros m Hm'. rewrite overlay_delete. now apply matches_remove.
Qed.

(** ** Reconciliation *)

(** A chunk: the UUIDs after one and up to another. *)
Definition in_chunk (from to : option UUID) (u : UUID) : bool :=
  match from with Some v => num v <? num u | None => true end && match to with Some v => num u <=? num v | None => true end.
Definition bounds_ok (from to : option UUID) : Prop := match from with Some v => uuid_ok v | None => True end /\ match to with Some v => uuid_ok v | None => True end.

Lemma in_range_lex from to u a : bounds_ok from to -> uuid_ok u ->
  above (match from with Some v => String "(" (uuidBoundAfter v) | None => "-" end) (encodeUser u a) &&
  below (match to with Some v => String "(" (uuidBoundAfter v) | None => "+" end) (encodeUser u a) = in_chunk from to u.
Proof.
  intros [Hf Ht] Hu. unfold in_chunk. f_equal.
  - destruct from as [v|]; [|reflexivity]. cbn [above]. unfold String.ltb, encodeUser, uuidBoundAfter. rewrite compare_toString by assumption.
    destruct (Z.compare_spec (num v) (num u)); destruct (Z.ltb_spec (num v) (num u)); reflexivity || lia.
  - destruct to as [v|]; [|reflexivity]. cbn [below]. unfold String.ltb, encodeUser, uuidBoundAfter. rewrite compare_toString by assumption.
    destruct (Z.compare_spec (num u) (num v)); destruct (Z.leb_spec (num u) (num v)); reflexivity || lia.
Qed.

Lemma users_in_range from to (w : W) user : bounds_ok from to -> users_ok (members w) ->
  user ∈ decode_users (zrangeByLex (match from with Some v => String "(" (uuidBoundAfter v) | None => "-" end) (match to with Some v => String "(" (uuidBoundAfter v) | None => "+" end) w) <->
  user_ok user /\ enc user ∈ members w /\ in_chunk from to user.1 = true.
Proof.
  intros Hb [Hu _]. unfold decode_users. rewrite list_elem_of_omap. setoid_rewrite zrange_law. split.
  - intros (m & (Hm & Ha & Hl) & E). destruct (Hu m Hm) as (user' & Hok & ->). rewrite user_decoded in E by apply Hok. injection E as E. rewrite <- surjective_pairing in E. subst user.
    split; [exact Hok|]. split; [exact Hm|]. rewrite <- (in_range_lex from to user'.1 user'.2 Hb (proj1 Hok)), Ha, Hl. reflexivity.
  - intros (Hok & Hm & Hc). exists (enc user). rewrite user_decoded by apply Hok. split; [|now destruct user]. split; [exact Hm|].
    rewrite <- (in_range_lex from to user.1 user.2 Hb (proj1 Hok)) in Hc. now apply andb_true_iff in Hc.
Qed.

Lemma catch_returned m (s s' : node W) : m s = (Returned tt, s') -> catch_address m (ret tt) s = (Returned tt, s').
Proof. unfold catch_address. now intros ->. Qed.

Lemma add_step (m : string) (xs ms : gset string) : xs ∪ ({[m]} ∪ ms) = {[m]} ∪ xs ∪ ms.
Proof. now rewrite (union_comm_L {[m]} xs), union_assoc_L. Qed.

Lemma remove_all_keeps_up (h : M (node W) unit -> M (node W) unit) (Hh : forall m s s', m s = (Returned tt, s') -> h m s = (Returned tt, s')) l :
  forall s, Forall (fun x => user_ok x /\ enc x ∈ set s) l -> NoDup l -> users_ok (set s) -> has_users (set s) s ->
  exists s', for_each l (fun user => h (removeUser (fst user) (snd user))) s = (Returned tt, s') /\
    set s' = set s ∖ list_to_set (List.map (fun x => enc x) l) /\ keeps_up s s' (keys (redis s)).
Proof.
  induction l as [|x l IH]; intros s Hl Hd Hok Hs.
  - exists s. split; [reflexivity|]. split; [cbn; now rewrite difference_empty_L|now apply keeps_up_refl].
  - apply Forall_cons in Hl as [[Hx Hin] Hl]. apply NoDup_cons in Hd as [Hn Hd]. destruct x as [u a]. cbn [fst snd] in *. destruct (removeUser_keeps_up u a s Hok Hx Hin Hs) as (s1 & E1 & M1 & K1).
    destruct (IH s1) as (s2 & E2 & M2 & K2); trivial; [|rewrite M1; apply (users_ok_sub _ _ Hok), subseteq_difference_l; reflexivity|apply K1|].
    + rewrite M1. apply Forall_forall. intros y Hy. rewrite Forall_forall in Hl. destruct (Hl y Hy) as [Hyo Hym]. split; [exact Hyo|]. apply elem_of_difference. split; [exact Hym|].
      intros Hs1%elem_of_singleton. apply (enc_inj y (u, a)) in Hs1; trivial. now subst y.
    + exists s2. split; [|split; [rewrite M2, M1; cbn; now rewrite difference_difference_l_L|]].
      * cbn [for_each fst snd]. unfold bind. now rewrite (Hh _ _ _ E1).
      * rewrite (ku_keys _ _ _ K1) in K2. exact (keeps_up_trans _ _ _ _ _ K1 K2).
Qed.

Lemma add_all_keeps_up l : forall s, Forall user_ok l -> users_ok (list_to_set (List.map (fun x => enc x) l) ∪ set s) -> has_users (set s) s ->
  exists s', for_each l (fun user => addUser (fst user) (snd user)) s = (Returned tt, s') /\
    set s' = list_to_set (List.map (fun x => enc x) l) ∪ set s /\ keeps_up s s' (keys (redis s)).
Proof.
  induction l as [|x l IH]; intros s Hl Hok Hs.
  - exists s. split; [reflexivity|]. split; [cbn; now rewrite union_empty_l_L|now apply keeps_up_refl].
  - apply Forall_cons in Hl as [Hx Hl]. destruct x as [u a]. cbn [fst snd List.map list_to_set] in *.
    destruct (addUser_keeps_up u a s) as (s1 & E1 & M1 & K1); trivial; [apply (users_ok_sub _ _ Hok), union_mono_r, union_subseteq_l|].
    destruct (IH s1) as (s2 & E2 & M2 & K2); trivial; [now rewrite M1, add_step|apply K1|].
    exists s2. split; [|split; [now rewrite M2, M1, add_step|]].
    + cbn [for_each fst snd]. unfold bind. now rewrite E1.
    + rewrite (ku_keys _ _ _ K1) in K2. exact (keeps_up_trans _ _ _ _ _ K1 K2).
Qed.

(** The set after a chunk is reconciled: the users of the chunk and, of the others, those outside of it. *)
Definition covered (from to : option UUID) (m : string) : bool := match decodeUser m with Some user => in_chunk from to user.1 | None => false end.
Definition reconciled (from to : option UUID) (users : list (UUID * string)) (ms : gset string) : gset string :=
  list_to_set (List.map (fun x => enc x) users) ∪ filter (fun m => covered from to m = false) ms.

(** The chunk starts the directory, or starts at or before where the last one ended. *)
Definition follows (k : gmap string string) (from to : option UUID) : Prop :=
  match from with
  | None => to <> None
  | Some v => exists last, uuid_ok last /\ k !! USER_LAST_RECONCILED = Some (toString last) /\ num v <= num last
  end.

(** The keys after it. *)
Definition advanced (to : option UUID) (k : gmap string string) : gmap string string :=
  match to with Some v => <[USER_LAST_RECONCILED := toString v]> k | None => <[USER_SET_BUILT := "1"%string]> (delete USER_LAST_RECONCILED k) end.

Lemma enc_all m (X : list (UUID * string)) : m ∈ (list_to_set (List.map (fun x => enc x) X) : gset string) <-> exists x, x ∈ X /\ m = enc x.
Proof. rewrite elem_of_list_to_set. setoid_rewrite list_elem_of_fmap. split; intros (x & H1 & H2); eauto. Qed.

Lemma reconciled_by from to users (ms : gset string) (R removed added : list (UUID * string)) : users_ok ms -> Forall user_ok users ->
  (forall x, x ∈ R <-> user_ok x /\ enc x ∈ ms /\ in_chunk from to x.1 = true) ->
  (forall x, x ∈ removed <-> x ∈ R /\ x ∉ users) -> (forall x, x ∈ added <-> x ∈ users /\ x ∉ R) ->
  list_to_set (List.map (fun x => enc x) added) ∪ ms ∖ list_to_set (List.map (fun x => enc x) removed) = reconciled from to users ms.
Proof.
  intros Hok Hu HR Hr Ha. rewrite Forall_forall in Hu. apply leibniz_equiv. intros m. unfold reconciled. rewrite !elem_of_union, elem_of_difference, elem_of_filter, !enc_all. split.
  - intros [(x & Hx & ->)|[Hm Hn]]; [left; exists x; split; [now apply Ha|reflexivity]|]. destruct (uo_users _ Hok m Hm) as (x & Hx & ->).
    unfold covered. rewrite user_decoded by apply Hx. cbn [fst]. destruct (in_chunk from to x.1) eqn:Hc; [|now right].
    left. exists x. split; [|reflexivity]. destruct (decide (x ∈ users)) as [|Hnu]; [assumption|]. destruct Hn. exists x. split; [|reflexivity]. apply Hr. split; [|exact Hnu]. now apply HR.
  - intros [(x & Hx & ->)|[Hc Hm]].
    + destruct (decide (x ∈ R)) as [HxR|HxR]; [|left; exists x; split; [now apply Ha|reflexivity]]. right. split; [now apply HR|].
      intros (y & Hy & E). apply Hr in Hy as [HyR Hyn]. apply (enc_inj x y) in E; [subst y; now apply Hyn|now apply Hu|now apply HR].
    + right. split; [exact Hm|]. intros (y & Hy & ->). apply Hr in Hy as [HyR _]. apply HR in HyR as (Hyo & _ & Hyc). revert Hc. unfold covered. rewrite user_decoded by apply Hyo. cbn [fst]. now rewrite Hyc.
Qed.

Lemma advance s to : has_users (set s) s -> exists s', setUuidLastReconciled to s = (Returned tt, s') /\ set s' = set s /\ keeps_up s s' (advanced to (keys (redis s))).
Proof.
  intros Hs. assert (H : forall w k, members w = set s -> keys w = k -> channel w = channel (redis s) -> keeps_up s {| redis := w; currentDirectoryMap := currentDirectoryMap s; built := built s |} k).
  { intros w k M K C. split; cbn [redis built]; trivial; [rewrite M; exact Hs|]. now apply (no_messages s {| redis := w; currentDirectoryMap := currentDirectoryMap s; built := built s |}). }
  destruct to as [v|]; cbn [setUuidLastReconciled advanced]; unfold tell_redis, on_redis; eexists; (split; [reflexivity|]); cbn [redis].
  - destruct (set_law USER_LAST_RECONCILED (toString v) (redis s)) as (M & K & C). split; [exact M|]. now apply H.
  - destruct (del_law USER_LAST_RECONCILED (redis s)) as (M1 & K1 & C1). destruct (set_law USER_SET_BUILT "1" (jedis_del USER_LAST_RECONCILED (redis s))) as (M & K & C).
    split; [congruence|]. apply H; congruence.
Qed.

Section Order.
Context (iterate : gset (UUID * string) -> list (UUID * string)) (iterate_elements : forall X, iterate X ≡ₚ elements X).

Lemma iterate_spec X x : x ∈ iterate X <-> x ∈ X.
Proof. rewrite iterate_elements. apply elem_of_elements. Qed.

Lemma compare_uuids u v : uuid_ok u -> uuid_ok v -> String.compare (toString u) (toString v) = (num u ?= num v).
Proof.
  intros Hu Hv. rewrite <- (append_empty (toString u)), <- (append_empty (toString v)), compare_toString by assumption. now destruct (num u ?= num v).
Qed.

Lemma not_skipped v s : uuid_ok v -> follows (keys (redis s)) (Some v) None -> exists last,
  getUuidLastReconciled s = (Returned (Some last), s) /\ match String.compare (toString v) (toString last) with Gt => true | _ => false end = false.
Proof.
  intros Hv (last & Hl & Hk & Hle). exists last. unfold getUuidLastReconciled, ask_redis, on_redis. rewrite get_law, Hk, fromString_toString by exact Hl. rewrite compare_uuids by assumption.
  split; [now destruct s|]. destruct (Z.compare_spec (num v) (num last)); reflexivity || lia.
Qed.

Lemma reconcile_keeps_up from to users s :
  users_ok (set s) -> has_users (set s) s -> Forall user_ok users -> bounds_ok from to -> follows (keys (redis s)) from to -> users_ok (reconciled from to users (set s)) ->
  exists s', reconcile iterate true from to users s = (Returned true, s') /\
    set s' = reconciled from to users (set s) /\ keeps_up s s' (advanced to (keys (redis s))).
Proof.
  intros Hok Hs Hu Hb Hf Hok'.
  set (R := decode_users (zrangeByLex (match from with Some v => String "(" (uuidBoundAfter v) | None => "-" end) (match to with Some v => String "(" (uuidBoundAfter v) | None => "+" end) (redis s))).
  assert (HR := fun x => users_in_range from to (redis s) x Hb Hok). fold R in HR.
  set (removed := (list_to_set R : gset (UUID * string)) ∖ list_to_set users). set (added := (list_to_set users : gset (UUID * string)) ∖ list_to_set R).
  assert (Hr : forall x, x ∈ iterate removed <-> x ∈ R /\ x ∉ users) by (intros x; unfold removed; now rewrite iterate_spec, elem_of_difference, !elem_of_list_to_set).
  assert (Ha : forall x, x ∈ iterate added <-> x ∈ users /\ x ∉ R) by (intros x; unfold added; now rewrite iterate_spec, elem_of_difference, !elem_of_list_to_set).
  assert (Hset := reconciled_by from to users (set s) R (iterate removed) (iterate added) Hok Hu HR Hr Ha).
  destruct (remove_all_keeps_up (fun m => catch_address m (ret tt)) catch_returned (iterate removed) s) as (s1 & E1 & M1 & K1); trivial; [apply Forall_forall; intros x Hx; apply Hr in Hx as [Hx _]; split; now apply HR|rewrite iterate_elements; apply NoDup_elements|].
  destruct (add_all_keeps_up (iterate added) s1) as (s2 & E2 & M2 & K2); [apply Forall_forall; intros x Hx; apply Ha in Hx as [Hx _]; revert x Hx; now apply Forall_forall|now rewrite M1, Hset|apply K1|].
  destruct (advance s2 to) as (s3 & E3 & M3 & K3); [apply K2|].
  exists s3. split; [|split; [congruence|]].
  - assert (Hrun : (let! usersInRange := getUsersInRange from to in
       for_each (iterate ((list_to_set usersInRange : gset (UUID * string)) ∖ list_to_set users)) (fun user => catch_address (removeUser (fst user) (snd user)) (ret tt)) ;;
       for_each (iterate ((list_to_set users : gset (UUID * string)) ∖ list_to_set usersInRange)) (fun user => addUser (fst user) (snd user)) ;;
       setUuidLastReconciled to ;; ret true) s = (Returned true, s3)).
    { unfold bind at 1, getUsersInRange, ask_redis, on_redis. fold R. replace {| redis := redis s; currentDirectoryMap := currentDirectoryMap s; built := built s |} with s by now destruct s.
      fold removed added. unfold bind. now rewrite E1, E2, E3. }
    unfold reconcile. cbn [negb]. destruct from as [v|].
    + destruct (not_skipped v s (proj1 Hb) Hf) as (last & El & Ec). unfold bind at 1 2. rewrite El. cbn [ret]. rewrite Ec. exact Hrun.
    + unfold bind at 1. cbn [ret]. destruct to as [v|]; [exact Hrun|now destruct Hf].
  - rewrite (ku_keys _ _ _ K2), (ku_keys _ _ _ K1) in K3. rewrite (ku_keys _ _ _ K1) in K2. exact (keeps_up_trans _ _ _ _ _ K1 (keeps_up_trans _ _ _ _ _ K2 K3)).
Qed.

Lemma commit_serves s ms : has_users ms s -> serves_built s -> exists s' d', commitIfIsConnected s = (Returned tt, s') /\
  currentDirectoryMap s' = Some d' /\ matches ms (d_serving d') /\ redis s' = redis s.
Proof.
  intros (d & Ed & Hm) (d0 & E0 & H0). replace d0 with d in H0 by congruence. unfold commitIfIsConnected, bind, on_map, call_map. rewrite Ed. cbn [promise]. unfold up_to_date in H0.
  destruct (d_changed d); eexists _, _; (split; [reflexivity|]); (split; [reflexivity|]); (split; [|reflexivity]); [exact Hm|]. now rewrite H0.
Qed.


(** ** The requests of the third version *)

Lemma known_users users (w : W) x : x ∈ List.filter (fun user => bool_decide (is_Some (zscore (encodeUser user.1 user.2) w))) users <-> x ∈ users /\ enc x ∈ members w.
Proof. rewrite !list_elem_of_In, filter_In, bool_decide_eq_true, zscore_law. reflexivity. Qed.

(** Users who are said to exist are in the set then, with those who were. *)
Lemma existsReconcile_keeps_up users s : has_users (set s) s -> Forall user_ok users -> users_ok (list_to_set (List.map (fun x => enc x) users) ∪ set s) ->
  exists s', existsReconcile iterate users s = (Returned tt, s') /\ set s' = list_to_set (List.map (fun x => enc x) users) ∪ set s /\ keeps_up s s' (keys (redis s)).
Proof.
  intros Hs Hu Hok. unfold existsReconcile, bind, getKnownUsers, ask_redis, on_redis. replace {| redis := redis s; currentDirectoryMap := currentDirectoryMap s; built := built s |} with s by now destruct s.
  set (added := iterate _). assert (Ha : forall x, x ∈ added <-> x ∈ users /\ enc x ∉ set s).
  { intros x. unfold added. rewrite iterate_spec, elem_of_difference, !elem_of_list_to_set, known_users. tauto. }
  assert (E : list_to_set (List.map (fun x => enc x) added) ∪ set s = list_to_set (List.map (fun x => enc x) users) ∪ set s).
  { apply leibniz_equiv. intros m. rewrite !elem_of_union, !enc_all. split; (intros [(x & Hx & ->)|H]; [|now right]); [left; exists x; split; [now apply Ha|reflexivity]|].
    destruct (decide (enc x ∈ set s)); [now right|left]. exists x. split; [now apply Ha|reflexivity]. }
  rewrite <- E in Hok |- *. apply add_all_keeps_up; trivial. apply Forall_forall. intros x Hx. apply Ha in Hx as [Hx _]. revert x Hx. now apply Forall_forall.
Qed.

(** Users who are said to be deleted are not in the set then. *)
Lemma deletesReconcile_keeps_up users s : users_ok (set s) -> has_users (set s) s -> Forall user_ok users ->
  exists s', deletesReconcile iterate users s = (Returned tt, s') /\ set s' = set s ∖ list_to_set (List.map (fun x => enc x) users) /\ keeps_up s s' (keys (redis s)).
Proof.
  intros Hok Hs Hu. unfold deletesReconcile, bind, getKnownUsers, ask_redis, on_redis. replace {| redis := redis s; currentDirectoryMap := currentDirectoryMap s; built := built s |} with s by now destruct s.
  set (removed := iterate _). assert (Hr : forall x, x ∈ removed <-> x ∈ users /\ enc x ∈ set s) by (intros x; unfold removed; now rewrite iterate_spec, elem_of_list_to_set, known_users).
  destruct (remove_all_keeps_up (fun m => m) (fun x s s' E => E) removed s) as (s' & E & M & K); trivial.
  - rewrite Forall_forall in Hu. apply Forall_forall. intros x Hx. apply Hr in Hx as [H1 H2]. split; [now apply Hu|exact H2].
  - unfold removed. rewrite iterate_elements. apply NoDup_elements.
  - exists s'. split; [exact E|]. split; [|exact K]. rewrite M. apply leibniz_equiv. intros m. rewrite !elem_of_difference, !enc_all. split; intros [H1 H2]; (split; [exact H1|]); intros (x & Hx & ->); apply H2; exists x; (split; [|reflexivity]); [now apply Hr|now apply Hr in Hx].
Qed.

(** ** The set is marked built *)

(** Code that leaves the keys in Redis alone. *)
Definition keeps_keys {A} (m : M (node W) A) : Prop := forall s, keys (redis (m s).2) = keys (redis s).

Lemma keeps_keys_bind {A B} (m : M (node W) A) (k : A -> M (node W) B) : keeps_keys m -> (forall a, keeps_keys (k a)) -> keeps_keys (bind m k).
Proof. intros Hm Hk s. unfold bind. specialize (Hm s). destruct (m s) as [[a|t] s1]; cbn [snd] in *; [rewrite (Hk a); exact Hm|exact Hm]. Qed.

Lemma keeps_keys_for_each {A} (l : list A) body : (forall a, keeps_keys (body a)) -> keeps_keys (for_each l body).
Proof. intros H. induction l as [|a l IH]; [intros s; reflexivity|]. now apply keeps_keys_bind. Qed.

Lemma keeps_keys_map c : keeps_keys (on_map c ;; ret tt).
Proof.
  apply keeps_keys_bind; [|intros b s; reflexivity]. intros s. unfold on_map. destruct (currentDirectoryMap s) as [d|]; [|reflexivity]. now destruct (call_map c d).
Qed.

Lemma keeps_keys_parse a (k : Z -> M (node W) unit) : (forall n, keeps_keys (k n)) -> keeps_keys (let! n := parse a in getCurrentDirectoryMap ;; k n).
Proof.
  intros Hk. apply keeps_keys_bind; [intros s; reflexivity|]. intros n. apply keeps_keys_bind; [|intros _; apply Hk]. intros s. unfold getCurrentDirectoryMap. now destruct (currentDirectoryMap s).
Qed.

Lemma keeps_keys_publish (b : bool) m : keeps_keys (if b then tell_redis (jedis_publish m) else ret tt).
Proof. intros s. destruct b; [|reflexivity]. unfold tell_redis, on_redis. cbn. apply publish_law. Qed.

Lemma addUser_keys u a : keeps_keys (addUser u a).
Proof.
  apply keeps_keys_parse. intros n. apply keeps_keys_bind.
  - intros s. unfold cache_addUser, on_redis. destruct (zadd_law (encodeUser u a) (redis s)) as (w & -> & _ & K & _). exact K.
  - intros b. apply keeps_keys_bind; [apply keeps_keys_publish|]. intros _. apply keeps_keys_map.
Qed.

Lemma removeUser_keys u a : keeps_keys (catch_address (removeUser u a) (ret tt)).
Proof.
  assert (H : keeps_keys (removeUser u a)).
  - apply keeps_keys_parse. intros n. apply keeps_keys_bind.
    + intros s. unfold cache_removeUser, on_redis. destruct (zrem_law (encodeUser u a) (redis s)) as (w & -> & _ & K & _). exact K.
    + intros b. apply keeps_keys_bind; [apply keeps_keys_publish|]. intros _. apply keeps_keys_map.
  - intros s. specialize (H s). unfold catch_address. destruct (removeUser u a s) as [[[]|[]] s']; exact H.
Qed.

(** A request to reconcile, and whether it was accepted. *)
Record chunk : Type := { from_uuid : option UUID; to_uuid : option UUID; chunk_users : list (UUID * string) }.
Definition serve (c : chunk) (s : node W) : bool * node W :=
  match reconcile iterate true (from_uuid c) (to_uuid c) (chunk_users c) s with (Returned b, s) => (b, s) | (Thrown _, s) => (false, s) end.
Fixpoint serve_all (cs : list chunk) (s : node W) : list chunk * node W :=
  match cs with
  | [] => ([], s)
  | c :: cs => let '(b, s) := serve c s in let '(accepted, s) := serve_all cs s in (if b then c :: accepted else accepted, s)
  end.

Lemma advance_keys s to : exists s', setUuidLastReconciled to s = (Returned tt, s') /\ keys (redis s') = advanced to (keys (redis s)).
Proof.
  destruct to as [v|]; cbn [setUuidLastReconciled advanced]; unfold tell_redis, on_redis; eexists; (split; [reflexivity|]); cbn [redis]; [apply set_law|].
  rewrite (proj1 (proj2 (set_law _ _ _))). f_equal. apply del_law.
Qed.

(** What a request does to the keys, whatever becomes of its users. *)
Lemma serve_keys c s : bounds_ok (from_uuid c) (to_uuid c) -> (forall t, keys (redis s) !! USER_LAST_RECONCILED = Some t -> exists last, uuid_ok last /\ t = toString last) ->
  match serve c s with
  | (true, s') => follows (keys (redis s)) (from_uuid c) (to_uuid c) /\ keys (redis s') = advanced (to_uuid c) (keys (redis s))
  | (false, s') => keys (redis s') = keys (redis s)
  end.
Proof.
  intros [Hf Ht] Hlast. unfold serve, reconcile. destruct c as [from to users]. cbn [from_uuid to_uuid chunk_users negb] in *.
  set (run := let! usersInRange := getUsersInRange from to in _).
  assert (Hrun : match run s with (Returned b, s') => b = true /\ keys (redis s') = advanced to (keys (redis s)) | (Thrown _, s') => keys (redis s') = keys (redis s) end).
  { unfold run, bind at 1, getUsersInRange, ask_redis, on_redis. set (R := decode_users _). set (s0 := {| redis := redis s |}). change (redis s) with (redis s0). clearbody R s0.
    set (remove := for_each (iterate (list_to_set R ∖ list_to_set users)) _). set (add := for_each _ (fun user => addUser user.1 user.2)).
    assert (H1 : keeps_keys remove) by (apply keeps_keys_for_each; intros x; apply removeUser_keys). assert (H2 : keeps_keys add) by (apply keeps_keys_for_each; intros x; apply addUser_keys).
    unfold bind. specialize (H1 s0). destruct (remove s0) as [[u1|t1] s1]; cbn [snd] in H1; [|exact H1]. specialize (H2 s1). destruct (add s1) as [[u2|t2] s2]; cbn [snd] in H2; [|congruence].
    destruct (advance_keys s2 to) as (s3 & -> & E3). split; [reflexivity|congruence]. }
  destruct from as [v|].
  - unfold bind at 1 2, getUuidLastReconciled, ask_redis, on_redis. rewrite get_law. replace {| redis := redis s; currentDirectoryMap := currentDirectoryMap s; built := built s |} with s by now destruct s.
    destruct (keys (redis s) !! USER_LAST_RECONCILED) as [t|] eqn:Et; [|reflexivity]. destruct (Hlast t eq_refl) as (last & Hl & ->). rewrite fromString_toString by exact Hl. cbn [ret].
    rewrite compare_uuids by assumption. destruct (Z.compare_spec (num v) (num last)) as [E|E|E]; [| |reflexivity]; fold run; destruct (run s) as [[b|t] s']; trivial; destruct Hrun as [-> Hk];
      (split; [|exact Hk]); exists last; (split; [exact Hl|]); (split; [exact Et|lia]).
  - unfold bind at 1. cbn [ret]. destruct to as [v|]; [|reflexivity]. fold run. destruct (run s) as [[b|t] s']; trivial. destruct Hrun as [-> Hk]. now split.
Qed.

(** A UUID in one of the chunks, and what the keys say about the chunks so far. *)
Definition sent (cs : list chunk) (u : UUID) : Prop := exists c, c ∈ cs /\ in_chunk (from_uuid c) (to_uuid c) u = true.
Record progress (cs : list chunk) (k : gmap string string) : Prop := {
  pr_last : forall t, k !! USER_LAST_RECONCILED = Some t -> exists last, uuid_ok last /\ t = toString last /\ forall u, num u <= num last -> sent cs u;
  pr_built : is_Some (k !! USER_SET_BUILT) -> forall u, sent cs u }.

Lemma sent_more cs c u : sent cs u -> sent (cs ++ [c]) u.
Proof. intros (c' & H & Hc). exists c'. split; [|exact Hc]. apply elem_of_app. now left. Qed.

Lemma sent_last cs c u : in_chunk (from_uuid c) (to_uuid c) u = true -> sent (cs ++ [c]) u.
Proof. intros H. exists c. split; [|exact H]. apply elem_of_app. right. now apply list_elem_of_singleton. Qed.

(** A chunk that follows those before covers what is up to its end. *)
Lemma sent_up_to cs k c u : progress cs k -> follows k (from_uuid c) (to_uuid c) -> match to_uuid c with Some v => num u <= num v | None => True end -> sent (cs ++ [c]) u.
Proof.
  intros [Hl _] Hf Hu. assert (Hto : match to_uuid c with Some v => num u <=? num v | None => true end = true) by (destruct (to_uuid c); [lia|reflexivity]).
  destruct (from_uuid c) as [v|] eqn:Ev; [|apply sent_last; unfold in_chunk; now rewrite Ev]. destruct Hf as (last & Ok & Hk & Hle). destruct (Hl _ Hk) as (last' & Ok' & E & Hs).
  destruct (Z.ltb_spec (num v) (num u)) as [Hlt|Hge].
  - apply sent_last. unfold in_chunk. rewrite Ev, Hto, andb_true_r. lia.
  - apply sent_more, Hs. apply (f_equal fromString) in E. rewrite !fromString_toString in E by assumption. injection E as <-. lia.
Qed.

Lemma serve_progress c s cs : bounds_ok (from_uuid c) (to_uuid c) -> progress cs (keys (redis s)) -> let '(b, s') := serve c s in progress (cs ++ if b then [c] else []) (keys (redis s')).
Proof.
  intros Hb Hp. pose proof (serve_keys c s Hb) as Hk. destruct (serve c s) as [[] s'].
  - destruct Hk as [Hf ->]; [intros t Ht; destruct (pr_last _ _ Hp t Ht) as (last & H1 & H2 & _); eauto|]. pose proof (fun u => sent_up_to cs _ c u Hp Hf) as Hs. destruct (to_uuid c) as [v|] eqn:Ev; split; cbn [advanced].
    + intros t. rewrite lookup_insert_eq. intros [= <-]. exists v. split; [apply Hb|]. split; [reflexivity|exact Hs].
    + rewrite lookup_insert_ne by discriminate. intros H u. now apply sent_more, (pr_built _ _ Hp).
    + intros t. rewrite lookup_insert_ne by discriminate. now rewrite lookup_delete_eq.
    + intros _ u. now apply Hs.
  - rewrite app_nil_r, Hk; [exact Hp|]. intros t Ht. destruct (pr_last _ _ Hp t Ht) as (last & H1 & H2 & _). eauto.
Qed.

Lemma serve_all_progress cs : forall done s, Forall (fun c => bounds_ok (from_uuid c) (to_uuid c)) cs -> progress done (keys (redis s)) ->
  let '(accepted, s') := serve_all cs s in progress (done ++ accepted) (keys (redis s')).
Proof.
  induction cs as [|c cs IH]; intros done s Hb Hp; cbn [serve_all]; [now rewrite app_nil_r|]. apply Forall_cons in Hb as [Hc Hb].
  pose proof (serve_progress c s done Hc Hp) as H1. destruct (serve c s) as [b s1]. specialize (IH _ s1 Hb H1). destruct (serve_all cs s1) as [accepted s2].
  rewrite <- app_assoc in IH. now destruct b.
Qed.

(** C20. A set that is built was sent whole. Whatever requests to reconcile a service gets that starts with
    no chunk reconciled, in whatever order, with whatever users, some refused and some failing, if the
    set is marked as built at the end then every UUID was in the range of a chunk that was accepted. *)
Theorem built_set_was_sent cs s : keys (redis s) !! USER_LAST_RECONCILED = None -> keys (redis s) !! USER_SET_BUILT = None -> Forall (fun c => bounds_ok (from_uuid c) (to_uuid c)) cs ->
  let '(accepted, s') := serve_all cs s in is_Some (keys (redis s') !! USER_SET_BUILT) -> forall u, sent accepted u.
Proof.
  intros Hl Hs Hb. pose proof (serve_all_progress cs [] s Hb) as H. destruct (serve_all cs s) as [accepted s']. apply H. split; [intros t; now rewrite Hl|]. rewrite Hs. now intros [].
Qed.

(** ** A node without a directory *)

(** Code that does not change the set on a node that has no directory, and does not give it one. *)
Definition idle {A} (m : M (node W) A) : Prop := forall s, currentDirectoryMap s = None -> set (m s).2 = set s /\ currentDirectoryMap (m s).2 = None.

Lemma idle_bind {A B} (m : M (node W) A) (k : A -> M (node W) B) : idle m -> (forall a, idle (k a)) -> idle (bind m k).
Proof.
  intros Hm Hk s Hs. unfold bind. destruct (Hm s Hs) as [H1 H2]. destruct (m s) as [[a|t] s1]; cbn [snd] in *; [|now split]. destruct (Hk a s1 H2) as [H3 H4]. split; [congruence|exact H4].
Qed.

Lemma idle_for_each {A} (l : list A) body : (forall a, idle (body a)) -> idle (for_each l body).
Proof. intros H. induction l as [|a l IH]; [intros s Hs; now split|]. now apply idle_bind. Qed.

Lemma idle_parse {A} a (k : Z -> M (node W) A) : idle (let! n := parse a in getCurrentDirectoryMap ;; k n).
Proof.
  intros s Hs. assert (H : exists t, (let! n := parse a in getCurrentDirectoryMap ;; k n) s = (Thrown t, s)); [|destruct H as [t ->]; now split].
  unfold bind, parse, getCurrentDirectoryMap. destruct (parseAddress a); [rewrite Hs|]; now eexists.
Qed.

Lemma idle_remove u a : idle (catch_address (removeUser u a) (ret tt)).
Proof. intros s Hs. assert (H : idle (removeUser u a)) by apply idle_parse. specialize (H s Hs). unfold catch_address. destruct (removeUser u a s) as [[[]|[]] s']; exact H. Qed.

Lemma idle_advance to : idle (setUuidLastReconciled to).
Proof.
  intros s Hs. destruct to as [v|]; unfold setUuidLastReconciled, tell_redis, on_redis; cbn [snd redis currentDirectoryMap]; (split; [|exact Hs]); [apply set_law|]. rewrite (proj1 (set_law _ _ _)). apply del_law.
Qed.

Lemma idle_serve c s : currentDirectoryMap s = None -> set (serve c s).2 = set s /\ currentDirectoryMap (serve c s).2 = None.
Proof.
  intros Hs. assert (Hask : forall A (g : W -> A), idle (ask_redis g)) by (intros A g s0 H0; now split). assert (Hret : forall A (x : A), idle (ret x)) by (intros A x s0 H0; now split).
  assert (H : idle (reconcile iterate true (from_uuid c) (to_uuid c) (chunk_users c))).
  { unfold reconcile. cbn [negb]. apply idle_bind; [destruct (from_uuid c); [apply idle_bind|]; trivial; apply Hask|]. intros [|]; [apply Hret|].
    assert (Hrun : idle (let! usersInRange := getUsersInRange (from_uuid c) (to_uuid c) in
      for_each (iterate ((list_to_set usersInRange : gset (UUID * string)) ∖ list_to_set (chunk_users c))) (fun user => catch_address (removeUser (fst user) (snd user)) (ret tt)) ;;
      for_each (iterate ((list_to_set (chunk_users c) : gset (UUID * string)) ∖ list_to_set usersInRange)) (fun user => addUser (fst user) (snd user)) ;;
      setUuidLastReconciled (to_uuid c) ;; ret true)); [|destruct (from_uuid c), (to_uuid c); trivial].
    apply idle_bind; [apply Hask|]. intros R. apply idle_bind; [apply idle_for_each; intros x; apply idle_remove|]. intros _. apply idle_bind; [apply idle_for_each; intros x; apply idle_parse|]. intros _.
    apply idle_bind; [apply idle_advance|]. intros _. apply Hret. }
  specialize (H s Hs). unfold serve. destruct (reconcile _ _ _ _ _ s) as [[b|t] s']; exact H.
Qed.

(** C39. A set that is not built does not grow. A node that starts on a set that is not marked as built
    is left without a directory, and whatever requests to reconcile it gets then, none of them changes
    the set: the users cannot be sent to a new service before its empty set is marked as built. *)
Theorem unbuilt_set_stays s fuel cs : currentDirectoryMap s = None -> keys (redis s) !! USER_SET_BUILT = None ->
  exists s0, rebuildLocalDataFromRedis fuel s = Some (Returned tt, s0) /\ set (serve_all cs s0).2 = set s /\ currentDirectoryMap (serve_all cs s0).2 = None.
Proof.
  intros Hd Hb. unfold rebuildLocalDataFromRedis. rewrite get_law, Hb. cbn [bool_decide]. eexists. split; [reflexivity|]. set (s0 := {| redis := redis s |}).
  change (set s) with (set s0). assert (H0 : currentDirectoryMap s0 = None) by exact Hd. clearbody s0. revert s0 H0. induction cs as [|c cs IH]; intros s0 H0; [now split|]. cbn [serve_all].
  destruct (idle_serve c s0 H0) as [H1 H2]. destruct (serve c s0) as [b s1]. cbn [snd] in H1, H2. destruct (IH s1 H2) as [H3 H4]. destruct (serve_all cs s1) as [l s2]. cbn [snd] in *. split; [congruence|exact H4].
Qed.

End Order.

(** ** Rebuilding *)

(** A directory under construction: nothing was served from it, and it has changed unless it is empty. *)
Definition fresh (d : directory) : Prop := d_serving d = ∅ /\ (d_changed d = false -> d_building d = ∅).

Lemma insert_page_spec l : forall (ms : gset string) d, fresh d -> users_ok (list_to_set l ∪ ms) -> matches ms (d_building d) ->
  exists d', insert_page (decode_users l) d = (Returned tt, d') /\ fresh d' /\ matches (list_to_set l ∪ ms) (d_building d').
Proof.
  induction l as [|m l IH]; intros ms d Hd Hok Hm; [exists d; cbn [list_to_set foldr]; rewrite union_empty_l_L; split; [reflexivity|]; split; assumption|]. cbn [list_to_set foldr] in *.
  destruct (uo_users _ Hok m) as ([u a] & Hu & ->); [apply elem_of_union_l, elem_of_union_l; now apply elem_of_singleton|]. pose proof Hu as [Hu' (k & Hk & Hl)]. destruct (number_parse a k Hk) as (n & En & Ek).
  cbn [fst snd] in *. unfold insert_page, decode_users. cbn [omap list_omap]. rewrite user_decoded by exact Hu'. cbn [for_each fst snd]. rewrite En, Ek.
  unfold bind at 1 2, call_map at 1, promise. rewrite Hl. cbn [ret]. rewrite <- add_step in Hok |- *. apply IH.
  - destruct Hd as [H1 H2]. split; [exact H1|]. cbn [d_changed d_building]. destruct (bool_decide_reflect (d_building d !! k = None)) as [|Hn]; [easy|]. intros E. rewrite (H2 E) in Hn. now destruct Hn.
  - exact Hok.
  - apply matches_add; trivial. apply (users_ok_sub _ _ Hok), union_subseteq_r.
Qed.

Lemma rebuild_users fuel : forall cursor w l fuel' (ms : gset string) d, scan_all fuel cursor w = Some l -> (fuel <= fuel')%nat -> fresh d -> users_ok (list_to_set l ∪ ms) -> matches ms (d_building d) ->
  exists d', rebuildLocalUsersFromRedis fuel' cursor w d = Some (Returned tt, d') /\ fresh d' /\ matches (list_to_set l ∪ ms) (d_building d').
Proof.
  induction fuel as [|fuel IH]; intros cursor w l fuel' ms d; cbn [scan_all]; [easy|]. destruct fuel' as [|fuel']; [lia|]. cbn [rebuildLocalUsersFromRedis]. destruct (zscan cursor w) as [page cursor'].
  destruct (String.eqb cursor' "0") eqn:Ec.
  - intros [= <-] _ Hd Hok Hm. destruct (insert_page_spec page ms d Hd Hok Hm) as (d' & -> & H). now exists d'.
  - destruct (scan_all fuel cursor' w) as [pages|] eqn:Es; [|easy]. intros [= <-] Hle Hd. rewrite list_to_set_app_L, (union_comm_L (list_to_set page)), <- union_assoc_L. intros Hok Hm.
    destruct (insert_page_spec page ms d Hd) as (d1 & -> & Hd1 & Hm1); trivial; [apply (users_ok_sub _ _ Hok), union_subseteq_r|]. apply (IH cursor' w pages fuel' _ d1); trivial. lia.
Qed.


(** ** Where the directory and the set part *)

Lemma addUser_runs u a k s d : currentDirectoryMap s = Some d -> number a = Some k -> DirectoryTable.live k = true -> exists s' d', addUser u a s = (Returned tt, s') /\
  set s' = {[encodeUser u a]} ∪ set s /\ currentDirectoryMap s' = Some d'.
Proof.
  intros Ed Hk Hl. destruct (number_parse a k Hk) as (n & En & Ek). unfold addUser, bind at 1, parse. rewrite En. unfold bind at 1, getCurrentDirectoryMap. rewrite Ed. unfold bind at 1, cache_addUser, on_redis.
  destruct (zadd_law (encodeUser u a) (redis s)) as (w1 & -> & M1 & _ & _). destruct (1 =? _); cbn iota; unfold tell_redis, on_redis, ret, bind; cbn [redis currentDirectoryMap built]; rewrite Ek.
  - set (s1 := {| redis := jedis_publish (ADDED_USER (encodeUser u a)) w1 |}). destruct (insert_map k u s1 d Ed Hl) as (b & d' & -> & _ & _). eexists _, _. split; [reflexivity|]. split; [|reflexivity].
    cbn [redis s1]. now rewrite (proj1 (publish_law _ _)).
  - set (s1 := {| redis := w1 |}). destruct (insert_map k u s1 d Ed Hl) as (b & d' & -> & _ & _). eexists _, _. split; [reflexivity|]. split; [|reflexivity]. exact M1.
Qed.

Lemma removeUser_runs u a k s d : currentDirectoryMap s = Some d -> number a = Some k -> DirectoryTable.live k = true -> exists s' d', removeUser u a s = (Returned tt, s') /\
  set s' = set s ∖ {[encodeUser u a]} /\ currentDirectoryMap s' = Some d' /\ d_building d' = delete k (d_building d).
Proof.
  intros Ed Hk Hl. destruct (number_parse a k Hk) as (n & En & Ek). unfold removeUser, bind at 1, parse. rewrite En. unfold bind at 1, getCurrentDirectoryMap. rewrite Ed. unfold bind at 1, cache_removeUser, on_redis.
  destruct (zrem_law (encodeUser u a) (redis s)) as (w1 & -> & M1 & _ & _). destruct (1 =? _); cbn iota; unfold tell_redis, on_redis, ret, bind; cbn [redis currentDirectoryMap built]; rewrite Ek.
  - set (s1 := {| redis := jedis_publish (REMOVED a) w1 |}). destruct (remove_map k s1 d Ed Hl) as (b & d' & -> & Eb & _). eexists _, _. split; [reflexivity|]. split; [|now split].
    cbn [redis s1]. now rewrite (proj1 (publish_law _ _)).
  - set (s1 := {| redis := w1 |}). destruct (remove_map k s1 d Ed Hl) as (b & d' & -> & Eb & _). eexists _, _. split; [reflexivity|]. split; [exact M1|]. now split.
Qed.

(** C38. A late removal takes the number away from its new user. When a number moves from one user to
    another and the new user is added before the old one is removed, both calls succeed and the set in
    Redis has the new user and not the old one, but the directory of the node has lost the number: an
    entry of a directory is taken out by its number alone. *)
Theorem late_removal_loses_user old new a k s d :
  user_ok (old, a) -> user_ok (new, a) -> old <> new -> number a = Some k -> currentDirectoryMap s = Some d ->
  exists s' d', (addUser new a ;; removeUser old a) s = (Returned tt, s') /\ encodeUser new a ∈ set s' /\ (encodeUser old a ∉ set s') /\
    currentDirectoryMap s' = Some d' /\ d_building d' !! k = None.
Proof.
  intros Ho Hn Hne Hk Ed. pose proof (proj2 Ho) as (k' & Hk' & Hl). cbn [snd] in Hk'. replace k' with k in Hl by congruence.
  destruct (addUser_runs new a k s d Ed Hk Hl) as (s1 & d1 & E1 & M1 & Ed1). destruct (removeUser_runs old a k s1 d1 Ed1 Hk Hl) as (s2 & d2 & E2 & M2 & Ed2 & Eb).
  exists s2, d2. unfold bind. rewrite E1. split; [exact E2|]. rewrite M2, M1, Eb. split; [|split; [|split; [exact Ed2|apply lookup_delete_eq]]].
  - apply elem_of_difference. split; [apply elem_of_union_l; now apply elem_of_singleton|]. intros E%elem_of_singleton. apply (enc_inj (new, a) (old, a)) in E; trivial. congruence.
  - intros [_ []]%elem_of_difference. now apply elem_of_singleton.
Qed.

(** The only exception of a rebuild. *)
Definition refused {A B} (r : outcome A * B) : Prop := match r with (Thrown IllegalArgumentException, _) => True | _ => False end.
Definition returned {A B} (r : outcome A * B) : Prop := match r with (Returned _, _) => True | _ => False end.

Lemma insert_page_outcome l d : refused (insert_page l d) \/ returned (insert_page l d) /\ Forall (fun x => number x.2 <> Some 0) l.
Proof.
  unfold insert_page. match goal with |- context [for_each l ?f] => set (body := f) end.
  assert (Hb : forall x d, (exists d', body x d = (Returned tt, d') /\ number x.2 <> Some 0) \/ exists d', body x d = (Thrown IllegalArgumentException, d')).
  { intros [u a] d0. unfold body; cbn [fst snd]. unfold number, parseAddress. destruct (parseLong 10 (filter_string digits_and_dots a)) as [n|]; [|left; exists d0; split; [reflexivity|discriminate]].
    unfold bind, call_map, promise. destruct (DirectoryTable.live (u64 n)) eqn:El; [left|right; now eexists]. eexists. split; [reflexivity|]. intros [= E]. now rewrite E in El. }
  clearbody body. revert d. induction l as [|x l IH]; intros d; cbn [for_each]; [right; split; [exact I|constructor]|]. unfold bind.
  destruct (Hb x d) as [(d' & -> & Hx)|(d' & ->)]; [|left; exact I]. destruct (IH d') as [H|[H1 H2]]; [left; exact H|right]. split; [exact H1|]. now constructor.
Qed.

Lemma rebuild_refused fuel u a : uuid_ok u -> number a = Some 0 -> forall cursor w l fuel' d, scan_all fuel cursor w = Some l -> encodeUser u a ∈ l -> (fuel <= fuel')%nat ->
  exists d', rebuildLocalUsersFromRedis fuel' cursor w d = Some (Thrown IllegalArgumentException, d').
Proof.
  intros Hu Ha. induction fuel as [|fuel IH]; intros cursor w l fuel' d; cbn [scan_all]; [easy|]. destruct fuel' as [|fuel']; [lia|]. cbn [rebuildLocalUsersFromRedis]. destruct (zscan cursor w) as [page cursor'].
  intros Hs Hin Hle. destruct (insert_page_outcome (decode_users page) d) as [H|[H Hf]]; destruct (insert_page (decode_users page) d) as [[[]|t] d1]; try easy; [destruct t; try easy; now exists d1|].
  assert (Hn : encodeUser u a ∉ page).
  { intros Hp. rewrite Forall_forall in Hf. apply (Hf (u, a)); [|exact Ha]. apply list_elem_of_omap. exists (encodeUser u a). now rewrite user_decoded. }
  destruct (String.eqb cursor' "0"); [congruence|]. destruct (scan_all fuel cursor' w) as [pages|] eqn:Es; [|easy]. injection Hs as <-. apply elem_of_app in Hin as [|Hin]; [easy|].
  apply (IH cursor' w pages fuel' d1 Es Hin). lia.
Qed.

Lemma connect_refused u a (f : node W) : uuid_ok u -> number a = Some 0 -> encodeUser u a ∈ set f -> is_Some (keys (redis f) !! USER_SET_BUILT) -> currentDirectoryMap f = None ->
  exists pages, forall fuel attempts, (pages <= fuel)%nat -> exists f', connect attempts fuel f = Some (false, f') /\ currentDirectoryMap f' = None.
Proof.
  intros Hu Ha Hin Hb Hd. destruct (zscan_law (redis f)) as (pages & l & Hs & Hl). exists pages. intros fuel attempts Hf. revert f Hin Hb Hd Hs Hl. induction attempts as [|n IH]; intros f Hin Hb Hd Hs Hl; [now exists f|].
  cbn [connect]. unfold rebuildLocalDataFromRedis. rewrite get_law, bool_decide_true by exact Hb. cbn [redis]. destruct (rebuild_refused pages u a Hu Ha "0" (redis f) l fuel new_directory Hs) as (d' & ->); [now apply Hl|exact Hf|].
  apply IH; trivial.
Qed.

(** C37. The number 0 stops the nodes. An address whose number is 0 can be parsed, so that [addUser] puts its
    user in the set and publishes it before the directory refuses the number and the call throws. When
    the set is marked as built, every node that gets the message drops its directory, and none of its
    attempts to build a new one from the set succeeds. *)
Theorem number_zero_stops_nodes u a s d : uuid_ok u -> number a = Some 0 -> currentDirectoryMap s = Some d -> encodeUser u a ∉ set s -> is_Some (keys (redis s) !! USER_SET_BUILT) ->
  exists s', addUser u a s = (Thrown IllegalArgumentException, s') /\ set s' = {[encodeUser u a]} ∪ set s /\ channel (redis s') = channel (redis s) ++ [ADDED_USER (encodeUser u a)] /\
    forall f, redis f = redis s' -> is_Some (currentDirectoryMap f) -> exists pages, forall fuel attempts, (pages <= fuel)%nat ->
      exists f', consume attempts fuel (ADDED_USER (encodeUser u a)) f = Some (false, f') /\ currentDirectoryMap f' = None.
Proof.
  intros Hu Hk Ed Hnin Hb. destruct (number_parse a 0 Hk) as (n & En & Ek). unfold addUser, bind at 1, parse. rewrite En. unfold bind at 1, getCurrentDirectoryMap. rewrite Ed. unfold bind at 1, cache_addUser, on_redis.
  destruct (zadd_law (encodeUser u a) (redis s)) as (w1 & -> & M1 & K1 & C1). rewrite decide_False by exact Hnin. change (1 =? 1) with true. cbn iota.
  unfold bind at 1, tell_redis, on_redis. cbn [redis currentDirectoryMap built]. destruct (publish_law (ADDED_USER (encodeUser u a)) w1) as (M2 & K2 & C2).
  unfold bind, on_map. cbn [currentDirectoryMap]. rewrite Ed, Ek. cbn [call_map promise DirectoryTable.live]. eexists. split; [reflexivity|]. cbn [redis]. split; [congruence|]. split; [congruence|].
  intros f Hf [d' Hd']. unfold consume. cbn [processMessage]. rewrite user_decoded by exact Hu. cbn [fst snd]. unfold catch_address, bind at 1, getCurrentDirectoryMap. rewrite Hd'. unfold bind at 1, parse. rewrite En.
  unfold bind, on_map. rewrite Hd', Ek. cbn [call_map promise DirectoryTable.live redis built]. apply (connect_refused u a); cbn [redis currentDirectoryMap]; trivial; rewrite Hf; [|now rewrite K2, K1].
  rewrite M2, M1. apply elem_of_union_l. now apply elem_of_singleton.
Qed.

End Manager.
End DirectoryUsers.
