(* ===== verification/ClientService.v ===== *)
(** The client, the enclave and the directory together: what a client asks for over the JNI library is
    what the directory of the host has. *)
From S2P Require Import Prelude Codec Curve25519 SgxsdCrypto Threads Sgxsd SgxsdSafety SgxsdSystem SgxsdProtocol SgxsdEntry Edge EdgeSafety EdgeHost Service SgxsdFfi HashLookup HashTable CdsLookup Cds CdsSafety CdsSpec Client ClientSpec JniEnclave Java RequestQueue RequestBatch DirectoryMap DirectoryTable DirectoryGrowth DirectorySpec DirectoryStream DirectoryService.
From Stdlib Require Import ZArith List Lia Bool.
From stdpp Require Import gmap.
Import Codec Threads Sgxsd SgxsdEntry Edge EdgeSafety SgxsdSafety SgxsdSystem SgxsdProtocol SgxsdCrypto Service HashLookup CdsLookup Cds CdsSafety CdsSpec ClientSpec DirectorySpec DirectoryService.
Open Scope Z_scope.

Module ClientService.

#[local] Opaque Curve25519.curve25519_donna sha256 hmac_sha256 hkdf_T aes_gcm_seal aes_gcm_open br_enc64be br_dec64le HashKey.hash_block.

(** * Between the client and the library *)

(** What the client makes of the arrays that the library returns for a negotiation
    (cds_api_client/src/lib.rs); encoding as base64 and JSON does not change the bytes. *)
Definition negotiation_of (arrays : list (list Z)) : Client.RequestNegotiation :=
  let a i := JniEnclave.jni_array_to_vec (List.nth i arrays []) in
  {| Client.server_ephemeral_pubkey := a 1%nat; Client.server_static_pubkey := a 0%nat;
     Client.encrypted_pending_request_id := {| Client.iv := a 3%nat; Client.mac := a 4%nat; Client.data := a 2%nat |} |}.

(** The response with the arrays of a reply: data, vector and tag. *)
Definition response_of (id : list Z) (arrays : list (list Z)) : Client.DiscoveryResponse :=
  RequestBatch.discovery_response id {| RequestBatch.msg_data := List.nth 0 arrays []; RequestBatch.msg_iv := List.nth 1 arrays []; RequestBatch.msg_mac := List.nth 2 arrays [] |}.

Lemma negotiation_bytes r : response_ok r -> negotiation_of (JniEnclave.negotiate_response r) =
  {| Client.server_ephemeral_pubkey := server_ephemeral_pubkey r; Client.server_static_pubkey := server_static_pubkey r;
     Client.encrypted_pending_request_id := {| Client.iv := enc_pid_iv r; Client.mac := enc_pid_mac r; Client.data := enc_pid_data r |} |}.
Proof. intros (H1 & H2 & H3 & H4 & H5). unfold negotiation_of, JniEnclave.negotiate_response. cbn [List.map List.nth]. now rewrite !JniEnclave.vec_array by (apply H1 || apply H2 || apply H3 || apply H4 || apply H5). Qed.

Lemma response_bytes id iv t c : blob 12 iv -> blob 16 t -> bytes_ok c -> response_of id (JniEnclave.complete_future_successfully iv t c) =
  {| Client.resp_requestId := id; Client.resp_data := c; Client.resp_iv := iv; Client.resp_mac := t |}.
Proof. intros [_ H1] [_ H2] H3. unfold response_of, RequestBatch.discovery_response, JniEnclave.complete_future_successfully. cbn [List.map List.nth RequestBatch.msg_data RequestBatch.msg_iv RequestBatch.msg_mac]. now rewrite !JniEnclave.vec_array. Qed.

(** * The query at the enclave *)

(** The arguments and the header that reach the enclave. *)
Definition call_args (req : Client.DiscoveryRequest) (q : Z) : sgxsd_server_handle_call_args_t :=
  {| query_phone_count := Client.addressCount req; ratelimit_state_size := 0; ratelimit_state_uuid := zeros 16; ratelimit_state_data := 0;
     query := {| em_iv := Client.req_iv req; em_mac := Client.req_mac req; em_size := Z.of_nat (length (Client.req_data req)); em_data := q |};
     query_commitment := Client.commitment req |}.

(** The data of a query lies in the host's memory. *)
Record query_at {W} {HM : HostMemory W} (sgx_is_outside_enclave : Z -> Z -> Z) (w : W) (q : Z) (data : list Z) : Prop := {
  qa_range : in_range 64 q;
  qa_null : q <> 0;
  qa_bytes : peek_bytes w q (Z.of_nat (length data)) = data;
  qa_outside : sgx_is_outside_enclave q (Z.of_nat (length data)) = 1;
  qa_end : q + Z.of_nat (length data) < 2 ^ 64 }.

Lemma pid_split pid : pid_ok pid -> firstn 8 (pid_bytes pid) = pid_data pid /\ firstn 12 (skipn 8 (pid_bytes pid)) = pid_iv pid /\ firstn 16 (skipn 20 (pid_bytes pid)) = pid_mac pid.
Proof.
  intros ([L1 _] & [L2 _] & [L3 _]). unfold pid_bytes. change firstn with (@take Z). change skipn with (@drop Z).
  rewrite take_app_length' by easy. rewrite drop_app_length' by easy. rewrite take_app_length' by easy.
  rewrite (app_assoc (pid_data pid)), drop_app_length' by (rewrite length_app; lia). rewrite take_ge by lia. easy.
Qed.


Section Query.
Context (prk : list Z) (pid : sgxsd_pending_request_id_t) (Hpid : pid_ok pid) (name : String.string) (ks nonce key msg_iv query_iv : list Z).
Context (Hnonce : blob 32 nonce) (Hkey : blob 32 key) (Hmi : blob 12 msg_iv) (Hqi : blob 12 query_iv) (Hn : 1 <= Z.of_nat (length ks) <= 8192).
Abbreviation req := (request_for prk pid name ks nonce key msg_iv query_iv).
Abbreviation plain := (query_plain nonce ks).

Lemma plain_ok : bytes_ok plain /\ Z.of_nat (length plain) = 32 + 8 * Z.of_nat (length ks).
Proof.
  split.
  - apply Forall_app. split; [apply Hnonce|apply phones_bytes].
  - unfold query_plain. rewrite length_app, phones_length. destruct Hnonce. lia.
Qed.

(** The parts of the request. *)
Record in_order (e : Client.DiscoveryRequestEnvelope) (header : sgxsd_msg_header_t) (msg : list Z) : Prop := {
  io_envelopes : Client.envelopes req = [(name, e)];
  io_message : seal_message prk msg_iv key pid = (header, msg);
  io_envelope : e = {| Client.env_requestId := pid_bytes pid; Client.env_data := msg; Client.env_iv := msg_iv; Client.env_mac := mh_mac header |};
  io_header : header_ok header /\ mh_iv header = msg_iv /\ mh_pending_request_id header = pid;
  io_msg : blob 32 msg;
  io_count : Client.addressCount req = Z.of_nat (length ks);
  io_commitment : Client.commitment req = sha256 plain;
  io_iv : Client.req_iv req = query_iv;
  io_sealed : aes_gcm_seal key query_iv [] plain = (Client.req_data req, Client.req_mac req);
  io_data : bytes_ok (Client.req_data req) /\ length (Client.req_data req) = length plain;
  io_mac : blob 16 (Client.req_mac req) }.

Lemma request_in_order : exists e header msg, in_order e header msg.
Proof.
  destruct plain_ok as [Bp Lp]. destruct (seal_message_ok prk msg_iv key pid Hmi (proj2 Hkey) Hpid) as (Hh & Lm & Bm).
  pose proof (seal_length (Aead := aes_gcm_aead) key query_iv [] plain Hkey (proj2 Hqi)) as L. pose proof (seal_bytes (Aead := aes_gcm_aead) key query_iv [] plain Hkey (proj2 Hqi) Bp) as B.
  pose proof (seal_tag (Aead := aes_gcm_aead) key query_iv [] plain Hkey (proj2 Hqi)) as T.
  assert (Eh : mh_iv (fst (seal_message prk msg_iv key pid)) = msg_iv /\ mh_pending_request_id (fst (seal_message prk msg_iv key pid)) = pid)
    by (unfold seal_message; now destruct (aes_gcm_seal _ _ _ _)).
  destruct (aes_gcm_seal key query_iv [] plain) as [c t] eqn:E1. destruct (seal_message prk msg_iv key pid) as [header msg] eqn:E2. cbn [fst snd] in *.
  destruct Eh as [Eiv Epid]. eexists _, header, msg.
  split; unfold request_for; rewrite ?E1, ?E2; cbn [Client.envelopes Client.addressCount Client.commitment Client.req_iv Client.req_data Client.req_mac]; try reflexivity; trivial.
  - now rewrite Eiv.
  - now split.
  - destruct Hkey. split; [congruence|exact Bm].
  - apply wrap_small. unfold in_range. lia.
  - now split.
Qed.

(** The library passes the request on as it is. *)
Lemma library_call e header msg q : in_order e header msg ->
  JniEnclave.server_call (RequestBatch.native_args req e) q = Ok (call_args req q, header, msg, Client.req_data req).
Proof.
  intros [H1 H2 -> (Hh & Eiv & Epid) Hm Hc Hco Hi Hs [Bd Ld] Ht]. destruct plain_ok as [_ Lp]. unfold JniEnclave.server_call, RequestBatch.native_args, RequestBatch.callArgs, RequestBatch.envelopeMessage, RequestBatch.queryMessage.
  cbn [JniEnclave.n_msg_data JniEnclave.n_query_data JniEnclave.n_msg_iv JniEnclave.n_msg_mac JniEnclave.n_query_iv JniEnclave.n_query_mac
    JniEnclave.n_query_commitment JniEnclave.n_pending_request_id JniEnclave.n_query_phone_count JniEnclave.get_nonnull_byte_array_field
    Client.env_data Client.env_iv Client.env_mac Client.env_requestId RequestBatch.msg_data RequestBatch.msg_iv RequestBatch.msg_mac].
  rewrite !JniEnclave.vec_array by (apply Hm || exact Bd). rewrite (proj2 (Nat.eqb_neq (length msg) 0)) by (destruct Hm; lia).
  rewrite (proj2 (Nat.eqb_neq (length (Client.req_data req)) 0)) by lia.
  rewrite !JniEnclave.fixed_array; [|now apply pid_bytes_blob|rewrite Hco; apply sha256_shape|exact Ht|now rewrite Hi|apply Hh|exact Hmi].
  destruct (pid_split pid Hpid) as (-> & -> & ->). rewrite (wrap_small 32 (Client.addressCount req)) by (unfold in_range; lia).
  rewrite (wrap_small 32 (Z.of_nat (length (Client.req_data req)))) by (unfold in_range; lia).
  assert (Eh : {| mh_iv := msg_iv; mh_mac := mh_mac header; mh_pending_request_id := {| pid_data := pid_data pid; pid_iv := pid_iv pid; pid_mac := pid_mac pid |} |} = header)
    by (clear - Eiv Epid; destruct header, pid; cbn in *; congruence).
  rewrite Eh. reflexivity.
Qed.

(** The enclave reads the numbers, with the bytes of its machine. *)
Lemma chunks_phones l : forall fuel, (length l <= fuel)%nat -> chunks_loop fuel 8 (concat (List.map br_enc64be l)) = List.map br_enc64be l.
Proof.
  induction l as [|k l IH]; intros fuel Hf; cbn [List.map concat]; [now destruct fuel|]. destruct fuel as [|fuel]; [cbn in Hf; lia|]. cbn [length] in Hf.
  assert (Lk : length (br_enc64be k) = 8%nat) by reflexivity. pose proof (IH fuel ltac:(lia)) as E.
  destruct (br_enc64be k ++ concat (List.map br_enc64be l)) as [|x rest] eqn:El; [apply (f_equal length) in El; rewrite length_app, Lk in El; cbn in El; lia|].
  cbn [chunks_loop]. rewrite <- El. change firstn with (@take Z). change skipn with (@drop Z).
  rewrite take_app_length', drop_app_length' by (now rewrite Lk). now rewrite E.
Qed.

Lemma phones_read : into_iter plain = List.map swap_bytes ks.
Proof.
  unfold into_iter, query_plain. change (Z.to_nat COMMITMENT_NONCE_SIZE) with 32%nat. change skipn with (@drop Z).
  rewrite drop_app_length' by (destruct Hnonce; lia). unfold chunks_exact, chunks, BYTES_PER_PHONE. change (Z.to_nat 8) with 8%nat.
  rewrite chunks_phones by (rewrite phones_length; lia). clear. induction ks as [|k l IH]; [reflexivity|]. cbn [List.map List.filter].
  change (Z.of_nat (length (br_enc64be k)) =? 8) with true. cbn [List.map]. rewrite IH. unfold decode_phone. now rewrite DirectoryTable.dec64le_enc64be.
Qed.

(** And takes the query, if it has room for it. *)
Section Verdict.
Context {W : Type} {HM : HostMemory W} (sgx_is_outside_enclave : Z -> Z -> Z) (w : W) (q : Z).

Lemma query_verdict e header msg s : in_order e header msg -> query_at sgx_is_outside_enclave w q (Client.req_data req) -> phones (query_phones s) = [] -> Z.of_nat (length ks) <= capacity (query_phones s) ->
  verdict sgx_is_outside_enclave w s (call_args req q) key = inl (List.map swap_bytes ks).
Proof.
  intros Ho [Hr H0 Hb Hout Hend] Ep Hroom. destruct plain_ok as [_ Lp]. destruct (io_data _ _ _ Ho) as [_ Ld]. unfold verdict.
  cbn [query_phone_count call_args]. rewrite (io_count _ _ _ Ho), Ep. rewrite (proj2 (Z.eqb_neq _ 0)), (proj2 (Z.ltb_ge _ _)) by (cbn [length]; lia). cbn [orb].
  unfold decoded, query_data. cbn [query call_args em_size em_data em_iv em_mac query_phone_count query_commitment].
  rewrite (proj2 (Z.eqb_neq _ 0)) by lia. rewrite (proj2 (Z.eqb_neq q 0) H0), Hout, (proj2 (Z.ltb_lt _ _) Hend). cbn [negb andb Z.eqb Pos.eqb]. rewrite Hb.
  rewrite (io_count _ _ _ Ho), (proj2 (Z.eqb_eq _ (32 + _))) by lia. destruct Hkey as [Lk Bk]. rewrite Lk. cbn [negb orb Z.eqb Pos.eqb Z.of_nat Pos.of_succ_nat Pos.succ].
  pose proof (open_seal (Aead := aes_gcm_aead) key query_iv [] plain (conj Lk Bk) (proj2 Hqi)) as Eo. rewrite (io_sealed _ _ _ Ho) in Eo. cbn [fst snd] in Eo.
  rewrite (io_iv _ _ _ Ho), Eo, (io_commitment _ _ _ Ho). unfold bytes_eqb. destruct (List.list_eq_dec _ _ _) as [_|Hne]; [|now destruct Hne]. now rewrite phones_read.
Qed.

End Verdict.
End Query.

(** * The exchange *)

Section Exchange.
Context {Secret R : Type} {HC : Client.Crates Secret R} {HL : CratesLaws Secret R}.
Context {W TargetInfo : Type} {HM : HostMemory W} (rdrand64_step : W -> bool * Z * W) (base limit : Z)
  (sgx_is_outside_enclave : Z -> Z -> Z) (stk : stack) (Hstk : stack_ok stk).
Context (Houtside : forall p n, in_range 64 p -> in_range 64 n -> sgx_is_outside_enclave p n = 1 -> outside_enclave base limit p n = true).
Context (Hbase : 0 <= base) (Hrd : forall w, same_memory w (snd (rdrand64_step w))).
Context (plat : @platform W TargetInfo) (Hplat : platform_ok plat) (hdr : sgxsd_msg_header_t) (Hhdr : blob 16 (mh_mac hdr)).
Abbreviation enclave := (@enclave W SgxsdServerState).

(** A client with its secret, and the keypairs of the enclave with which it agrees: the Diffie-Hellman
    function gives both the same. *)
Record agreeing (sk : Secret) (st : enclave) (x : list Z) : Prop := {
  ag_ephemeral : Curve25519.curve25519_donna (secret_bytes sk) (pubkey (keypair_of x)) = Curve25519.curve25519_donna (privkey (keypair_of x)) (Client.public_key sk);
  ag_static : Curve25519.curve25519_donna (secret_bytes sk) (pubkey (g_dh_keypair st)) = Curve25519.curve25519_donna (privkey (g_dh_keypair st)) (Client.public_key sk);
  ag_secret : key_ok (secret_bytes sk) }.

Lemma public_key_ok sk : key_ok (secret_bytes sk) -> key_ok (Client.public_key sk).
Proof. intros H. rewrite public_key_x25519. apply donna_key; [exact H|apply basepoint_key]. Qed.

Lemma keypair_ok x : key_ok x -> key_ok (pubkey (keypair_of x)).
Proof. intros Hx. cbn [keypair_of pubkey]. apply donna_key; [now apply clamp_key|apply basepoint_key]. Qed.

Lemma response_pubkeys (st : enclave) x prk pid : server_ephemeral_pubkey (response_for st x prk pid) = pubkey (keypair_of x) /\
  server_static_pubkey (response_for st x prk pid) = pubkey (g_dh_keypair st).
Proof. unfold response_for. destruct (aes_gcm_seal _ _ _ _) as [c t]. split; reflexivity. Qed.

Section Negotiation.
Context (sk : Secret) (st st1 : enclave) (x id_iv : list Z) (w0 : W) (fr : negotiate_frame) (response : sgxsd_request_negotiation_response_t).
Context (Hs : served st) (Hfr : frame_ok fr) (Hresp : response_ok response) (Ed : draw plat st = (SGX_SUCCESS, x, st1))
  (Er : sgx_read_rand plat 12 (world st1) = (SGX_SUCCESS, id_iv, w0)) (Ha : agreeing sk st x).
Abbreviation prk := (agreed_key st x (Client.public_key sk)).
Abbreviation pid := (sealed_id st (next_id st) id_iv).

Lemma id_iv_blob : blob 12 id_iv.
Proof. pose proof (Hplat 12 (world st1) ltac:(lia)) as H. now rewrite Er in H. Qed.

Lemma the_pid_ok : pid_ok pid.
Proof. apply sealed_id_ok; [apply Hs|apply id_iv_blob]. Qed.

Lemma response_for_ok : response_ok (response_for st x prk pid).
Proof.
  unfold response_for. pose proof (zeros_blob 12 ltac:(lia)) as Hz. pose proof (hkdf_T_shape prk 1) as Hk. fold (server_key prk) in Hk.
  pose proof (seal_length (Aead := aes_gcm_aead) (server_key prk) (zeros 12) [] (pid_bytes pid) Hk (proj2 Hz)) as L.
  pose proof (seal_bytes (Aead := aes_gcm_aead) (server_key prk) (zeros 12) [] (pid_bytes pid) Hk (proj2 Hz) (proj2 (pid_bytes_blob pid the_pid_ok))) as B.
  pose proof (seal_tag (Aead := aes_gcm_aead) (server_key prk) (zeros 12) [] (pid_bytes pid) Hk (proj2 Hz)) as T.
  destruct (pid_bytes_blob pid the_pid_ok) as [Lp _]. destruct (aes_gcm_seal _ _ _ _) as [c t]. cbn [fst snd] in *.
  split; [apply (inv_dh _ (sv_inv st Hs))|]. split; [apply keypair_ok; exact (draw_key plat _ _ _ Ed)|]. split; [split; [cbn [enc_pid_data]; congruence|exact B]|]. now split.
Qed.

(** The client derives the key of the enclave and makes its request. *)
Lemma client_request name ks r nonce key msg_iv query_iv r' : draws r = (nonce, key, msg_iv, query_iv, r') -> Z.of_nat (length ks) <= 8192 ->
  Client.discovery_request {| Client.client_privkey := sk; Client.client_pubkey := Client.public_key sk |} r name
    (negotiation_of (JniEnclave.negotiate_response (response_for st x prk pid))) ks =
  (Ok (server_key prk, request_for prk pid name ks nonce key msg_iv query_iv), r').
Proof.
  intros Edr Hn. destruct Ha as [Ae As Ak]. pose proof response_for_ok as Hok. rewrite negotiation_bytes by exact Hok.
  pose proof (negotiated_pid_opens st x prk pid) as Eo. cbv zeta in Eo. destruct Hok as (H1 & H2 & H3 & H4 & H5).
  pose proof (response_pubkeys st x prk pid) as Ep.
  apply discovery_request_spec; cbn [Client.server_ephemeral_pubkey Client.server_static_pubkey Client.encrypted_pending_request_id Client.iv Client.mac Client.data].
  - destruct Ep as [-> ->]. unfold agreed_key. rewrite <- Ae, <- As.
    exact (key_agreement_keys sk _ _ _ _ (keypair_ok x (draw_key plat _ _ _ Ed)) (proj2 (inv_dh _ (sv_inv st Hs))) (proj1 (public_key_ok sk Ak)) eq_refl eq_refl).
  - exact H4.
  - apply H5.
  - destruct H3. lia.
  - exact Eo.
  - exact Edr.
  - lia.
Qed.

(** Its call finds its request. *)
Lemma client_calling name ks nonce key msg_iv query_iv e header msg handle s w q : blob 32 nonce -> blob 32 key -> blob 12 msg_iv -> blob 12 query_iv ->
  1 <= Z.of_nat (length ks) <= 8192 -> in_order prk pid name ks nonce key msg_iv query_iv e header msg ->
  0 <= handle < 256 -> idle (Z.to_nat handle) {| valid := true; desc_lock := false; p_state := Some s |} st -> state_inv s -> in_range 64 q ->
  calling handle s (call_args (request_for prk pid name ks nonce key msg_iv query_iv) q) header msg 32 (numbered (next_id st) prk) key (set_world w (added prk st1)).
Proof.
  intros Hnonce Hkey Hmi Hqi Hn Ho Hh [Hi1 Hi2] Hst Hq. destruct (draw_frame plat _ _ _ _ Ed) as (Edh & Eid & Ekey & Esv).
  destruct (plain_ok ks nonce Hnonce) as [_ Lp]. destruct Ho as [_ Em _ (Hhd & _ & Epid) Hm Hc _ Hi _ [_ Ld] Ht].
  split; trivial.
  - apply served_world, served_added; [exact (draw_served plat _ _ _ _ Hs Ed)|apply hmac_shape].
  - split; [|exact Hi2]. now rewrite (proj1 (added_world_frame prk st1 w)), Esv.
  - split; [cbn [query_phone_count call_args]; rewrite Hc; unfold in_range; lia|]. split; [cbn [query call_args em_iv]; now rewrite Hi|].
    split; [exact Ht|]. split; [|exact Hq]. cbn [query call_args em_size]. unfold in_range. lia.
  - destruct Hm as [Lm Bm]. split; [change (u32 32) with 32; lia|exact Bm].
  - lia.
  - rewrite Epid. apply (added_found st st1); trivial; [exact (draw_served plat _ _ _ _ Hs Ed)|apply id_iv_blob].
  - pose proof (open_sealed_message prk msg_iv key pid 32 Hmi) as E. rewrite Em in E. apply E. destruct Hkey as [-> _]. reflexivity.
Qed.

End Negotiation.

(** What the enclave hands to the host for a client: a reply that the client decodes to [us]. *)
Lemma reply_decoded prk tag us w riv w2 : Forall (fun u => length u = 16%nat) us -> bytes_ok (concat us) -> Z.of_nat (length (concat us)) <= 2 ^ 36 - 32 ->
  sgx_read_rand plat 12 w = (SGX_SUCCESS, riv, w2) ->
  exists c t, (forall id, Client.decode_discovery_response (server_key prk) (response_of id (JniEnclave.complete_future_successfully (reply_iv riv) t c)) = Ok us) /\
    send plat hdr (sender prk tag) (concat us) w =
    let '(ocall_res, res, w') := Sgxsd.sgxsd_ocall_reply plat
      (Some {| mh_iv := reply_iv riv; mh_mac := t; mh_pending_request_id := mh_pending_request_id hdr |}) (Some c) (Z.of_nat (length (concat us))) tag w2 in
    (if success ocall_res then res else ocall_res, w').
Proof.
  intros Hus Hb Hn Er. pose proof (Hplat 12 w ltac:(lia)) as Hiv. rewrite Er in Hiv. cbn [fst snd] in Hiv. pose proof (reply_iv_blob riv Hiv) as Hri.
  pose proof (hkdf_T_shape prk 1) as Hk. fold (server_key prk) in Hk. pose proof (decode_reply (server_key prk) (reply_iv riv) us) as Hdec.
  pose proof (seal_bytes (Aead := aes_gcm_aead) (server_key prk) (reply_iv riv) [] (concat us) Hk (proj2 Hri) Hb) as B.
  pose proof (seal_tag (Aead := aes_gcm_aead) (server_key prk) (reply_iv riv) [] (concat us) Hk (proj2 Hri)) as T.
  unfold send. cbn [sender from_valid negb from_server_key from_tag]. rewrite Er. cbn [success negb].
  destruct (aes_gcm_seal (server_key prk) (reply_iv riv) [] (concat us)) as [c t]. cbn [fst snd] in *. exists c, t. split; [|reflexivity].
  intros id. rewrite response_bytes by assumption. exact (Hdec id Hk Hri Hus Hn).
Qed.

Lemma wire_length u : length (wire_uuid u) = 16%nat /\ bytes_ok (wire_uuid u).
Proof. destruct u as [[a b]|]; [|exact (zeros_blob 16 ltac:(lia))]. split; [reflexivity|]. apply Forall_app. split; apply br_enc64be_bytes. Qed.

Lemma wire_answer (m : gmap Z uuid_t) ks : let us := List.map (fun k => wire_uuid (m !! k)) ks in
  Forall (fun u => length u = 16%nat) us /\ bytes_ok (concat us) /\ length (concat us) = (16 * length ks)%nat.
Proof.
  cbv zeta. induction ks as [|k ks (IH1 & IH2 & IH3)]; [now repeat constructor|]. destruct (wire_length (m !! k)) as [L B]. cbn [List.map concat length].
  split; [now constructor|]. split; [now apply Forall_app|]. rewrite length_app. lia.
Qed.


Lemma set_set_world (st : enclave) w w' : set_world w (set_world w' st) = set_world w st.
Proof. now destruct st. Qed.

Abbreviation the_service := (Cds.cds_server rdrand64_step base limit sgx_is_outside_enclave stk).


End Exchange.
End ClientService.
