(* ===== verification/SgxsdDemo.v ===== *)
(** A concrete platform and a concrete server, on which the theorems about the enclave are
    evaluated: random numbers from a counter, and a server that sends each message back. *)
From S2P Require Import Prelude Codec Curve25519 SgxsdCrypto Threads Sgxsd SgxsdSafety SgxsdSystem SgxsdProtocol SgxsdEntry.
From Stdlib Require Import ZArith List Lia Bool Relations.
Import Codec SgxsdCrypto Threads Sgxsd SgxsdSafety SgxsdSystem SgxsdProtocol SgxsdEntry.

Module SgxsdDemo.

#[local] Opaque Curve25519.curve25519_donna Curve25519.clamp sgxsd_enclave_sha256 sgxsd_enclave_hmac_sha256
  sgxsd_aes_gcm_run aes_gcm_seal aes_gcm_open hkdf_T hmac_sha256 sha256 sgxsd_enclave_ra_hkdf_round.

(** The next random byte and the replies sent, the last one first. *)
Record demo_world := { seed : Z; replies : list (option sgxsd_msg_header_t * option (list Z) * Z * Z) }.
Definition world0 : demo_world := {| seed := 7; replies := [] |}.

Definition demo_platform : @platform demo_world unit := {|
  sgx_read_rand n w := (SGX_SUCCESS, repeat (u8 (seed w)) (Z.to_nat n), {| seed := seed w + 1; replies := replies w |});
  sgx_is_outside_enclave _ _ := 1;
  sgx_create_report _ report_data _ w := (SGX_SUCCESS, report_data, w);
  calloc _ _ w := (true, w);
  sgxsd_ocall_reply hdr data size tag w :=
    (SGX_SUCCESS, SGX_SUCCESS, {| seed := seed w; replies := (hdr, data, size, tag) :: replies w |}) |}.

(** Its state counts the messages. *)
Definition demo_server : @server demo_world Z unit unit unit := {|
  sgxsd_enclave_server_init _ := SRet _ (SGX_SUCCESS, Some (Some 0));
  sgxsd_enclave_server_handle_call _ buf from state :=
    SReply _ buf (Some from) (fun res data _ => SRet _ (res, data, option_map Z.succ state));
  sgxsd_enclave_server_terminate _ _ := SRet _ SGX_SUCCESS;
  sgxsd_enclave_create_ratelimit_fingerprint key _ buf _ fingerprint _ :=
    SRet _ (SGX_SUCCESS, mb_data buf, option_map (fun _ => key) fingerprint) |}.

Lemma demo_platform_ok : platform_ok demo_platform.
Proof.
  intros n w Hn. split; cbn; [apply repeat_length|]. apply Forall_repeat. now apply wrap_range.
Qed.

(** It accepts any state. *)
#[export] Instance demo_state : ServerState Z := {| state_ok _ := True |}.
#[export] Instance demo_args : ServerArgs unit unit unit :=
  {| init_args_ok _ := True; call_args_ok _ := True; terminate_args_ok _ := True; fingerprint_args_ok _ _ _ _ := True |}.

Lemma demo_server_ok : server_ok demo_server.
Proof.
  split; cbn [demo_server sgxsd_enclave_server_init sgxsd_enclave_server_handle_call sgxsd_enclave_server_terminate
    sgxsd_enclave_create_ratelimit_fingerprint prog_ok]; try easy.
  - intros args buf from p _ Hb Hn Hf _. split; [exact Hb|]. split; [exact Hf|]. intros res data from' Hd En _. now rewrite En.
  - intros key args buf from fp n _ [_ Hb] Hn _. now split.
Qed.

Definition blank_pid : sgxsd_pending_request_id_t := {| pid_data := zeros 8; pid_iv := zeros 12; pid_mac := zeros 16 |}.
Definition blank_header : sgxsd_msg_header_t :=
  {| mh_iv := zeros 12; mh_mac := zeros 16; mh_pending_request_id := blank_pid |}.

Abbreviation demo_ecall := (@ecall unit unit unit unit).
Abbreviation demo_start calls := (map (enter demo_platform demo_server blank_stack) (calls : list demo_ecall), loaded world0).

(** Two calls that interleave; the first fails for want of arguments. *)
Definition two_calls : list demo_ecall := [NodeInit None; ServerStart blank_header None 3].

Lemma two_calls_ok : Forall ecall_ok two_calls.
Proof. constructor; [exact I|]. constructor; [|constructor]. split; [exact I|split; [now apply (zeros_blob 16)|lia]]. Qed.

Lemma two_calls_run : exists ts st, reachable (demo_start two_calls) (ts, st) /\
  map (fun p => step p st) ts = [Finished SGX_ERROR_INVALID_PARAMETER; Finished SGX_ERROR_INVALID_STATE].
Proof.
  eexists _, _. split; [apply (schedule_reachable [0; 1; 0; 0]%nat); vm_compute; reflexivity|]. reflexivity.
Qed.

(** The status of each thread that has returned. *)
Definition statuses (c : pool sgx_status_t * @enclave demo_world Z) : list (option sgx_status_t) :=
  map (fun p => match step p (snd c) with Finished a => Some a | _ => None end) (fst c).

(** The calls one after the other. *)
Fixpoint sequence (calls : list demo_ecall) (st : @enclave demo_world Z) : option (list sgx_status_t) :=
  match calls with
  | [] => Some []
  | c :: calls' =>
      match run (enter demo_platform demo_server blank_stack c) st with
      | Done res st' => option_map (cons res) (sequence calls' st')
      | _ => None
      end
  end.

(** A schedule whose end satisfies [f] reaches a state that does. *)
Lemma observe (f : pool sgx_status_t * @enclave demo_world Z -> Prop) sched calls :
  match run_schedule sched (demo_start calls) with Some c => f c | None => False end ->
  exists ts st, reachable (demo_start calls) (ts, st) /\ f (ts, st).
Proof.
  destruct (run_schedule sched _) as [[ts st]|] eqn:E; [|contradiction]. intros Hf. exists ts, st.
  split; [exact (schedule_reachable _ _ _ E)|exact Hf].
Qed.

(** One server: started, stopped, and started by two more threads. *)
Definition restart_calls : list demo_ecall :=
  [NodeInit (Some 1); ServerStart blank_header None 3; ServerStop blank_header None 3;
   ServerStart blank_header None 3; ServerStart blank_header None 3].

(** The first two calls complete; the stop clears the descriptor and with it the lock it holds;
    the first restart enters; the stop ends by releasing the lock; the second restart enters. *)
Definition restart_schedule : list nat :=
  repeat 0%nat 23 ++ repeat 1%nat 6 ++ repeat 2%nat 4 ++ repeat 3%nat 3 ++ [2%nat] ++ repeat 4%nat 3 ++ repeat 3%nat 3 ++ repeat 4%nat 3.

(** The memset of [sgxsd_enclave_server_stop] clears the lock of the descriptor while it is
    held, so the lock does not exclude: there is an interleaving in which a server is started
    once, stopped once and then started twice, every call succeeding, where the same calls one
    after the other end in SGX_ERROR_INVALID_STATE. *)
Theorem server_stop_breaks_exclusion :
  (exists ts st, reachable (demo_start restart_calls) (ts, st) /\ statuses (ts, st) = repeat (Some SGX_SUCCESS) 5) /\
  sequence restart_calls (loaded world0) = Some (repeat SGX_SUCCESS 4 ++ [SGX_ERROR_INVALID_STATE]).
Proof.
  split.
  - apply (observe (fun c => statuses c = repeat (Some SGX_SUCCESS) 5) restart_schedule). lazy. reflexivity.
  - lazy. reflexivity.
Qed.

Lemma enclave_memory_safe_witness : exists ts st, reachable (demo_start two_calls) (ts, st) /\
  enclave_inv st /\ Forall (fun p => step p st <> Wrong) ts.
Proof.
  destruct two_calls_run as (ts & st & Hr & _). exists ts, st. split; [exact Hr|].
  exact (enclave_memory_safe demo_platform demo_platform_ok demo_server demo_server_ok blank_stack blank_stack_ok
    two_calls world0 ts st two_calls_ok Hr).
Defined.


Definition init_calls : list demo_ecall := [NodeInit (Some 1); SetCurrentQuote].

Lemma init_calls_ok : Forall ecall_ok init_calls.
Proof. constructor; [cbn; lia|]. constructor; [exact I|constructor]. Qed.

(** The first call has just set the flag; later both have returned. *)
Lemma init_calls_run : exists ts1 st1 ts2 st2, reachable (demo_start init_calls) (ts1, st1) /\ reachable (ts1, st1) (ts2, st2) /\
  g_node_initialized st1 = true /\ statuses (ts2, st2) = [Some SGX_SUCCESS; Some SGX_SUCCESS].
Proof.
  assert (match run_schedule (repeat 0%nat 22) (demo_start init_calls) with
          | Some c1 => match run_schedule [1; 1; 0; 1; 1]%nat c1 with
                       | Some c2 => g_node_initialized (snd c1) = true /\ statuses c2 = [Some SGX_SUCCESS; Some SGX_SUCCESS]
                       | None => False
                       end
          | None => False
          end) as H by (lazy; now split).
  destruct (run_schedule (repeat 0%nat 22) _) as [[ts1 st1]|] eqn:E1; [|contradiction].
  destruct (run_schedule _ (ts1, st1)) as [[ts2 st2]|] eqn:E2; [|contradiction]. exists ts1, st1, ts2, st2.
  split; [exact (schedule_reachable _ _ _ E1)|]. split; [exact (schedule_reachable _ _ _ E2)|exact H].
Qed.

Lemma enclave_initialised_once_witness : exists st1 st2 : @enclave demo_world Z, g_node_initialized st1 = true /\
  g_node_initialized st2 = true /\ g_pending_requests_table_order st2 = g_pending_requests_table_order st1 /\
  g_pending_request_id_key st2 = g_pending_request_id_key st1 /\ table_size st2 = table_size st1.
Proof.
  destruct init_calls_run as (ts1 & st1 & ts2 & st2 & H1 & H2 & Hi & _). exists st1, st2. split; [exact Hi|].
  exact (enclave_initialised_once demo_platform demo_platform_ok demo_server demo_server_ok blank_stack blank_stack_ok
    init_calls world0 ts1 st1 ts2 st2 init_calls_ok H1 H2 Hi).
Defined.

(** * A node that serves *)

Abbreviation demo_enclave := (@enclave demo_world Z).

(** With a table of two entries and server 3 running. *)
Definition serving : demo_enclave :=
  set_server_states (assign (g_server_states (loaded (S := Z) world0)) 3 {| valid := true; desc_lock := false; p_state := Some 0 |})
    (set_pending_requests (Some (repeat zero_pending_request 2)) (set_table_order 1 (set_node_initialized true (loaded world0)))).

Definition server3 : @sgxsd_server_state_desc_t Z := {| valid := true; desc_lock := false; p_state := Some 0 |}.

Lemma serving_served : served serving.
Proof.
  pose proof (loaded_inv (S := Z) world0) as Hi. split; [reflexivity| |reflexivity]. destruct Hi. split; try assumption.
  - apply Forall_forall. easy.
  - apply Forall_repeat, zero_entry_ok.
  - intros _. split; [cbn; lia|]. eexists. split; reflexivity.
Qed.

Lemma server3_idle : idle 3 server3 serving.
Proof. split; reflexivity. Qed.

Lemma pid_zeros : pid_ok blank_pid.
Proof. split; [now apply (zeros_blob 8)|]. split; [now apply (zeros_blob 12)|now apply (zeros_blob 16)]. Qed.

Lemma header_zeros : header_ok blank_header.
Proof. split; [now apply (zeros_blob 12)|]. split; [now apply (zeros_blob 16)|apply pid_zeros]. Qed.

Abbreviation adding := (sgxsd_enclave_add_pending_request demo_platform blank_stack blank_pid (zeros 32)).

Lemma add_pending_ring_witness : exists pid st', run adding serving = Done (SGX_SUCCESS, pid) st' /\
  request_id st' pid = Some 1 /\ live st' 1 = Some (zeros 32).
Proof.
  destruct (add_pending_ring demo_platform demo_platform_ok blank_stack blank_stack_ok blank_pid (zeros 32) serving serving_served
    pid_zeros zeros_key) as (res & pid & st' & E & _ & Er & Hid & Hl).
  change (fst (fst (sgx_read_rand demo_platform 12 (world serving)))) with SGX_SUCCESS in Er. subst res.
  exists pid, st'. split; [exact E|]. split; [exact (Hid eq_refl)|]. apply Hl. split; [lia|reflexivity].
Defined.

Lemma pending_table_capacity_witness : exists st',
  run (add_all demo_platform blank_stack [(blank_pid, zeros 32)]) serving = Done tt st' /\ live st' 0 = Some (zeros 32).
Proof.
  destruct (pending_table_capacity demo_platform demo_platform_ok blank_stack blank_stack_ok [(blank_pid, zeros 32)] serving serving_served
    (Forall_cons (blank_pid, zeros 32) (conj pid_zeros zeros_key) (Forall_nil _)) eq_refl) as (st' & E & Hl).
  exists st'. split; [exact E|exact Hl].
Defined.

(** One request is pending. *)
Definition pending : demo_enclave := set_world world0 (added (zeros 32) serving).
Definition pending_id : sgxsd_pending_request_id_t := sealed_id serving (next_id serving) (zeros 12).

Lemma pending_served : served pending.
Proof. apply served_world, served_added; [apply serving_served|apply zeros_key]. Qed.

Lemma pending_id_ok : pid_ok pending_id.
Proof. apply sealed_id_ok; [apply serving_served|now apply (zeros_blob 12)]. Qed.

Lemma pending_found : find_request pending pending_id = inl (numbered 1 (zeros 32)).
Proof. apply (added_found serving serving); trivial; [apply serving_served|now apply (zeros_blob 12)]. Qed.

Lemma pending_idle : idle 3 server3 pending.
Proof. split; reflexivity. Qed.

Lemma pending_request_single_use_witness : exists st',
  run (sgxsd_enclave_remove_pending_request blank_stack pending_id zero_pending_request) pending = Done (SGX_SUCCESS, numbered 1 (zeros 32)) st' /\
  run (sgxsd_enclave_remove_pending_request blank_stack pending_id zero_pending_request) st'
  = Done (SGXSD_ERROR_PENDING_REQUEST_NOT_FOUND, zero_pending_request) st'.
Proof.
  destruct (pending_request_single_use blank_stack blank_stack_ok pending_id zero_pending_request _ pending pending_served pending_id_ok
    pending_found ltac:(cbn; lia)) as (_ & st' & E & _ & E' & _).
  exists st'. split; [exact E|exact E'].
Defined.

(** A message for it. *)
Definition message : list Z := [104; 105].
Definition message_header : sgxsd_msg_header_t := fst (seal_message (zeros 32) (zeros 12) message pending_id).
Definition message_data : list Z := snd (seal_message (zeros 32) (zeros 12) message pending_id).

Lemma message_bytes : bytes_ok message.
Proof. apply words_ok_forallb. reflexivity. Qed.

Lemma message_region : region 2 (Some message).
Proof. split; [cbn; lia|apply message_bytes]. Qed.

Lemma message_header_pid : mh_pending_request_id message_header = pending_id.
Proof. unfold message_header, seal_message. now destruct (aes_gcm_seal _ _ _ _). Qed.

Definition blank_frame : call_frame :=
  {| cf_pending_request := zero_pending_request; cf_client_key := zeros 32; cf_msg_from := zero_from |}.

Abbreviation calling header data size :=
  (sgxsd_enclave_server_call demo_platform demo_server blank_stack blank_header blank_frame None (Some header) (Some data) size 9 3).
Abbreviation serving_message size from buf := (serve demo_platform demo_server blank_stack blank_header None 3 size from buf).

Lemma server_call_spec_witness :
  run (calling message_header message_data 2) pending =
  match run (serving_message 2 (sender (zeros 32) 9) message) (set_slot 1 zero_pending_request (locked 3 pending)) with
  | Done r st' => Done r (unlocked 3 st')
  | Undefined => Undefined
  | Blocked => Blocked
  end.
Proof.
  destruct (seal_message_ok (zeros 32) (zeros 12) message pending_id (zeros_blob 12 ltac:(lia)) message_bytes pending_id_ok) as (Hh & L & B).
  assert (Hr : region (u32 2) (Some message_data)) by (split; [unfold message_data; rewrite L; cbn; lia|exact B]).
  pose proof (server_call_spec demo_platform demo_server blank_stack blank_stack_ok blank_header blank_frame None message_header message_data
    2 9 3 server3 pending pending_served ltac:(lia) pending_idle eq_refl Hh Hr ltac:(lia)) as E.
  rewrite E, message_header_pid, pending_found. cbn [numbered hkdf_prk id_val].
  pose proof (open_sealed_message (zeros 32) (zeros 12) message pending_id 2 (zeros_blob 12 ltac:(lia)) eq_refl) as Eo.
  fold message_header message_data in Eo, L. rewrite Eo, splice_all by exact L. reflexivity.
Defined.

Definition blank_keypair : sgxsd_curve25519_key_pair_t := {| privkey := zeros 32; pubkey := zeros 32 |}.
Definition blank_negotiate_frame : negotiate_frame :=
  {| nf_ephemeral_keypair := blank_keypair; nf_static_keypair := blank_keypair; nf_ephemeral_dh_key := zeros 32;
     nf_static_dh_key := zeros 32; nf_hkdf_salt := zeros 32; nf_hkdf_prk := zeros 32; nf_server_aes_gcm_key := zeros 32;
     nf_pending_request_id := blank_pid |}.
Definition blank_response : sgxsd_request_negotiation_response_t :=
  {| server_static_pubkey := zeros 32; server_ephemeral_pubkey := zeros 32; enc_pid_data := zeros 36; enc_pid_iv := zeros 12; enc_pid_mac := zeros 16 |}.

Lemma blank_keypair_ok : kp_ok blank_keypair.
Proof. split; apply zeros_key. Qed.

Lemma blank_negotiate_frame_ok : frame_ok blank_negotiate_frame.
Proof. split; [apply blank_keypair_ok|apply pid_zeros]. Qed.

Lemma blank_response_ok : response_ok blank_response.
Proof.
  split; [apply zeros_key|]. split; [apply zeros_key|]. split; [now apply (zeros_blob 36)|]. split; [now apply (zeros_blob 12)|now apply (zeros_blob 16)].
Qed.

Lemma negotiate_then_call_witness : exists r fr pid st2,
  run (sgxsd_enclave_negotiate_request demo_platform blank_stack blank_negotiate_frame (Some (zeros 32)) (Some blank_response)) serving
  = Done (SGX_SUCCESS, Some r, fr) st2 /\ find_request (set_slot 1 zero_pending_request (locked 3 st2)) pid = inr SGXSD_ERROR_PENDING_REQUEST_NOT_FOUND.
Proof.
  pose proof (negotiate_then_call demo_platform demo_platform_ok demo_server blank_stack blank_stack_ok blank_negotiate_frame (zeros 32) blank_response serving
    _ _ _ _ blank_header blank_frame None (zeros 12) message 9 3 server3 serving_served blank_negotiate_frame_ok zeros_key blank_response_ok
    eq_refl eq_refl ltac:(lia) server3_idle eq_refl (zeros_blob 12 ltac:(lia)) message_bytes ltac:(cbn; lia) ltac:(discriminate)) as H.
  cbv zeta in H. destruct H as (r & fr & pid & st2 & E & _ & _ & _ & H). exists r, fr, pid, st2. split; [exact E|].
  destruct (seal_message _ _ _ _). apply H.
Defined.

Definition reply_to : sgxsd_msg_from_t := {| from_valid := true; from_tag := 5; from_server_key := zeros 32 |}.

Lemma server_reply_spec_witness : exists c t w,
  run (sgxsd_enclave_server_reply demo_platform blank_stack blank_header {| mb_data := Some message; mb_size := 2 |} (Some reply_to)) serving
  = Done (SGX_SUCCESS, Some [0; 0], Some zero_from) (set_world w serving) /\
  aes_gcm_open (zeros 32) (reply_iv (repeat 7 12)) [] c t = Some message.
Proof.
  destruct (server_reply_spec demo_platform demo_platform_ok blank_stack blank_stack_ok blank_header message 2 reply_to serving
    (repeat 7 12) _ (zeros_blob 16 ltac:(lia)) ltac:(lia) message_region zeros_key eq_refl eq_refl) as (c & t & E & Ho & _).
  exists c, t. eexists. split; [exact E|exact Ho].
Defined.


Lemma uninitialised_refused_witness :
  run (enter demo_platform demo_server blank_stack (SetCurrentQuote : demo_ecall)) (loaded world0) = Done SGX_ERROR_INVALID_STATE (loaded world0).
Proof. exact (uninitialised_refused demo_platform demo_server blank_stack SetCurrentQuote (loaded world0) eq_refl). Defined.

Lemma node_init_spec_witness : exists st' : demo_enclave,
  run (sgxsd_enclave_node_init demo_platform blank_stack (Some 1)) (loaded world0) = Done SGX_SUCCESS st' /\ table_size st' = Some 2%nat /\
  run (sgxsd_enclave_node_init demo_platform blank_stack (Some 1)) st' = Done SGX_ERROR_INVALID_STATE st'.
Proof.
  destruct (node_init_spec (S := Z) demo_platform demo_platform_ok blank_stack blank_stack_ok 1 (loaded world0) _ _ _ _ _ _ _ ltac:(lia) eq_refl (loaded_inv world0)
    eq_refl (fun _ _ => eq_refl) eq_refl eq_refl eq_refl eq_refl) as (st' & E & _ & _ & _ & _ & _ & Ht & _ & Ha).
  exists st'. split; [exact E|]. split; [exact Ht|exact (Ha (Some 1))].
Defined.

Lemma report_key_rotation_witness : exists rep kp (st2 st3 : demo_enclave),
  run (sgxsd_enclave_get_next_report demo_platform blank_stack blank_keypair tt (Some [])) serving = Done (SGX_SUCCESS, Some rep, blank_keypair) st2 /\
  run sgxsd_enclave_set_current_quote st2 = Done SGX_SUCCESS st3 /\ g_dh_keypair st3 = kp.
Proof.
  destruct (report_key_rotation demo_platform blank_stack blank_stack_ok blank_keypair tt [] serving _ _ _ _ serving_served eq_refl eq_refl)
    as (st2 & st3 & E & _ & _ & E' & Hk).
  eexists _, _, st2, st3. split; [exact E|]. split; [exact E'|exact Hk].
Defined.

Lemma server_start_spec_witness : exists st', run (sgxsd_enclave_server_start demo_platform demo_server blank_stack blank_header None 4) serving
  = Done SGX_SUCCESS st' /\ idle 4 {| valid := true; desc_lock := false; p_state := Some 0 |} st'.
Proof.
  destruct (server_start_spec demo_platform demo_server blank_stack blank_header None 4 zero_desc serving eq_refl ltac:(lia)
    (conj eq_refl eq_refl)) as (st' & E & Hi & _).
  exists st'. split; [exact E|exact Hi].
Defined.

Lemma server_stop_spec_witness : exists st', run (sgxsd_enclave_server_stop demo_platform demo_server blank_stack blank_header None 3) serving
  = Done SGX_SUCCESS st' /\ idle 3 zero_desc st'.
Proof.
  destruct (server_stop_spec demo_platform demo_server blank_stack blank_header None 3 server3 serving eq_refl ltac:(lia) server3_idle) as (E & Hi & _).
  eexists. split; [exact E|exact Hi].
Defined.

(** A message that is empty, declared as 2^32 bytes long. *)
Definition empty_header : sgxsd_msg_header_t := fst (seal_message (zeros 32) (zeros 12) [] pending_id).

Lemma size_check_is_bypassed_witness :
  run (calling empty_header message 0) pending = Done (SGX_ERROR_INVALID_PARAMETER, Some message, blank_frame) pending /\
  run (calling empty_header message (1 * 2 ^ 32)) pending =
  match run (serving_message 0 (sender (zeros 32) 9) message) (set_slot 1 zero_pending_request (locked 3 pending)) with
  | Done r st' => Done r (unlocked 3 st')
  | Undefined => Undefined
  | Blocked => Blocked
  end.
Proof.
  destruct (seal_message_ok (zeros 32) (zeros 12) [] pending_id (zeros_blob 12 ltac:(lia)) (Forall_nil _) pending_id_ok) as (Hh & L & _).
  pose proof (open_sealed_message (zeros 32) (zeros 12) [] pending_id 0 (zeros_blob 12 ltac:(lia)) eq_refl) as Ho.
  assert (Hp : mh_pending_request_id empty_header = pending_id) by (unfold empty_header, seal_message; now destruct (aes_gcm_seal _ _ _ _)).
  apply (size_check_is_bypassed demo_platform demo_server blank_stack blank_stack_ok blank_header blank_frame None empty_header message 1 9 3 server3
    (numbered 1 (zeros 32)) pending pending_served ltac:(lia) pending_idle eq_refl Hh message_bytes ltac:(lia)); [rewrite Hp; apply pending_found|exact Ho].
Defined.

(** A random source that fails for requests of 12 bytes. *)
Definition flaky_platform : @platform demo_world unit := {|
  sgx_read_rand n w := (if n =? 12 then SGX_ERROR_UNEXPECTED else SGX_SUCCESS, repeat 0 (Z.to_nat n), w);
  sgx_is_outside_enclave _ _ := 1;
  sgx_create_report _ report_data _ w := (SGX_SUCCESS, report_data, w);
  calloc _ _ w := (true, w);
  sgxsd_ocall_reply _ _ _ _ w := (SGX_SUCCESS, SGX_SUCCESS, w) |}.

Lemma flaky_platform_ok : platform_ok flaky_platform.
Proof. intros n w Hn. now apply zeros_blob. Qed.

Lemma negotiate_failure_leaves_key_witness : exists x r fr st',
  run (sgxsd_enclave_negotiate_request flaky_platform blank_stack blank_negotiate_frame (Some (zeros 32)) (Some blank_response)) serving
  = Done (SGX_ERROR_UNEXPECTED, r, fr) st' /\ nf_hkdf_prk fr = agreed_key serving x (zeros 32).
Proof.
  eexists. exact (negotiate_failure_leaves_key flaky_platform flaky_platform_ok blank_stack blank_stack_ok blank_negotiate_frame (zeros 32) blank_response
    serving _ _ _ _ _ serving_served blank_negotiate_frame_ok zeros_key eq_refl eq_refl eq_refl).
Defined.

End SgxsdDemo.
