(* ===== verification/EdgeDemo.v ===== *)
(** A concrete host, on which the theorems about the bridge are evaluated. *)
From S2P Require Import Prelude Codec SgxsdCrypto Threads Sgxsd SgxsdSafety SgxsdSystem Edge EdgeSafety EdgeHost.
From Stdlib Require Import ZArith List Lia Bool Relations.
Import Codec SgxsdCrypto Threads Sgxsd SgxsdSafety SgxsdSystem Edge EdgeSafety EdgeHost.

Module EdgeDemo.

(** The host's memory. *)
Definition memory : Type := Z -> Z.

#[export] Instance host_memory : HostMemory memory.
Proof.
  refine {| peek m a := u8 (m a);
            poke m a l := fun b => if (a <=? b) && (b <? a + Z.of_nat (length l)) then nth (Z.to_nat (b - a)) l 0 else m b |}.
  intros w a. now apply wrap_range.
Defined.

#[export] Instance host_memory_laws : HostMemoryLaws memory.
Proof.
  split. intros w a l b B. cbn [peek poke host_memory]. destruct (_ && _) eqn:E; [|reflexivity].
  apply andb_true_iff in E. rewrite Z.leb_le, Z.ltb_lt in E. apply wrap_small, (proj1 (Forall_nth _ l) B). lia.
Qed.

(** The enclave takes the addresses from 2^40 to 2^41. *)
Definition enclave_base : Z := 2 ^ 40.
Definition enclave_limit : Z := 2 ^ 41.

Definition demo_sdk : @sdk memory := {|
  sdk_read_rand n m := (SGX_SUCCESS, repeat 0 (Z.to_nat n), m);
  sdk_is_outside_enclave p n := if outside_enclave enclave_base enclave_limit p n then 1 else 0;
  sdk_create_report _ report_data _ m := (SGX_SUCCESS, report_data, m);
  sdk_calloc _ _ m := (true, m);
  malloc _ m := (true, m);
  sgx_ocalloc _ m := (2 ^ 20, m);
  sgx_ocfree m := m;
  sgx_ocall _ _ m := (SGX_SUCCESS, m) |}.

Lemma demo_sdk_ok : sdk_ok enclave_base enclave_limit demo_sdk.
Proof.
  split; [intros n w Hn; now apply zeros_blob|]. intros p n _ _. cbn [sdk_is_outside_enclave demo_sdk].
  now destruct (outside_enclave _ _ p n).
Qed.

(** A server that does nothing. *)
Definition null_server : @server memory unit sgxsd_server_init_args_t sgxsd_server_handle_call_args_t sgxsd_server_terminate_args_t := {|
  sgxsd_enclave_server_init _ := SRet _ (SGX_SUCCESS, Some (Some tt));
  sgxsd_enclave_server_handle_call _ buf _ state := SRet _ (SGX_SUCCESS, mb_data buf, state);
  sgxsd_enclave_server_terminate _ _ := SRet _ SGX_SUCCESS;
  sgxsd_enclave_create_ratelimit_fingerprint _ _ buf _ fingerprint _ := SRet _ (SGX_SUCCESS, mb_data buf, fingerprint) |}.

#[local] Instance null_state : ServerState unit := {| state_ok _ := True |}.
#[local] Instance null_args : ServerArgs sgxsd_server_init_args_t sgxsd_server_handle_call_args_t sgxsd_server_terminate_args_t :=
  {| init_args_ok _ := True; call_args_ok _ := True; terminate_args_ok _ := True; fingerprint_args_ok _ _ _ _ := True |}.

Lemma null_server_ok : server_ok null_server.
Proof.
  split; cbn [null_server sgxsd_enclave_server_init sgxsd_enclave_server_handle_call sgxsd_enclave_server_terminate
    sgxsd_enclave_create_ratelimit_fingerprint prog_ok]; try easy.
  - intros args buf from p _ [_ Hb] Hn _ _. now split.
  - intros key args buf from fp n _ [_ Hb] Hn _. now split.
Qed.

Lemma null_host_args : host_args_ok.
Proof. now split. Qed.

Definition junk_header : sgxsd_msg_header_t :=
  {| mh_iv := []; mh_mac := zeros 16; mh_pending_request_id := {| pid_data := []; pid_iv := []; pid_mac := [] |} |}.
Definition junk_keypair : sgxsd_curve25519_key_pair_t := {| privkey := zeros 32; pubkey := zeros 32 |}.
Definition junk_frame : negotiate_frame :=
  {| nf_ephemeral_keypair := junk_keypair; nf_static_keypair := junk_keypair; nf_ephemeral_dh_key := []; nf_static_dh_key := [];
     nf_hkdf_salt := []; nf_hkdf_prk := []; nf_server_aes_gcm_key := [];
     nf_pending_request_id := {| pid_data := zeros 8; pid_iv := zeros 12; pid_mac := zeros 16 |} |}.
Definition junk_call_frame : call_frame := {| cf_pending_request := zero_pending_request; cf_client_key := []; cf_msg_from := zero_from |}.

Lemma junk_keypair_ok : kp_ok junk_keypair.
Proof. split; apply zeros_key. Qed.

Lemma junk_frame_ok : frame_ok junk_frame.
Proof.
  split; [apply junk_keypair_ok|]. split; [now apply (zeros_blob 8)|]. split; [now apply (zeros_blob 12)|now apply (zeros_blob 16)].
Qed.

Abbreviation demo_thread_prog := (thread_prog enclave_base enclave_limit demo_sdk null_server blank_stack SGX_SUCCESS junk_header junk_keypair
  junk_frame junk_call_frame).

(** One thread passes a structure outside the enclave, one a structure inside it, and a third
    one overwrites memory meanwhile. *)
Definition three_threads : list (@host_thread memory) := [Enter 2 4096; Enter 5 (2 ^ 40 + 8); Meddle [fun m a => m a + 1]].

Lemma three_threads_ok : Forall thread_ok three_threads.
Proof. repeat constructor; try easy; cbn; lia. Qed.

Lemma three_threads_run : exists ts st, reachable (map demo_thread_prog three_threads, loaded (fun _ => 0)) (ts, st) /\
  map (fun p => step p st) ts = [Finished SGX_SUCCESS; Finished SGX_ERROR_INVALID_PARAMETER; Finished SGX_SUCCESS].
Proof.
  eexists _, _. split; [apply (schedule_reachable [0; 2; 0]%nat); reflexivity|]. reflexivity.
Qed.


(** A host that counts the bytes of replies at address 0, and refuses those with tag 0. *)
Definition count_reply (header data size tag : Z) (m : memory) : sgx_status_t * memory :=
  if tag =? 0 then (SGX_ERROR_INVALID_PARAMETER, m) else (SGX_SUCCESS, fun a => if a =? 0 then m a + size else m a).

Definition replying_sdk : @sdk memory := {|
  sdk_read_rand := sdk_read_rand demo_sdk;
  sdk_is_outside_enclave := sdk_is_outside_enclave demo_sdk;
  sdk_create_report := sdk_create_report demo_sdk;
  sdk_calloc := sdk_calloc demo_sdk;
  malloc := malloc demo_sdk;
  sgx_ocalloc := sgx_ocalloc demo_sdk;
  sgx_ocfree := sgx_ocfree demo_sdk;
  sgx_ocall i pms m := match nth_error (ocall_table_cds_enclave count_reply) (Z.to_nat i) with
                       | Some f => f pms m
                       | None => (SGX_ERROR_INVALID_PARAMETER, m)
                       end |}.

Definition demo_header : sgxsd_msg_header_t :=
  {| mh_iv := zeros 12; mh_mac := zeros 16; mh_pending_request_id := {| pid_data := zeros 8; pid_iv := zeros 12; pid_mac := zeros 16 |} |}.

Lemma demo_header_ok : header_ok demo_header.
Proof.
  split; [now apply (zeros_blob 12)|]. split; [now apply (zeros_blob 16)|].
  split; [now apply (zeros_blob 8)|]. split; [now apply (zeros_blob 12)|now apply (zeros_blob 16)].
Qed.

Lemma reply_crosses_boundary_witness : exists res w2 w',
  sgxsd_ocall_reply replying_sdk SGX_SUCCESS (Some demo_header) (Some [1; 2; 3; 4]) 3 7 (fun _ => 0) = (SGX_SUCCESS, res, w2) /\
  peek_bytes w' (2 ^ 20 + 40) 64 = header_bytes demo_header /\ peek_bytes w' (2 ^ 20 + 104) 3 = [1; 2; 3].
Proof.
  eexists _, _, _. apply (reply_crosses_boundary replying_sdk count_reply SGX_SUCCESS demo_header [1; 2; 3; 4] 3 7 (fun _ => 0) (2 ^ 20) (fun _ => 0)).
  all: first [exact demo_header_ok | reflexivity | (unfold in_range; lia) | idtac].
  - intros f ms m [= <-]. reflexivity.
  - split; [cbn; lia|]. repeat constructor; lia.
  - split; [unfold in_range; cbn; lia|reflexivity].
Defined.

(** The SDK enters the enclave by the table. *)
Definition demo_table : list (Z -> prog (@enclave memory unit) lock_id sgx_status_t) :=
  g_ecall_table demo_sdk enclave_base enclave_limit null_server blank_stack SGX_SUCCESS junk_header junk_keypair junk_frame junk_call_frame.
Definition demo_ecall (i pms : Z) : prog (@enclave memory unit) lock_id sgx_status_t :=
  match nth_error demo_table (Z.to_nat i) with Some f => f pms | None => Ret SGX_ERROR_INVALID_PARAMETER end.

Lemma demo_outside p n : outside_enclave enclave_base enclave_limit p n = true -> sdk_is_outside_enclave demo_sdk p n <> 0.
Proof. cbn [sdk_is_outside_enclave demo_sdk]. now intros ->. Qed.

Lemma demo_malloc n (m : memory) : malloc demo_sdk n m = (true, m).
Proof. reflexivity. Qed.

Abbreviation demo_call w1 := (run (sgxsd_enclave_server_call (edge_platform demo_sdk SGX_SUCCESS) null_server blank_stack junk_header junk_call_frame
  (option_map get_call_args (object (fun _ => 0) 8192 104)) (option_map get_header (object (fun _ => 0) 12288 64)) (object (fun _ => 0) 16384 5) 5 7 1)
  (set_world w1 (loaded (fun _ => 0)))).

Lemma demo_call_run w1 : exists x y st2, demo_call w1 = Done (SGX_ERROR_INVALID_STATE, x, y) st2.
Proof.
  assert (H : match demo_call w1 with Done (res, _, _) _ => res | _ => SGX_SUCCESS end = SGX_ERROR_INVALID_STATE) by (vm_compute; reflexivity).
  destruct (demo_call w1) as [[[res x] y] st2| |]; [|discriminate..]. subst res. now exists x, y, st2.
Qed.

Lemma server_call_crosses_boundary_witness : exists st2,
  run (u_sgxsd_enclave_server_call demo_ecall 4096 true 8192 12288 16384 5 7 1) (loaded (fun _ => 0)) = Done (SGX_SUCCESS, Some SGX_ERROR_INVALID_STATE) st2.
Proof.
  destruct (demo_call_run (call_memory 4096 8192 12288 16384 5 7 1 (fun _ => 0))) as (x & y & st2 & E). eexists.
  refine (server_call_crosses_boundary enclave_base enclave_limit demo_sdk demo_outside demo_malloc null_server blank_stack SGX_SUCCESS
    junk_header junk_keypair junk_frame junk_call_frame demo_ecall 4096 8192 12288 16384 5 7 1 (loaded (fun _ => 0)) _ _ _ st2 _ _ _ _ _ _ _ _ _ _ E _).
  all: first [discriminate | reflexivity | (intros _; reflexivity) | (unfold apart; lia) | idtac].
  - intros i f pms H. unfold demo_ecall, demo_table. now rewrite H.
  - repeat constructor; unfold in_range; lia.
  - split; [unfold in_range; cbn; lia|reflexivity].
Defined.


End EdgeDemo.
