(* ===== verification/CdsDemo.v ===== *)
(** A concrete host with a directory, on which the theorems about the service are evaluated. *)
From S2P Require Import Prelude Codec SgxsdCrypto Threads Sgxsd SgxsdSafety SgxsdSystem SgxsdProtocol SgxsdEntry Edge EdgeSafety Service SgxsdFfi HashLookup HashTable CdsLookup Cds CdsSafety CdsSpec EdgeDemo.
From Stdlib Require Import ZArith List Lia Bool Relations.
Import Codec SgxsdCrypto Threads Sgxsd SgxsdSafety SgxsdSystem SgxsdProtocol SgxsdEntry Edge EdgeSafety Service HashLookup HashTable CdsLookup Cds CdsSafety CdsSpec EdgeDemo.

Module CdsDemo.

(** ** The host *)

(** Its memory holds [blocks] of bytes at their addresses. *)
Fixpoint memory_of (blocks : list (Z * list Z)) : memory :=
  match blocks with
  | [] => fun _ => 0
  | (p, l) :: blocks' => fun a => if (p <=? a) && (a <? p + Z.of_nat (length l)) then nth (Z.to_nat (a - p)) l 0 else memory_of blocks' a
  end.

Definition demo_rdrand (m : memory) : bool * Z * memory := (true, 5, m).
Definition demo_plat : @platform memory (list Z) := edge_platform demo_sdk SGX_SUCCESS.
Abbreviation outside := (sdk_is_outside_enclave demo_sdk).
Definition demo_cds := cds_server demo_rdrand enclave_base enclave_limit outside blank_stack.

Lemma demo_plat_ok : platform_ok demo_plat.
Proof. intros n w Hn. now apply (zeros_blob n). Qed.

Lemma demo_outside_one p n : in_range 64 p -> in_range 64 n -> outside p n = 1 -> outside_enclave enclave_base enclave_limit p n = true.
Proof. cbn [sdk_is_outside_enclave demo_sdk]. now destruct (outside_enclave _ _ p n). Qed.

Lemma demo_rdrand_reads w : same_memory w (snd (demo_rdrand w)).
Proof. apply same_refl. Qed.

(** ** A query for two phones *)

(** 15558275309 and 18002738255, as the enclave reads what is big-endian on the wire. *)
Definition two_phones : list Z := [17109272424353890304; 5763493928275804160].
Definition query_key : list Z := repeat 3 32.
Definition query_plain : list Z := zeros 32 ++ br_enc64be 15558275309 ++ br_enc64be 18002738255.
Definition query_sealed : list Z * list Z := Eval vm_compute in aes_gcm_seal query_key (zeros 12) [] query_plain.
Definition query_digest : list Z := Eval vm_compute in sha256 query_plain.

(** The second one is in the directory, which has four slots. *)
Definition demo_memory : memory :=
  memory_of [(4096, fst query_sealed); (8192, concat (map br_enc64be [18005550100; 0; 18005550102; 18002738255]));
             (12288, concat (map br_enc64be [1; 1; 0; 0; 2; 2; 7; 8]))].

Definition query_args : sgxsd_server_handle_call_args_t := {|
  query_phone_count := 2; ratelimit_state_size := 0; ratelimit_state_uuid := zeros 16; ratelimit_state_data := 0;
  query := {| em_iv := zeros 12; em_mac := snd query_sealed; em_size := 48; em_data := 4096 |};
  query_commitment := query_digest |}.
Definition stop_args : sgxsd_server_terminate_args_t := 
  {| Edge.in_phones := 8192; Edge.in_phone_count := 4; Edge.in_uuids := 12288 |}.

Lemma query_args_ok : cds_call_args_ok query_args.
Proof.
  split; [unfold in_range; cbn; lia|]. split; [now apply (zeros_blob 12)|]. split; [split; [reflexivity|apply words_ok_forallb; reflexivity]|].
  split; unfold in_range; cbn; lia.
Qed.

Lemma demo_directory : host_directory outside stop_args.
Proof. split; unfold in_range; cbn; repeat split; try lia; discriminate. Qed.

(** ** A node that serves *)

#[local] Opaque aes_gcm_seal aes_gcm_open sgxsd_aes_gcm_run sha256 HashKey.hash_block.

Definition empty_state : SgxsdServerState := {| requests := []; query_phones := {| capacity := 4; phones := [] |} |}.

Lemma empty_state_inv : state_inv empty_state.
Proof. split; cbn; [constructor|reflexivity|constructor|lia]. Qed.

Abbreviation cds_enclave := (@enclave memory SgxsdServerState).
Definition desc (s : SgxsdServerState) : @sgxsd_server_state_desc_t SgxsdServerState := {| valid := true; desc_lock := false; p_state := Some s |}.

(** Server 3 runs with state [s]. *)
Definition node (s : SgxsdServerState) : cds_enclave :=
  set_server_states (assign (g_server_states (loaded demo_memory)) 3 (desc s))
    (set_pending_requests (Some (repeat zero_pending_request 2)) (set_table_order 1 (set_node_initialized true (loaded demo_memory)))).

Lemma node_served s : state_inv s -> served (node s).
Proof.
  intros Hs. pose proof (loaded_inv (S := SgxsdServerState) demo_memory) as Hi. split; [reflexivity| |reflexivity]. destruct Hi. split; try assumption.
  - apply (Forall_assign (fun d => valid d = true -> state_ok (p_state d))); [exact (inv_states _ (loaded_inv demo_memory))|]. intros _. exact Hs.
  - apply Forall_repeat, zero_entry_ok.
  - intros _. split; [cbn; lia|]. eexists. split; reflexivity.
Qed.

(** One request is pending, with the key of zeros. *)
Definition pending_node : cds_enclave := set_world demo_memory (added (zeros 32) (node empty_state)).
Definition pending_pid : sgxsd_pending_request_id_t := sealed_id (node empty_state) (next_id (node empty_state)) (zeros 12).

Definition call_header : sgxsd_msg_header_t := fst (seal_message (zeros 32) (zeros 12) query_key pending_pid).
Definition call_data : list Z := snd (seal_message (zeros 32) (zeros 12) query_key pending_pid).

Lemma query_key_ok : bytes_ok query_key.
Proof. apply words_ok_forallb. reflexivity. Qed.

Lemma pending_node_served : served pending_node.
Proof. apply served_world, served_added; [apply node_served, empty_state_inv|apply zeros_key]. Qed.

Lemma pending_pid_ok : pid_ok pending_pid.
Proof. apply sealed_id_ok; [apply node_served, empty_state_inv|now apply (zeros_blob 12)]. Qed.

Lemma call_header_pid : mh_pending_request_id call_header = pending_pid.
Proof. unfold call_header, seal_message. now destruct (aes_gcm_seal _ _ _ _). Qed.

Lemma pending_node_found : find_request pending_node pending_pid = inl (numbered 1 (zeros 32)).
Proof. apply (added_found (node empty_state) (node empty_state)); trivial; [apply node_served, empty_state_inv|now apply (zeros_blob 12)]. Qed.

(** The client's call. *)
Lemma demo_calling : calling 3 empty_state query_args call_header call_data 32 (numbered 1 (zeros 32)) query_key pending_node.
Proof.
  destruct (seal_message_ok (zeros 32) (zeros 12) query_key pending_pid (zeros_blob 12 ltac:(lia)) query_key_ok pending_pid_ok) as (Hh & L & B).
  split.
  - apply pending_node_served.
  - lia.
  - split; reflexivity.
  - apply empty_state_inv.
  - apply query_args_ok.
  - exact Hh.
  - split; [unfold call_data; rewrite L; cbn; lia|exact B].
  - lia.
  - rewrite call_header_pid. exact pending_node_found.
  - apply (open_sealed_message (zeros 32) (zeros 12) query_key pending_pid 32 (zeros_blob 12 ltac:(lia)) eq_refl).
Qed.

Lemma demo_verdict : verdict outside demo_memory empty_state query_args query_key = inl two_phones.
Proof. vm_compute. reflexivity. Qed.

Lemma demo_decoded : decoded outside demo_memory query_args query_key = inl two_phones.
Proof. vm_compute. reflexivity. Qed.

Lemma demo_generate m : eval (generate demo_rdrand) m = Some (Some (HashKey.new 5 5), m).
Proof. reflexivity. Qed.

Lemma two_phones_found us : Forall2 (fun q x => q <> 0 -> x = lookup (directory_of demo_memory stop_args) q) two_phones us ->
  us = [uuid_default; (504403158265495552, 576460752303423488)].
Proof.
  intros H. inversion_clear H as [|? x ? l E H']. inversion_clear H' as [|? y ? l' E' H'']. inversion_clear H''.
  rewrite E, E' by discriminate. vm_compute. reflexivity.
Qed.

Lemma two_phones_uncrowded key order i : (length (sharing key order two_phones i) <= 12)%nat.
Proof. pose proof (sharing_le key order two_phones i). cbn [length two_phones] in *. lia. Qed.

Abbreviation call_run fr st := (run (sgxsd_enclave_server_call demo_plat demo_cds blank_stack junk_header fr (Some query_args) (Some call_header)
  (Some call_data) 32 9 3) st).
Abbreviation stop_run st := (run (sgxsd_enclave_server_stop demo_plat demo_cds blank_stack junk_header (Some stop_args) 3) st).

Lemma query_call_spec_witness : exists data,
  call_run junk_call_frame pending_node =
  Done (SGX_SUCCESS, Some data, wiped_frame) (after_call 3 1 (queued empty_state (sender (zeros 32) 9) two_phones) pending_node).
Proof.
  pose proof (query_call_spec demo_rdrand enclave_base enclave_limit outside blank_stack blank_stack_ok demo_outside_one demo_plat demo_plat_ok junk_header
    (zeros_blob 16 ltac:(lia)) junk_call_frame 3 empty_state query_args call_header call_data 32 9 _ query_key pending_node demo_calling) as E.
  cbv zeta in E. change (world pending_node) with demo_memory in E. rewrite demo_verdict in E. eexists. exact E.
Defined.

Lemma contact_discovery_witness : exists data st1,
  call_run junk_call_frame pending_node = Done (SGX_SUCCESS, Some data, wiped_frame) st1 /\
  stop_run st1 = let '(status, w') := send demo_plat junk_header (sender (zeros 32) 9) (zeros 16 ++ br_enc64be 7 ++ br_enc64be 8) demo_memory in
                 Done status (set_world w' (stopped 3 st1)).
Proof.
  destruct (contact_discovery demo_rdrand enclave_base enclave_limit outside blank_stack blank_stack_ok demo_outside_one ltac:(discriminate) demo_rdrand_reads
    demo_plat demo_plat_ok junk_header (zeros_blob 16 ltac:(lia)) junk_call_frame 3 empty_state query_args call_header call_data 32 9 _ query_key
    pending_node two_phones stop_args (HashKey.new 5 5) demo_memory demo_calling (conj eq_refl eq_refl) demo_verdict demo_directory
    ltac:(cbn; lia) (demo_generate _) (two_phones_uncrowded _ _)) as (st1 & us & E & Hus & E').
  eexists _, st1. split; [exact E|]. rewrite (two_phones_found us Hus) in E'. exact E'.
Defined.

(** Two requests wait in the batch, for one phone each. *)
Definition full_state : SgxsdServerState := queued (queued empty_state (sender (zeros 32) 9) [17109272424353890304]) (sender (zeros 32) 8) [5763493928275804160].

Lemma full_state_inv : state_inv full_state.
Proof.
  apply queued_inv; [apply queued_inv; [apply empty_state_inv|apply hkdf_T_shape|..]|apply hkdf_T_shape|..].
  all: first [cbn; lia | repeat constructor; unfold in_range; lia].
Qed.

Lemma demo_closing : closing outside 3 full_state stop_args (node full_state).
Proof. split; [reflexivity|lia|split; reflexivity|apply full_state_inv|apply demo_directory]. Qed.



(** ** The fingerprint *)

Lemma fingerprint_spec_witness : exists data,
  eval (Sgxsd.sgxsd_enclave_create_ratelimit_fingerprint demo_cds (zeros 32) (Some query_args) {| mb_data := Some query_key; mb_size := 32 |} zero_from
    (Some (zeros 4)) 3) demo_memory
  = Some (SGX_SUCCESS, data, Some (splice (zeros 4) 0 (map (phone_tag (zeros 32)) two_phones)), demo_memory).
Proof.
  pose proof (fingerprint_spec demo_rdrand enclave_base enclave_limit outside blank_stack blank_stack_ok demo_outside_one (zeros 32) query_args
    {| mb_data := Some query_key; mb_size := 32 |} zero_from (zeros 4) 3 demo_memory query_key query_args_ok eq_refl query_key_ok ltac:(vm_compute; split; discriminate)) as E.
  rewrite demo_decoded in E. eexists. exact E.
Defined.

(** ** The whole enclave *)

Abbreviation cds_thread_prog := (thread_prog enclave_base enclave_limit demo_sdk demo_cds blank_stack SGX_SUCCESS junk_header junk_keypair
  junk_frame junk_call_frame).

Lemma three_cds_threads_ok : Forall cds_thread_ok three_threads.
Proof. repeat constructor; try easy; cbn; lia. Qed.

Lemma three_cds_threads_run : exists ts st, reachable (map cds_thread_prog three_threads, loaded (fun _ => 0)) (ts, st) /\
  map (fun p => step p st) ts = [Finished SGX_SUCCESS; Finished SGX_ERROR_INVALID_PARAMETER; Finished SGX_SUCCESS].
Proof.
  eexists _, _. split; [apply (schedule_reachable [0; 2; 0]%nat); reflexivity|]. reflexivity.
Qed.

Lemma service_withstands_host_witness : exists ts st, reachable (map cds_thread_prog three_threads, loaded (fun _ => 0)) (ts, st) /\
  enclave_inv st /\ Forall (fun p => step p st <> Wrong) ts.
Proof.
  destruct three_cds_threads_run as (ts & st & Hr & _). exists ts, st. split; [exact Hr|].
  destruct (service_withstands_host demo_rdrand enclave_base enclave_limit ltac:(discriminate) demo_sdk demo_sdk_ok blank_stack blank_stack_ok
    SGX_SUCCESS junk_header (zeros_blob 16 ltac:(lia)) junk_keypair junk_keypair_ok junk_frame junk_frame_ok junk_call_frame zero_entry_ok
    three_threads (fun _ => 0) ts st three_cds_threads_ok Hr) as (Hi & Hw & _). now split.
Defined.

Lemma batch_well_formed_witness : exists res data s',
  eval (sgxsd_enclave_server_handle_call demo_cds (Some query_args) {| mb_data := Some query_key; mb_size := 32 |} (sender (zeros 32) 9)
    (Some empty_state)) demo_memory = Some (res, data, Some s', demo_memory).
Proof.
  assert (Hb : batch demo_rdrand enclave_base enclave_limit outside blank_stack empty_state).
  { apply BatchInit with (args := Some {| max_query_phones := 4; max_ratelimit_states := 0 |}) (w := demo_memory) (w' := demo_memory);
      [unfold init_args_ok; cbn; unfold in_range; lia|reflexivity]. }
  apply (batch_well_formed demo_rdrand enclave_base enclave_limit outside blank_stack blank_stack_ok demo_outside_one empty_state Hb).
  - exact query_args_ok.
  - split; [cbn; lia|]. split; [cbn; lia|exact query_key_ok].
  - reflexivity.
Defined.

Lemma untrusted_slice_confined_witness :
  eval (UntrustedSlice.read_bytes enclave_base enclave_limit (UntrustedSlice.offset (UntrustedSlice.NonEmpty 8192 32) 24) 8) demo_memory
  = Some (Ok (br_enc64be 18002738255), demo_memory).
Proof.
  destruct (UntrustedSlice.untrusted_slice_confined enclave_base enclave_limit outside demo_outside_one 8192 32 [24] 8 [] demo_memory
    (UntrustedSlice.NonEmpty 8192 32)) as (_ & _ & E & _); try (unfold in_range; lia).
  - repeat constructor. lia.
  - reflexivity.
  - assert (Hb : peek_bytes demo_memory 8216 8 = br_enc64be 18002738255) by (vm_compute; reflexivity). rewrite <- Hb. exact E.
Defined.

(** ** What goes wrong *)

(** An enclave from address 64 on, and a directory at NULL. *)
Definition low_cds := cds_server demo_rdrand 64 enclave_limit (fun p n => if outside_enclave 64 enclave_limit p n then 1 else 0) blank_stack.
Definition null_args : sgxsd_server_terminate_args_t := {| Edge.in_phones := 0; Edge.in_phone_count := 5; Edge.in_uuids := 0 |}.


(** Thirteen phones that the key drawn by [demo_rdrand] sends to one slot, and a directory that has them all. *)
Definition crowd : list Z := [18; 26; 29; 39; 57; 64; 70; 78; 92; 102; 103; 105; 117].
Definition crowd_memory : memory :=
  memory_of [(8192, concat (map br_enc64le crowd)); (12288, concat (map (fun p => uuid_bytes (p, p)) crowd))].


(** Two servers stop and one starts while a client's query is served. *)
Definition race_calls : list (@ecall (list Z) sgxsd_server_init_args_t sgxsd_server_handle_call_args_t sgxsd_server_terminate_args_t) :=
  [ServerStop junk_header (Some stop_args) 3; ServerStart junk_header (Some {| max_query_phones := 4; max_ratelimit_states := 0 |}) 3;
   ServerCall junk_header junk_call_frame (Some query_args) (Some call_header) (Some call_data) 32 9 3; ServerStop junk_header (Some stop_args) 3].

(** The first stop clears the descriptor and the lock in it; the server is started again; the
    call takes the lock and sees the server; the first stop releases that lock; the second stop
    takes it and clears the descriptor; the call goes on. *)
Definition race_schedule : list nat := repeat 0%nat 4 ++ repeat 1%nat 6 ++ repeat 2%nat 8 ++ [0%nat] ++ repeat 3%nat 4 ++ repeat 2%nat 5.

Lemma reach_and {A} (f : pool A * cds_enclave -> bool) sched c :
  match run_schedule sched c with Some c' => f c' | None => false end = true -> exists ts st, reachable c (ts, st) /\ f (ts, st) = true.
Proof.
  destruct (run_schedule sched c) as [[ts st]|] eqn:E; [|discriminate]. intros Hf. exists ts, st. split; [exact (schedule_reachable _ _ _ E)|exact Hf].
Qed.

(** C30. Stopping a server takes its state from under a call: on a node that serves, with a query
    that is in order, there is an interleaving of the call with two stops and a start of the
    server after which the service runs on a NULL state, where its behaviour is undefined. *)
Theorem stop_takes_state_from_call : calling 3 empty_state query_args call_header call_data 32 (numbered 1 (zeros 32)) query_key pending_node /\
  exists ts st, reachable (map (enter demo_plat demo_cds blank_stack) race_calls, pending_node) (ts, st) /\
    exists p, nth_error ts 2 = Some p /\ step p st = Wrong.
Proof.
  split; [exact demo_calling|].
  destruct (reach_and (fun c => match nth_error (fst c) 2 with
                                | Some p => match step p (snd c) with Wrong => true | _ => false end
                                | None => false end) race_schedule (map (enter demo_plat demo_cds blank_stack) race_calls, pending_node)) as (ts & st & Hr & Hf).
  - vm_compute. reflexivity.
  - exists ts, st. split; [exact Hr|]. cbn [fst snd] in Hf. destruct (nth_error ts 2) as [p|]; [|discriminate]. exists p. split; [reflexivity|].
    now destruct (step p st).
Qed.

End CdsDemo.
