(* ===== verification/DirectoryDemo.v ===== *)
(** A concrete directory, on which its theorems are evaluated, and what goes wrong with it. *)
From S2P Require Import Prelude Codec SgxsdCrypto Threads Sgxsd SgxsdSafety SgxsdSystem SgxsdProtocol SgxsdEntry Edge EdgeSafety Service HashLookup HashTable CdsLookup Cds CdsSafety CdsSpec JniIo DirectoryMap DirectoryTable DirectoryGrowth DirectorySpec DirectoryStream DirectoryService EdgeDemo CdsDemo.
From Stdlib Require Import ZArith List Lia Bool SpecFloat.
From stdpp Require Import gmap.
Import Codec Threads Sgxsd SgxsdEntry Edge EdgeSafety SgxsdSafety SgxsdSystem SgxsdProtocol SgxsdCrypto Service HashLookup CdsLookup Cds CdsSafety CdsSpec EdgeDemo CdsDemo JniIo InternalBuffers DirectoryTable DirectoryGrowth DirectorySpec DirectoryStream DirectoryService.
Open Scope Z_scope.

Module DirectoryDemo.

#[local] Opaque aes_gcm_seal aes_gcm_open sgxsd_aes_gcm_run sha256 HashKey.hash_block.

(** 0.85, as an [f32]. *)
Definition max_factor : spec_float := S754_finite false 14260634 (-24).

(** Four slots, and three numbers. *)
Definition empty_directory : DirectoryMap.DirectoryMap :=
  Eval vm_compute in match DirectoryMap.new 4 three_quarters max_factor with
                     | DirectoryMap.Returns (Ok d) => d
                     | _ => DirectoryMap.Build_DirectoryMap true false (Build_InternalBuffers S754_nan S754_nan 0 0 [] []) (Build_InternalBuffers S754_nan S754_nan 0 0 [] [])
                     end.
Definition demo_calls : list call := [Insert 18002738255 (7, 8); Insert 18005550100 (1, 1); Insert 18005550102 (2, 2); Commit].
Definition demo_dir : DirectoryMap.DirectoryMap := Eval vm_compute in snd (in_turn perform demo_calls empty_directory).
Definition demo_map : gmap Z uuid_t := <[18005550102 := (2, 2)]> (<[18005550100 := (1, 1)]> (<[18002738255 := (7, 8)]> ∅)).

Lemma demo_calls_ok : Forall call_ok demo_calls.
Proof. repeat apply Forall_cons_2; try apply Forall_nil_2; cbn; unfold HashTable.uuid_ok, in_range; cbn; lia. Qed.

Lemma empty_directory_new : DirectoryMap.new 4 three_quarters max_factor = DirectoryMap.Returns (Ok empty_directory).
Proof. vm_compute. reflexivity. Qed.

Lemma demo_implements : implements three_quarters 3 demo_dir {| d_changed := false; d_building := demo_map; d_serving := demo_map |}.
Proof.
  destruct (in_turn_promises three_quarters 3 1000 ltac:(lia) (fun c H => three_quarters_grow c ltac:(lia)) (fun c H => three_quarters_fit c ltac:(lia))
    demo_calls empty_directory _ (new_implements three_quarters 3 ltac:(lia) 4 max_factor empty_directory ltac:(lia) empty_directory_new) demo_calls_ok) as (d & E & H);
    [vm_compute; discriminate|].
  assert (Ed : d = demo_dir) by (apply (f_equal snd) in E; cbn [snd] in E; rewrite <- E; vm_compute; reflexivity). subst d. exact H.
Qed.

Lemma demo_serves : buffers_ok (DirectoryMap.serving demo_dir) demo_map.
Proof. exact (ba_ok _ _ _ _ (im_serving _ _ _ _ demo_implements)). Qed.

(** ** The theorems on it *)

Lemma directory_refines_witness : exists d,
  in_turn perform demo_calls empty_directory = (List.map DirectoryMap.Returns [Ok true; Ok true; Ok true; Ok true], d) /\ DirectoryMap.size d = 3.
Proof.
  pose proof (directory_refines three_quarters max_factor 3 (2 ^ 50) 4 empty_directory demo_calls ltac:(lia) three_quarters_grow three_quarters_fit
    empty_directory_new demo_calls_ok ltac:(vm_compute; discriminate)) as (d & E & _ & Hn).
  exists d. split; [exact E|exact Hn].
Defined.

(** Streams that are lists; the one that is read gives five bytes at most at a time. *)
Definition list_read (n : Z) (w : list Z) : option (Z * list Z) * list Z :=
  match w with
  | [] => (Some (-1, []), [])
  | _ => let r := Z.min (Z.min n 5) (Z.of_nat (length w)) in (Some (r, take (Z.to_nat r) w), drop (Z.to_nat r) w)
  end.
Definition list_write (l w : list Z) : bool * list Z := (true, w ++ l).

Lemma list_read_stream : input_stream list_read (fun w => w).
Proof.
  intros n [|x w] Hn; cbn [list_read]; [now left|right]. set (l := x :: w). assert (1 <= Z.of_nat (length l)) by (subst l; cbn; lia).
  split; [lia|]. split; [lia|]. split; [|reflexivity]. change firstn with (@take Z). now rewrite take_take, Nat.min_id.
Qed.

Lemma list_write_stream : output_stream list_write (fun w => w).
Proof. now split. Qed.


(** ** A client's query *)

Lemma demo_numbers : List.map swap_bytes [15558275309; 18002738255] = two_phones.
Proof. vm_compute. reflexivity. Qed.

Lemma demo_served : served_at demo_memory demo_dir 8192 12288.
Proof. split; vm_compute; reflexivity. Qed.

Lemma numbers_live : Forall (fun k => in_range 64 k /\ live k = true) [15558275309; 18002738255].
Proof. repeat apply Forall_cons_2; try apply Forall_nil_2; unfold in_range; (split; [lia|reflexivity]). Qed.


(** ** What goes wrong *)

Lemma update_not_published_witness : exists d,
  in_turn perform [Insert 18002738255 (9, 9); Commit] demo_dir = ([DirectoryMap.Returns (Ok false); DirectoryMap.Returns (Ok false)], d) /\
  buffers_ok (DirectoryMap.serving d) demo_map /\ buffers_ok (DirectoryMap.building d) (<[18002738255 := (9, 9)]> demo_map).
Proof.
  destruct (update_not_published three_quarters 3 (2 ^ 50) demo_dir _ 18002738255 (7, 8) (9, 9) ltac:(lia) three_quarters_grow three_quarters_fit demo_implements
    eq_refl ltac:(unfold in_range; split; [lia|reflexivity]) ltac:(split; unfold in_range; cbn; lia) ltac:(vm_compute; reflexivity) ltac:(vm_compute; discriminate))
    as (d & E & H).
  exists d. split; [exact E|]. split; [exact (ba_ok _ _ _ _ (im_serving _ _ _ _ H))|exact (ba_ok _ _ _ _ (im_building _ _ _ _ H))].
Defined.

(** The directory that a call of [new] makes, if it does. *)
Definition made (o : DirectoryMap.outcome DirectoryMap.DirectoryMap) : option DirectoryMap.DirectoryMap :=
  match o with DirectoryMap.Returns (Ok d) => Some d | _ => None end.


(** Load factors of zero and of NaN pass the checks of [new]; with zero the first table to grow
    asks for [usize::MAX] slots. *)
Lemma zero_load_factor_panics : exists d, made (DirectoryMap.new 4 Float.zero max_factor) = Some d /\
  fst (in_turn perform [Insert 1 (1, 1); Insert 2 (2, 2); Insert 3 (3, 3)] d) =
  [DirectoryMap.Returns (Ok true); DirectoryMap.Returns (Ok true); DirectoryMap.Panics].
Proof. eexists. split; [vm_compute; reflexivity|]. vm_compute. reflexivity. Qed.

Lemma nan_load_factor_accepted : is_Some (made (DirectoryMap.new 4 S754_nan S754_nan)).
Proof. vm_compute. eexists. reflexivity. Qed.

(** A stream that says five elements in one slot is read without an error, and the directory that
    is committed says that it has five elements, with none in its slot. *)
Theorem malformed_read_accepted : exists d w d', 
  DirectoryMap.read_from list_read 100 empty_directory (br_enc32be 1 ++ br_enc32be 5 ++ br_enc32be 7 ++ zeros 24)
  = Some (DirectoryMap.Returns (Ok tt), d, w) /\
  DirectoryMap.commit d = (DirectoryMap.Returns (Ok true), d') /\ DirectoryMap.size d' = 5 /\ e164s_buffer (DirectoryMap.serving d') = [FREE_E164].
Proof. eexists _, _, _. split; [vm_compute; reflexivity|]. split; [vm_compute; reflexivity|]. now split. Qed.

(** A stream that ends early leaves its counts with slots that it did not fill. *)
Lemma failed_read_counts : exists d w,
  DirectoryMap.read_from list_read 100 demo_dir (br_enc32be 4 ++ br_enc32be 3 ++ br_enc32be 3) = Some (DirectoryMap.Returns (Err (IoError UnexpectedEof)), d, w) /\
  element_count (DirectoryMap.building d) = 3 /\ e164s_buffer (DirectoryMap.building d) = replicate 4 FREE_E164.
Proof. eexists _, _. split; [vm_compute; reflexivity|]. now split. Qed.

End DirectoryDemo.
