(* ===== verification/ClientDemo.v ===== *)
(** A concrete client of the demonstration's enclave and directory. *)
From S2P Require Import Prelude Codec Curve25519 SgxsdCrypto Threads Sgxsd SgxsdSafety SgxsdSystem SgxsdProtocol SgxsdEntry Edge EdgeSafety EdgeHost Service HashLookup HashTable CdsLookup Cds CdsSafety CdsSpec Client ClientSpec JniEnclave DirectoryMap DirectoryTable DirectoryGrowth DirectorySpec DirectoryStream DirectoryService ClientService SgxsdDemo EdgeDemo CdsDemo DirectoryDemo.
From Stdlib Require Import ZArith List Lia Bool.
From stdpp Require Import gmap.
Import Codec Threads Sgxsd SgxsdDemo SgxsdEntry Edge EdgeSafety SgxsdSafety SgxsdSystem SgxsdProtocol SgxsdCrypto Service HashLookup CdsLookup Cds CdsSafety CdsSpec ClientSpec DirectorySpec DirectoryService ClientService EdgeDemo CdsDemo DirectoryDemo.
Open Scope Z_scope.

Module ClientDemo.

(** The crates, by the standards that they implement; the random bytes are zeros. *)
#[local] Instance demo_crates : Client.Crates (list Z) unit := {|
  Client.fill n r := (repeat 0 n, r);
  Client.static_secret r := (repeat 1 32, r);
  Client.public_key s := Curve25519.curve25519_donna s BASEPOINT;
  Client.diffie_hellman s p := Curve25519.curve25519_donna s p;
  Client.seal_in_place_separate_tag key iv aad p := Some (aes_gcm_seal key iv aad p);
  Client.open_in_place key iv aad buf :=
    let n := (length buf - 16)%nat in
    match aes_gcm_open key iv aad (take n buf) (drop n buf) with Some p => Some (p ++ drop n buf) | None => None end;
  Client.digest := sha256;
  Client.hkdf_extract := Rfc5869.extract hmac_sha256;
  Client.hkdf_expand prk _ _ := Some (hkdf_T prk 1 ++ hkdf_T prk 2) |}.

#[local] Opaque aes_gcm_seal aes_gcm_open sgxsd_aes_gcm_run sha256 hmac_sha256 hkdf_T HashKey.hash_block Curve25519.curve25519_donna.

#[local] Instance demo_crates_laws : CratesLaws (list Z) unit.
Proof.
  refine {| secret_bytes := fun s : list Z => s |}; try reflexivity.
  - intros n r. split; [apply repeat_length|]. apply Forall_forall. intros y Hy. apply list_elem_of_In, repeat_spec in Hy. subst y. unfold in_range. lia.
  - intros key iv aad c t _ _ Lt _. cbn [Client.open_in_place demo_crates]. rewrite length_app, Lt, Nat.add_sub, take_app_length, drop_app_length.
    destruct (aes_gcm_open key iv aad c t) as [p|]; [now exists t|reflexivity].
Defined.

(** An enclave whose keypair is the one it draws for the request, and a client with the same secret,
    so that the two agree without a computation on the curve. *)
Definition drawn : list Z := hkdf_T (hmac_sha256 (zeros 32) (zeros 32)) 2.
Definition client_secret : list Z := Curve25519.clamp drawn.
Definition client_node : cds_enclave := set_dh_keypair (keypair_of drawn) (node empty_state).
Definition drawn_node : cds_enclave := set_read_rand_state (hkdf_T (hmac_sha256 (zeros 32) (zeros 32)) 1) (set_world demo_memory client_node).

Lemma drawn_key : key_ok drawn.
Proof. apply hkdf_T_shape. Qed.

Lemma served_dh (st : cds_enclave) kp : served st -> kp_ok kp -> served (set_dh_keypair kp st).
Proof. intros [Hq Hi Hr] Hk. split; [now destruct st|now apply set_dh_ok|now destruct st]. Qed.

Lemma client_node_served : served client_node.
Proof.
  apply served_dh; [exact (node_served empty_state empty_state_inv)|]. split; [exact (clamp_key _ drawn_key)|exact (keypair_ok _ drawn_key)].
Qed.

Lemma demo_draw : draw demo_plat client_node = (SGX_SUCCESS, drawn, drawn_node).
Proof. reflexivity. Qed.

Lemma demo_agreeing : agreeing client_secret client_node drawn.
Proof. split; [reflexivity|reflexivity|]. exact (clamp_key _ drawn_key). Qed.

Lemma client_node_idle : idle 3 (desc empty_state) client_node.
Proof. split; reflexivity. Qed.

(** ** The memory of the host with a query in it *)

Definition query_memory (data : list Z) : memory :=
  memory_of [(4096, data); (8192, concat (List.map br_enc64be [18005550100; 0; 18005550102; 18002738255]));
             (12288, concat (List.map br_enc64be [1; 1; 0; 0; 2; 2; 7; 8]))].

Lemma query_memory_other data a : length data = 48%nat -> 4144 <= a -> query_memory data a = demo_memory a.
Proof.
  intros L Ha. unfold query_memory, demo_memory. cbn [memory_of]. rewrite L, (proj2 (Z.ltb_ge a (4096 + Z.of_nat 48))) by lia.
  change (length (fst query_sealed)) with 48%nat. rewrite (proj2 (Z.ltb_ge a (4096 + Z.of_nat 48))) by lia. now rewrite !andb_false_r.
Qed.

Lemma query_memory_bytes data p n : length data = 48%nat -> 4144 <= p -> peek_bytes (query_memory data) p n = peek_bytes demo_memory p n.
Proof.
  intros L Hp. unfold peek_bytes. apply List.map_ext_in. intros a Ha. unfold addresses in Ha. apply List.in_map_iff in Ha as (i & <- & _).
  cbn [peek host_memory]. now rewrite query_memory_other by lia.
Qed.

Lemma query_memory_data data : bytes_ok data -> length data = 48%nat -> peek_bytes (query_memory data) 4096 48 = data.
Proof.
  intros B L. set (rest := memory_of [(8192, concat (List.map br_enc64be [18005550100; 0; 18005550102; 18002738255]));
    (12288, concat (List.map br_enc64be [1; 1; 0; 0; 2; 2; 7; 8]))]).
  change (query_memory data) with (poke rest 4096 data). apply (EdgeHost.peek_same (W := memory)); [exact B|now rewrite L].
Qed.

Lemma query_memory_at data : bytes_ok data -> length data = 48%nat -> query_at outside (query_memory data) 4096 data.
Proof. intros B L. split; rewrite ?L; try reflexivity; [unfold in_range; lia|lia|now apply query_memory_data]. Qed.

Lemma query_memory_served data : length data = 48%nat -> served_at (query_memory data) demo_dir 8192 12288.
Proof. intros L. destruct demo_served as [H1 H2]. split; rewrite query_memory_bytes by (exact L || lia); assumption. Qed.

(** ** The client's query *)


(** A response that no key has sealed, as far as the client knows. *)
Definition forged : Client.DiscoveryResponse :=
  {| Client.resp_requestId := []; Client.resp_data := repeat 7 32; Client.resp_iv := zeros 12; Client.resp_mac := zeros 16 |}.

Lemma reply_authentic_witness : blob 32 (zeros 32) /\
  match Client.decode_discovery_response (zeros 32) forged with
  | Ok us => exists p, aes_gcm_seal (zeros 32) (Client.resp_iv forged) [] p = (Client.resp_data forged, Client.resp_mac forged) /\
      us = Client.uuid_chunks (length p) p /\ concat us = take (16 * length us) p /\ (length p < 16 * S (length us))%nat /\
      Forall (fun u => length u = 16%nat) us
  | Err e => e = Client.DecryptionError /\ forall p, aes_gcm_seal (zeros 32) (Client.resp_iv forged) [] p <> (Client.resp_data forged, Client.resp_mac forged)
  end.
Proof.
  split; [apply zeros_blob; lia|]. apply reply_authentic; [apply zeros_blob; lia|apply (zeros_blob 12); lia|reflexivity|]. change (32 <= 2 ^ 36 - 32). lia.
Defined.

End ClientDemo.
