(* ===== verification/ServiceDemo.v ===== *)
(** Concrete services: an enclave that serves a batch, a Redis that keeps its promises, and the theorems
    about the Java service at inputs where their hypotheses hold. *)
From S2P Require Import Prelude SgxsdCrypto Client JniEnclave Service Java Users Auth HostRanges RequestQueue RequestQueueSpec RequestBatch RequestBatchSpec Intake DirectoryTable DirectorySpec DirectoryManager DirectoryUsers.
From Stdlib Require Import String Ascii ZArith List Lia Bool Permutation.
From stdpp Require Import gmap strings.
Import Service Java Users RequestQueue.
Open Scope Z_scope.
#[local] Opaque SgxsdCrypto.hmac_sha256.

Module ServiceDemo.

(** * Redis *)

Record store : Type := { store_members : gset string; store_keys : gmap string string; store_channel : list DirectoryManager.PubSubMessage }.
Definition with_members (ms : gset string) (w : store) : store := {| store_members := ms; store_keys := store_keys w; store_channel := store_channel w |}.
Definition with_keys (k : gmap string string) (w : store) : store := {| store_members := store_members w; store_keys := k; store_channel := store_channel w |}.

#[export] Instance store_jedis : DirectoryManager.Jedis store := {
  zadd m w := (if decide (m ∈ store_members w) then 0 else 1, with_members ({[m]} ∪ store_members w) w);
  zrem m w := (if decide (m ∈ store_members w) then 1 else 0, with_members (store_members w ∖ {[m]}) w);
  zscore m w := if decide (m ∈ store_members w) then Some 0 else None;
  zcard w := Z.of_nat (size (store_members w));
  zrangeByLex lower upper w := List.filter (fun m => DirectoryUsers.above lower m && DirectoryUsers.below upper m) (elements (store_members w));
  zscan cursor w := (elements (store_members w), "0"%string);
  jedis_get k w := store_keys w !! k;
  jedis_set k v w := with_keys (<[k := v]> (store_keys w)) w;
  jedis_del k w := with_keys (delete k (store_keys w)) w;
  jedis_publish m w := {| store_members := store_members w; store_keys := store_keys w; store_channel := store_channel w ++ [m] |} }.

#[export] Instance store_laws : DirectoryUsers.JedisLaws store.
Proof.
  refine {| DirectoryUsers.members := store_members; DirectoryUsers.keys := store_keys; DirectoryUsers.channel := store_channel |}.
  - intros m w. now eexists.
  - intros m w. now eexists.
  - intros m w. cbn. destruct (decide (m ∈ store_members w)); split; [easy|now eexists|now intros []|easy].
  - intros lower upper w m. cbn. rewrite list_elem_of_In, filter_In, <- list_elem_of_In, elem_of_elements, andb_true_iff. reflexivity.
  - intros w. exists 1%nat, (elements (store_members w)). split; [reflexivity|]. intros m. apply elem_of_elements.
  - reflexivity.
  - now intros k v w.
  - now intros k w.
  - now intros m w.
Defined.
(** ** Users *)

Definition alice : UUID := (0, 1).
Definition bob : UUID := (0, 2).
Definition phone : string := "+15550100".
Definition empty_store (k : gmap string string) : store := {| store_members := ∅; store_keys := k; store_channel := [] |}.
Definition empty_node (k : gmap string string) (d : option DirectorySpec.directory) : DirectoryManager.node store :=
  {| DirectoryManager.redis := empty_store k; DirectoryManager.currentDirectoryMap := d; DirectoryManager.built := false |}.
Definition built_keys : gmap string string := {[DirectoryManager.USER_SET_BUILT := "1"%string]}.
Definition new_node (k : gmap string string) : DirectoryManager.node store := empty_node k (Some DirectoryManager.new_directory).

Lemma phone_number : DirectoryUsers.number phone = Some 15550100.
Proof. reflexivity. Qed.

Lemma alice_ok : DirectoryUsers.user_ok (alice, phone).
Proof. split; [split; unfold in_range; cbn; lia|]. exists 15550100. now split. Qed.

Lemma bob_ok : DirectoryUsers.user_ok (bob, phone).
Proof. split; [split; unfold in_range; cbn; lia|]. exists 15550100. now split. Qed.

Lemma no_users : DirectoryUsers.users_ok ∅.
Proof. split; [now intros m []%elem_of_empty|now intros x y _ _ []%elem_of_empty]. Qed.

Lemma one_user x : DirectoryUsers.user_ok x -> DirectoryUsers.users_ok {[encodeUser x.1 x.2]}.
Proof.
  intros Hx. split; [intros m ->%elem_of_singleton; now exists x|]. intros y z Hy Hz Ey%elem_of_singleton Ez%elem_of_singleton _.
  apply (DirectoryUsers.enc_inj y x) in Ey; trivial. apply (DirectoryUsers.enc_inj z x) in Ez; trivial. congruence.
Qed.

Lemma new_node_users k : DirectoryUsers.has_users ∅ (new_node k).
Proof.
  exists DirectoryManager.new_directory. split; [reflexivity|]. intros n u. cbn. rewrite lookup_empty. split; [easy|]. now intros (a & _ & _ & []%elem_of_empty).
Qed.

Lemma alice_alone from to : DirectoryUsers.reconciled from to [(alice, phone)] ∅ = {[encodeUser alice phone]}.
Proof.
  unfold DirectoryUsers.reconciled. apply leibniz_equiv. intros m. rewrite elem_of_union, elem_of_filter, DirectoryUsers.enc_all, elem_of_singleton. split.
  - intros [(x & ->%list_elem_of_singleton & ->)|[_ []%elem_of_empty]]. reflexivity.
  - intros ->. left. exists (alice, phone). split; [now apply list_elem_of_singleton|reflexivity].
Qed.


(** A service that is sent its users in two chunks. *)
Definition two_chunks : list DirectoryUsers.chunk :=
  [{| DirectoryUsers.from_uuid := None; DirectoryUsers.to_uuid := Some bob; DirectoryUsers.chunk_users := [(alice, phone)] |};
   {| DirectoryUsers.from_uuid := Some bob; DirectoryUsers.to_uuid := None; DirectoryUsers.chunk_users := [] |}].

Lemma built_set_was_sent_witness : let '(accepted, s') := DirectoryUsers.serve_all elements two_chunks (new_node ∅) in
  accepted = two_chunks /\ is_Some (DirectoryUsers.keys (DirectoryManager.redis s') !! DirectoryManager.USER_SET_BUILT) /\ DirectoryUsers.sent accepted alice.
Proof.
  assert (Hb : Forall (fun c => DirectoryUsers.bounds_ok (DirectoryUsers.from_uuid c) (DirectoryUsers.to_uuid c)) two_chunks).
  { repeat constructor; unfold DirectoryUsers.bounds_ok, in_range; cbn; lia. }
  pose proof (DirectoryUsers.built_set_was_sent elements two_chunks (new_node ∅) eq_refl eq_refl Hb) as H.
  assert (E : (DirectoryUsers.serve_all elements two_chunks (new_node ∅)).1 = two_chunks) by (vm_compute; reflexivity).
  assert (K : is_Some (DirectoryUsers.keys (DirectoryManager.redis (DirectoryUsers.serve_all elements two_chunks (new_node ∅)).2) !! DirectoryManager.USER_SET_BUILT)) by (vm_compute; now eexists).
  destruct (DirectoryUsers.serve_all elements two_chunks (new_node ∅)) as [accepted s']. cbn [fst snd] in E, K. split; [exact E|]. split; [exact K|]. now apply H.
Defined.


Lemma late_removal_loses_user_witness : exists s' d', (DirectoryManager.addUser bob phone ;; DirectoryManager.removeUser alice phone)%java (new_node ∅) = (Returned tt, s') /\
  DirectoryManager.currentDirectoryMap s' = Some d' /\ DirectorySpec.d_building d' !! 15550100 = None.
Proof.
  destruct (DirectoryUsers.late_removal_loses_user alice bob phone 15550100 (new_node ∅) DirectoryManager.new_directory alice_ok bob_ok ltac:(discriminate) eq_refl eq_refl)
    as (s' & d' & E & _ & _ & H). exists s', d'. split; [exact E|exact H].
Defined.

Lemma number_zero_stops_nodes_witness : exists s', DirectoryManager.addUser alice "+0" (new_node built_keys) = (Thrown IllegalArgumentException, s') /\
  forall f, DirectoryManager.redis f = DirectoryManager.redis s' -> is_Some (DirectoryManager.currentDirectoryMap f) -> exists pages, forall fuel attempts, (pages <= fuel)%nat ->
    exists f', DirectoryManager.consume attempts fuel (DirectoryManager.ADDED_USER (encodeUser alice "+0")) f = Some (false, f') /\ DirectoryManager.currentDirectoryMap f' = None.
Proof.
  destruct (DirectoryUsers.number_zero_stops_nodes alice "+0" (new_node built_keys) DirectoryManager.new_directory) as (s' & E & _ & _ & H); [apply alice_ok|reflexivity|reflexivity|now intros []%elem_of_empty|now exists "1"%string|].
  exists s'. split; [exact E|exact H].
Defined.

Lemma unbuilt_set_stays_witness : exists s0, DirectoryManager.rebuildLocalDataFromRedis 1 (empty_node ∅ None) = Some (Returned tt, s0) /\
  DirectoryUsers.members (DirectoryManager.redis (DirectoryUsers.serve_all elements two_chunks s0).2) = ∅.
Proof. destruct (DirectoryUsers.unbuilt_set_stays elements (empty_node ∅ None) 1 two_chunks eq_refl (lookup_empty _)) as (s0 & E & M & _). exists s0. split; [exact E|exact M]. Defined.

(** * Requests *)

Definition local : string := "local".
Definition limiting_host : string := "limiter".
Definition demo_envelope : Client.DiscoveryRequestEnvelope := {| Client.env_requestId := [1]; Client.env_data := [2]; Client.env_iv := [3]; Client.env_mac := [4] |}.
Definition demo_request (n : Z) : DiscoveryRequest :=
  {| body := {| Client.addressCount := n; Client.commitment := []; Client.req_data := [n]; Client.req_iv := []; Client.req_mac := [];
                Client.envelopes := [(local, demo_envelope); (limiting_host, demo_envelope)] |}; context := "Default" |}.
Definition demo_pending (n : Z) (response : nat) : PendingRequest := {| request := demo_request n; response := response |}.
Definition demo_queue : PendingRequestQueue := put 0 (demo_pending 2 1) (put 0 (demo_pending 1 0) PendingRequestQueue_new).
Definition demo_set : PendingRequestQueueSet := {| queues := [("idle"%string, PendingRequestQueue_new); ("busy"%string, demo_queue)]; maxWait := MAX_WAIT |}.

Lemma demo_set_ok : RequestQueueSpec.set_ok demo_set.
Proof.
  split; [repeat constructor; cbn; intuition discriminate|]. constructor; [apply RequestQueueSpec.new_queue_ok|]. constructor; [|constructor].
  repeat (apply RequestQueueSpec.put_ok; [|cbn; lia|cbn; lia]). apply RequestQueueSpec.new_queue_ok.
Qed.

(** Both requests of the queue that has some fit into the batch. *)
Lemma get_takes_batch_witness : exists s', set_get (queues demo_set) 9000 9000 5 demo_set = Got "busy" [demo_pending 1 0; demo_pending 2 1] s' /\ RequestQueueSpec.set_ok s'.
Proof.
  pose proof (RequestQueueSpec.get_takes_batch demo_set (queues demo_set) 9000 9000 5 demo_set_ok (Permutation_refl _) ltac:(lia)) as H.
  assert (E : exists s', set_get (queues demo_set) 9000 9000 5 demo_set = Got "busy" [demo_pending 1 0; demo_pending 2 1] s') by (vm_compute; now eexists).
  destruct E as [s' E]. rewrite E in H. exists s'. split; [exact E|exact (proj1 H)].
Defined.

(** One request is taken and one is left. *)
Definition demo_history : RequestQueueSpec.history :=
  {| RequestQueueSpec.set := {| queues := [("busy"%string, {| queue := [demo_pending 2 1]; addressCount := 2; lastGet := 9000 |})]; maxWait := MAX_WAIT |};
     RequestQueueSpec.entered := [("busy"%string, demo_pending 1 0); ("busy"%string, demo_pending 2 1)]; RequestQueueSpec.handed := [("busy"%string, demo_pending 1 0)] |}.

Lemma demo_history_lives : RequestQueueSpec.lives demo_history.
Proof.
  pose proof (RequestQueueSpec.lives_new ["busy"%string] MAX_WAIT ltac:(repeat constructor; easy)) as H0. eapply RequestQueueSpec.lives_step in H0; [|apply (RequestQueueSpec.step_put _ 1 "busy" (demo_pending 1 0)); reflexivity].
  eapply RequestQueueSpec.lives_step in H0; [|apply (RequestQueueSpec.step_put _ 2 "busy" (demo_pending 2 1)); reflexivity].
  eapply RequestQueueSpec.lives_step in H0; [|eapply (RequestQueueSpec.step_get _ _ 9000 9000 2 "busy" [demo_pending 1 0]); [apply Permutation_refl|reflexivity]]. exact H0.
Qed.

Lemma requests_in_order_witness : RequestQueueSpec.for_enclave "busy" (RequestQueueSpec.entered demo_history) =
  RequestQueueSpec.for_enclave "busy" (RequestQueueSpec.handed demo_history) ++ RequestQueueSpec.content "busy" (RequestQueueSpec.set demo_history).
Proof. exact (RequestQueueSpec.requests_in_order demo_history "busy" demo_history_lives). Defined.

(** ** A batch *)

(** An enclave that takes queries for one number only, and sends the query back. *)
Definition demo_verdict (a : JniEnclave.NativeServerCallArgs) : option Z := if JniEnclave.n_query_phone_count a =? 1 then None else Some RequestBatch.SABD_ERROR_INVALID_REQUEST_SIZE.
Definition demo_reply (a : JniEnclave.NativeServerCallArgs) : RequestBatch.SgxsdMessage :=
  {| RequestBatch.msg_data := default [] (JniEnclave.n_query_data a); RequestBatch.msg_iv := []; RequestBatch.msg_mac := [] |}.
Definition demo_world : Type := list (nat * JniEnclave.NativeServerCallArgs).

#[export] Instance demo_natives : RequestBatch.Natives demo_world := {
  enclaveState w := Some 7;
  killEnclave w := w;
  nativeServerStart id handle n w := (None, []);
  nativeServerCall id handle args future w :=
    match demo_verdict args with
    | None => (None, [], w ++ [(future, args)])
    | Some code => (Some (SgxException "call" code), [(future, Thrown (SgxException "call" code))], w)
    end;
  nativeServerStop id handle d w := (None, List.map (fun c => (c.1, Returned (demo_reply c.2))) w, []);
  borrow w := (Returned 5, w) }.

#[export] Instance demo_serves_batch : RequestBatchSpec.Serves demo_world.
Proof.
  refine {| RequestBatchSpec.pending := fun w : demo_world => w; RequestBatchSpec.verdict := demo_verdict; RequestBatchSpec.reply := demo_reply |}.
  - intros id handle n w H. now exists [].
  - intros id handle args future w H. cbn. destruct (demo_verdict args) as [code|]; [exists w|exists (w ++ [(future, args)])]; (split; [exact H|]); [|now split]. split; [reflexivity|]. now exists "call"%string, "call"%string.
  - intros id handle d w H Hd. now exists [].
  - intros w. exists 5, w. now split.
Defined.

Definition demo_requests : list PendingRequest := [demo_pending 1 0; demo_pending 2 1; demo_pending 1 2].
Definition demo_env : RequestBatch.env := {| RequestBatch.world := [] : demo_world; RequestBatch.responses := ∅;
  RequestBatch.batch := {| RequestBatch.stateHandle := 0; RequestBatch.maxPhoneCount := 0; RequestBatch.batchFuture := None; RequestBatch.phoneCount := 0; RequestBatch.processed := true; RequestBatch.stages := [] |} |}.


(** * Limits *)

(** A token with the right suffix, and a decoder that decodes it. *)
Definition demo_decoder (suffix : string) : option (list Z) := if String.eqb suffix "00" then Some (firstn 10 (SgxsdCrypto.hmac_sha256 [] (Auth.getBytes "alice:1"))) else None.

Lemma demo_token_good : Auth.good_token demo_decoder [] "alice" 1000 "alice:1:00".
Proof. exists "1"%string, "00"%string, 1, 0%nat. repeat (split; [reflexivity || discriminate || (left; reflexivity)|]). reflexivity. Qed.

Lemma authenticates_witness : Auth.authenticate demo_decoder [] "alice" "alice:1:00" 1000 = Returned (Some "alice"%string).
Proof. destruct (Auth.authenticates demo_decoder [] "alice" "alice:1:00" 1000 ltac:(lia)) as [[E _]|[_ H]]; [exact E|destruct (H demo_token_good)]. Defined.

(** Two ranges, and a user whose hash is at the end of the first. *)
Definition demo_hash (_ : string) : string := hex 32 (2 ^ 127 - 1).
Definition demo_configs : list HostRanges.HostRangeConfig :=
  [{| HostRanges.config_addrs := ["b"%string]; HostRanges.config_start := "80000000000000000000000000000000"; HostRanges.config_end := "FFFFFFFFFFFFFFFFFFFFFFFFFFFFFFFF" |};
   {| HostRanges.config_addrs := ["a"%string]; HostRanges.config_start := "00000000000000000000000000000000"; HostRanges.config_end := "7fffffffffffffffffffffffffffffff" |}].
Definition demo_range (id addr start end_ : string) : HostRanges.HostRange := {| HostRanges.hostIdToAddrs := {[id := addr]}; HostRanges.start := start; HostRanges.end_ := end_ |}.
Definition demo_ranges : list HostRanges.HostRange :=
  [demo_range limiting_host "a" (hex 32 0) (hex 32 (2 ^ 127 - 1)); demo_range limiting_host "b" (hex 32 (2 ^ 127)) (hex 32 (2 ^ 128 - 1))].

Lemma lookup_finds_range_witness : exists r a b, HostRanges.lookup demo_hash (List.map (fun r => (HostRanges.end_ r, r)) demo_ranges) "alice" = Returned (HostRanges.hostIdToAddrs r) /\
  r ∈ demo_ranges /\ HostRanges.spans r a b /\ a <= 2 ^ 127 - 1 <= b.
Proof.
  destruct (HostRanges.lookup_finds_range (fun _ => limiting_host) (fun _ => true) demo_hash demo_configs demo_ranges (List.map (fun r => (HostRanges.end_ r, r)) demo_ranges) "alice" (2 ^ 127 - 1))
    as (r & a & b & E & Hin & Hs & Hb & _); [vm_compute; reflexivity|vm_compute; reflexivity| |reflexivity|lia|exists r, a, b; auto].
  constructor; [exists 0, (2 ^ 127 - 1)|constructor; [exists (2 ^ 127), (2 ^ 128 - 1)|constructor]]; (split; [reflexivity|]); (split; [reflexivity|lia]).
Defined.

(** A limiter with room, and a host that answers 503. *)
Definition demo_limiter : Intake.RateLimiter := {| Intake.limiter_bucketSize := 100; Intake.limiter_leakRatePerMillis := Intake.double 1 |}.
Definition demo_manager : Intake.RequestManager := {| Intake.pending := demo_set; Intake.pendingPhoneNumbers := 3 |}.

Lemma limiter_failure_unanswered_witness : exists stored',
  Intake.getRegisteredContacts demo_limiter ["busy"%string] local (Intake.double 0) 5 [limiting_host] [(limiting_host, Returned 503)] "busy" (demo_request 1) 9 None demo_manager = (Intake.Never, stored', demo_manager).
Proof.
  eexists. refine (Intake.limiter_failure_unanswered demo_limiter ["busy"%string] local (Intake.double 0) 5 [limiting_host] [(limiting_host, Returned 503)] "busy" (demo_request 1) 9 None demo_manager
    limiting_host demo_envelope demo_envelope _ (or_introl eq_refl) _ eq_refl (or_introl eq_refl) (or_intror (or_introl eq_refl)) _); [vm_compute; reflexivity|]. constructor; [cbn; lia|constructor].
Defined.

End ServiceDemo.
